(* ===== verification/_CoqProject ===== *)
-Q . S2P
Prelude.v
BinaryIO.v
Packets.v
CircularBuffer.v
Debugging.v
BleConnection.v
Advertising.v
StdContainers.v
Tracker.v
TrackerWf.v
TrackerSafety.v
Sending.v
Events.v
Protocol.v
Clock.v
Connections.v
Reports.v
Stored.v
Typed.v
Cleanup.v
Application.v
Callbacks.v
Dumps.v
Discovery.v
Flood.v
Nodes.v
Network.v
Kept.v
Interrupted.v
Sleeps.v
Pins.v
Alerts.v
NetworkAlerts.v
MainLoop.v
Steady.v
Connecting.v
Exit.v
Startup.v
MainSafety.v
Races.v
TypedMain.v
