(* ===== verification/Prelude.v ===== *)
(** Verification of the BLE packet repeater.

    * The program

    The repeater is firmware for a Raspberry Pi Pico W.  It advertises itself, scans
    for other repeaters and for phones, connects to them over Bluetooth Low
    Energy, takes the packets they write (messages and announcements), and passes
    every packet that is new on to all connections that do not have it yet.
    [main] (src/main.cpp) initialises the chip and then loops; BTstack, the timer
    and the pins call its callbacks; both work on one [BleConnectionTracker].

    * The files

    Each file models one part of the program or proves what it does; the
    definitions have the names of the source.

    - Prelude: undefined behaviour as an error, the state monad, total ([wp])
      and partial ([after], [keeps]) correctness, machine words, memory.
    - BinaryIO: src/Packet/BinaryReader.*, BinaryWriter.*.
    - Packets: the packet classes of src/Packet (Base, PacketBase, Announce, Message,
      PacketPassAlong, Peer) with their encoders and decoders.
    - CircularBuffer: src/CircularBuffer/CircularBuffer.h.
    - Debugging: src/CircularBuffer/Debugging.cpp and [print_named_data].
    - BleConnection: src/BLE/BleConnection.*.
    - Advertising: the advertisement sent and the recognition of others, main.cpp.
    - StdContainers: std::map with the addresses of its nodes, std::multimap.
    - Tracker: src/BLE/BleConnectionTracker.*, every operation.  TrackerWf has
      its invariant, TrackerSafety a lemma for each operation, Sending the functional
      behaviour of [sendPackets], Events any sequence of operations, Clock the
      time, Connections and Reports the coming and going of connections, the
      announcements and the raw packets, Cleanup the forgetting, Stored what
      the operations leave alone, and Typed the types of the data.
    - Protocol: src/Packet/ProtocolProcessor.*, from the bytes of one repeater to
      those of the next.
    - Application: the globals of main.cpp and the callbacks registered in [main];
      Callbacks and Discovery prove what they do, and Kept what they leave alone.
    - Dumps: [dump_advertisement_data], [dump_service] and [dump_characteristic] of
      main.cpp, into the log buffer.
    - Interrupted: [sendPackets] with the callbacks that run while it sleeps; Sleeps
      compares it with the one of Tracker.
    - Flood: flooding as an abstract protocol on a graph.  Nodes relates one repeater to
      its phases, Network is the program on several nodes that exchange values.
    - Pins: [handlePinActivity].  Alerts: the way of an alert to the next repeater;
      NetworkAlerts: its way through a network.
    - MainLoop: the loop of [main], a definition per statement, and
      [connect_to_first_neighbour].
    - Startup: [main] as a whole.  MainSafety: that it has no undefined behaviour;
      TypedMain: that it keeps the types of its data; Races: callbacks that come at the
      wrong moment.  Steady: what the statements of the loop leave alone; Connecting: the
      loop while a connection is set up; Exit: its end.

    * How the state is represented

    An operation is a function [M S A] from the state to a result and a state, or
    to the undefined behaviour it runs into ([ub]): an access out of bounds, a
    dangling or null pointer, an invalid iterator, a failed assertion, a
    signed overflow.  [BleConnectionTracker] is the record [Tracker].  Its maps are
    [nodes], which give each key an address and a value; a pointer is an address, and
    [deref] fails when no live node has it, so that aliasing and lifetime are as in
    the source.  Integers are in [Z], and conversions to a C++ type are written
    where the source has them ([u8], [u16], [u32], [u64], [s64], [wrap]).
    [App] adds the globals of main.cpp to the tracker, [Locals] are the variables of
    [main].

    Code that is not in the repository is a parameter: [Env] has the answers of
    BTstack and the Pico SDK to the calls made so far (which [calls] lists), the
    local address, the allocator, std::hash, the width of size_t and whether assertions
    are compiled out; [AdIterator] is BTstack's iterator over an advertisement,
    [LittleEndian] its reader of 16-bit words, [AttDb] the attribute handles that the
    build generates.  [AllocFresh], [AdIteratorSpec], [LittleEndianSpec] and
    [AttDbOk] state what the code relies on; [example_env], [example_iterator],
    [example_db] and [example_le] are concrete instances, with which the
    witnesses run.

    * What is shown

    - No undefined behaviour: of the whole program ([main_safe]), of any sequence of
      callbacks ([callbacks_safe]) and of tracker operations ([tracker_safe]), under
      conditions on the callers that are stated for each operation ([event_ok],
      [callback_ok]; assertions compiled out) and for the loop ([rssi_ok], [clean_ok],
      [connect_ok], and [calm] callbacks in the sleeps of [sendPackets]).  Where a condition can
      be violated by a peer or by the loop itself, a theorem shows what happens then.
    - Types: every number in the globals, the tracker and the variables of [main] fits its
      C++ type, and peers, messages, packets, neighbours and connected connections are
      stored under their own keys, for the tracker's operations ([tracker_typed]) and the
      whole program ([main_typed]).
    - Flooding: a new message is taken once, sent once to every available connection
      that needs it and to no other, and arrives unchanged at the next repeater
      ([message_flooded], [message_taken_once], [sendPackets_at_most_once],
      [message_reaches_next], [new_message_relayed], [broadcast_to_condition]).
      An alert of a pin is, while nothing else is queued, sent to every available
      connection and read unchanged by the next repeater ([alert_flooded]).
    - Networks: repeaters that write to each other refine the abstract protocol under any
      schedule, with no undefined behaviour on any node and a bound on the values that
      arrive ([network_floods]); a settled network has the message wherever it can be
      reached ([network_covered]); every run can be continued until the network
      has settled ([network_settles]).  An alert of one node reaches all others in the same
      way ([alert_reaches_all]).  They assume that the nodes opened the
      connections they send over, that BTstack knows the connections it is asked to
      write to, and that the records of older packets lie at lower addresses, as otherwise
      [broadcast_suppressed] withholds the message.
    - Sleeps: [sendPackets] survives any callbacks in its sleeps that bring no
      packet ([sends_interrupted_safe]), is what Tracker has when there are none
      ([sends_uninterrupted]), and goes on with an invalid iterator when a new message is
      written meanwhile ([message_invalidates_sending]).
    - Codecs: round trips and stability of packets; the operations of the circular buffer,
      called within their contracts ([op_ok]), refine a bounded queue; the log, when its text
      does not wrap around too closely ([drain_ok]), prints what it holds and ends; the dump of an advertisement is the
      text of its structures.
    - Connections: the conversation that discovers a service, the subscription, the
      announcements, the hand-over of raw packets, the choice of a neighbour, and that while
      a connection is set up no other is attempted ([connects_to_first]).
    - Time, clean-up and the main loop: how the clock follows announcements, what is
      forgotten, when the loop sleeps, the order of the start-up, and that the exit
      pin ends the loop ([exit_ends_loop]).
    - Errors of the program, each from a state in which it happens: the sender-peer
      flag that ends in a null pointer, records that dangle after a notification or
      a clean-up, a message that arrives in a sleep, alerts that are lost, neighbours
      that block others, a neighbour that connects while it is chosen
      ([neighbour_connects_first]), activity that does not keep the processor awake
      ([wakeup_lost]).

    * Bounds and fuel

    Loops over containers recurse on the list of their elements.  [write_loop] and
    [print_lines] have fuel, and the theorems give the amount that is enough
    (one more than the length of the text; the length of the contents).  [rssi_round]
    has the number of connections.  [sleep_loop] and [spin] have the wake-ups as
    an argument: running out of them ([NoFuel]) means that the processor sleeps on,
    which [safe] allows and [sleeps_until_activity] states exactly.
    [sendPackets_during] takes a list of callbacks for each of its sleeps, and recurses
    on that list and on the keys it comes to.  Runs of the abstract protocol are
    bounded by [flood_measure], which each step makes smaller, and the values that arrive
    by [flood_bound].

    * Not modelled

    - Interrupts at every instruction: callbacks run between any two statements of the
      loop, while it sleeps, also between the packets of [sendPackets], while the LED is on,
      before [__wfi()], between the choice of a neighbour and its use, and while the program
      waits for the exit pin.  Inside the other operations of the tracker they do not run,
      as a call that is interrupted would need a step for each access to a map.  The
      sleep after a failed [gap_connect] ends its statement, so that what runs in it
      runs in the gap after it.
    - The log inside the application: LOG_DEBUG, [print_named_data], the dumps and the
      texts that [main] prints have no part in its state; the log buffer, its
      printing and the dumps are verified by themselves.
    - The mutex of the circular buffer, which only the build for the host has.
    - The functions that only return a field: they are the projections of the records.
    - src/btstack_config.h and src/include/int_types.h: macros and type names.
    - src/test: the tests and their mocks.

    * What could follow

    Every operation of the program that changes state is modelled.  What the theorems do not
    reach yet: the log as part of the application's state, networks whose connections
    notify, and networks with several messages at a time. *)

From Stdlib Require Export ZArith Lia Ascii String.
From stdpp Require Export base list list_numbers numbers gmap option sorting.

#[global] Open Scope Z_scope.

(** * Undefined behaviour and fallible computations *)

(** The ways an execution of the program can leave defined C++. *)
Inductive ub : Type :=
| OutOfBounds        (* an array access outside the object *)
| NullDeref          (* a call through a null pointer *)
| DanglingPtr        (* a pointer to an object whose lifetime has ended *)
| InvalidIterator    (* dereferencing an end or invalidated iterator *)
| AssertFailed       (* assert() in a build without NDEBUG *)
| DivByZero          (* an integer remainder by zero *)
| SignedOverflow     (* signed arithmetic that leaves its type *)
| NoFuel.            (* a loop that has not finished within its fuel *)

#[global] Instance ub_eq_dec : EqDecision ub.
Proof. solve_decision. Defined.

Inductive result (A : Type) : Type :=
| Ok (a : A)
| Err (e : ub).
Arguments Ok {A} a.
Arguments Err {A} e.

#[global] Instance result_eq_dec {A} `{EqDecision A} : EqDecision (result A).
Proof. solve_decision. Defined.

#[global] Instance result_ret : MRet result := @Ok.
#[global] Instance result_bind : MBind result := λ A B f r,
  match r with Ok a => f a | Err e => Err e end.

Definition is_ok {A} (r : result A) : Prop := ∃ a, r = Ok a.

(** State passing with errors: [M S A] is a C++ operation on an object of
    type [S] that returns an [A]. *)
Definition M (S A : Type) : Type := S → result (A * S).

#[global] Instance M_ret {S} : MRet (M S) := λ A a s, Ok (a, s).
#[global] Instance M_bind {S} : MBind (M S) := λ A B f m s,
  match m s with Ok (a, s') => f a s' | Err e => Err e end.

Definition get {S} : M S S := λ s, Ok (s, s).
Definition put {S} (s : S) : M S unit := λ _, Ok (tt, s).
Definition modify {S} (f : S → S) : M S unit := λ s, Ok (tt, f s).
Definition gets {S A} (f : S → A) : M S A := λ s, Ok (f s, s).
Definition fail {S A} (e : ub) : M S A := λ _, Err e.

(** A fallible pure computation inside the state monad. *)
Definition lift_result {S A} (r : result A) : M S A := λ s,
  match r with Ok a => Ok (a, s) | Err e => Err e end.

(** [for (x : xs) f(x)] *)
Fixpoint for_each {S A} (xs : list A) (f : A → M S unit) : M S unit :=
  match xs with
  | [] => mret tt
  | x :: xs' => f x;; for_each xs' f
  end.

(** [filter] with a predicate that reads the state, as the lambdas given to
    [std::erase_if] do; the elements for which it holds are kept. *)
Fixpoint filterM {S A} (p : A → M S bool) (xs : list A) : M S (list A) :=
  match xs with
  | [] => mret []
  | x :: xs' => b ← p x; ys ← filterM p xs'; mret (if b : bool then x :: ys else ys)
  end.

(** Total correctness: the computation has no undefined behaviour and its
    result satisfies [Q]. *)
Definition wp {S A} (m : M S A) (Q : A → S → Prop) (s : S) : Prop :=
  match m s with Ok (a, s') => Q a s' | Err _ => False end.

Lemma M_bind_ok {S A B} (m : M S A) (f : A → M S B) s a s' :
  m s = Ok (a, s') → (m ≫= f) s = f a s'.
Proof. unfold mbind, M_bind. by intros ->. Qed.

Lemma M_bind_assoc {S A B C} (m : M S A) (f : A → M S B) (g : B → M S C) s :
  ((m ≫= f) ≫= g) s = (m ≫= λ a, f a ≫= g) s.
Proof. unfold mbind, M_bind. by destruct (m s) as [[]|]. Qed.

Lemma M_bind_ext {S A B} (m : M S A) (f g : A → M S B) s :
  (∀ a s', f a s' = g a s') → (m ≫= f) s = (m ≫= g) s.
Proof. unfold mbind, M_bind. intros Hf. by destruct (m s) as [[]|]. Qed.

Lemma lift_result_ok {S A B} (a : A) (f : A → M S B) s : (lift_result (Ok a) ≫= f) s = f a s.
Proof. done. Qed.

Lemma wp_ret {S A} (a : A) (Q : A → S → Prop) s : Q a s → wp (mret a) Q s.
Proof. done. Qed.

Lemma wp_bind {S A B} (m : M S A) (f : A → M S B) Q s :
  wp m (λ a s', wp (f a) Q s') s → wp (m ≫= f) Q s.
Proof. unfold wp, mbind, M_bind. destruct (m s) as [[]|]; done. Qed.

Lemma wp_get {S} (Q : S → S → Prop) s : Q s s → wp get Q s.
Proof. done. Qed.

Lemma wp_gets {S A} (f : S → A) (Q : A → S → Prop) s : Q (f s) s → wp (gets f) Q s.
Proof. done. Qed.

Lemma wp_put {S} (s' : S) (Q : unit → S → Prop) s : Q tt s' → wp (put s') Q s.
Proof. done. Qed.

Lemma wp_modify {S} (f : S → S) (Q : unit → S → Prop) s : Q tt (f s) → wp (modify f) Q s.
Proof. done. Qed.

Lemma wp_mono {S A} (m : M S A) (Q Q' : A → S → Prop) s :
  wp m Q s → (∀ a s', Q a s' → Q' a s') → wp m Q' s.
Proof. unfold wp. destruct (m s) as [[]|]; eauto. Qed.

Lemma wp_for_each {S A} (xs : list A) (f : A → M S unit) (I : S → Prop) s :
  I s → (∀ x s', x ∈ xs → I s' → wp (f x) (λ _, I) s') →
  wp (for_each xs f) (λ _, I) s.
Proof.
  revert s. induction xs as [|x xs IH]; intros s Hs Hf; [done|].
  apply wp_bind. eapply wp_mono; [apply Hf; [set_solver|done]|].
  intros u s' Hs'. apply IH; [done|]. intros; apply Hf; [set_solver|done].
Qed.

Lemma wp_ok {S A} (m : M S A) (Q : A → S → Prop) s :
  wp m Q s ↔ ∃ a s', m s = Ok (a, s') ∧ Q a s'.
Proof.
  unfold wp. destruct (m s) as [[a s']|].
  - split; [eauto|]. by intros (? & ? & [= -> ->] & ?).
  - split; [done|]. by intros (? & ? & ? & _).
Qed.

(** Partial correctness: if the computation ends without undefined behaviour, its
    result satisfies [Q]. *)
Definition after {S A} (m : M S A) (Q : A → S → Prop) (s : S) : Prop :=
  match m s with Ok (a, s') => Q a s' | Err _ => True end.

#[global] Instance after_dec {S A} (m : M S A) (Q : A → S → Prop) s :
  (∀ a s', Decision (Q a s')) → Decision (after m Q s).
Proof. intros HQ. unfold after. destruct (m s) as [[a s']|]; apply _. Defined.

Lemma after_bind {S A B} (m : M S A) (f : A → M S B) Q s :
  after m (λ a s', after (f a) Q s') s → after (m ≫= f) Q s.
Proof. unfold after, mbind, M_bind. by destruct (m s) as [[]|]. Qed.

Lemma after_mono {S A} (m : M S A) (Q Q' : A → S → Prop) s :
  after m Q s → (∀ a s', Q a s' → Q' a s') → after m Q' s.
Proof. unfold after. destruct (m s) as [[]|]; eauto. Qed.

Lemma wp_after {S A} (m : M S A) (Q Q' : A → S → Prop) s :
  wp m Q s → after m Q' s → wp m (λ a s', Q a s' ∧ Q' a s') s.
Proof. unfold wp, after. destruct (m s) as [[]|]; done. Qed.

(** The computation keeps [I], whatever its result. *)
Definition keeps {S A} (I : S → Prop) (m : M S A) : Prop := ∀ s, I s → after m (λ _, I) s.

Section keeps.
Context {S : Type} (I : S → Prop).

Lemma keeps_ret {A} (a : A) : keeps I (mret a).
Proof. by intros s. Qed.
Lemma keeps_get : keeps I get.
Proof. by intros s. Qed.
Lemma keeps_gets {A} (f : S → A) : keeps I (gets f).
Proof. by intros s. Qed.
Lemma keeps_fail {A} e : keeps I (fail (A := A) e).
Proof. by intros s. Qed.
Lemma keeps_lift {A} (r : result A) : keeps I (lift_result r).
Proof. intros s Hs. by destruct r. Qed.
Lemma keeps_modify f : (∀ s, I s → I (f s)) → keeps I (modify f).
Proof. intros Hf s Hs. by apply Hf. Qed.
Lemma keeps_bind {A B} (m : M S A) (f : A → M S B) :
  keeps I m → (∀ a, keeps I (f a)) → keeps I (m ≫= f).
Proof.
  intros Hm Hf s Hs. apply after_bind. eapply after_mono; [by apply Hm|]. intros a s' Hs'. by apply Hf.
Qed.
Lemma keeps_for_each {A} (xs : list A) (f : A → M S unit) :
  (∀ x, keeps I (f x)) → keeps I (for_each xs f).
Proof.
  intros Hf. induction xs as [|x xs IH]; [apply keeps_ret|]. apply keeps_bind; [apply Hf|by intros].
Qed.
End keeps.

(** One step of symbolic execution of a monadic body. *)
Ltac wp_step :=
  lazymatch goal with
  | |- wp (mbind _ _) _ _ => apply wp_bind
  | |- wp (mret _) _ _ => apply wp_ret
  | |- wp get _ _ => apply wp_get
  | |- wp (gets _) _ _ => apply wp_gets
  | |- wp (put _) _ _ => apply wp_put
  | |- wp (modify _) _ _ => apply wp_modify
  end; cbn beta.
Ltac wp_steps := repeat wp_step.

(** * Machine words and bytes *)

(** Conversion of an integer to a [w]-bit unsigned type. *)
Definition wrap (w z : Z) : Z := z mod 2 ^ w.
Definition u8 (z : Z) : Z := wrap 8 z.
Definition u16 (z : Z) : Z := wrap 16 z.
Definition u32 (z : Z) : Z := wrap 32 z.
Definition u64 (z : Z) : Z := wrap 64 z.

(** Conversion of an integer to the signed 64-bit type. *)
Definition s64 (z : Z) : Z := (z + 2 ^ 63) mod 2 ^ 64 - 2 ^ 63.

Definition in_width (w z : Z) : Prop := 0 ≤ z < 2 ^ w.
Definition bytes_ok (l : list Z) : Prop := Forall (in_width 8) l.

#[global] Instance in_width_dec w z : Decision (in_width w z).
Proof. unfold in_width. apply _. Defined.
#[global] Instance bytes_ok_dec l : Decision (bytes_ok l).
Proof. unfold bytes_ok. apply _. Defined.

(** A proposition equivalent to a decidable one is decidable. *)
Definition dec_by {P Q : Prop} (H : Q ↔ P) `{!Decision P} : Decision Q :=
  match decide P with
  | left p => left (proj2 H p)
  | right n => right (λ q, n (proj1 H q))
  end.

(** Closes a decidable goal on concrete data by evaluation. *)
Ltac decide_concrete := apply (bool_decide_unpack _); vm_compute; exact I.

Lemma wrap_small w z : in_width w z → wrap w z = z.
Proof. apply Z.mod_small. Qed.

Lemma wrap_in_width w z : 0 ≤ w → in_width w (wrap w z).
Proof. intros. apply Z.mod_pos_bound. lia. Qed.

Lemma wrap_idem w z : 0 ≤ w → wrap w (wrap w z) = wrap w z.
Proof. intros. apply wrap_small, wrap_in_width; lia. Qed.

Lemma in_width_weaken w w' z : w ≤ w' → in_width w z → in_width w' z.
Proof.
  unfold in_width. intros Hw [H0 H1]. split; [lia|].
  destruct (Z.le_gt_cases 0 w).
  - pose proof (Z.pow_le_mono_r 2 w w'). lia.
  - rewrite Z.pow_neg_r in H1 by lia. lia.
Qed.

Lemma in_width_nat (w : Z) (n : nat) : Z.of_nat n < 2 ^ w → in_width w (Z.of_nat n).
Proof. unfold in_width. lia. Qed.

(** Turns [in_width] and [uN] facts with literal widths into linear ones. *)
Ltac width_lia :=
  unfold in_width, u8, u16, u32, u64, wrap in *;
  repeat match goal with
  | H : context [2 ^ ?k] |- _ =>
      let v := eval vm_compute in (2 ^ k) in
      match v with Zpos _ => change (2 ^ k) with v in H end
  | |- context [2 ^ ?k] =>
      let v := eval vm_compute in (2 ^ k) in
      match v with Zpos _ => change (2 ^ k) with v end
  end; lia.

(** Linear arithmetic with division and modulo by constants. *)
Ltac div_lia := Z.div_mod_to_equations; lia.

Create HintDb words.
Create Rewrite HintDb words.
#[export] Hint Resolve wrap_in_width in_width_nat : words.
#[export] Hint Extern 2 (0 ≤ _) => lia : words.
#[export] Hint Rewrite wrap_small using (solve [auto with words | lia]) : words.

(** ** Big-endian reference encoding *)

Fixpoint be_bytes (n : nat) (v : Z) : list Z :=
  match n with
  | O => []
  | S n' => wrap 8 (Z.shiftr v (8 * Z.of_nat n')) :: be_bytes n' v
  end.

Fixpoint be_value (l : list Z) : Z :=
  match l with
  | [] => 0
  | b :: l' => Z.shiftl b (8 * Z.of_nat (length l')) + be_value l'
  end.

Lemma length_be_bytes n v : length (be_bytes n v) = n.
Proof. induction n; simpl; auto. Qed.

Lemma be_bytes_ok n v : bytes_ok (be_bytes n v).
Proof. induction n; simpl; constructor; auto with words. Qed.

Lemma be_value_bound l :
  bytes_ok l → in_width (8 * Z.of_nat (length l)) (be_value l).
Proof.
  induction 1 as [|b l Hb Hl IH]; [done|].
  unfold in_width in *. cbn [be_value length].
  rewrite Z.shiftl_mul_pow2 by lia.
  replace (8 * Z.of_nat (S (length l))) with (8 + 8 * Z.of_nat (length l)) by lia.
  rewrite Z.pow_add_r by lia. nia.
Qed.

Lemma be_value_bytes n v : be_value (be_bytes n v) = wrap (8 * Z.of_nat n) v.
Proof.
  induction n as [|n IH]; [cbn; unfold wrap; by rewrite Z.mod_1_r|].
  cbn [be_bytes be_value]. rewrite length_be_bytes, IH. unfold wrap.
  rewrite Z.shiftl_mul_pow2, Z.shiftr_div_pow2 by lia.
  replace (8 * Z.of_nat (S n)) with (8 * Z.of_nat n + 8) by lia.
  rewrite Z.pow_add_r, (Z.rem_mul_r v) by lia. lia.
Qed.

(** The bitwise or of a word shifted left and a smaller word is their sum. *)
Lemma lor_low_high a b k :
  0 ≤ k → 0 ≤ b < 2 ^ k → Z.lor (Z.shiftl a k) b = Z.shiftl a k + b.
Proof.
  intros Hk Hb. assert (Z.land (Z.shiftl a k) b = 0) as Hl.
  { apply Z.bits_inj'. intros i Hi. rewrite Z.land_spec, Z.bits_0.
    destruct (Z.lt_ge_cases i k); [by rewrite Z.shiftl_spec_low by lia|].
    rewrite <- (Z.mod_small b (2 ^ k)) by lia.
    by rewrite Z.mod_pow2_bits_high, andb_false_r by lia. }
  rewrite <- Z.lxor_lor by done. by rewrite Z.add_nocarry_lxor.
Qed.

(** * Lists *)

(** The last [n] elements of a list. *)
Definition lastn {A} (n : nat) (l : list A) : list A := drop (length l - n) l.

Lemma length_lastn {A} n (l : list A) : length (lastn n l) = Nat.min n (length l).
Proof. unfold lastn. rewrite length_drop. lia. Qed.

Lemma lastn_all {A} n (l : list A) : (length l ≤ n)%nat → lastn n l = l.
Proof. intros. unfold lastn. replace (length l - n)%nat with 0%nat by lia. done. Qed.

Lemma lastn_app_r {A} n (p x : list A) : (n ≤ length x)%nat → lastn n (p ++ x) = lastn n x.
Proof.
  intros Hn. unfold lastn. rewrite length_app, drop_app_ge by lia. f_equal. lia.
Qed.

Lemma lastn_app_lastn {A} n (l k : list A) : lastn n (lastn n l ++ k) = lastn n (l ++ k).
Proof.
  destruct (decide (length l ≤ n)%nat); [by rewrite (lastn_all n l)|].
  assert (l = take (length l - n) l ++ lastn n l) as Hl by (symmetry; apply take_drop).
  rewrite Hl at 2. rewrite <- app_assoc, (lastn_app_r n (take _ l)); [done|].
  rewrite length_app, length_lastn. lia.
Qed.

Lemma filter_true {A} (P : A → Prop) `{!∀ x, Decision (P x)} (l : list A) :
  (∀ x, x ∈ l → P x) → filter P l = l.
Proof.
  induction l as [|x l IH]; intros Hl; [done|]. rewrite filter_cons_True by (apply Hl; set_solver).
  f_equal. apply IH. intros; apply Hl. set_solver.
Qed.

(** Slice [l[off .. off+len)] of an array, out of range an error. *)
Definition slice (l : list Z) (off len : Z) : result (list Z) :=
  if decide (0 ≤ off ∧ 0 ≤ len ∧ off + len ≤ Z.of_nat (length l))
  then Ok (take (Z.to_nat len) (drop (Z.to_nat off) l)) else Err OutOfBounds.

(** Reading and writing one array element, out of range an error. *)
Definition load {A} (l : list A) (i : Z) : result A :=
  if decide (0 ≤ i) then
    match l !! Z.to_nat i with Some x => Ok x | None => Err OutOfBounds end
  else Err OutOfBounds.

Definition store {A} (l : list A) (i : Z) (x : A) : result (list A) :=
  if decide (0 ≤ i < Z.of_nat (length l)) then Ok (<[Z.to_nat i := x]> l)
  else Err OutOfBounds.

(** [memcpy(dst + off, src, src.length)]. *)
Definition store_bytes (dst : list Z) (off : Z) (src : list Z) : result (list Z) :=
  if decide (0 ≤ off ∧ off + Z.of_nat (length src) ≤ Z.of_nat (length dst))
  then Ok (take (Z.to_nat off) dst ++ src ++ drop (Z.to_nat off + length src) dst)
  else Err OutOfBounds.

Lemma slice_app (pre l post : list Z) :
  slice (pre ++ l ++ post) (Z.of_nat (length pre)) (Z.of_nat (length l)) = Ok l.
Proof.
  unfold slice. rewrite decide_True by (rewrite !length_app; lia).
  by rewrite !Nat2Z.id, drop_app_length, take_app_length.
Qed.

Lemma slice_ok l off len :
  0 ≤ off → 0 ≤ len → off + len ≤ Z.of_nat (length l) →
  slice l off len = Ok (take (Z.to_nat len) (drop (Z.to_nat off) l)).
Proof. intros. unfold slice. by rewrite decide_True by lia. Qed.

Lemma load_app (pre post : list Z) x :
  load (pre ++ x :: post) (Z.of_nat (length pre)) = Ok x.
Proof.
  unfold load. rewrite decide_True by lia.
  by rewrite Nat2Z.id, list_lookup_middle.
Qed.

Lemma load_in_range {A} (l : list A) i :
  0 ≤ i < Z.of_nat (length l) → ∃ x, load l i = Ok x ∧ l !! Z.to_nat i = Some x.
Proof.
  intros Hi. unfold load. rewrite decide_True by lia.
  destruct (lookup_lt_is_Some_2 l (Z.to_nat i)) as [x Hx]; [lia|].
  rewrite Hx. eauto.
Qed.

Lemma store_in_range {A} (l : list A) i x :
  0 ≤ i < Z.of_nat (length l) → store l i x = Ok (<[Z.to_nat i := x]> l).
Proof. intros. unfold store. by rewrite decide_True. Qed.

(** * String literals as bytes *)

Definition char (a : ascii) : Z := Z.of_nat (nat_of_ascii a).
Arguments char a%_char.

Fixpoint str (s : string) : list Z :=
  match s with
  | EmptyString => []
  | String a s' => char a :: str s'
  end.
Arguments str s%_string.
