(* ===== verification/BinaryIO.v ===== *)
(** Component: [BinaryReader] and [BinaryWriter] (src/Packet/BinaryReader.h,
    BinaryReader.cpp, BinaryWriter.h, BinaryWriter.cpp).

    A reader is a cursor into a byte buffer owned by the caller; the model
    keeps the caller's memory [buffer] apart from the claimed [buffer_size], so
    that an access outside the memory is an error of the model.  A writer
    appends to the caller's [std::vector<uint8_t>], which is its state. *)

From S2P Require Import Prelude.

(** * BinaryReader *)

Record BinaryReader := mkReader {
  offset : Z;          (* const uint16_t *)
  buffer : list Z;     (* the memory behind const uint8_t *buffer *)
  buffer_size : Z;     (* const uint16_t *)
  pos : Z;             (* uint16_t *)
}.

Definition BinaryReader_new (off : Z) (buf : list Z) (size : Z) : BinaryReader :=
  mkReader off buf size off.

(** [pos += n] on a [uint16_t]. *)
Definition advance (n : Z) (r : BinaryReader) : BinaryReader :=
  mkReader (offset r) (buffer r) (buffer_size r) (u16 (pos r + n)).

Definition buffer_at (i : Z) : M BinaryReader Z :=
  r ← get; lift_result (load (buffer r) (pos r + i)).

Definition read_uint8 : M BinaryReader Z :=
  r ← get;
  if decide (pos r + 1 > buffer_size r) then mret 0 else
  ret ← buffer_at 0;
  modify (advance 1);;
  mret ret.

Definition read_uint16 : M BinaryReader Z :=
  r ← get;
  if decide (pos r + 2 > buffer_size r) then mret 0 else
  b0 ← buffer_at 0; b1 ← buffer_at 1;
  modify (advance 2);;
  mret (u16 (Z.lor (Z.shiftl b0 8) b1)).

Definition read_uint32 : M BinaryReader Z :=
  r ← get;
  if decide (pos r + 4 > buffer_size r) then mret 0 else
  b0 ← buffer_at 0; b1 ← buffer_at 1; b2 ← buffer_at 2; b3 ← buffer_at 3;
  modify (advance 4);;
  mret (u32 (Z.lor (Z.lor (Z.lor (Z.shiftl b0 24) (Z.shiftl b1 16)) (Z.shiftl b2 8)) b3)).

Definition read_uint64 : M BinaryReader Z :=
  r ← get;
  if decide (pos r + 8 > buffer_size r) then mret 0 else
  b0 ← buffer_at 0; b1 ← buffer_at 1; b2 ← buffer_at 2; b3 ← buffer_at 3;
  b4 ← buffer_at 4; b5 ← buffer_at 5; b6 ← buffer_at 6; b7 ← buffer_at 7;
  modify (advance 8);;
  mret (u64 (Z.lor (Z.lor (Z.lor (Z.lor (Z.lor (Z.lor (Z.lor
    (Z.shiftl b0 56) (Z.shiftl b1 48)) (Z.shiftl b2 40)) (Z.shiftl b3 32))
    (Z.shiftl b4 24)) (Z.shiftl b5 16)) (Z.shiftl b6 8)) b7)).

Definition read_remainder_len : M BinaryReader Z :=
  gets (λ r, u16 (buffer_size r - pos r)).

(** The returned pointer is dereferenced by its callers for exactly [len]
    bytes, so the model returns those bytes; [None] is [nullptr]. *)
Definition read_data (len : Z) : M BinaryReader (option (list Z)) :=
  r ← get;
  if decide (pos r + len > buffer_size r) then mret None else
  ret ← lift_result (slice (buffer r) (pos r) len);
  modify (advance len);;
  mret (Some ret).

Definition test_only_current_pos : M BinaryReader Z := gets pos.

(** ** Sequences of reads, well-formed readers *)

Inductive ReadOp := R8 | R16 | R32 | R64 | RRemainder | RData (len : Z).

Definition run_read (op : ReadOp) : M BinaryReader unit :=
  match op with
  | R8 => read_uint8;; mret tt
  | R16 => read_uint16;; mret tt
  | R32 => read_uint32;; mret tt
  | R64 => read_uint64;; mret tt
  | RRemainder => read_remainder_len;; mret tt
  | RData len => read_data len;; mret tt
  end.

Definition op_ok (op : ReadOp) : Prop :=
  match op with RData len => in_width 16 len | _ => True end.

(** The claimed size lies within the caller's memory, and the cursor never
    passes the larger of the claimed size and the starting offset. *)
Record reader_wf (r : BinaryReader) : Prop := {
  wf_mem : buffer_size r ≤ Z.of_nat (length (buffer r));
  wf_bytes : bytes_ok (buffer r);
  wf_size : in_width 16 (buffer_size r);
  wf_off : in_width 16 (offset r);
  wf_pos : offset r ≤ pos r ≤ Z.max (offset r) (buffer_size r);
}.

(** A read moves the cursor forward only and keeps everything else. *)
Definition reader_ext (r r' : BinaryReader) : Prop :=
  buffer r' = buffer r ∧ buffer_size r' = buffer_size r ∧
  offset r' = offset r ∧ pos r ≤ pos r'.

Definition read_post {A} (P : A → Prop) (r : BinaryReader) (a : A) (r' : BinaryReader) : Prop :=
  reader_wf r' ∧ reader_ext r r' ∧ P a.

(** A reader that has consumed [pre] and has [rest] in front of it. *)
Definition reader_at (off : Z) (pre rest : list Z) : BinaryReader :=
  mkReader off (pre ++ rest) (Z.of_nat (length (pre ++ rest))) (Z.of_nat (length pre)).

(** [m] consumes exactly the encoding [enc] and returns [v]. *)
Definition reads {A} (m : M BinaryReader A) (enc : list Z) (v : A) : Prop :=
  ∀ off pre rest, in_width 16 (Z.of_nat (length (pre ++ enc ++ rest))) →
    m (reader_at off pre (enc ++ rest)) = Ok (v, reader_at off (pre ++ enc) rest).

(** * BinaryWriter *)

(** The state of a writer is the vector it holds a reference to. *)
Definition Writer := M (list Z) unit.

Definition push_back (b : Z) : Writer := modify (λ v, v ++ [b]).

Definition write_uint8 (value : Z) : Writer := push_back value.

Definition write_uint16 (value : Z) : Writer :=
  push_back (u8 (Z.shiftr value 8));;
  push_back (Z.land (u8 value) 255).

(** The parameter of [write_uint32] is declared [uint16_t]: the argument is
    converted to 16 bits at the call, which is [u16 arg] here. *)
Definition write_uint32 (arg : Z) : Writer :=
  let value := u16 arg in
  push_back (Z.land (u8 (Z.shiftr value 24)) 255);;
  push_back (Z.land (u8 (Z.shiftr value 16)) 255);;
  push_back (Z.land (u8 (Z.shiftr value 8)) 255);;
  push_back (Z.land (u8 value) 255).

Definition write_uint64 (value : Z) : Writer :=
  push_back (u8 (Z.shiftr value 56));;
  push_back (Z.land (u8 (Z.shiftr value 48)) 255);;
  push_back (Z.land (u8 (Z.shiftr value 40)) 255);;
  push_back (Z.land (u8 (Z.shiftr value 32)) 255);;
  push_back (Z.land (u8 (Z.shiftr value 24)) 255);;
  push_back (Z.land (u8 (Z.shiftr value 16)) 255);;
  push_back (Z.land (u8 (Z.shiftr value 8)) 255);;
  push_back (Z.land (u8 value) 255).

(** [write_data(const uint8_t *data, uint16_t len)]: [data] is the memory
    behind the pointer. *)
Definition write_data_ptr (data : list Z) (len : Z) : Writer :=
  for_each (seqZ 0 len) (λ i, b ← lift_result (load data i); push_back b).

(** [write_data(const std::string &data, uint16_t len)]: [data[size()]] is the
    terminating NUL of the string, an index beyond it is out of range. *)
Definition write_data_str (data : list Z) (len : Z) : Writer :=
  for_each (seqZ 0 len) (λ i, b ← lift_result (load (data ++ [0]) i); push_back (u8 b)).

Definition hexify (nibble : Z) : Z :=
  if decide (nibble < 10) then u8 (nibble + char "0") else u8 (nibble + (char "a" - 10)).

Definition write_uint8_hex16 (value : Z) : Writer :=
  push_back (hexify (Z.land (Z.shiftr value 4) 15));;
  push_back (hexify (Z.land value 15)).

Definition write_uint16_hex16 (value : Z) : Writer :=
  write_uint8_hex16 (u8 (Z.shiftr value 8));;
  write_uint8_hex16 (u8 value).

Definition write_uint32_hex16 (value : Z) : Writer :=
  write_uint8_hex16 (u8 (Z.shiftr value 24));;
  write_uint8_hex16 (u8 (Z.shiftr value 16));;
  write_uint8_hex16 (u8 (Z.shiftr value 8));;
  write_uint8_hex16 (u8 value).

Definition write_uint48_hex16 (value : Z) : Writer :=
  write_uint8_hex16 (u8 (Z.shiftr value 40));;
  write_uint8_hex16 (u8 (Z.shiftr value 32));;
  write_uint8_hex16 (u8 (Z.shiftr value 24));;
  write_uint8_hex16 (u8 (Z.shiftr value 16));;
  write_uint8_hex16 (u8 (Z.shiftr value 8));;
  write_uint8_hex16 (u8 value).

Definition write_uint64_hex16 (value : Z) : Writer :=
  write_uint8_hex16 (u8 (Z.shiftr value 56));;
  write_uint8_hex16 (u8 (Z.shiftr value 48));;
  write_uint8_hex16 (u8 (Z.shiftr value 40));;
  write_uint8_hex16 (u8 (Z.shiftr value 32));;
  write_uint8_hex16 (u8 (Z.shiftr value 24));;
  write_uint8_hex16 (u8 (Z.shiftr value 16));;
  write_uint8_hex16 (u8 (Z.shiftr value 8));;
  write_uint8_hex16 (u8 value).

Definition writer_current_pos : M (list Z) Z := gets (λ v, u16 (Z.of_nat (length v))).

(** [m] appends exactly [enc]. *)
Definition writes (m : Writer) (enc : list Z) : Prop :=
  ∀ v, m v = Ok (tt, v ++ enc).

(** Reference decoding of lower-case hexadecimal. *)
Definition unhex_digit (c : Z) : option Z :=
  if decide (char "0" ≤ c ≤ char "9") then Some (c - char "0")
  else if decide (char "a" ≤ c ≤ char "f") then Some (c - char "a" + 10)
  else None.

Fixpoint unhex (acc : Z) (l : list Z) : option Z :=
  match l with
  | [] => Some acc
  | c :: l' => d ← unhex_digit c; unhex (16 * acc + d) l'
  end.

(** * Lemmas: reading *)

Lemma reader_ext_refl r : reader_ext r r.
Proof. unfold reader_ext. split_and!; auto with lia. Qed.

Lemma reader_ext_trans r1 r2 r3 :
  reader_ext r1 r2 → reader_ext r2 r3 → reader_ext r1 r3.
Proof. unfold reader_ext. intros (-> & -> & -> & ?) (-> & -> & -> & ?). split_and!; auto with lia. Qed.

Lemma advance_wf r n :
  reader_wf r → 0 ≤ n → pos r + n ≤ buffer_size r →
  reader_wf (advance n r) ∧ reader_ext r (advance n r) ∧ pos (advance n r) = pos r + n.
Proof.
  intros [] Hn Hle. unfold reader_ext, advance. cbn.
  assert (u16 (pos r + n) = pos r + n) as -> by (apply wrap_small; width_lia).
  split_and!; try done; try lia. constructor; cbn; auto; lia.
Qed.

Lemma wp_buffer_at r i (Q : Z → BinaryReader → Prop) :
  reader_wf r → 0 ≤ i → pos r + i < buffer_size r →
  (∀ b, in_width 8 b → buffer r !! Z.to_nat (pos r + i) = Some b → Q b r) →
  wp (buffer_at i) Q r.
Proof.
  intros [] Hi Hlt HQ. unfold buffer_at. wp_steps.
  destruct (load_in_range (buffer r) (pos r + i)) as (b & Hl & Hb); [width_lia|].
  unfold wp, lift_result. rewrite Hl. apply HQ; [|done].
  by eapply Forall_lookup_1 in wf_bytes0.
Qed.

(** Reads one multi-byte value: splits the size guard and loads the bytes. *)
Ltac wp_read :=
  wp_step; wp_step; case_decide;
  [wp_step | repeat (wp_step; apply wp_buffer_at; [done|lia|lia|]; intros ? ? ?);
             wp_step; wp_step; wp_step].

Lemma wp_read_uint8 r : reader_wf r → wp read_uint8 (read_post (in_width 8) r) r.
Proof.
  intros Hr. unfold read_uint8, read_post. wp_read.
  - split_and!; auto using reader_ext_refl. width_lia.
  - destruct (advance_wf r 1) as (? & ? & ?); auto; lia.
Qed.

Lemma wp_read_uint16 r : reader_wf r → wp read_uint16 (read_post (in_width 16) r) r.
Proof.
  intros Hr. unfold read_uint16, read_post. wp_read.
  - split_and!; auto using reader_ext_refl. width_lia.
  - destruct (advance_wf r 2) as (? & ? & ?); auto; try lia.
    split_and!; auto. apply wrap_in_width; lia.
Qed.

Lemma wp_read_uint32 r : reader_wf r → wp read_uint32 (read_post (in_width 32) r) r.
Proof.
  intros Hr. unfold read_uint32, read_post. wp_read.
  - split_and!; auto using reader_ext_refl. width_lia.
  - destruct (advance_wf r 4) as (? & ? & ?); auto; try lia.
    split_and!; auto. apply wrap_in_width; lia.
Qed.

Lemma wp_read_uint64 r : reader_wf r → wp read_uint64 (read_post (in_width 64) r) r.
Proof.
  intros Hr. unfold read_uint64, read_post. wp_read.
  - split_and!; auto using reader_ext_refl. width_lia.
  - destruct (advance_wf r 8) as (? & ? & ?); auto; try lia.
    split_and!; auto. apply wrap_in_width; lia.
Qed.

Lemma wp_read_data len r :
  reader_wf r → in_width 16 len →
  wp (read_data len) (read_post (λ o, ∀ l, o = Some l →
    Z.of_nat (length l) = len ∧ bytes_ok l) r) r.
Proof.
  intros Hr Hlen. unfold read_data, read_post. wp_step; wp_step; case_decide; wp_step.
  - split_and!; auto using reader_ext_refl. done.
  - destruct (advance_wf r len) as (? & ? & ?); auto; [width_lia..|].
    destruct Hr. unfold wp at 1, lift_result. rewrite slice_ok by width_lia.
    wp_steps. split_and!; auto. intros l [= <-].
    rewrite length_take, length_drop. split; [width_lia|].
    by apply Forall_take, Forall_drop.
Qed.

Lemma wp_run_read op r :
  reader_wf r → op_ok op → wp (run_read op) (read_post (λ _, True) r) r.
Proof.
  intros Hr Hop. assert (∀ A (m : M BinaryReader A) P,
    wp m (read_post P r) r → wp (m;; mret tt) (read_post (λ _, True) r) r) as Hm.
  { intros A m P Hw. wp_step. eapply wp_mono; [apply Hw|].
    intros a r' (? & ? & ?). by wp_step. }
  destruct op; cbn [run_read].
  - eapply Hm, wp_read_uint8, Hr.
  - eapply Hm, wp_read_uint16, Hr.
  - eapply Hm, wp_read_uint32, Hr.
  - eapply Hm, wp_read_uint64, Hr.
  - apply Hm with (P := λ _, True). unfold read_remainder_len. wp_step.
    split_and!; auto using reader_ext_refl.
  - eapply Hm, wp_read_data; done.
Qed.

Lemma buffer_at_app off pre mid post b :
  buffer_at (Z.of_nat (length mid)) (reader_at off pre (mid ++ b :: post))
  = Ok (b, reader_at off pre (mid ++ b :: post)).
Proof.
  unfold buffer_at, mbind, M_bind, get, lift_result, reader_at. cbn [buffer pos].
  rewrite <- Nat2Z.inj_add, <- length_app, app_assoc, load_app. done.
Qed.

Lemma advance_app off pre enc rest :
  in_width 16 (Z.of_nat (length (pre ++ enc ++ rest))) →
  advance (Z.of_nat (length enc)) (reader_at off pre (enc ++ rest))
  = reader_at off (pre ++ enc) rest.
Proof.
  intros Hw. unfold advance, reader_at. cbn [offset buffer buffer_size pos].
  rewrite app_assoc. f_equal. rewrite length_app, Nat2Z.inj_add.
  apply wrap_small. rewrite !length_app in Hw. width_lia.
Qed.

(** One step of the or-chain of the multi-byte reads. *)
Lemma lor_acc acc b k k' :
  in_width 8 b → 0 ≤ k → k' = k + 8 →
  Z.lor (Z.shiftl acc k') (Z.shiftl b k) = Z.shiftl (acc * 256 + b) k.
Proof.
  intros Hb Hk ->. rewrite lor_low_high; rewrite ?Z.shiftl_mul_pow2 by lia.
  - rewrite Z.pow_add_r by lia. lia.
  - lia.
  - unfold in_width in Hb. rewrite Z.pow_add_r by lia. nia.
Qed.

Lemma lor_acc_0 acc b :
  in_width 8 b → Z.lor (Z.shiftl acc 8) b = acc * 256 + b.
Proof. intros. by rewrite lor_low_high by width_lia; rewrite Z.shiftl_mul_pow2. Qed.

Lemma reads_ret {A} (v : A) : reads (mret v) [] v.
Proof. intros off pre rest _. by rewrite app_nil_r. Qed.

Lemma reads_bind {A B} (m : M BinaryReader A) (f : A → M BinaryReader B) e1 e2 v w :
  reads m e1 v → reads (f v) e2 w → reads (m ≫= f) (e1 ++ e2) w.
Proof.
  intros Hm Hf off pre rest Hw. unfold mbind, M_bind.
  rewrite <- !app_assoc in *. rewrite Hm by done.
  rewrite Hf by (by rewrite <- !app_assoc). by rewrite <- !app_assoc.
Qed.

Lemma reads_fmap {A B} (m : M BinaryReader A) (g : A → B) e v :
  reads m e v → reads (x ← m; mret (g x)) e (g v).
Proof.
  intros Hm. rewrite <- (app_nil_r e). eapply reads_bind; [done|apply reads_ret].
Qed.

(** Evaluates a multi-byte read on a reader whose front is a concrete list. *)
Ltac reads_enc l :=
  intros off pre rest Hw;
  match goal with |- ?m _ = _ => unfold m end;
  unfold mbind at 1, M_bind at 1, get at 1;
  rewrite decide_False by
    (unfold reader_at; cbn [pos buffer_size]; rewrite !length_app; cbn; lia);
  unfold mbind, M_bind;
  repeat match goal with
  | |- context [buffer_at ?i (reader_at _ _ ?f)] =>
      let n := eval vm_compute in (Z.to_nat i) in
      let mid := eval cbn in (take n l) in
      let post := eval cbn in (drop n l) in
      lazymatch post with
      | ?b :: ?post' =>
          change (buffer_at i (reader_at off pre f))
            with (buffer_at (Z.of_nat (length mid)) (reader_at off pre (mid ++ b :: (post' ++ rest))));
          rewrite buffer_at_app; cbn [app]
      end
  end;
  unfold modify;
  match goal with |- context [advance ?n (reader_at _ _ ?f)] =>
    change (advance n (reader_at off pre f))
      with (advance (Z.of_nat (length l)) (reader_at off pre (l ++ rest)))
  end;
  rewrite advance_app by done; unfold mret, M_ret.

Lemma reads_uint8 b : in_width 8 b → reads read_uint8 [b] b.
Proof. intros Hb. reads_enc [b]. done. Qed.

Lemma reads_uint16_bytes b0 b1 :
  bytes_ok [b0; b1] → reads read_uint16 [b0; b1] (be_value [b0; b1]).
Proof.
  intros Hb. reads_enc [b0; b1].
  pose proof (be_value_bound _ Hb) as Hv.
  repeat (apply Forall_cons in Hb as [? Hb]).
  do 2 f_equal. rewrite lor_acc_0 by done.
  etrans; [|by apply (wrap_small 16)]. unfold u16. f_equal. cbn. rewrite ?Z.shiftl_mul_pow2 by lia. lia.
Qed.

Lemma reads_uint32_bytes b0 b1 b2 b3 :
  bytes_ok [b0; b1; b2; b3] →
  reads read_uint32 [b0; b1; b2; b3] (be_value [b0; b1; b2; b3]).
Proof.
  intros Hb. reads_enc [b0; b1; b2; b3].
  pose proof (be_value_bound _ Hb) as Hv.
  repeat (apply Forall_cons in Hb as [? Hb]).
  do 2 f_equal. rewrite !lor_acc, lor_acc_0 by (done || lia).
  etrans; [|by apply (wrap_small 32)]. unfold u32. f_equal. cbn. rewrite ?Z.shiftl_mul_pow2 by lia. lia.
Qed.

Lemma reads_uint64_bytes b0 b1 b2 b3 b4 b5 b6 b7 :
  bytes_ok [b0; b1; b2; b3; b4; b5; b6; b7] →
  reads read_uint64 [b0; b1; b2; b3; b4; b5; b6; b7]
    (be_value [b0; b1; b2; b3; b4; b5; b6; b7]).
Proof.
  intros Hb. reads_enc [b0; b1; b2; b3; b4; b5; b6; b7].
  pose proof (be_value_bound _ Hb) as Hv.
  repeat (apply Forall_cons in Hb as [? Hb]).
  do 2 f_equal. rewrite !lor_acc, lor_acc_0 by (done || lia).
  etrans; [|by apply (wrap_small 64)]. unfold u64. f_equal. cbn. rewrite ?Z.shiftl_mul_pow2 by lia. lia.
Qed.

Lemma reads_uint16 v : in_width 16 v → reads read_uint16 (be_bytes 2 v) v.
Proof.
  intros Hv. replace v with (be_value (be_bytes 2 v)) at 2
    by (rewrite be_value_bytes; by apply wrap_small).
  apply reads_uint16_bytes, (be_bytes_ok 2).
Qed.

Lemma reads_uint32 v : in_width 32 v → reads read_uint32 (be_bytes 4 v) v.
Proof.
  intros Hv. replace v with (be_value (be_bytes 4 v)) at 2
    by (rewrite be_value_bytes; by apply wrap_small).
  apply reads_uint32_bytes, (be_bytes_ok 4).
Qed.

Lemma reads_uint64 v : in_width 64 v → reads read_uint64 (be_bytes 8 v) v.
Proof.
  intros Hv. replace v with (be_value (be_bytes 8 v)) at 2
    by (rewrite be_value_bytes; by apply wrap_small).
  apply reads_uint64_bytes, (be_bytes_ok 8).
Qed.

Lemma reads_data l :
  reads (read_data (Z.of_nat (length l))) l (Some l).
Proof.
  intros off pre rest Hw. unfold read_data, mbind, M_bind, get.
  rewrite decide_False by
    (unfold reader_at; cbn [pos buffer_size]; rewrite !length_app; lia).
  change (pos (reader_at off pre (l ++ rest))) with (Z.of_nat (length pre)).
  change (buffer (reader_at off pre (l ++ rest))) with (pre ++ l ++ rest).
  unfold lift_result, modify. by rewrite slice_app, advance_app.
Qed.

(** * Lemmas: writing *)

Lemma writes_ret : writes (mret tt) [].
Proof. intros v. by rewrite app_nil_r. Qed.

Lemma writes_bind (m k : Writer) e1 e2 :
  writes m e1 → writes k e2 → writes (m;; k) (e1 ++ e2).
Proof.
  intros Hm Hk v. unfold mbind, M_bind. by rewrite Hm, Hk, app_assoc.
Qed.

Lemma writes_push b : writes (push_back b) [b].
Proof. done. Qed.

Lemma writes_cons b (k : Writer) e : writes k e → writes (push_back b;; k) (b :: e).
Proof. intros Hk. apply (writes_bind _ _ [b]); [apply writes_push|done]. Qed.

Lemma land_255 z : Z.land (u8 z) 255 = u8 z.
Proof.
  change 255 with (Z.ones 8). rewrite Z.land_ones by lia.
  apply (wrap_idem 8). lia.
Qed.

Lemma writes_uint8 v : writes (write_uint8 v) [v].
Proof. apply writes_push. Qed.

Lemma writes_uint16 v : writes (write_uint16 v) (be_bytes 2 v).
Proof.
  unfold write_uint16. rewrite land_255. cbn. rewrite ?Z.shiftr_0_r.
  repeat apply writes_cons || apply writes_push.
Qed.

Lemma writes_uint32 v : writes (write_uint32 v) (be_bytes 4 (u16 v)).
Proof.
  unfold write_uint32. rewrite !land_255. cbn. rewrite ?Z.shiftr_0_r.
  repeat apply writes_cons || apply writes_push.
Qed.

Lemma writes_uint64 v : writes (write_uint64 v) (be_bytes 8 v).
Proof.
  unfold write_uint64. rewrite !land_255. cbn. rewrite ?Z.shiftr_0_r.
  repeat apply writes_cons || apply writes_push.
Qed.

(** A loop that appends one element per index appends a list. *)
Lemma writes_loop (g : Z → Writer) (enc : list Z) i :
  0 ≤ i →
  (∀ j b, enc !! j = Some b → writes (g (i + Z.of_nat j)) [b]) →
  writes (for_each (seqZ i (Z.of_nat (length enc))) g) enc.
Proof.
  revert i. induction enc as [|b enc IH]; intros i Hi Hg; [apply writes_ret|].
  cbn [length]. rewrite seqZ_cons by lia. cbn [for_each].
  apply (writes_bind _ _ [b]).
  - rewrite <- (Z.add_0_r i). by apply (Hg 0%nat).
  - replace (Z.pred (Z.of_nat (S (length enc)))) with (Z.of_nat (length enc)) by lia.
    apply IH; [lia|]. intros j b' Hj.
    replace (Z.succ i + Z.of_nat j) with (i + Z.of_nat (S j)) by lia. by apply Hg.
Qed.

Lemma load_lookup {A} (l : list A) (j : nat) b :
  l !! j = Some b → load l (Z.of_nat j) = Ok b.
Proof. intros Hj. unfold load. by rewrite decide_True, Nat2Z.id, Hj by lia. Qed.

Lemma writes_data_ptr data len :
  0 ≤ len ≤ Z.of_nat (length data) →
  writes (write_data_ptr data len) (take (Z.to_nat len) data).
Proof.
  intros Hlen. unfold write_data_ptr.
  replace len with (Z.of_nat (length (take (Z.to_nat len) data))) at 1
    by (rewrite length_take; lia).
  apply writes_loop; [lia|]. intros j b Hj v.
  apply lookup_take_Some in Hj as [Hj _].
  unfold mbind, M_bind, lift_result. by rewrite Z.add_0_l, (load_lookup _ _ b).
Qed.

Lemma writes_data_str data len :
  bytes_ok data → 0 ≤ len ≤ Z.of_nat (length data) →
  writes (write_data_str data len) (take (Z.to_nat len) data).
Proof.
  intros Hok Hlen. unfold write_data_str.
  replace len with (Z.of_nat (length (take (Z.to_nat len) data))) at 1
    by (rewrite length_take; lia).
  apply writes_loop; [lia|]. intros j b Hj v.
  apply lookup_take_Some in Hj as [Hj _].
  unfold mbind, M_bind, lift_result. rewrite Z.add_0_l.
  rewrite (load_lookup _ _ b) by (by apply lookup_app_l_Some).
  unfold push_back, modify. unfold u8. rewrite wrap_small; [done|].
  by eapply Forall_lookup_1 in Hok.
Qed.

Lemma unhex_app acc l1 l2 : unhex acc (l1 ++ l2) = a ← unhex acc l1; unhex a l2.
Proof.
  revert acc. induction l1 as [|c l1 IH]; intros acc; [done|].
  cbn. destruct (unhex_digit c); [|done]. apply IH.
Qed.

Lemma unhex_hexify d : 0 ≤ d < 16 → unhex_digit (hexify d) = Some d.
Proof.
  intros Hd. assert (d ∈ seqZ 0 16) as Hin by (apply elem_of_seqZ; lia).
  cbn in Hin. repeat (apply elem_of_cons in Hin as [->|Hin]; [done|]).
  by apply elem_of_nil in Hin.
Qed.

Definition hex8 (v : Z) : list Z :=
  [hexify (Z.land (Z.shiftr v 4) 15); hexify (Z.land v 15)].

Lemma writes_uint8_hex16 v : writes (write_uint8_hex16 v) (hex8 v).
Proof. apply writes_cons, writes_push. Qed.

Lemma unhex_hex8 acc v :
  in_width 8 v → unhex acc (hex8 v) = Some (256 * acc + v).
Proof.
  intros Hv. unfold hex8. change 15 with (Z.ones 4).
  rewrite !Z.land_ones, Z.shiftr_div_pow2 by lia. change (2 ^ 4) with 16.
  cbn [unhex]. unfold in_width in Hv. change (2 ^ 8) with 256 in Hv.
  rewrite !unhex_hexify by (apply Z.mod_pos_bound; lia).
  cbn [mbind option_bind]. f_equal. div_lia.
Qed.

(** * Properties *)

(** whatever the claimed size and starting offset, no sequence of reads
    touches memory outside the buffer; the cursor only moves forward, and stays
    within the claimed size (or at the starting offset when that lies beyond). *)
Theorem reads_memory_safe (ops : list ReadOp) (off : Z) (buf : list Z) (size : Z) :
  in_width 16 off → in_width 16 size → bytes_ok buf →
  size ≤ Z.of_nat (length buf) → Forall op_ok ops →
  wp (for_each ops run_read)
     (λ _ r, buffer r = buf ∧ off ≤ pos r ≤ Z.max off size)
     (BinaryReader_new off buf size).
Proof.
  intros Hoff Hsize Hbuf Hmem Hops.
  eapply wp_mono; [apply (wp_for_each _ _ (λ r, reader_wf r ∧
    reader_ext (BinaryReader_new off buf size) r))|].
  - split; [|apply reader_ext_refl]. constructor; cbn; auto; lia.
  - intros op r Hin [Hr Hext]. eapply wp_mono.
    + apply wp_run_read; [done|]. by eapply Forall_forall in Hops.
    + intros [] r' (? & ? & _). eauto using reader_ext_trans.
  - intros [] r [[] (Hb & Hs & Ho & Hp)]. cbn in *. split; [done|]. lia.
Qed.

(** a 64-bit word written and read back is unchanged, and exactly the bytes
    written are consumed. *)
Theorem uint64_roundtrip (v off : Z) (pre rest : list Z) :
  in_width 64 v → in_width 16 (Z.of_nat (length pre + 8 + length rest)) →
  ∃ enc, write_uint64 v pre = Ok (tt, pre ++ enc) ∧ length enc = 8%nat ∧
    read_uint64 (reader_at off pre (enc ++ rest)) = Ok (v, reader_at off (pre ++ enc) rest).
Proof.
  intros Hv Hlen. exists (be_bytes 8 v). split_and!; [apply writes_uint64|done|].
  apply reads_uint64; [done|]. rewrite !length_app, length_be_bytes.
  by rewrite Nat.add_assoc.
Qed.

(** a 32-bit word written by [write_uint32] reads back as its low 16 bits,
    because the parameter of the writer is declared [uint16_t]. *)
Theorem uint32_truncated (v off : Z) (pre rest : list Z) :
  in_width 16 (Z.of_nat (length pre + 4 + length rest)) →
  ∃ enc, write_uint32 v pre = Ok (tt, pre ++ enc) ∧ length enc = 4%nat ∧
    read_uint32 (reader_at off pre (enc ++ rest))
      = Ok (v mod 2 ^ 16, reader_at off (pre ++ enc) rest).
Proof.
  intros Hlen. exists (be_bytes 4 (u16 v)). split_and!; [apply writes_uint32|done|].
  apply reads_uint32.
  - apply (in_width_weaken 16); [lia|]. apply wrap_in_width; lia.
  - rewrite !length_app, length_be_bytes. by rewrite Nat.add_assoc.
Qed.

(** the hexadecimal form of a 16-bit word is four digits that denote it. *)
Theorem uint16_hex_roundtrip (v : Z) (pre : list Z) :
  in_width 16 v →
  ∃ hex, write_uint16_hex16 v pre = Ok (tt, pre ++ hex) ∧
    length hex = 4%nat ∧ unhex 0 hex = Some v.
Proof.
  intros Hv. exists (hex8 (u8 (Z.shiftr v 8)) ++ hex8 (u8 v)). split_and!; [|done|].
  - by apply (writes_bind _ _ (hex8 _)); apply writes_uint8_hex16.
  - rewrite unhex_app, unhex_hex8 by (apply wrap_in_width; lia). cbn [mbind option_bind].
    rewrite unhex_hex8 by (apply wrap_in_width; lia). f_equal.
    unfold u8, wrap. rewrite Z.shiftr_div_pow2 by lia.
    unfold in_width in Hv. change (2 ^ 8) with 256. change (2 ^ 16) with 65536 in Hv. div_lia.
Qed.

Lemma reads_memory_safe_witness :
  wp (for_each [R8; R64; RData 65535; R16] run_read)
     (λ _ r, buffer r = [1; 2; 3] ∧ 2 ≤ pos r ≤ Z.max 2 3)
     (BinaryReader_new 2 [1; 2; 3] 3).
Proof.
  apply (reads_memory_safe [R8; R64; RData 65535; R16] 2 [1; 2; 3] 3);
    [decide_concrete..|cbn; lia|repeat (constructor; try done)].
Defined.

Lemma uint64_roundtrip_witness :
  ∃ enc, write_uint64 (2 ^ 64 - 2) [7] = Ok (tt, [7] ++ enc) ∧ length enc = 8%nat ∧
    read_uint64 (reader_at 0 [7] (enc ++ [9])) = Ok (2 ^ 64 - 2, reader_at 0 ([7] ++ enc) [9]).
Proof. apply (uint64_roundtrip (2 ^ 64 - 2) 0 [7] [9]); split; done. Defined.

Lemma uint32_truncated_witness :
  ∃ enc, write_uint32 70000 [] = Ok (tt, [] ++ enc) ∧ length enc = 4%nat ∧
    read_uint32 (reader_at 0 [] (enc ++ [])) = Ok (70000 mod 2 ^ 16, reader_at 0 ([] ++ enc) []).
Proof. apply (uint32_truncated 70000 0 [] []). split; done. Defined.

Lemma uint16_hex_roundtrip_witness :
  ∃ hex, write_uint16_hex16 0xdead [91] = Ok (tt, [91] ++ hex) ∧
    length hex = 4%nat ∧ unhex 0 hex = Some 0xdead.
Proof. apply (uint16_hex_roundtrip 0xdead [91]). split; done. Defined.
