(* ===== verification/Packets.v ===== *)
(** Component: the packet classes (src/Packet: PacketTypes.h, and the .h and .cpp
    files of Base, PacketBase, PacketPassAlong, Announce, Message and Peer).

    Inheritance is a record that holds its base as its first field; a getter of
    the base class is a projection path.  The virtual method [writePacketPayload]
    is a type class, so [Base::writePacket], written once against the class,
    dispatches as the C++ does.  A constructor from a [BinaryReader] is a
    computation in the reader's state; [std::string] is a list of bytes. *)

From S2P Require Import Prelude BinaryIO.

(** An address of an object; [option Addr] is a pointer that may be null. *)
Abbreviation Addr := Z (only parsing).

(** * PacketTypes.h *)

Definition type_unknown : Z := 0.
Definition type_announce : Z := 0x41.
Definition type_message : Z := 0x42.

Definition packet_flag_has_recipient : Z := 0x01.
Definition packet_flag_has_signature : Z := 0x02.
Definition packet_flag_is_compressed : Z := 0x04.
Definition packet_flag_has_route : Z := 0x08.

(** [(flags & mask) != 0] *)
Definition has_flag (flags mask : Z) : bool := bool_decide (Z.land flags mask ≠ 0).

(** * Base *)

Record Base := mkBase {
  packet_type : Z;
  packet_ttl : Z;
  packet_timestamp : Z;
  packet_flags : Z;
}.

Definition Base_new (type : Z) : Base := mkBase type 0 0 0.

(** [Base::Base(type, ttl, timestamp, flags)] *)
Definition Base_make (type ttl timestamp flags : Z) : Base := mkBase type ttl timestamp flags.

(** [Base::Base(type, reader)] *)
Definition Base_read (type : Z) : M BinaryReader Base :=
  ttl ← read_uint8;
  timestamp ← read_uint64;
  flags ← read_uint8;
  mret (mkBase type ttl timestamp flags).

Definition getPacketTimestampMs (b : Base) : Z := packet_timestamp b / 1000.

Definition setPacketType (type : Z) (b : Base) : Base :=
  mkBase type (packet_ttl b) (packet_timestamp b) (packet_flags b).
Definition setPacketTtl (ttl : Z) (b : Base) : Base :=
  mkBase (packet_type b) ttl (packet_timestamp b) (packet_flags b).
Definition setPacketTimestamp (timestamp : Z) (b : Base) : Base :=
  mkBase (packet_type b) (packet_ttl b) timestamp (packet_flags b).
Definition setPacketFlags (flags : Z) (b : Base) : Base :=
  mkBase (packet_type b) (packet_ttl b) (packet_timestamp b) flags.

(** A class derived from [Base]: its base subobject and its override of the
    virtual [writePacketPayload].  The override may read other objects through
    the pointers it holds: [get_id] is [Peer::getId] on an address. *)
Class IsPacket (P : Type) := {
  base_of : P → Base;
  writePacketPayload : (Addr → result Z) → P → Writer;
}.

(** [Base::writePacket], shared by every class: each override of [writePacket]
    only calls its parent's. *)
Definition writePacket `{IsPacket P} (get_id : Addr → result Z) (p : P) : Writer :=
  write_uint8 1;;
  write_uint8 (packet_type (base_of p));;
  write_uint8 (packet_ttl (base_of p));;
  write_uint64 (packet_timestamp (base_of p));;
  write_uint8 (packet_flags (base_of p));;
  writePacketPayload get_id p.

(** The bytes of a packet, written to a fresh vector. *)
Definition packet_bytes `{IsPacket P} (get_id : Addr → result Z) (p : P) : result (list Z) :=
  '(_, v) ← writePacket get_id p []; mret v.

(** * PacketBase *)

Record PacketBase := mkPacketBase {
  pb_base : Base;
  packet_sender_id : Z;
  packet_recipient_id : Z;
}.

Definition PacketBase_new (type : Z) : PacketBase := mkPacketBase (Base_new type) 0 0.

(** [PacketBase::PacketBase(type, ttl, timestamp, flags, sender)], and with a recipient. *)
Definition PacketBase_make (type ttl timestamp flags sender : Z) : PacketBase :=
  mkPacketBase (Base_make type ttl timestamp flags) sender 0.
Definition PacketBase_make_to (type ttl timestamp flags sender recipient : Z) : PacketBase :=
  mkPacketBase (Base_make type ttl timestamp flags) sender recipient.

Definition hasPacketRecipient (b : Base) : bool :=
  has_flag (packet_flags b) packet_flag_has_recipient.

(** [PacketBase::PacketBase(type, version, reader)]; [version] is not used. *)
Definition PacketBase_read (type version : Z) : M BinaryReader PacketBase :=
  base ← Base_read type;
  sender ← read_uint64;
  recipient ← (if hasPacketRecipient base then read_uint64 else mret 0);
  mret (mkPacketBase base sender recipient).

Definition setPacketSenderId (senderId : Z) (p : PacketBase) : PacketBase :=
  mkPacketBase (pb_base p) senderId (packet_recipient_id p).

Definition PacketBase_writePacketPayload (p : PacketBase) : Writer :=
  write_uint64 (packet_sender_id p);;
  (if hasPacketRecipient (pb_base p) then write_uint64 (packet_recipient_id p) else mret tt).

(** * PacketPassAlong *)

Record PacketPassAlong := mkPassAlong {
  pa_base : PacketBase;
  payload : list Z;
  hasPayload : bool;
}.

Definition PacketPassAlong_new (type : Z) : PacketPassAlong :=
  mkPassAlong (PacketBase_new type) [] false.

Definition PacketPassAlong_read (type version : Z) (has_payload : bool) :
    M BinaryReader PacketPassAlong :=
  base ← PacketBase_read type version;
  data ← (if has_payload then
            payload_len ← read_remainder_len;
            payload_data ← read_data payload_len;
            mret (default [] payload_data)
          else mret []);
  mret (mkPassAlong base data has_payload).

Definition setPayload (value : list Z) (p : PacketPassAlong) : PacketPassAlong :=
  mkPassAlong (pa_base p) value (hasPayload p).

Definition PacketPassAlong_writePacketPayload (p : PacketPassAlong) : Writer :=
  PacketBase_writePacketPayload (pa_base p);;
  (if hasPayload p
   then write_data_str (payload p) (u16 (Z.of_nat (length (payload p))))
   else mret tt).

#[global] Instance PacketPassAlong_is_packet : IsPacket PacketPassAlong := {
  base_of p := pb_base (pa_base p);
  writePacketPayload _ p := PacketPassAlong_writePacketPayload p;
}.

(** The metadata that [getPacketHash] feeds to the hash: everything of the
    header but the ttl. *)
Definition hash_meta_bytes (p : PacketPassAlong) : Writer :=
  write_uint8 (packet_type (base_of p));;
  write_uint8 (packet_flags (base_of p));;
  write_uint64 (packet_timestamp (base_of p));;
  write_uint64 (packet_sender_id (pa_base p));;
  write_uint64 (packet_recipient_id (pa_base p)).

(** [getPacketHash] with [std::hash<std::string>] as [hash_string] and
    [std::size_t] of [size_t_bits] bits. *)
Definition getPacketHash (hash_string : list Z → Z) (size_t_bits : Z)
    (p : PacketPassAlong) : result Z :=
  let hash_payload := hash_string (payload p) in
  '(_, meta_string) ← hash_meta_bytes p [];
  let hash_meta := hash_string meta_string in
  mret (Z.lxor hash_payload (wrap size_t_bits (Z.shiftl hash_meta 1))).

(** * Announce *)

Record Announce := mkAnnounce {
  an_pass : PacketPassAlong;
  an_name : list Z;
}.

Definition Announce_new : Announce := mkAnnounce (PacketPassAlong_new type_announce) [].

Definition Announce_read (type version : Z) : M BinaryReader Announce :=
  pass ← PacketPassAlong_read type version false;
  name_len ← read_uint8;
  name_data ← read_data name_len;
  mret (mkAnnounce pass (default [] name_data)).

Definition setName (value : list Z) (a : Announce) : Announce := mkAnnounce (an_pass a) value.

(** [static_cast<uint8_t>(std::min(size_t(255), s.size()))] and its 16-bit form. *)
Definition clip8 (s : list Z) : Z := u8 (Z.min 255 (Z.of_nat (length s))).
Definition clip16 (s : list Z) : Z := u16 (Z.min 65535 (Z.of_nat (length s))).

Definition Announce_writePacketPayload (a : Announce) : Writer :=
  PacketPassAlong_writePacketPayload (an_pass a);;
  let name_len := clip8 (an_name a) in
  write_uint8 name_len;;
  write_data_str (an_name a) name_len.

#[global] Instance Announce_is_packet : IsPacket Announce := {
  base_of a := pb_base (pa_base (an_pass a));
  writePacketPayload _ a := Announce_writePacketPayload a;
}.

(** * Message *)

Record Message := mkMessage {
  msg_base : PacketBase;
  message_flags : Z;
  message_timestamp : Z;
  message_id : list Z;
  sender_nickname : list Z;
  content : list Z;
  encrypted_content : list Z;
  recipient_nickname : list Z;
  sender_peer : option Addr;
}.

(** [Message::Message()] *)
Definition Message_new : Message :=
  mkMessage (PacketBase_new type_message) 0 0 [] [] [] [] [] None.

(** [Message::Message(ttl, timestamp, packet_flags, sender)], and with a recipient. *)
Definition Message_make (ttl timestamp flags sender : Z) : Message :=
  mkMessage (PacketBase_make type_message ttl timestamp flags sender) 0 0 [] [] [] [] [] None.
Definition Message_make_to (ttl timestamp flags sender recipient : Z) : Message :=
  mkMessage (PacketBase_make_to type_message ttl timestamp flags sender recipient)
    0 0 [] [] [] [] [] None.

Definition isRelay (m : Message) : bool := has_flag (message_flags m) 0x01.
Definition isPrivate (m : Message) : bool := has_flag (message_flags m) 0x02.
Definition hasOriginalSender (m : Message) : bool := has_flag (message_flags m) 0x04.
Definition hasRecipientNickname (m : Message) : bool := has_flag (message_flags m) 0x08.
Definition hasSenderPeerID (m : Message) : bool := has_flag (message_flags m) 0x10.
Definition hasMentions (m : Message) : bool := has_flag (message_flags m) 0x20.
Definition hasChannel (m : Message) : bool := has_flag (message_flags m) 0x40.
Definition isEncrypted (m : Message) : bool := has_flag (message_flags m) 0x80.

(** [Message::Message(type, version, reader)] *)
Definition Message_read (type version : Z) : M BinaryReader Message :=
  base ← PacketBase_read type version;
  flags ← read_uint8;
  timestamp ← read_uint64;
  message_id_len ← read_uint8;
  message_id_data ← read_data message_id_len;
  sender_nickname_len ← read_uint8;
  sender_nick_data ← read_data sender_nickname_len;
  content_len ← read_uint16;
  content_data ← read_data content_len;
  mret (mkMessage base flags timestamp (default [] message_id_data)
          (default [] sender_nick_data) (default [] content_data) [] [] None).

Definition setMessageFlags (flags : Z) (m : Message) : Message :=
  mkMessage (msg_base m) flags (message_timestamp m) (message_id m) (sender_nickname m)
    (content m) (encrypted_content m) (recipient_nickname m) (sender_peer m).
Definition setMessageTimestamp (value : Z) (m : Message) : Message :=
  mkMessage (msg_base m) (message_flags m) value (message_id m) (sender_nickname m)
    (content m) (encrypted_content m) (recipient_nickname m) (sender_peer m).
Definition setMessageId (s : list Z) (m : Message) : Message :=
  mkMessage (msg_base m) (message_flags m) (message_timestamp m) s (sender_nickname m)
    (content m) (encrypted_content m) (recipient_nickname m) (sender_peer m).
Definition setSenderNickname (s : list Z) (m : Message) : Message :=
  mkMessage (msg_base m) (message_flags m) (message_timestamp m) (message_id m) s
    (content m) (encrypted_content m) (recipient_nickname m) (sender_peer m).
Definition setContent (s : list Z) (m : Message) : Message :=
  mkMessage (msg_base m) (message_flags m) (message_timestamp m) (message_id m)
    (sender_nickname m) s (encrypted_content m) (recipient_nickname m) (sender_peer m).
Definition setEncryptedContent (s : list Z) (m : Message) : Message :=
  mkMessage (msg_base m) (message_flags m) (message_timestamp m) (message_id m)
    (sender_nickname m) (content m) s (recipient_nickname m) (sender_peer m).
Definition setRecipientNickname (s : list Z) (m : Message) : Message :=
  mkMessage (msg_base m) (message_flags m) (message_timestamp m) (message_id m)
    (sender_nickname m) (content m) (encrypted_content m) s (sender_peer m).
Definition setSenderPeer (peer : option Addr) (m : Message) : Message :=
  mkMessage (msg_base m) (message_flags m) (message_timestamp m) (message_id m)
    (sender_nickname m) (content m) (encrypted_content m) (recipient_nickname m) peer.

(** [getSenderPeer()->getId()] *)
Definition sender_peer_id (get_id : Addr → result Z) (m : Message) : result Z :=
  match sender_peer m with Some a => get_id a | None => Err NullDeref end.

Definition Message_writePacketPayload (get_id : Addr → result Z) (m : Message) : Writer :=
  PacketBase_writePacketPayload (msg_base m);;
  write_uint8 (message_flags m);;
  write_uint64 (message_timestamp m);;
  let id_len := clip8 (message_id m) in
  write_uint8 id_len;;
  write_data_str (message_id m) id_len;;
  let sender_len := clip8 (sender_nickname m) in
  write_uint8 sender_len;;
  write_data_str (sender_nickname m) sender_len;;
  let content_len := clip16 (content m) in
  write_uint16 content_len;;
  write_data_str (content m) content_len;;
  (if hasSenderPeerID m then
     peerId ← lift_result (sender_peer_id get_id m);
     write_uint8 (u8 (8 * 2));;
     write_uint64 peerId
   else mret tt).

#[global] Instance Message_is_packet : IsPacket Message := {
  base_of m := pb_base (msg_base m);
  writePacketPayload get_id m := Message_writePacketPayload get_id m;
}.

(** * Peer *)

Record Peer := mkPeer {
  peer_id : Z;
  peer_name : list Z;
  public_key : list Z;
  max_ttl : Z;
  peer_connection_handle : Z;
}.

Definition Peer_new : Peer := mkPeer 0 [] [] 0 0.
Definition Peer_make (id : Z) (name : list Z) : Peer := mkPeer id name [] 0 0.
Definition updateName (name : list Z) (p : Peer) : Peer :=
  mkPeer (peer_id p) name (public_key p) (max_ttl p) (peer_connection_handle p).
Definition setId (id : Z) (p : Peer) : Peer :=
  mkPeer id (peer_name p) (public_key p) (max_ttl p) (peer_connection_handle p).
Definition updateNoisePublicKey (key : list Z) (p : Peer) : Peer :=
  mkPeer (peer_id p) (peer_name p) key (max_ttl p) (peer_connection_handle p).
Definition setAnnounceTtl (ttl : Z) (p : Peer) : Peer :=
  mkPeer (peer_id p) (peer_name p) (public_key p) ttl (peer_connection_handle p).
Definition Peer_setConnectionHandle (h : Z) (p : Peer) : Peer :=
  mkPeer (peer_id p) (peer_name p) (public_key p) (max_ttl p) h.

(** * Well-formed packets and their encodings *)

Definition Base_ok (b : Base) : Prop :=
  in_width 8 (packet_type b) ∧ in_width 8 (packet_ttl b) ∧
  in_width 64 (packet_timestamp b) ∧ in_width 8 (packet_flags b).

Definition PacketBase_ok (p : PacketBase) : Prop :=
  Base_ok (pb_base p) ∧ in_width 64 (packet_sender_id p) ∧
  in_width 64 (packet_recipient_id p).

Definition PassAlong_ok (p : PacketPassAlong) : Prop :=
  PacketBase_ok (pa_base p) ∧ bytes_ok (payload p).

Definition Announce_ok (a : Announce) : Prop :=
  PassAlong_ok (an_pass a) ∧ bytes_ok (an_name a).

Definition Message_ok (m : Message) : Prop :=
  PacketBase_ok (msg_base m) ∧ in_width 8 (message_flags m) ∧
  in_width 64 (message_timestamp m) ∧ bytes_ok (message_id m) ∧
  bytes_ok (sender_nickname m) ∧ bytes_ok (content m).

#[global] Instance Base_eq_dec : EqDecision Base.
Proof. solve_decision. Defined.
#[global] Instance PacketBase_eq_dec : EqDecision PacketBase.
Proof. solve_decision. Defined.
#[global] Instance Message_eq_dec : EqDecision Message.
Proof. solve_decision. Defined.

#[global] Instance Base_ok_dec b : Decision (Base_ok b).
Proof. unfold Base_ok. apply _. Defined.
#[global] Instance PacketBase_ok_dec p : Decision (PacketBase_ok p).
Proof. unfold PacketBase_ok. apply _. Defined.
#[global] Instance PassAlong_ok_dec p : Decision (PassAlong_ok p).
Proof. unfold PassAlong_ok. apply _. Defined.
#[global] Instance Announce_ok_dec a : Decision (Announce_ok a).
Proof. unfold Announce_ok. apply _. Defined.
#[global] Instance Message_ok_dec m : Decision (Message_ok m).
Proof. unfold Message_ok. apply _. Defined.

(** The bytes that follow version and type. *)
Definition Base_enc (b : Base) : list Z :=
  [packet_ttl b] ++ be_bytes 8 (packet_timestamp b) ++ [packet_flags b].

Definition recipient_enc (p : PacketBase) : list Z :=
  if hasPacketRecipient (pb_base p) then be_bytes 8 (packet_recipient_id p) else [].

Definition PacketBase_enc (p : PacketBase) : list Z :=
  be_bytes 8 (packet_sender_id p) ++ recipient_enc p.

Definition PassAlong_enc (p : PacketPassAlong) : list Z :=
  PacketBase_enc (pa_base p) ++ (if hasPayload p then payload p else []).

(** The first [n] bytes of a string. *)
Definition limit (n : Z) (s : list Z) : list Z := take (Z.to_nat n) s.
Arguments limit : simpl never.

(** A string preceded by its 8-bit or 16-bit length. *)
Definition str8_enc (s : list Z) : list Z := clip8 s :: limit 255 s.
Definition str16_enc (s : list Z) : list Z := be_bytes 2 (clip16 s) ++ limit 65535 s.

Definition Announce_enc (a : Announce) : list Z :=
  PassAlong_enc (an_pass a) ++ str8_enc (an_name a).

Definition Message_enc (m : Message) : list Z :=
  PacketBase_enc (msg_base m) ++ [message_flags m] ++ be_bytes 8 (message_timestamp m)
  ++ str8_enc (message_id m) ++ str8_enc (sender_nickname m) ++ str16_enc (content m).

Definition packet_enc (b : Base) (body : list Z) : list Z :=
  [1; packet_type b] ++ Base_enc b ++ body.

(** ** What a receiver reconstructs *)

(** The recipient is sent only when its flag is set. *)
Definition normal_base (p : PacketBase) : PacketBase :=
  mkPacketBase (pb_base p) (packet_sender_id p)
    (if hasPacketRecipient (pb_base p) then packet_recipient_id p else 0).

Definition normal_announce (a : Announce) : Announce :=
  mkAnnounce (mkPassAlong (normal_base (pa_base (an_pass a))) [] false) (limit 255 (an_name a)).

Definition normal_message (m : Message) : Message :=
  mkMessage (normal_base (msg_base m)) (message_flags m) (message_timestamp m)
    (limit 255 (message_id m)) (limit 255 (sender_nickname m)) (limit 65535 (content m))
    [] [] None.

(** Receiving a packet of class [P]: version and type, then the constructor. *)
Definition receive {P} (read : Z → Z → M BinaryReader P) : M BinaryReader P :=
  version ← read_uint8;
  type ← read_uint8;
  read type version.

(** The reader [processWrite] builds for a whole value. *)
Definition reader_of (buf : list Z) : BinaryReader :=
  BinaryReader_new 0 buf (Z.of_nat (length buf)).

(** * Lemmas: writing *)

Lemma length_limit n s :
  0 ≤ n → Z.of_nat (length (limit n s)) = Z.min n (Z.of_nat (length s)).
Proof. intros. unfold limit. rewrite length_take. lia. Qed.

Lemma limit_all n s : Z.of_nat (length s) ≤ n → limit n s = s.
Proof. intros. apply take_ge. lia. Qed.

Lemma limit_limit n s : limit n (limit n s) = limit n s.
Proof. unfold limit. by rewrite take_take, Nat.min_id. Qed.

Lemma limit_bytes_ok n s : bytes_ok s → bytes_ok (limit n s).
Proof. apply Forall_take. Qed.

Lemma clip8_val s : clip8 s = Z.of_nat (length (limit 255 s)).
Proof.
  rewrite length_limit by lia. unfold clip8, u8.
  apply wrap_small. unfold in_width. lia.
Qed.

Lemma clip16_val s : clip16 s = Z.of_nat (length (limit 65535 s)).
Proof.
  rewrite length_limit by lia. unfold clip16, u16.
  apply wrap_small. unfold in_width. lia.
Qed.

Lemma clip8_in_width s : in_width 8 (clip8 s).
Proof. apply wrap_in_width. lia. Qed.
Lemma clip16_in_width s : in_width 16 (clip16 s).
Proof. apply wrap_in_width. lia. Qed.

Lemma writes_limit n s :
  bytes_ok s → 0 ≤ n →
  writes (write_data_str s (Z.of_nat (length (limit n s)))) (limit n s).
Proof.
  intros Hs Hn.
  replace (limit n s) with (take (Z.to_nat (Z.of_nat (length (limit n s)))) s) at 2.
  - apply writes_data_str; [done|]. rewrite length_limit; lia.
  - rewrite Nat2Z.id. unfold limit. rewrite length_take.
    destruct (Nat.le_ge_cases (Z.to_nat n) (length s)).
    + by rewrite Nat.min_l.
    + rewrite Nat.min_r by done. by rewrite !take_ge.
Qed.

Lemma writes_if (b : bool) (m : Writer) e :
  writes m e → writes (if b then m else mret tt) (if b then e else []).
Proof. intros. destruct b; [done|apply writes_ret]. Qed.

Lemma writes_PacketBase p : writes (PacketBase_writePacketPayload p) (PacketBase_enc p).
Proof.
  apply writes_bind; [apply writes_uint64|].
  unfold recipient_enc. apply writes_if, writes_uint64.
Qed.

Lemma writes_PassAlong p :
  bytes_ok (payload p) → Z.of_nat (length (payload p)) < 2 ^ 16 →
  writes (PacketPassAlong_writePacketPayload p) (PassAlong_enc p).
Proof.
  intros Hp Hlen. apply writes_bind; [apply writes_PacketBase|].
  apply writes_if. unfold u16. rewrite wrap_small by (unfold in_width; lia).
  rewrite <- (take_ge (payload p) (Z.to_nat (Z.of_nat (length (payload p))))) at 3 by lia.
  apply writes_data_str; [done|lia].
Qed.

Lemma writes_str8 s :
  bytes_ok s → writes (write_uint8 (clip8 s);; write_data_str s (clip8 s)) (str8_enc s).
Proof. intros. apply writes_cons. rewrite clip8_val. apply writes_limit; [done|lia]. Qed.

Lemma writes_writePacket `{IsPacket P} get_id (p : P) body :
  writes (writePacketPayload get_id p) body →
  writes (writePacket get_id p) (packet_enc (base_of p) body).
Proof.
  intros Hb. unfold packet_enc, Base_enc, writePacket. cbn [app]. rewrite <- !app_assoc.
  repeat apply writes_cons. apply writes_bind; [apply writes_uint64|].
  by apply writes_cons.
Qed.

Lemma packet_bytes_writes `{IsPacket P} get_id (p : P) e :
  writes (writePacket get_id p) e → packet_bytes get_id p = Ok e.
Proof.
  intros He. unfold packet_bytes, mbind, result_bind. by rewrite He.
Qed.

Lemma writes_Announce a :
  Announce_ok a → Z.of_nat (length (payload (an_pass a))) < 2 ^ 16 →
  writes (Announce_writePacketPayload a) (Announce_enc a).
Proof.
  intros [[_ Hp] Hn] Hlen. apply writes_bind; [by apply writes_PassAlong|].
  by apply writes_str8.
Qed.

(** The write of the sender peer, the last step of a message's payload. *)
Definition write_sender_peer (get_id : Addr → result Z) (m : Message) : Writer :=
  if hasSenderPeerID m then
    peerId ← lift_result (sender_peer_id get_id m);
    write_uint8 (u8 (8 * 2));; write_uint64 peerId
  else mret tt.

Lemma writes_then (m k : Writer) e v : writes m e → (m;; k) v = k (v ++ e).
Proof. intros Hm. unfold mbind, M_bind. by rewrite Hm. Qed.

Lemma Message_write_split get_id m v :
  Message_ok m →
  Message_writePacketPayload get_id m v = write_sender_peer get_id m (v ++ Message_enc m).
Proof.
  intros (Hb & Hf & Ht & Hid & Hnick & Hc).
  unfold Message_writePacketPayload, Message_enc, str8_enc, str16_enc.
  rewrite !clip8_val, clip16_val.
  rewrite (writes_then _ _ _ _ (writes_PacketBase _)), (writes_then _ _ _ _ (writes_uint8 _)),
    (writes_then _ _ _ _ (writes_uint64 _)), (writes_then _ _ _ _ (writes_uint8 _)).
  rewrite (writes_then _ _ _ _ (writes_limit 255 _ Hid ltac:(lia))),
    (writes_then _ _ _ _ (writes_uint8 _)),
    (writes_then _ _ _ _ (writes_limit 255 _ Hnick ltac:(lia))),
    (writes_then _ _ _ _ (writes_uint16 _)),
    (writes_then _ _ _ _ (writes_limit 65535 _ Hc ltac:(lia))).
  unfold write_sender_peer. by rewrite <- !app_assoc.
Qed.

Lemma writes_Message get_id m tail :
  Message_ok m → writes (write_sender_peer get_id m) tail →
  writes (Message_writePacketPayload get_id m) (Message_enc m ++ tail).
Proof. intros Hm Ht v. by rewrite Message_write_split, Ht, app_assoc. Qed.

Lemma writes_Message_plain get_id m :
  Message_ok m → hasSenderPeerID m = false →
  writes (writePacket get_id m) (packet_enc (base_of m) (Message_enc m)).
Proof.
  intros Hm Hs. apply writes_writePacket. rewrite <- (app_nil_r (Message_enc m)).
  apply writes_Message; [done|]. unfold write_sender_peer. rewrite Hs. apply writes_ret.
Qed.

(** Nothing is written for a message that claims a sender peer and has none. *)
Lemma Message_write_null get_id m :
  Message_ok m → hasSenderPeerID m = true → sender_peer m = None →
  packet_bytes get_id m = Err NullDeref.
Proof.
  intros Hm Hs Hn.
  assert (∀ v, Message_writePacketPayload get_id m v = Err NullDeref) as Hp.
  { intros v. rewrite Message_write_split by done.
    unfold write_sender_peer, sender_peer_id. by rewrite Hs, Hn. }
  unfold packet_bytes, writePacket. do 5 (rewrite (writes_then _ _ _ _ (writes_push _))
    || rewrite (writes_then _ _ _ _ (writes_uint64 _))).
  cbn [writePacketPayload Message_is_packet]. by rewrite Hp.
Qed.

(** * Lemmas: reading *)

Lemma reads_Base b :
  Base_ok b → reads (Base_read (packet_type b)) (Base_enc b) b.
Proof.
  intros (? & ? & ? & ?). unfold Base_enc.
  eapply reads_bind; [by apply reads_uint8|].
  eapply reads_bind; [by apply reads_uint64|].
  rewrite <- (app_nil_r [packet_flags b]).
  eapply reads_bind; [by apply reads_uint8|].
  destruct b. apply reads_ret.
Qed.

Lemma reads_PacketBase p version :
  PacketBase_ok p →
  reads (PacketBase_read (packet_type (pb_base p)) version)
    (Base_enc (pb_base p) ++ PacketBase_enc p) (normal_base p).
Proof.
  intros (Hb & Hs & Hr). eapply reads_bind; [by apply reads_Base|].
  unfold PacketBase_enc. eapply reads_bind; [by apply reads_uint64|].
  rewrite <- (app_nil_r (recipient_enc p)).
  unfold normal_base, recipient_enc. destruct (hasPacketRecipient (pb_base p)).
  - eapply reads_bind; [by apply reads_uint64|]. apply reads_ret.
  - eapply reads_bind; [apply reads_ret|]. apply reads_ret.
Qed.

(** A length-prefixed string in front of the remaining encoding. *)
Ltac reads_str :=
  first
    [ eapply (reads_bind _ _ [_]); [apply reads_uint8, clip8_in_width|];
      rewrite clip8_val
    | eapply reads_bind; [apply reads_uint16, clip16_in_width|];
      rewrite clip16_val ];
  eapply reads_bind; [apply reads_data|]; cbn [default from_option id].

Lemma reads_Announce a version :
  Announce_ok a → hasPayload (an_pass a) = false →
  reads (Announce_read (packet_type (base_of a)) version)
    (Base_enc (base_of a) ++ Announce_enc a) (normal_announce a).
Proof.
  intros [[Hb Hp] Hn] Hno. unfold Announce_read, Announce_enc, PassAlong_enc.
  rewrite Hno, app_nil_r, app_assoc. cbn [base_of Announce_is_packet].
  eapply reads_bind with (v := mkPassAlong (normal_base (pa_base (an_pass a))) [] false).
  - rewrite <- (app_nil_r (_ ++ _)). eapply reads_bind; [by apply reads_PacketBase|].
    eapply (reads_bind _ _ []); [apply (reads_ret [])|]. apply reads_ret.
  - rewrite <- (app_nil_r (str8_enc _)). unfold str8_enc. cbn [app].
    reads_str. apply reads_ret.
Qed.

Lemma reads_Message m version :
  Message_ok m →
  reads (Message_read (packet_type (base_of m)) version)
    (Base_enc (base_of m) ++ Message_enc m) (normal_message m).
Proof.
  intros (Hb & Hf & Ht & Hid & Hnick & Hc). unfold Message_read, Message_enc.
  rewrite app_assoc. cbn [base_of Message_is_packet].
  eapply reads_bind; [by apply reads_PacketBase|].
  eapply (reads_bind _ _ [_]); [by apply reads_uint8|].
  eapply reads_bind; [by apply reads_uint64|].
  rewrite <- (app_nil_r (str16_enc _)). unfold str8_enc, str16_enc. cbn [app].
  rewrite <- app_assoc. do 3 reads_str. apply reads_ret.
Qed.

(** Receiving a whole buffer that starts with a packet's encoding. *)
Lemma receive_ok {P} (read : Z → Z → M BinaryReader P) b body v rest :
  Base_ok b → Z.of_nat (length (packet_enc b body ++ rest)) < 2 ^ 16 →
  reads (read (packet_type b) 1) (Base_enc b ++ body) v →
  receive read (reader_of (packet_enc b body ++ rest))
  = Ok (v, reader_at 0 (packet_enc b body) rest).
Proof.
  intros (Ht & _) Hlen Hread.
  assert (reads (receive read) (packet_enc b body) v) as Hr.
  { eapply (reads_bind _ _ [1]); [by apply reads_uint8|].
    by eapply (reads_bind _ _ [_]); [apply reads_uint8|]. }
  change (reader_of (packet_enc b body ++ rest))
    with (reader_at 0 [] (packet_enc b body ++ rest)).
  rewrite Hr; [done|]. unfold in_width. cbn [app]. lia.
Qed.

(** Past the end of the buffer a byte reads as zero and an empty string is read. *)
Lemma read_string_at_end {A} off pre (f : list Z → M BinaryReader A) :
  in_width 16 (Z.of_nat (length pre)) →
  (len ← read_uint8; data ← read_data len; f (default [] data)) (reader_at off pre [])
  = f [] (reader_at off pre []).
Proof.
  intros Hw. unfold mbind at 1, M_bind at 1.
  assert (read_uint8 (reader_at off pre []) = Ok (0, reader_at off pre [])) as ->.
  { unfold read_uint8, mbind, M_bind, get. rewrite decide_True; [done|].
    unfold reader_at. cbn [pos buffer_size]. rewrite app_nil_r. lia. }
  unfold mbind, M_bind. pose proof (reads_data [] off pre []) as Hd.
  cbn [app length] in Hd. rewrite app_nil_r in Hd. change (Z.of_nat 0) with 0 in Hd.
  by rewrite Hd.
Qed.

(** An announcement whose class was sliced to [PacketPassAlong] is written
    without its name and received as an announcement with an empty name. *)
Lemma receive_sliced_announce get_id p :
  PassAlong_ok p → hasPayload p = false → payload p = [] →
  ∃ enc, packet_bytes get_id p = Ok enc ∧ Z.of_nat (length enc) < 2 ^ 16 ∧
    receive Announce_read (reader_of enc)
    = Ok (normal_announce (mkAnnounce p []), reader_at 0 enc []).
Proof.
  intros [Hb Hp] Hno Hpl. exists (packet_enc (base_of p) (PassAlong_enc p)).
  assert (length (packet_enc (base_of p) (PassAlong_enc p)) ≤ 28)%nat as Hlen.
  { unfold packet_enc, Base_enc, PassAlong_enc, PacketBase_enc, recipient_enc. rewrite Hno.
    rewrite !length_app, !length_be_bytes. case_match; cbn; lia. }
  assert (in_width 16 (Z.of_nat (length (packet_enc (base_of p) (PassAlong_enc p))))) as Hw.
  { unfold in_width. lia. }
  split_and!.
  - apply packet_bytes_writes, writes_writePacket, writes_PassAlong; [done|].
    by rewrite Hpl.
  - apply Hw.
  - assert (reads (receive (λ type version, PacketPassAlong_read type version false))
      (packet_enc (base_of p) (PassAlong_enc p))
      (mkPassAlong (normal_base (pa_base p)) [] false)) as Hr.
    { eapply (reads_bind _ _ [1]); [by apply reads_uint8|].
      eapply (reads_bind _ _ [_]); [apply reads_uint8, Hb|].
      unfold PassAlong_enc. rewrite Hno, app_nil_r.
      rewrite <- (app_nil_r (_ ++ _)). eapply reads_bind; [by apply reads_PacketBase|].
      eapply (reads_bind _ _ []); [apply (reads_ret [])|]. apply reads_ret. }
    specialize (Hr 0 [] []). rewrite !app_nil_r in Hr. cbn [app] in Hr. specialize (Hr Hw).
    transitivity ((receive (λ type version, PacketPassAlong_read type version false)
      ≫= λ pass, len ← read_uint8; data ← read_data len;
                 mret (mkAnnounce pass (default [] data))) (reader_at 0 [] (packet_enc (base_of p) (PassAlong_enc p)))).
    { unfold receive, Announce_read. symmetry.
      rewrite M_bind_assoc. apply M_bind_ext. intros. by rewrite M_bind_assoc. }
    erewrite M_bind_ok by done.
    set (pass := mkPassAlong _ _ _).
    etrans; [by apply (read_string_at_end _ _ (λ name, mret (mkAnnounce pass name)))|].
    unfold normal_announce. cbn. rewrite limit_all; done.
Qed.

(** * Lemmas: what a constructor from a reader guarantees *)

(** Runs the next read of a body with its specification. *)
Ltac wp_call lem :=
  apply wp_bind; eapply wp_mono;
  [apply lem; try done
  |let a := fresh "a" in let r := fresh "r" in
   let Hw := fresh "Hwf" in let He := fresh "Hext" in let Hp := fresh "Hpost" in
   intros a r (Hw & He & Hp); cbn beta in *].

(** Closes the well-formedness part of a [read_post]. *)
Ltac read_done :=
  apply wp_ret; split; [done|split; [eauto 10 using reader_ext_trans, reader_ext_refl|]].

Definition received_base (p : PacketBase) : Prop := PacketBase_ok p ∧ normal_base p = p.

Lemma wp_Base_read type r :
  in_width 8 type → reader_wf r →
  wp (Base_read type) (read_post (λ b, Base_ok b ∧ packet_type b = type) r) r.
Proof.
  intros Ht Hr. unfold Base_read.
  wp_call wp_read_uint8. wp_call wp_read_uint64. wp_call wp_read_uint8.
  read_done. done.
Qed.

Lemma wp_PacketBase_read type version r :
  in_width 8 type → reader_wf r →
  wp (PacketBase_read type version)
    (read_post (λ p, received_base p ∧ packet_type (pb_base p) = type) r) r.
Proof.
  intros Ht Hr. unfold PacketBase_read, received_base, normal_base.
  wp_call wp_Base_read. destruct Hpost as [Hb <-]. wp_call wp_read_uint64.
  destruct (hasPacketRecipient a) eqn:Hf.
  - wp_call wp_read_uint64. read_done. cbn. rewrite Hf. by split_and!.
  - wp_steps. read_done. cbn. rewrite Hf. by split_and!; try apply Hb.
Qed.

(** The string after a length byte, empty when it runs past the buffer. *)
Lemma wp_read_string n r :
  reader_wf r → in_width 16 n →
  wp (read_data n) (read_post (λ o, bytes_ok (default [] o) ∧
    ∀ k, n ≤ k → limit k (default [] o) = default [] o) r) r.
Proof.
  intros Hr Hn. eapply wp_mono; [by apply wp_read_data|].
  intros [l|] r' (Hw & He & Hp); (split; [done|split; [done|]]); cbn.
  - destruct (Hp l eq_refl) as [Hl Hok]. split; [done|].
    intros k Hk. apply limit_all. lia.
  - split; [constructor|]. intros k Hk. unfold limit. apply take_nil.
Qed.

Lemma wp_PassAlong_read type version has_payload r :
  in_width 8 type → reader_wf r →
  wp (PacketPassAlong_read type version has_payload)
    (read_post (λ p, PassAlong_ok p ∧ hasPayload p = has_payload ∧
       (has_payload = false → payload p = []) ∧
       normal_base (pa_base p) = pa_base p ∧ packet_type (base_of p) = type) r) r.
Proof.
  intros Ht Hr. unfold PacketPassAlong_read.
  wp_call wp_PacketBase_read. destruct Hpost as [[Hb Hn] Htype].
  destruct has_payload.
  - wp_step. wp_step. unfold read_remainder_len. wp_step.
    wp_call wp_read_string; [apply wrap_in_width; lia|].
    destruct Hpost as [Hok _]. wp_steps. read_done. by split_and!.
  - wp_step. wp_step. read_done. split_and!; try done. split; [done|constructor].
Qed.

Lemma wp_Announce_read type version r :
  in_width 8 type → reader_wf r →
  wp (Announce_read type version)
    (read_post (λ a, Announce_ok a ∧ hasPayload (an_pass a) = false ∧
       payload (an_pass a) = [] ∧
       normal_announce a = a ∧ packet_type (base_of a) = type) r) r.
Proof.
  intros Ht Hr. unfold Announce_read.
  wp_call wp_PassAlong_read. destruct Hpost as (Hb & Hno & Hpl & Hn & Htype).
  specialize (Hpl eq_refl).
  wp_call wp_read_uint8. wp_call wp_read_string; [by eapply in_width_weaken; [|done]|].
  destruct Hpost0 as [Hok Hlim]. read_done.
  unfold Announce_ok, normal_announce. cbn.
  rewrite Hn, Hlim by width_lia. split_and!; try done.
  destruct a as [? ? ?]; cbn in *. by subst.
Qed.

Lemma wp_Message_read type version r :
  in_width 8 type → reader_wf r →
  wp (Message_read type version)
    (read_post (λ m, Message_ok m ∧ normal_message m = m ∧
       packet_type (base_of m) = type) r) r.
Proof.
  intros Ht Hr. unfold Message_read.
  wp_call wp_PacketBase_read. destruct Hpost as [[Hb Hn] Htype].
  wp_call wp_read_uint8. wp_call wp_read_uint64.
  wp_call wp_read_uint8. wp_call wp_read_string; [by eapply in_width_weaken; [|done]|].
  wp_call wp_read_uint8. wp_call wp_read_string; [by eapply in_width_weaken; [|done]|].
  wp_call wp_read_uint16. wp_call wp_read_string.
  destruct Hpost2 as [Hok Hlim], Hpost4 as [Hok' Hlim'], Hpost6 as [Hok'' Hlim''].
  read_done. unfold Message_ok, normal_message. cbn.
  rewrite Hn, Hlim, Hlim', Hlim'' by width_lia. by split_and!; try apply Hb.
Qed.

Lemma wp_receive_Message buf :
  bytes_ok buf → Z.of_nat (length buf) < 2 ^ 16 →
  wp (receive Message_read) (λ m _, Message_ok m ∧ normal_message m = m) (reader_of buf).
Proof.
  intros Hok Hlen. unfold receive.
  assert (reader_wf (reader_of buf)) as Hwf.
  { constructor; cbn; auto; unfold in_width; lia. }
  wp_call wp_read_uint8. wp_call wp_read_uint8.
  eapply wp_mono; [by apply wp_Message_read|]. by intros m r' (_ & _ & ? & ? & _).
Qed.

Lemma message_returns get_id m :
  Message_ok m → hasSenderPeerID m = false →
  ∃ enc, packet_bytes get_id m = Ok enc ∧
    (Z.of_nat (length enc) < 2 ^ 16 →
     receive Message_read (reader_of enc) = Ok (normal_message m, reader_at 0 enc [])).
Proof.
  intros Hm Hs. exists (packet_enc (base_of m) (Message_enc m)). split.
  - by apply packet_bytes_writes, writes_Message_plain.
  - intros Hlen. rewrite <- (app_nil_r (packet_enc _ _)) at 1.
    apply receive_ok; [apply Hm|by rewrite app_nil_r|by apply reads_Message].
Qed.

(** * Properties *)

(** C30: a message is written and received back with its routing header, flags,
    timestamp, id, nickname and content; ids and nicknames are cut at 255 bytes,
    the recipient survives only under its flag, and the fields that the wire
    format does not carry come back empty. *)
Theorem message_roundtrip (get_id : Addr → result Z) (m : Message) :
  Message_ok m → hasSenderPeerID m = false →
  ∃ enc, packet_bytes get_id m = Ok enc ∧
    (Z.of_nat (length enc) < 2 ^ 16 →
     receive Message_read (reader_of enc) = Ok (normal_message m, reader_at 0 enc [])).
Proof. apply message_returns. Qed.

(** an announcement is written and received back with its header and name
    (cut at 255 bytes). *)
Theorem announce_roundtrip (get_id : Addr → result Z) (a : Announce) :
  Announce_ok a → hasPayload (an_pass a) = false → payload (an_pass a) = [] →
  ∃ enc, packet_bytes get_id a = Ok enc ∧
    (Z.of_nat (length enc) < 2 ^ 16 →
     receive Announce_read (reader_of enc) = Ok (normal_announce a, reader_at 0 enc [])).
Proof.
  intros Ha Hno Hp. exists (packet_enc (base_of a) (Announce_enc a)). split.
  - apply packet_bytes_writes, writes_writePacket, writes_Announce; [done|].
    by rewrite Hp.
  - intros Hlen. rewrite <- (app_nil_r (packet_enc _ _)) at 1.
    apply receive_ok; [apply Ha|by rewrite app_nil_r|by apply reads_Announce].
Qed.

(** every byte sequence can be received as a message without undefined
    behaviour, and a received message without the sender-peer flag is stable:
    forwarding it and receiving it again gives the same message, ttl included. *)
Theorem message_forwarding_stable (get_id : Addr → result Z) (buf : list Z) :
  bytes_ok buf → Z.of_nat (length buf) < 2 ^ 16 →
  ∃ m r, receive Message_read (reader_of buf) = Ok (m, r) ∧
    (hasSenderPeerID m = false → ∃ enc, packet_bytes get_id m = Ok enc ∧
      (Z.of_nat (length enc) < 2 ^ 16 →
       receive Message_read (reader_of enc) = Ok (m, reader_at 0 enc []))).
Proof.
  intros Hok Hlen. pose proof (wp_receive_Message buf Hok Hlen) as Hw.
  apply wp_ok in Hw as (m & r & Hr & Hm & Hn). exists m, r. split; [done|].
  intros Hs. destruct (message_returns get_id m Hm Hs) as (enc & He & Hrt).
  exists enc. split; [done|]. intros Hl. rewrite <- Hn at 1. auto.
Qed.

(** a received message that carries the sender-peer flag can not be
    forwarded: writing it calls [getId] through a null pointer. *)
Theorem received_sender_peer_null_deref (get_id : Addr → result Z) buf m r :
  bytes_ok buf → Z.of_nat (length buf) < 2 ^ 16 →
  receive Message_read (reader_of buf) = Ok (m, r) → hasSenderPeerID m = true →
  packet_bytes get_id m = Err NullDeref.
Proof.
  intros Hok Hlen Hr Hs. pose proof (wp_receive_Message buf Hok Hlen) as Hw.
  unfold wp in Hw. rewrite Hr in Hw. destruct Hw as [Hm Hn].
  apply Message_write_null; [done|done|]. by rewrite <- Hn.
Qed.

(** ** Witnesses *)

Definition example_message : Message :=
  setContent (str "The Actual Message") (setSenderNickname (str "TestSender")
    (setMessageId (str "808080") (setMessageTimestamp 1001 (Message_make 7 1000 0 123456)))).

Definition example_announce : Announce :=
  mkAnnounce (mkPassAlong (mkPacketBase (mkBase type_announce 3 1000 1) 5 6) [] false)
    (str "Repeater:0000").

Lemma message_roundtrip_witness :
  ∃ enc, packet_bytes (λ _, Err DanglingPtr) example_message = Ok enc ∧
    (Z.of_nat (length enc) < 2 ^ 16 →
     receive Message_read (reader_of enc)
     = Ok (normal_message example_message, reader_at 0 enc [])).
Proof. apply message_roundtrip; [decide_concrete|reflexivity]. Defined.

Lemma announce_roundtrip_witness :
  ∃ enc, packet_bytes (λ _, Err DanglingPtr) example_announce = Ok enc ∧
    (Z.of_nat (length enc) < 2 ^ 16 →
     receive Announce_read (reader_of enc)
     = Ok (normal_announce example_announce, reader_at 0 enc [])).
Proof. apply announce_roundtrip; [decide_concrete|reflexivity|reflexivity]. Defined.

Lemma message_forwarding_stable_witness :
  ∃ m r, receive Message_read (reader_of [1; 66; 7; 9]) = Ok (m, r) ∧
    (hasSenderPeerID m = false → ∃ enc, packet_bytes (λ _, Err DanglingPtr) m = Ok enc ∧
      (Z.of_nat (length enc) < 2 ^ 16 →
       receive Message_read (reader_of enc) = Ok (m, reader_at 0 enc []))).
Proof. apply message_forwarding_stable; [decide_concrete|decide_concrete]. Defined.

(** A 25-byte message: header, sender 1, message flags 0x10, nothing else. *)
Definition peer_flag_buffer : list Z :=
  [1; 66; 7; 0; 0; 0; 0; 0; 0; 0; 1; 0; 0; 0; 0; 0; 0; 0; 0; 1; 16].

Lemma received_sender_peer_null_deref_witness :
  ∃ m r, receive Message_read (reader_of peer_flag_buffer) = Ok (m, r) ∧
    hasSenderPeerID m = true ∧ packet_bytes (λ _, Ok 0) m = Err NullDeref.
Proof.
  eexists _, _. split; [vm_compute; reflexivity|]. split; [reflexivity|].
  eapply (received_sender_peer_null_deref _ peer_flag_buffer);
    [decide_concrete|decide_concrete|vm_compute; reflexivity|reflexivity].
Defined.
