(* ===== verification/CircularBuffer.v ===== *)
(** Component: the log ring buffer, [CircularBuffer<char>]
    (src/CircularBuffer/CircularBuffer.h).

    The state is the object: the array of [fixed_size + 1] cells and the cursors.
    Every array access is checked against the array, and [%] against a zero
    divisor.  [contents] is the abstract queue the class stands for; the
    theorems relate each operation to it. *)

From S2P Require Import Prelude.

(** * State *)

Record CircularBuffer := mkCB {
  cells : list Z;               (* std::unique_ptr<T[]> buffer *)
  fixed_size : Z;
  cb_head : Z;
  cb_tail : Z;
  maxed : bool;
  will_clear_if_empty : bool;
}.

Definition end_item : Z := 0.
Definition newline : Z := 10.

(** The constructor; [new T[size + 1]] leaves the cells indeterminate, so their
    values are an argument. *)
Definition CircularBuffer_new (size : Z) (indeterminate : list Z) : CircularBuffer :=
  mkCB indeterminate size 0 0 false false.

Definition set_cells (v : list Z) (s : CircularBuffer) : CircularBuffer :=
  mkCB v (fixed_size s) (cb_head s) (cb_tail s) (maxed s) (will_clear_if_empty s).
Definition set_head (v : Z) (s : CircularBuffer) : CircularBuffer :=
  mkCB (cells s) (fixed_size s) v (cb_tail s) (maxed s) (will_clear_if_empty s).
Definition set_tail (v : Z) (s : CircularBuffer) : CircularBuffer :=
  mkCB (cells s) (fixed_size s) (cb_head s) v (maxed s) (will_clear_if_empty s).
Definition set_maxed (v : bool) (s : CircularBuffer) : CircularBuffer :=
  mkCB (cells s) (fixed_size s) (cb_head s) (cb_tail s) v (will_clear_if_empty s).
Definition set_will_clear (v : bool) (s : CircularBuffer) : CircularBuffer :=
  mkCB (cells s) (fixed_size s) (cb_head s) (cb_tail s) (maxed s) v.

(** * Operations *)

(** [a % b] on non-negative operands. *)
Definition cpp_mod (a b : Z) : result Z :=
  if decide (b = 0) then Err DivByZero else Ok (a mod b).

(** [x % fixed_size] converted to [uint16_t] by the assignment it occurs in. *)
Definition mod_size (x : Z) : M CircularBuffer Z :=
  s ← get; r ← lift_result (cpp_mod x (fixed_size s)); mret (u16 r).

(** [buffer[i] = x] *)
Definition cb_store (i x : Z) : M CircularBuffer unit :=
  s ← get; v ← lift_result (store (cells s) i x); modify (set_cells v).

Definition empty (s : CircularBuffer) : bool := bool_decide (cb_head s = cb_tail s).
Definition full (s : CircularBuffer) : bool := maxed s.

(** [maxed = (head == tail - 1)] *)
Definition update_maxed : M CircularBuffer unit :=
  modify (λ s, set_maxed (bool_decide (cb_head s = cb_tail s - 1)) s).

(** [void write(const T item)] *)
Definition write_item (item : Z) : M CircularBuffer unit :=
  modify (set_will_clear false);;
  s ← get;
  cb_store (cb_head s) item;;
  cb_store (cb_head s + 1) end_item;;
  (if maxed s then t ← mod_size (cb_head s + 2); modify (set_tail t) else mret tt);;
  h ← mod_size (cb_head s + 1);
  modify (set_head h);;
  update_maxed.

(** The loop of [void write(const T *items)]: it returns [pos] and [count] at
    the terminator.  [items] is the memory behind the pointer. *)
Fixpoint write_loop (fuel : nat) (items : list Z) (pos count : Z) :
    M CircularBuffer (Z * Z) :=
  match fuel with
  | O => fail NoFuel
  | S fuel' =>
      x ← lift_result (load items count);
      if decide (x = end_item) then mret (pos, count) else
      s ← get;
      pos' ← mod_size (cb_head s + count);
      cb_store pos' x;;
      next ← lift_result (cpp_mod (pos' + 1) (fixed_size s));
      (if decide (next = cb_tail s - 1 ∨ (cb_tail s = 0 ∧ pos' = fixed_size s - 1))
       then modify (set_maxed true) else mret tt);;
      write_loop fuel' items pos' (u16 (count + 1))
  end.

Definition write_items (items : list Z) : M CircularBuffer unit :=
  modify (set_will_clear false);;
  '(pos, count) ← write_loop (length items) items 0 0;
  cb_store (pos + 1) end_item;;
  s ← get;
  (if maxed s then t ← mod_size (cb_head s + count + 1); modify (set_tail t) else mret tt);;
  h ← mod_size (cb_head s + count);
  modify (set_head h);;
  update_maxed.

Definition clear : M CircularBuffer unit :=
  modify (set_head 0);;
  modify (set_tail 0);;
  cb_store 0 end_item;;
  modify (set_maxed false).

(** [clear_if_empty]; [interrupted] is what an interrupt that runs between the
    two statements does to the buffer. *)
Definition clear_if_empty (interrupted : M CircularBuffer unit) : M CircularBuffer unit :=
  modify (set_will_clear true);;
  interrupted;;
  s ← get;
  if empty s && will_clear_if_empty s
  then modify (λ s, set_maxed false (set_head 0 (set_tail 0 s)))
  else mret tt.

Definition consume : M CircularBuffer Z :=
  s ← get;
  if empty s then mret 0 else
  to_consume ← lift_result (load (cells s) (cb_tail s));
  t ← mod_size (cb_tail s + 1);
  modify (set_tail t);;
  modify (set_maxed false);;
  mret to_consume.

(** [head <= tail && !empty()]: the data continue at the start of the array. *)
Definition wraps (s : CircularBuffer) : bool :=
  bool_decide (cb_head s ≤ cb_tail s) && negb (empty s).

(** The number of items up to the end of the data or of the array. *)
Definition consumable (s : CircularBuffer) : Z :=
  u16 ((if wraps s then fixed_size s else cb_head s) - cb_tail s).

(** [consume_block()]: the pointer is given by the items it can be read for. *)
Definition consume_block : M CircularBuffer (list Z * Z) :=
  s ← get;
  to_consume ← lift_result (slice (cells s) (cb_tail s) (consumable s));
  modify (set_tail (if wraps s then 0 else cb_head s));;
  modify (set_maxed false);;
  mret (to_consume, consumable s).

(** [consume_block(block, block_size)]; returns the block and the count. *)
Definition consume_block_into (block : list Z) (block_size : Z) :
    M CircularBuffer (list Z * Z) :=
  s ← get;
  let will_consume := Z.min block_size (consumable s) in
  t ← (if decide (block_size < consumable s) then mod_size (cb_tail s + will_consume)
       else mret (if wraps s then 0 else cb_head s));
  modify (set_tail t);;
  modify (set_maxed false);;
  src ← lift_result (slice (cells s) (cb_tail s) will_consume);
  block' ← lift_result (store_bytes block 0 src);
  mret (block', will_consume).

(** [strchr(&buffer[start], c)] as an index into [buffer]. *)
Fixpoint strchr_from (l : list Z) (c i : Z) : result (option Z) :=
  match l with
  | [] => Err OutOfBounds
  | x :: l' =>
      if decide (x = c) then Ok (Some i)
      else if decide (x = 0) then Ok None
      else strchr_from l' c (i + 1)
  end.

Definition strchr (buf : list Z) (start c : Z) : result (option Z) :=
  strchr_from (drop (Z.to_nat start) buf) c start.

(** [memcpy(&line[off], &buffer[from], n)] *)
Definition copy_out (s : CircularBuffer) (line : list Z) (off from n : Z) : result (list Z) :=
  src ← slice (cells s) from n; store_bytes line off src.

(** The end of [consume_line] once the line or the space for it is found
    (CircularBuffer.h, from [line_extra] on). *)
Definition consume_line_finish (s : CircularBuffer) (line : list Z) (line_size : Z)
    (written_out tail_copy consumable will_consume : Z) (line_end : option Z) :
    M CircularBuffer (Z * list Z) :=
  let line_extra := match line_end with
    | Some e => Z.min will_consume (u16 (e - tail_copy + 1))
    | None => will_consume
    end in
  line1 ← lift_result (copy_out s line written_out tail_copy line_extra);
  modify (set_maxed false);;
  tail_copy' ← (if decide (written_out + line_extra ≤ consumable)
    then mod_size (tail_copy + line_extra)
    else if decide (cb_head s ≤ tail_copy ∧ empty s = false)
    then mret (match line_end with
               | None => u16 (written_out + will_consume)
               | Some _ => line_size end)
    else mret (cb_head s));
  line2 ← lift_result (store line1 (written_out + line_extra) 0);
  modify (set_tail tail_copy');;
  mret (u16 (written_out + line_extra), line2).

(** No newline in the first run and everything up to its end was copied: the
    line may continue at the start of the array. *)
Definition consume_line_continue (s : CircularBuffer) (line : list Z) (line_size : Z)
    (written_out : Z) : M CircularBuffer (Z * list Z) :=
  '(extra, tail_copy, line2) ←
    (if wraps s then
       line_end ← lift_result (strchr (cells s) 0 newline);
       match line_end with
       | Some e =>
           let extra := Z.min (u16 (line_size - written_out)) (u16 (e - 0 + 1)) in
           line2 ← lift_result (copy_out s line written_out 0 extra);
           t ← mod_size (0 + extra);
           mret (extra, t, line2)
       | None => mret (0, 0, line)
       end
     else mret (0, cb_head s, line));
  line3 ← lift_result (store line2 (written_out + extra) 0);
  modify (set_maxed false);;
  modify (set_tail tail_copy);;
  mret (u16 (written_out + extra), line3).

(** No newline in the first run and the line is full before its end. *)
Definition consume_line_partial (s : CircularBuffer) (line : list Z) (line_size : Z)
    (written_out : Z) : M CircularBuffer (Z * list Z) :=
  let tail_copy := u16 (cb_tail s + written_out) in
  let consumable' := cb_head s in
  let will_consume' := Z.min (u16 (line_size - written_out)) consumable' in
  line_end ← lift_result (strchr (cells s) tail_copy newline);
  consume_line_finish s line line_size written_out tail_copy consumable'
    will_consume' line_end.

(** [consume_line(line, line_size)]; returns the length and the line. *)
Definition consume_line (line : list Z) (line_size : Z) : M CircularBuffer (Z * list Z) :=
  s ← get;
  let will_consume := Z.min line_size (consumable s) in
  line_end ← lift_result (strchr (cells s) (cb_tail s) newline);
  match line_end with
  | Some _ =>
      consume_line_finish s line line_size 0 (cb_tail s) (consumable s) will_consume line_end
  | None =>
      line1 ← lift_result (copy_out s line 0 (cb_tail s) will_consume);
      if decide (consumable s = will_consume)
      then consume_line_continue s line1 line_size will_consume
      else consume_line_partial s line1 line_size will_consume
  end.

(** [writeF(format, ...)]: [formatted] is the text [vsnprintf] produces; the
    static buffer has 600 bytes, and the assertion is compiled out by NDEBUG. *)
Definition print_buf_size : Z := 600.
Definition writeF (ndebug : bool) (formatted : list Z) : M CircularBuffer unit :=
  if negb ndebug && bool_decide (print_buf_size ≤ Z.of_nat (length formatted))
  then fail AssertFailed
  else write_items (take (Z.to_nat (print_buf_size - 1)) formatted ++ [0]).

(** * The abstract queue *)

(** The cell at a position counted modulo the size of the ring. *)
Definition cell (s : CircularBuffer) (i : Z) : Z :=
  default 0 (cells s !! Z.to_nat (i mod fixed_size s)).

Definition cb_len (s : CircularBuffer) : Z := (cb_head s - cb_tail s) mod fixed_size s.

Definition contents (s : CircularBuffer) : list Z :=
  (λ i, cell s (cb_tail s + i)) <$> seqZ 0 (cb_len s).

(** The well-formedness every operation maintains. *)
Record cb_wf (s : CircularBuffer) : Prop := {
  cbw_size : 2 ≤ fixed_size s < 2 ^ 16;
  cbw_cells : Z.of_nat (length (cells s)) = fixed_size s + 1;
  cbw_head : 0 ≤ cb_head s < fixed_size s;
  cbw_tail : 0 ≤ cb_tail s < fixed_size s;
  cbw_maxed : maxed s = true ↔ cb_head s = cb_tail s - 1;
}.

(** The text invariant: the extra cell and the cell at the write cursor hold
    the terminator (the latter once the cursor has left the start), and the
    data themselves contain no NUL. *)
Record cb_text (s : CircularBuffer) : Prop := {
  cbt_wf : cb_wf s;
  cbt_sentinel : cells s !! Z.to_nat (fixed_size s) = Some 0;
  cbt_term : cb_head s ≠ 0 → cells s !! Z.to_nat (cb_head s) = Some 0;
  cbt_nonzero : Forall (λ c, c ≠ 0) (contents s);
}.

(** * Lemmas: modular indices *)

Lemma mod_inj_window N a b :
  0 < N → a mod N = b mod N → - N < a - b < N → a = b.
Proof.
  intros HN Hab Hw. pose proof (Z.div_mod a N) as Ha. pose proof (Z.div_mod b N) as Hb.
  rewrite Hab in Ha. assert (a - b = N * (a / N - b / N)) by lia.
  assert (a / N - b / N = 0) by nia. nia.
Qed.

Lemma mod_add_l N a b : (a mod N + b) mod N = (a + b) mod N.
Proof. apply Zplus_mod_idemp_l. Qed.

Lemma mod_add_r N a b : (a + b mod N) mod N = (a + b) mod N.
Proof. rewrite Z.add_comm, mod_add_l. f_equal. lia. Qed.

Lemma cb_len_range s : cb_wf s → 0 ≤ cb_len s < fixed_size s.
Proof. intros []. apply Z.mod_pos_bound. lia. Qed.

Lemma cb_len_empty s : cb_wf s → empty s = true ↔ cb_len s = 0.
Proof.
  intros []. unfold empty, cb_len. rewrite bool_decide_eq_true. split.
  - intros ->. by rewrite Z.sub_diag, Z.mod_0_l by lia.
  - intros H. apply (mod_inj_window (fixed_size s)); [lia| |lia].
    rewrite Z.mod_eq in H by lia.
    replace (cb_head s) with (cb_tail s + fixed_size s * ((cb_head s - cb_tail s) / fixed_size s)) by lia.
    by rewrite Z.mul_comm, Z.mod_add by lia.
Qed.

Lemma cb_len_wraps s :
  cb_wf s → cb_len s = if wraps s then fixed_size s - cb_tail s + cb_head s
                       else cb_head s - cb_tail s.
Proof.
  intros []. unfold cb_len, wraps, empty.
  destruct (bool_decide_reflect (cb_head s ≤ cb_tail s)),
    (bool_decide_reflect (cb_head s = cb_tail s)); cbn.
  - rewrite e, Z.sub_diag. apply Z.mod_0_l. lia.
  - symmetry. apply (Z.mod_unique_pos _ _ (-1)); lia.
  - apply Z.mod_small. lia.
  - apply Z.mod_small. lia.
Qed.

Lemma length_contents s : cb_wf s → length (contents s) = Z.to_nat (cb_len s).
Proof. intros. unfold contents. by rewrite length_fmap, length_seqZ. Qed.

Lemma contents_lookup s (i : nat) :
  Z.of_nat i < cb_len s → contents s !! i = Some (cell s (cb_tail s + Z.of_nat i)).
Proof.
  intros Hi. unfold contents. rewrite list_lookup_fmap, lookup_seqZ_lt by lia.
  cbn. do 3 f_equal. 
Qed.

Lemma cell_load s i :
  cb_wf s → 0 ≤ i < fixed_size s → cells s !! Z.to_nat i = Some (cell s i).
Proof.
  intros [] Hi. unfold cell. rewrite Z.mod_small by lia.
  destruct (lookup_lt_is_Some_2 (cells s) (Z.to_nat i)) as [x Hx]; [lia|].
  by rewrite Hx.
Qed.

Lemma cell_mod s i j : i mod fixed_size s = j mod fixed_size s → cell s i = cell s j.
Proof. unfold cell. by intros ->. Qed.

(** A cursor moved over the first [n] items drops them. *)
Lemma contents_advance s n :
  cb_wf s → 0 ≤ n ≤ cb_len s →
  contents (set_tail ((cb_tail s + n) mod fixed_size s) s) = drop (Z.to_nat n) (contents s).
Proof.
  intros Hwf Hn. set (s' := set_tail _ s).
  assert (cb_len s' = cb_len s - n) as Hlen.
  { unfold cb_len, s'. cbn.
    rewrite <- (Z.mod_small (_ - n) (fixed_size s)) by (pose proof (cb_len_range s Hwf); unfold cb_len in *; lia).
    rewrite Zminus_mod_idemp_r, Zminus_mod_idemp_l. f_equal. lia. }
  pose proof (cb_len_range s Hwf).
  apply list_eq_same_length with (n := Z.to_nat (cb_len s - n)).
  - rewrite length_drop, length_contents by done. lia.
  - unfold contents. rewrite length_fmap, length_seqZ. by rewrite Hlen.
  - intros i x y Hi. rewrite lookup_drop.
    rewrite contents_lookup by lia. rewrite contents_lookup by lia.
    intros [= <-] [= <-]. unfold s'. cbn [cb_tail set_tail].
    change (cell (set_tail _ s)) with (cell s). apply cell_mod.
    rewrite mod_add_l. f_equal. lia.
Qed.

(** A contiguous run of items is a slice of the array. *)
Lemma slice_contents s k n :
  cb_wf s → 0 ≤ k → 0 ≤ n → k + n ≤ cb_len s →
  (cb_tail s + k) mod fixed_size s + n ≤ fixed_size s →
  slice (cells s) ((cb_tail s + k) mod fixed_size s) n
  = Ok (take (Z.to_nat n) (drop (Z.to_nat k) (contents s))).
Proof.
  intros Hwf Hk Hn Hlen Hcont. pose proof Hwf as [].
  set (start := (cb_tail s + k) mod fixed_size s) in *.
  assert (0 ≤ start < fixed_size s) by (apply Z.mod_pos_bound; lia).
  rewrite slice_ok by lia. f_equal.
  apply list_eq_same_length with (n := Z.to_nat n).
  - rewrite length_take, length_drop, length_contents by done. lia.
  - rewrite length_take, length_drop. lia.
  - intros i x y Hi. rewrite !lookup_take_lt, !lookup_drop by lia.
    rewrite contents_lookup by lia.
    replace (Z.to_nat start + i)%nat with (Z.to_nat (start + Z.of_nat i)) by lia.
    rewrite cell_load by (done || lia). intros [= <-] [= <-].
    apply cell_mod. unfold start. rewrite mod_add_l. f_equal. lia.
Qed.

(** * Lemmas: consuming *)

(** The state after [n] items have been taken out. *)
Definition advance_tail (n : Z) (s : CircularBuffer) : CircularBuffer :=
  set_maxed false (set_tail ((cb_tail s + n) mod fixed_size s) s).

Lemma contents_advance_tail s n :
  cb_wf s → 0 ≤ n ≤ cb_len s →
  contents (advance_tail n s) = drop (Z.to_nat n) (contents s).
Proof. intros. rewrite <- contents_advance by done. done. Qed.

Lemma advance_tail_wf s n :
  cb_wf s → 0 ≤ n ≤ cb_len s → 0 < n ∨ maxed s = false → cb_wf (advance_tail n s).
Proof.
  intros Hwf Hn Hor. pose proof (cb_len_range s Hwf) as Hr. pose proof Hwf as [].
  constructor; cbn; auto; [apply Z.mod_pos_bound; lia|].
  split; [done|]. intros Hhead. exfalso.
  assert (length (contents (advance_tail n s)) = Z.to_nat (fixed_size s - 1)) as Hlen.
  { unfold contents. rewrite length_fmap, length_seqZ. f_equal.
    unfold cb_len, advance_tail. cbn. rewrite Hhead.
    replace (_ - 1 - _) with (-1) by lia.
    symmetry. apply (Z.mod_unique_pos _ _ (-1)); lia. }
  rewrite contents_advance_tail, length_drop, length_contents in Hlen by done.
  assert (n = 0) as -> by lia. destruct Hor as [|Hm]; [lia|].
  rewrite Z.add_0_r, Z.mod_small in Hhead by lia.
  apply cbw_maxed0 in Hhead. congruence.
Qed.

Lemma advance_tail_text s n :
  cb_text s → 0 ≤ n ≤ cb_len s → 0 < n ∨ maxed s = false → cb_text (advance_tail n s).
Proof.
  intros [] Hn Hor. constructor; [by apply advance_tail_wf|done|done|].
  rewrite contents_advance_tail by done. by apply Forall_drop.
Qed.

Lemma mod_size_pos s x :
  2 ≤ fixed_size s < 2 ^ 16 → 0 ≤ x → mod_size x s = Ok (x mod fixed_size s, s).
Proof.
  intros Hs Hx. unfold mod_size, mbind, M_bind, get, lift_result, cpp_mod.
  rewrite decide_False by lia. unfold mret, M_ret, u16. do 2 f_equal.
  pose proof (Z.mod_pos_bound x (fixed_size s)). apply wrap_small. unfold in_width. lia.
Qed.

Lemma mod_size_ok s x : cb_wf s → 0 ≤ x → mod_size x s = Ok (x mod fixed_size s, s).
Proof. intros []. by apply mod_size_pos. Qed.

Lemma wp_mod_size s x (Q : Z → CircularBuffer → Prop) :
  cb_wf s → 0 ≤ x → Q (x mod fixed_size s) s → wp (mod_size x) Q s.
Proof. intros Hwf Hx HQ. unfold wp. by rewrite mod_size_ok. Qed.

Lemma wp_lift {S A} (r : result A) a (Q : A → S → Prop) s :
  r = Ok a → Q a s → wp (lift_result r) Q s.
Proof. intros -> HQ. done. Qed.

(** The data up to the end of the array. *)
Lemma consumable_spec s :
  cb_wf s → consumable s = (if wraps s then fixed_size s - cb_tail s else cb_len s) ∧
  0 ≤ consumable s ≤ cb_len s ∧ cb_tail s + consumable s ≤ fixed_size s ∧
  (if wraps s then 0 else cb_head s) = (cb_tail s + consumable s) mod fixed_size s ∧
  (empty s = false → 0 < consumable s).
Proof.
  intros Hwf. pose proof (cb_len_wraps s Hwf) as Hl. pose proof (cb_len_range s Hwf).
  pose proof (cb_len_empty s Hwf) as He. pose proof Hwf as [].
  unfold consumable, u16.
  destruct (wraps s) eqn:Hw.
  - rewrite wrap_small by (unfold in_width; lia).
    replace (cb_tail s + (fixed_size s - cb_tail s)) with (fixed_size s) by lia.
    rewrite Z.mod_same by lia. repeat split; lia.
  - rewrite wrap_small by (unfold in_width; lia). rewrite Hl.
    replace (cb_tail s + (cb_head s - cb_tail s)) with (cb_head s) by lia.
    rewrite Z.mod_small by lia. split_and!; try lia.
    intros Hne. destruct (decide (cb_len s = 0)) as [H0|]; [|lia].
    apply He in H0. congruence.
Qed.

Lemma slice_front s n :
  cb_wf s → 0 ≤ n ≤ consumable s →
  slice (cells s) (cb_tail s) n = Ok (take (Z.to_nat n) (contents s)).
Proof.
  intros Hwf Hn. destruct (consumable_spec s Hwf) as (_ & Hc & Hb & _). pose proof Hwf as [].
  rewrite <- (drop_0 (contents s)). change 0%nat with (Z.to_nat 0).
  assert ((cb_tail s + 0) mod fixed_size s = cb_tail s) as Ht
    by (rewrite Z.add_0_r; apply Z.mod_small; lia).
  rewrite <- Ht at 1. apply slice_contents; try done; lia.
Qed.

(** The first segment of wrapped data ends the array; the rest starts it. *)
Lemma slice_second s n :
  cb_wf s → wraps s = true → 0 ≤ n ≤ cb_head s →
  slice (cells s) 0 n
  = Ok (take (Z.to_nat n) (drop (Z.to_nat (consumable s)) (contents s))).
Proof.
  intros Hwf Hw Hn. destruct (consumable_spec s Hwf) as (Hce & Hc & Hb & Hz & _).
  pose proof (cb_len_wraps s Hwf) as Hl. rewrite Hw in Hce, Hz, Hl. pose proof Hwf as [].
  rewrite Hz at 1. apply slice_contents; try done; lia.
Qed.

(** * Lemmas: searching and copying *)

Lemma strchr_from_total l c i :
  0 ∈ l → ∃ o, strchr_from l c i = Ok o ∧
    match o with Some e => i ≤ e < i + Z.of_nat (length l) | None => True end.
Proof.
  revert i. induction l as [|x l IH]; intros i Hin; [by apply elem_of_nil in Hin|].
  cbn [strchr_from]. case_decide; [exists (Some i); cbn; split; [done|lia]|].
  case_decide; [by exists None|].
  apply elem_of_cons in Hin as [|Hin]; [congruence|].
  destruct (IH (i + 1) Hin) as (o & -> & Ho). exists o. split; [done|].
  destruct o; [cbn [length]; lia|done].
Qed.

(** A search over a NUL-terminated run of text. *)
Lemma strchr_from_text l rest c i :
  Forall (λ x, x ≠ 0) l → c ≠ 0 →
  (∃ d, strchr_from (l ++ 0 :: rest) c i = Ok (Some (i + Z.of_nat d)) ∧
        l !! d = Some c ∧ c ∉ take d l)
  ∨ (strchr_from (l ++ 0 :: rest) c i = Ok None ∧ c ∉ l).
Proof.
  intros Hl Hc. revert i. induction Hl as [|x l Hx Hl IH]; intros i; cbn [app strchr_from].
  - right. rewrite decide_False, decide_True by done. split; [done|]. apply not_elem_of_nil.
  - destruct (decide (x = c)) as [->|Hne].
    + left. exists 0%nat. rewrite Z.add_0_r. cbn. split_and!; [done..|apply not_elem_of_nil].
    + rewrite decide_False by done. destruct (IH (i + 1)) as [(d & -> & Hd & Hn)|[-> Hn]].
      * left. exists (S d). split_and!; [do 2 f_equal; lia|done|].
        cbn. apply not_elem_of_cons. done.
      * right. split; [done|]. apply not_elem_of_cons. done.
Qed.

(** [line] starts with [pre]. *)
Definition starts (line pre : list Z) : Prop := take (length pre) line = pre.

Lemma copy_out_ok s line off from n pre src :
  slice (cells s) from n = Ok src → starts line pre → off = Z.of_nat (length pre) →
  off + Z.of_nat (length src) ≤ Z.of_nat (length line) →
  ∃ line', copy_out s line off from n = Ok line' ∧ starts line' (pre ++ src) ∧
    length line' = length line.
Proof.
  intros Hs Hpre -> Hcap. unfold copy_out, mbind, result_bind. rewrite Hs.
  unfold store_bytes. rewrite decide_True by lia. eexists. split; [done|].
  unfold starts in *. rewrite Nat2Z.id, Hpre. split.
  - rewrite app_assoc. by rewrite take_app_length.
  - rewrite !length_app, length_drop. lia.
Qed.

Lemma store_nul_ok line pre off :
  starts line pre → off = Z.of_nat (length pre) → off < Z.of_nat (length line) →
  ∃ line', store line off 0 = Ok line' ∧ starts line' (pre ++ [0]) ∧
    length line' = length line.
Proof.
  intros Hpre -> Hcap. rewrite store_in_range by lia. eexists. split; [done|].
  unfold starts in *. rewrite Nat2Z.id, length_insert. split; [|done].
  rewrite length_app. cbn [length]. rewrite Nat.add_1_r.
  rewrite (take_S_r _ _ 0) by (apply list_lookup_insert_eq; lia).
  by rewrite take_insert_ge, Hpre by lia.
Qed.

(** * The specification of [consume_line] *)

(** The number of items up to and including the first newline. *)
Fixpoint first_line (l : list Z) : Z :=
  match l with
  | [] => 0
  | x :: l' => 1 + (if decide (x = newline) then 0 else first_line l')
  end.

Definition segment1 (s : CircularBuffer) : list Z := take (Z.to_nat (consumable s)) (contents s).
Definition segment2 (s : CircularBuffer) : list Z := drop (Z.to_nat (consumable s)) (contents s).

(** How much [consume_line] takes: a line, as much of it as fits, or the data
    up to the end of the array when the line does not continue past it. *)
Definition line_length (s : CircularBuffer) (line_size : Z) : Z :=
  if decide (newline ∈ segment1 s) then Z.min line_size (first_line (segment1 s))
  else if decide (line_size < consumable s) then line_size
  else consumable s +
    (if decide (newline ∈ segment2 s)
     then Z.min (line_size - consumable s) (first_line (segment2 s)) else 0).

Definition line_post (s : CircularBuffer) (line : list Z) (n : Z)
    (res : result ((Z * list Z) * CircularBuffer)) : Prop :=
  ∃ line', res = Ok ((n, line'), advance_tail n s) ∧
    starts line' (take (Z.to_nat n) (contents s) ++ [0]) ∧ length line' = length line.

Lemma first_line_at l d :
  l !! d = Some newline → newline ∉ take d l → first_line l = Z.of_nat d + 1.
Proof.
  revert d. induction l as [|x l IH]; intros [|d] Hd Hn; try done; cbn [first_line].
  - injection Hd as ->. by rewrite decide_True.
  - cbn in Hn. apply not_elem_of_cons in Hn as [Hx Hn].
    rewrite decide_False by done. rewrite (IH d) by done. lia.
Qed.

Lemma first_line_bound l : 0 ≤ first_line l ≤ Z.of_nat (length l).
Proof. induction l; cbn [first_line length]; [lia|]. case_decide; lia. Qed.

Lemma first_line_pos l : l ≠ [] → 0 < first_line l.
Proof. destruct l; [done|]. cbn. pose proof (first_line_bound l). case_decide; lia. Qed.

Lemma length_segment1 s : cb_wf s → Z.of_nat (length (segment1 s)) = consumable s.
Proof.
  intros Hwf. destruct (consumable_spec s Hwf) as (_ & Hc & _).
  unfold segment1. rewrite length_take, length_contents by done. lia.
Qed.

Lemma length_segment2 s :
  cb_wf s → Z.of_nat (length (segment2 s)) = cb_len s - consumable s.
Proof.
  intros Hwf. destruct (consumable_spec s Hwf) as (_ & Hc & _).
  unfold segment2. rewrite length_drop, length_contents by done. lia.
Qed.

(** The array from the read cursor on: the first segment, then a terminator. *)
Lemma segment1_array s :
  cb_text s → empty s = false →
  ∃ rest, drop (Z.to_nat (cb_tail s)) (cells s) = segment1 s ++ 0 :: rest.
Proof.
  intros [Hwf Hsent Hterm _] Hne.
  destruct (consumable_spec s Hwf) as (Hce & Hc & Hb & _ & Hpos). pose proof Hwf as [].
  pose proof (slice_front s (consumable s) Hwf ltac:(lia)) as Hs.
  rewrite slice_ok in Hs by lia. injection Hs as Hs.
  set (n := Z.to_nat (consumable s)) in *. set (l := drop _ (cells s)) in *.
  exists (drop (S n) l). unfold segment1. fold n. rewrite <- Hs.
  rewrite <- (take_drop n l) at 1. f_equal.
  apply drop_S. unfold l. rewrite lookup_drop.
  replace (Z.to_nat (cb_tail s) + n)%nat with (Z.to_nat (cb_tail s + consumable s)) by lia.
  pose proof (cb_len_wraps s Hwf) as Hl.
  destruct (wraps s) eqn:Hw; rewrite Hce.
  - by replace (cb_tail s + (fixed_size s - cb_tail s)) with (fixed_size s) by lia.
  - rewrite Hl. replace (cb_tail s + (cb_head s - cb_tail s)) with (cb_head s) by lia.
    apply Hterm. specialize (Hpos Hne). lia.
Qed.

(** The start of the array in wrapped state: the second segment, terminated. *)
Lemma segment2_array s :
  cb_text s → wraps s = true → cb_head s ≠ 0 →
  ∃ rest, cells s = segment2 s ++ 0 :: rest.
Proof.
  intros [Hwf _ Hterm _] Hw Hh.
  destruct (consumable_spec s Hwf) as (Hce & Hc & Hb & _ & _).
  pose proof (cb_len_wraps s Hwf) as Hl. rewrite Hw in Hce, Hl. pose proof Hwf as [].
  pose proof (slice_second s (cb_head s) Hwf Hw ltac:(lia)) as Hs.
  rewrite slice_ok in Hs by lia. injection Hs as Hs. change (Z.to_nat 0) with 0%nat in Hs.
  rewrite drop_0 in Hs. fold (segment2 s) in Hs.
  pose proof (length_segment2 s Hwf) as Hl2.
  rewrite (take_ge (segment2 s)) in Hs by lia.
  exists (drop (S (Z.to_nat (cb_head s))) (cells s)). rewrite <- Hs.
  rewrite <- (take_drop (Z.to_nat (cb_head s)) (cells s)) at 1. f_equal.
  by apply drop_S, Hterm.
Qed.

Lemma sentinel_in s start :
  cb_text s → 0 ≤ start ≤ fixed_size s → 0 ∈ drop (Z.to_nat start) (cells s).
Proof.
  intros [_ Hsent _ _] Hs. apply list_elem_of_lookup.
  exists (Z.to_nat (fixed_size s - start)). rewrite lookup_drop.
  by replace (Z.to_nat start + _)%nat with (Z.to_nat (fixed_size s)) by lia.
Qed.

(** The common end of [consume_line]. *)
Lemma finish_ok s line line_size pre src w t cons will le k :
  cb_wf s → starts line pre → w = Z.of_nat (length pre) →
  t = (cb_tail s + w) mod fixed_size s →
  slice (cells s) t k = Ok src → Z.of_nat (length src) = k →
  match le with Some e => Z.min will (u16 (e - t + 1)) | None => will end = k →
  w + k ≤ cons → w + k < Z.of_nat (length line) → w + k < 2 ^ 16 →
  pre ++ src = take (Z.to_nat (w + k)) (contents s) →
  line_post s line (w + k)
    (consume_line_finish s line line_size w t cons will le s).
Proof.
  intros Hwf Hpre Hw Ht Hsl Hlen Hk Hcons Hcap Hu16 Happ. pose proof Hwf as [].
  unfold consume_line_finish. rewrite Hk.
  destruct (copy_out_ok s line w t k pre src Hsl Hpre Hw) as (l1 & Hc1 & Hs1 & Hl1); [lia|].
  destruct (store_nul_ok l1 (pre ++ src) (w + k) Hs1) as (l2 & Hc2 & Hs2 & Hl2);
    [rewrite length_app; lia|lia|].
  unfold mbind, M_bind, lift_result. rewrite Hc1. unfold modify.
  rewrite decide_True by lia.
  assert (0 ≤ t + k) by (rewrite Ht; pose proof (Z.mod_pos_bound (cb_tail s + w) (fixed_size s)); lia).
  assert (mod_size (t + k) (set_maxed false s) = Ok ((t + k) mod fixed_size s, set_maxed false s)) as ->.
  { pose proof (mod_size_ok s (t + k) Hwf ltac:(lia)) as Hm. revert Hm.
    unfold mod_size, mbind, M_bind, get, lift_result. cbn.
    destruct (cpp_mod _ _); [|done]. intros [= ->]. done. }
  rewrite Hc2. exists l2. unfold mret, M_ret. split_and!.
  - do 3 f_equal; [unfold u16; apply wrap_small; unfold in_width; lia|].
    rewrite Ht, mod_add_l. unfold advance_tail. by rewrite Z.add_assoc.
  - by rewrite <- Happ.
  - lia.
Qed.

(** Lines that [consume_line] takes out correctly: their newline is in the
    first run, or the data continue past the end of the array in a way that its
    cursor arithmetic covers. *)
Definition line_ok (s : CircularBuffer) (line_size : Z) : Prop :=
  wraps s = true → newline ∉ segment1 s →
  cb_head s ≠ 0 ∧ (line_size < consumable s → line_size ≤ cb_head s).

Lemma store_end_ok s line pre n t :
  cb_wf s → starts line pre → n = Z.of_nat (length pre) → n < Z.of_nat (length line) →
  n < 2 ^ 16 → t = (cb_tail s + n) mod fixed_size s →
  pre = take (Z.to_nat n) (contents s) →
  line_post s line n
    ((line3 ← lift_result (store line n 0);
      modify (set_maxed false);; modify (set_tail t);; mret (u16 n, line3)) s).
Proof.
  intros Hwf Hpre Hn Hcap Hu16 -> Hpc.
  destruct (store_nul_ok line pre n Hpre Hn Hcap) as (l & Hs & Hst & Hl).
  unfold mbind, M_bind, lift_result. rewrite Hs. exists l. split_and!.
  - unfold u16. rewrite wrap_small by (unfold in_width; lia). done.
  - by rewrite <- Hpc.
  - done.
Qed.

Lemma lift_bind_ok {S A B} (r : result A) (f : A → M S B) s a :
  r = Ok a → (lift_result r ≫= f) s = f a s.
Proof. by intros ->. Qed.

Lemma line_post_line s line line' n r :
  length line' = length line → line_post s line' n r → line_post s line n r.
Proof. intros Hl (l & ? & ? & ?). exists l. split_and!; auto; congruence. Qed.

Lemma strchr_segment1 s :
  cb_text s → empty s = false →
  (∃ d, strchr (cells s) (cb_tail s) newline = Ok (Some (cb_tail s + Z.of_nat d)) ∧
        segment1 s !! d = Some newline ∧ first_line (segment1 s) = Z.of_nat d + 1)
  ∨ (strchr (cells s) (cb_tail s) newline = Ok None ∧ newline ∉ segment1 s).
Proof.
  intros Ht Hne. destruct (segment1_array s Ht Hne) as [rest Hrest].
  unfold strchr. rewrite Hrest.
  destruct (strchr_from_text (segment1 s) rest newline (cb_tail s)) as [(d & -> & Hd & Hn)|[-> Hn]];
    [apply Forall_take, Ht|done|left|by right].
  exists d. split_and!; [done..|by apply first_line_at].
Qed.

Lemma strchr_segment2 s :
  cb_text s → wraps s = true → cb_head s ≠ 0 →
  (∃ d, strchr (cells s) 0 newline = Ok (Some (Z.of_nat d)) ∧
        segment2 s !! d = Some newline ∧ first_line (segment2 s) = Z.of_nat d + 1)
  ∨ (strchr (cells s) 0 newline = Ok None ∧ newline ∉ segment2 s).
Proof.
  intros Ht Hw Hh. destruct (segment2_array s Ht Hw Hh) as [rest Hrest].
  unfold strchr. change (Z.to_nat 0) with 0%nat. rewrite drop_0, Hrest.
  destruct (strchr_from_text (segment2 s) rest newline 0) as [(d & -> & Hd & Hn)|[-> Hn]];
    [apply Forall_drop, Ht|done|left|by right].
  exists d. split_and!; [done..|by apply first_line_at].
Qed.

(** The line ends with the first run of the data. *)
Lemma continue_none_ok s line line_size t :
  cb_text s → newline ∉ segment1 s → newline ∉ segment2 s →
  consumable s ≤ line_size < 2 ^ 16 → line_size < Z.of_nat (length line) →
  starts line (segment1 s) → t = (cb_tail s + consumable s) mod fixed_size s →
  line_post s line (line_length s line_size)
    ((line3 ← lift_result (store line (consumable s + 0) 0);
      modify (set_maxed false);; modify (set_tail t);;
      mret (u16 (consumable s + 0), line3)) s).
Proof.
  intros [Hwf _ _ _] Hn1 Hn2 Hfit Hcap Hpre ->. pose proof (length_segment1 s Hwf) as Hl1.
  assert (line_length s line_size = consumable s) as ->.
  { unfold line_length. rewrite !decide_False by (done || lia). lia. }
  rewrite Z.add_0_r. eapply store_end_ok; [done|exact Hpre|lia..|done|done].
Qed.

Lemma continue_ok s line line_size :
  cb_text s → line_ok s line_size →
  newline ∉ segment1 s → consumable s ≤ line_size < 2 ^ 16 →
  line_size < Z.of_nat (length line) → starts line (segment1 s) →
  line_post s line (line_length s line_size)
    (consume_line_continue s line line_size (consumable s) s).
Proof.
  intros Ht Hok Hn1 Hfit Hcap Hpre. pose proof Ht as [Hwf _ _ _].
  pose proof Hwf as []. destruct (consumable_spec s Hwf) as (Hce & Hc & Hb & Hz & _).
  pose proof (length_segment1 s Hwf) as Hl1. pose proof (length_segment2 s Hwf) as Hl2.
  pose proof (cb_len_wraps s Hwf) as Hlen. pose proof (cb_len_range s Hwf).
  unfold consume_line_continue. destruct (wraps s) eqn:Hw.
  2: { apply continue_none_ok; try done.
       assert (segment2 s = []) as -> by (apply nil_length_inv; lia). apply not_elem_of_nil. }
  destruct (Hok Hw Hn1) as [Hh _]. rewrite M_bind_assoc.
  destruct (strchr_segment2 s Ht Hw Hh) as [(d & Hs & Hd & Hfl)|[Hs Hn2]];
    rewrite (lift_bind_ok _ _ _ _ Hs); [|by apply continue_none_ok].
  pose proof (lookup_lt_Some _ _ _ Hd) as Hdl.
  set (extra := Z.min (u16 (line_size - consumable s)) (u16 (Z.of_nat d - 0 + 1))).
  assert (extra = Z.min (line_size - consumable s) (Z.of_nat d + 1)) as He.
  { unfold extra, u16. rewrite !wrap_small by (unfold in_width; lia). lia. }
  assert (line_length s line_size = consumable s + extra) as ->.
  { unfold line_length. rewrite !decide_False by (done || lia).
    rewrite decide_True by (apply list_elem_of_lookup; eauto). lia. }
  destruct (copy_out_ok s line (consumable s) 0 extra (segment1 s)
    (take (Z.to_nat extra) (segment2 s))) as (l1 & Hc1 & Hs1 & Hl1');
    [apply slice_second; try done; lia|done|lia|rewrite length_take; lia|].
  rewrite M_bind_assoc, (lift_bind_ok _ _ _ _ Hc1), M_bind_assoc.
  rewrite (M_bind_ok _ _ _ _ _ (mod_size_ok s (0 + extra) Hwf ltac:(lia))).
  apply (line_post_line _ _ l1); [done|].
  eapply store_end_ok; [done|exact Hs1|rewrite length_app, length_take; lia|lia|lia|..].
  - rewrite Z.add_assoc, <- (mod_add_l _ (cb_tail s + consumable s)), <- Hz. done.
  - unfold segment1, segment2. rewrite Z2Nat.inj_add by lia. by rewrite <- take_take_drop.
Qed.

Lemma partial_ok s line line_size pre :
  cb_text s → line_ok s line_size → newline ∉ segment1 s →
  0 ≤ line_size < consumable s → line_size < Z.of_nat (length line) →
  pre = take (Z.to_nat line_size) (contents s) → starts line pre →
  line_post s line (line_length s line_size) (consume_line_partial s line line_size line_size s).
Proof.
  intros Ht Hok Hn1 Hfit Hcap Hp Hpre. pose proof Ht as [Hwf _ _ _].
  pose proof Hwf as []. destruct (consumable_spec s Hwf) as (Hce & Hc & Hb & Hz & _).
  pose proof (cb_len_wraps s Hwf) as Hlen. pose proof (cb_len_range s Hwf).
  assert (length pre = Z.to_nat line_size) as Hpl.
  { rewrite Hp, length_take, length_contents by done. lia. }
  unfold consume_line_partial.
  assert (u16 (cb_tail s + line_size) = cb_tail s + line_size) as ->
    by (apply wrap_small; unfold in_width; lia).
  destruct (strchr_from_total (drop (Z.to_nat (cb_tail s + line_size)) (cells s)) newline
    (cb_tail s + line_size)) as (o & Hs & Ho); [apply sentinel_in; [done|lia]|].
  fold (strchr (cells s) (cb_tail s + line_size) newline) in Hs.
  rewrite (lift_bind_ok _ _ _ _ Hs).
  assert (line_length s line_size = line_size + 0) as ->.
  { unfold line_length. rewrite decide_False, decide_True by (done || lia). lia. }
  assert (line_size ≤ cb_head s) as Hh.
  { destruct (wraps s) eqn:Hw; [|lia]. apply (Hok Hw Hn1). lia. }
  apply (finish_ok s line line_size pre []); try done; try lia.
  - rewrite Z.mod_small; lia.
  - rewrite slice_ok; [done|lia..].
  - rewrite Z.sub_diag. change (u16 0) with 0.
    destruct o as [e|]; [|lia]. pose proof (wrap_in_width 16 (e - (cb_tail s + line_size) + 1)).
    unfold u16, in_width in *. lia.
  - rewrite app_nil_r, Z.add_0_r. done.
Qed.

Lemma empty_ok s line line_size :
  cb_text s → empty s = true → 0 ≤ line_size < 2 ^ 16 →
  line_size < Z.of_nat (length line) →
  line_post s line 0 (consume_line line line_size s).
Proof.
  intros Ht He Hfit Hcap. pose proof Ht as [Hwf _ _ _]. pose proof Hwf as [].
  destruct (consumable_spec s Hwf) as (Hce & Hc & Hb & Hz & _).
  pose proof (proj1 (cb_len_empty s Hwf) He).
  assert (wraps s = false) as Hw by (unfold wraps; by rewrite He, andb_false_r).
  assert (slice (cells s) (cb_tail s) 0 = Ok []) as Hsl by (rewrite slice_ok; [done|lia..]).
  unfold consume_line. rewrite (M_bind_ok get _ s s s eq_refl).
  destruct (strchr_from_total (drop (Z.to_nat (cb_tail s)) (cells s)) newline (cb_tail s))
    as (o & Hs & Ho); [apply sentinel_in; [done|lia]|].
  fold (strchr (cells s) (cb_tail s) newline) in Hs. rewrite (lift_bind_ok _ _ _ _ Hs).
  replace (Z.min line_size (consumable s)) with 0 by lia.
  destruct o as [e|].
  - change 0 with (0 + 0) at 1. apply (finish_ok s line line_size [] []); try done; try lia.
    all: try (rewrite Z.add_0_r; symmetry; apply Z.mod_small; lia).
    + pose proof (wrap_in_width 16 (e - cb_tail s + 1)). unfold u16, in_width in *. lia.
  - destruct (copy_out_ok s line 0 (cb_tail s) 0 [] []) as (l1 & Hc1 & Hs1 & Hl1);
      [done|done|done|cbn; lia|].
    rewrite (lift_bind_ok _ _ _ _ Hc1), decide_True by lia.
    unfold consume_line_continue. rewrite Hw. apply (line_post_line _ _ l1); [done|].
    apply (store_end_ok s l1 [] 0); try done; try lia.
    rewrite Z.add_0_r, Z.mod_small by lia. unfold empty in He.
    by apply bool_decide_eq_true in He.
Qed.

Lemma line_length_bounds s line_size :
  cb_wf s → 0 < line_size →
  0 ≤ line_length s line_size ≤ cb_len s ∧ line_length s line_size ≤ line_size ∧
  (empty s = false → 0 < line_length s line_size).
Proof.
  intros Hwf Hls. destruct (consumable_spec s Hwf) as (_ & Hc & _ & _ & Hpos).
  pose proof (length_segment1 s Hwf). pose proof (length_segment2 s Hwf).
  pose proof (first_line_bound (segment1 s)). pose proof (first_line_bound (segment2 s)).
  unfold line_length. case_decide as Hn1.
  - assert (0 < first_line (segment1 s)); [|lia].
    apply first_line_pos. intros Hnil. rewrite Hnil in Hn1. by apply elem_of_nil in Hn1.
  - repeat case_decide; (split; [|split; [|intros Hne; specialize (Hpos Hne)]]); lia.
Qed.

Lemma consume_line_ok s line line_size :
  cb_text s → 0 < line_size < 2 ^ 16 → line_size < Z.of_nat (length line) →
  line_ok s line_size →
  line_post s line (line_length s line_size) (consume_line line line_size s).
Proof.
  intros Ht Hls Hcap Hok. pose proof Ht as [Hwf _ _ _]. pose proof Hwf as [].
  destruct (consumable_spec s Hwf) as (Hce & Hc & Hb & Hz & Hpos).
  pose proof (length_segment1 s Hwf) as Hl1. pose proof (cb_len_range s Hwf).
  destruct (empty s) eqn:Hne.
  { assert (line_length s line_size = 0) as ->; [|by apply empty_ok; try lia].
    pose proof (line_length_bounds s line_size Hwf). apply cb_len_empty in Hne; [lia|done]. }
  specialize (Hpos eq_refl). unfold consume_line. rewrite (M_bind_ok get _ s s s eq_refl).
  destruct (strchr_segment1 s Ht Hne) as [(d & Hs & Hd & Hfl)|[Hs Hn1]];
    rewrite (lift_bind_ok _ _ _ _ Hs).
  - pose proof (lookup_lt_Some _ _ _ Hd) as Hdl. set (n := line_length s line_size).
    assert (n = Z.min line_size (first_line (segment1 s))) as Hn.
    { unfold n, line_length. by rewrite decide_True by (apply list_elem_of_lookup; eauto). }
    replace n with (0 + n) by lia.
    apply (finish_ok s line line_size [] (take (Z.to_nat n) (contents s))); try done; try lia.
    + rewrite Z.add_0_r. symmetry. apply Z.mod_small. lia.
    + apply slice_front; [done|lia].
    + rewrite length_take, length_contents by done. lia.
    + unfold u16. rewrite wrap_small by (unfold in_width; lia). lia.
  - set (will := Z.min line_size (consumable s)).
    destruct (copy_out_ok s line 0 (cb_tail s) will [] (take (Z.to_nat will) (contents s)))
      as (l1 & Hc1 & Hs1 & Hl1');
      [apply slice_front; [done|lia]|done|done
      |rewrite length_take, length_contents by done; lia|].
    rewrite (lift_bind_ok _ _ _ _ Hc1). apply (line_post_line _ _ l1); [done|].
    cbn [app] in Hs1. case_decide as Heq.
    + rewrite <- Heq in *. apply continue_ok; try done; lia.
    + assert (will = line_size ∧ line_size < consumable s) as [Hwill Hlt] by lia.
      rewrite Hwill in *. eapply (partial_ok s l1 line_size _ Ht Hok Hn1); [lia|lia|reflexivity|exact Hs1].
Qed.

(** * Lemmas: writing *)

(** The stream [w] written from position [cb_tail s] on, of which the last
    [m] items are still in the ring. *)
Definition stream (m : Z) (s : CircularBuffer) (w : list Z) : Prop :=
  ∀ p : nat, (p < length w)%nat → Z.of_nat (length w) - m ≤ Z.of_nat p →
    cell s (cb_tail s + Z.of_nat p) = default 0 (w !! p).

Lemma stream_contents m s : cb_wf s → stream m s (contents s).
Proof.
  intros Hwf p Hp _. rewrite length_contents in Hp by done.
  by rewrite contents_lookup by lia.
Qed.

(** When the cursors delimit the last items of the stream, they are the contents. *)
Lemma contents_stream m s w t h n :
  2 ≤ fixed_size s → stream m s w → 0 ≤ n ≤ m → n ≤ Z.of_nat (length w) →
  t = (cb_tail s + Z.of_nat (length w) - n) mod fixed_size s →
  (h - t) mod fixed_size s = n →
  contents (set_head h (set_tail t s)) = lastn (Z.to_nat n) w.
Proof.
  intros HN Hst Hn Hnw Ht Hlen. set (s' := set_head h (set_tail t s)).
  assert (cb_len s' = n) as Hl' by done.
  apply list_eq_same_length with (n := Z.to_nat n).
  - rewrite length_lastn. lia.
  - unfold contents. rewrite length_fmap, length_seqZ. by rewrite Hl'.
  - intros i x y Hi. unfold lastn. rewrite lookup_drop.
    rewrite contents_lookup by lia.
    set (p := (length w - Z.to_nat n + i)%nat). intros [= <-] Hy.
    change (cell s') with (cell s). change (cb_tail s') with t.
    rewrite (cell_mod s _ (cb_tail s + Z.of_nat p)).
    + rewrite Hst by lia. by rewrite Hy.
    + rewrite Ht, mod_add_l. f_equal. lia.
Qed.

Lemma cell_store s i x j :
  cb_wf s → 0 ≤ i ≤ fixed_size s →
  cell (set_cells (<[Z.to_nat i := x]> (cells s)) s) j
  = if decide (i = j mod fixed_size s) then x else cell s j.
Proof.
  intros [] Hi. unfold cell. cbn [cells set_cells fixed_size].
  pose proof (Z.mod_pos_bound j (fixed_size s)). case_decide as Hd.
  - rewrite <- Hd, list_lookup_insert_eq by lia. done.
  - by rewrite list_lookup_insert_ne by lia.
Qed.

(** One more item in the ring, at the position that follows the stream. *)
Lemma stream_snoc m s w x :
  cb_wf s → m ≤ fixed_size s → stream m s w →
  stream m (set_cells (<[Z.to_nat ((cb_tail s + Z.of_nat (length w)) mod fixed_size s) := x]>
                    (cells s)) s) (w ++ [x]).
Proof.
  intros Hwf Hm Hst p Hp Hlast. pose proof Hwf as []. rewrite length_app in *. cbn in *.
  rewrite cell_store by (done || (pose proof (Z.mod_pos_bound (cb_tail s + Z.of_nat (length w)) (fixed_size s)); lia)).
  case_decide as Hd.
  - apply mod_inj_window in Hd; [|lia..].
    assert (p = length w) as -> by lia. by rewrite list_lookup_middle.
  - assert (p ≠ length w) by (intros ->; congruence).
    rewrite lookup_app_l by lia. apply Hst; lia.
Qed.

(** A store behind the stream keeps all but its oldest item in a full ring. *)
Lemma stream_store_behind s w i x :
  cb_wf s → stream (fixed_size s) s w →
  i = (cb_tail s + Z.of_nat (length w)) mod fixed_size s ∨ i = fixed_size s →
  stream (fixed_size s - 1) (set_cells (<[Z.to_nat i := x]> (cells s)) s) w.
Proof.
  intros Hwf Hst Hi p Hp Hlast. pose proof Hwf as [].
  pose proof (Z.mod_pos_bound (cb_tail s + Z.of_nat (length w)) (fixed_size s)).
  rewrite cell_store by (done || lia). cbn [cb_tail set_cells].
  rewrite decide_False; [apply Hst; lia|]. intros Heq.
  destruct Hi as [Hi|Hi].
  - rewrite Hi in Heq. apply mod_inj_window in Heq; lia.
  - pose proof (Z.mod_pos_bound (cb_tail s + Z.of_nat p) (fixed_size s)). lia.
Qed.

(** The loop of [write_items] has seen the ring fill up. *)
Definition filled (s : CircularBuffer) (n : Z) : bool :=
  bool_decide ((cb_tail s ≠ 0 ∧ fixed_size s - 1 ≤ n) ∨ (cb_tail s = 0 ∧ fixed_size s ≤ n)).

(** The state of the loop: the cells and the flag differ from the start. *)
Definition loop_state (s : CircularBuffer) (c : list Z) (m : bool) : CircularBuffer :=
  set_maxed m (set_cells c s).

(** What the loop maintains after the items [w] are in the stream. *)
Record loop_inv (s : CircularBuffer) (c : list Z) (w : list Z) : Prop := {
  li_length : length c = length (cells s);
  li_sentinel : c !! Z.to_nat (fixed_size s) = cells s !! Z.to_nat (fixed_size s);
  li_stream : stream (fixed_size s) (set_cells c s) w;
}.

Lemma set_cells_wf s c : cb_wf s → length c = length (cells s) → cb_wf (set_cells c s).
Proof. intros [] Hl. constructor; cbn; auto. lia. Qed.

Lemma head_position s k :
  cb_wf s → (cb_head s + k) mod fixed_size s = (cb_tail s + (cb_len s + k)) mod fixed_size s.
Proof.
  intros Hwf. unfold cb_len.
  replace (cb_tail s + ((cb_head s - cb_tail s) mod fixed_size s + k))
    with (cb_tail s + k + (cb_head s - cb_tail s) mod fixed_size s) by lia.
  rewrite mod_add_r. f_equal. lia.
Qed.

(** The test of one iteration recognises exactly the iteration that fills the ring. *)
Lemma filled_step s n p :
  cb_wf s → 0 ≤ n → p = (cb_tail s + n) mod fixed_size s →
  filled s (n + 1) = filled s n
    || bool_decide ((p + 1) mod fixed_size s = cb_tail s - 1 ∨
                    (cb_tail s = 0 ∧ p = fixed_size s - 1)).
Proof.
  intros [] Hn ->. unfold filled. apply eq_bool_prop_intro.
  rewrite orb_True, !bool_decide_spec. set (N := fixed_size s) in *.
  destruct (decide (cb_tail s = 0)) as [H0|H0].
  - rewrite H0. rewrite Z.add_0_l. split.
    + intros [[? _]|[_ Hle]]; [lia|].
      destruct (decide (N ≤ n)); [left; right; lia|]. right. right. split; [done|].
      rewrite Z.mod_small; lia.
    + intros [[[? _]|[_ Hle]]|[Hm|[_ Hm]]]; try lia.
      * pose proof (Z.mod_pos_bound (n mod N + 1) N). lia.
      * right. split; [done|]. pose proof (Z.mod_small n N). lia.
  - rewrite mod_add_l. split.
    + intros [[_ Hle]|[? _]]; [|lia].
      destruct (decide (N - 1 ≤ n)); [left; left; lia|]. right. left.
      replace (cb_tail s + n + 1) with (cb_tail s - 1 + 1 * N) by lia.
      rewrite Z.mod_add by lia. apply Z.mod_small. lia.
    + intros [[[_ Hle]|[? _]]|[Hm|[? _]]]; try lia.
      left. split; [done|]. destruct (decide (N - 1 ≤ n + 1)); [done|].
      assert (cb_tail s + n + 1 = cb_tail s - 1) as Habs; [|lia].
      apply (mod_inj_window N); [lia| |lia].
      rewrite Hm. symmetry. apply Z.mod_small. lia.
Qed.

Lemma cb_store_ok s i x :
  0 ≤ i < Z.of_nat (length (cells s)) →
  cb_store i x s = Ok (tt, set_cells (<[Z.to_nat i := x]> (cells s)) s).
Proof.
  intros Hi. unfold cb_store, mbind, M_bind, get, lift_result. by rewrite store_in_range.
Qed.

Lemma loop_inv_step s c w x p :
  cb_wf s → loop_inv s c w → p = (cb_tail s + Z.of_nat (length w)) mod fixed_size s →
  loop_inv s (<[Z.to_nat p := x]> c) (w ++ [x]).
Proof.
  intros Hwf [Hl Hs Hst] ->. pose proof Hwf as [].
  pose proof (Z.mod_pos_bound (cb_tail s + Z.of_nat (length w)) (fixed_size s)).
  constructor.
  - by rewrite length_insert.
  - by rewrite list_lookup_insert_ne by lia.
  - pose proof (stream_snoc _ _ _ x (set_cells_wf s c Hwf Hl) (Z.le_refl _) Hst) as Hn.
    exact Hn.
Qed.

Lemma write_loop_ok s items : ∀ (todo : list Z) (fuel : nat) (pre rest w c : list Z) (pos : Z),
  cb_wf s → items = pre ++ todo ++ 0 :: rest → Forall (λ x, x ≠ 0) todo →
  Z.of_nat (length pre + length todo) < 2 ^ 16 → (length todo < fuel)%nat →
  loop_inv s c w → Z.of_nat (length w) = cb_len s + Z.of_nat (length pre) →
  ∃ c', loop_inv s c' (w ++ todo) ∧
    write_loop fuel items pos (Z.of_nat (length pre))
      (loop_state s c (filled s (Z.of_nat (length w))))
    = Ok ((match todo with
           | [] => pos
           | _ => (cb_tail s + Z.of_nat (length (w ++ todo)) - 1) mod fixed_size s
           end, Z.of_nat (length (pre ++ todo))),
          loop_state s c' (filled s (Z.of_nat (length (w ++ todo))))).
Proof.
  induction todo as [|x todo IH]; intros fuel pre rest w c pos Hwf Hitems Hnz Hlen Hfuel Hinv Hw;
    (destruct fuel as [|fuel]; [lia|]); cbn [write_loop].
  - exists c. rewrite !app_nil_r. split; [done|].
    rewrite (lift_bind_ok _ _ _ 0); [by rewrite decide_True|].
    rewrite Hitems. apply load_app.
  - apply Forall_cons in Hnz as [Hx Hnz]. pose proof Hwf as []. cbn [length] in *.
    rewrite (lift_bind_ok _ _ _ x) by (rewrite Hitems; apply load_app).
    rewrite decide_False by done. rewrite (M_bind_ok get _ _ _ _ eq_refl).
    set (s1 := loop_state s c (filled s (Z.of_nat (length w)))).
    set (p := (cb_tail s + Z.of_nat (length w)) mod fixed_size s).
    assert (0 ≤ p < fixed_size s) as Hp by (apply Z.mod_pos_bound; lia).
    assert (mod_size (cb_head s + Z.of_nat (length pre)) s1 = Ok (p, s1)) as Hms.
    { rewrite mod_size_pos by (done || lia). do 2 f_equal. unfold p. rewrite Hw.
      change (fixed_size s1) with (fixed_size s). by apply head_position. }
    rewrite (M_bind_ok _ _ _ _ _ Hms).
    rewrite (M_bind_ok _ _ _ _ _ (cb_store_ok s1 p x ltac:(pose proof (li_length _ _ _ Hinv); cbn; lia))).
    rewrite (lift_bind_ok _ _ _ ((p + 1) mod fixed_size s))
      by (unfold cpp_mod; cbn; by rewrite decide_False by lia).
    set (c1 := <[Z.to_nat p := x]> c).
    assert (loop_inv s c1 (w ++ [x])) as Hinv1 by (by apply loop_inv_step).
    assert (((if decide ((p + 1) mod fixed_size s = cb_tail s1 - 1 ∨
                cb_tail s1 = 0 ∧ p = fixed_size s1 - 1)
              then modify (set_maxed true) else mret tt)
             (set_cells (<[Z.to_nat p:=x]> (cells s1)) s1))
            = Ok (tt, loop_state s c1 (filled s (Z.of_nat (length (w ++ [x])))))) as Hstep.
    { rewrite length_app, Nat2Z.inj_add. cbn [length]. change (Z.of_nat 1) with 1.
      rewrite (filled_step s (Z.of_nat (length w)) p Hwf ltac:(lia) eq_refl).
      case_decide as Hd; [rewrite (bool_decide_eq_true_2 _ Hd), orb_true_r
                         |rewrite (bool_decide_eq_false_2 _ Hd), orb_false_r]; done. }
    rewrite (M_bind_ok _ _ _ _ _ Hstep).
    destruct (IH fuel (pre ++ [x]) rest (w ++ [x]) c1 p Hwf) as (c' & Hc' & Hrun);
      [by rewrite <- app_assoc|done|rewrite length_app; cbn; lia|lia|done
      |rewrite !length_app; cbn; lia|].
    exists c'. rewrite <- !app_assoc in *. cbn [app] in *. split; [done|].
    rewrite length_app in Hrun. cbn [length] in Hrun.
    assert (u16 (Z.of_nat (length pre) + 1) = Z.of_nat (length pre + 1)) as ->.
    { unfold u16. rewrite wrap_small by (unfold in_width; lia). lia. }
    etrans; [exact Hrun|]. do 3 f_equal. destruct todo; [|done].
    unfold p. rewrite length_app. cbn. f_equal. lia.
Qed.

Lemma filled_start s : cb_wf s → maxed s = filled s (cb_len s).
Proof.
  intros Hwf. pose proof (cb_len_range s Hwf). pose proof Hwf as [].
  apply eq_bool_prop_intro. unfold filled. rewrite bool_decide_spec, Is_true_true, cbw_maxed0.
  pose proof (cb_len_wraps s Hwf) as Hl. unfold wraps, empty in Hl.
  destruct (bool_decide_reflect (cb_head s ≤ cb_tail s)),
    (bool_decide_reflect (cb_head s = cb_tail s)); cbn in Hl; lia.
Qed.

(** The state [write_items] leaves: the cells with the new stream, the cursors
    around its last items. *)
Definition written (s : CircularBuffer) (c : list Z) (n : Z) : CircularBuffer :=
  let t := if filled s n then (cb_tail s + n + 1) mod fixed_size s else cb_tail s in
  let h := (cb_tail s + n) mod fixed_size s in
  set_maxed (bool_decide (h = t - 1)) (set_head h (set_tail t (set_cells c s))).

Lemma written_ok s c (w : list Z) :
  cb_wf s → length c = length (cells s) →
  stream (fixed_size s - 1) (set_cells c s) w →
  cb_len s ≤ Z.of_nat (length w) →
  cb_wf (written s c (Z.of_nat (length w))) ∧
  contents (written s c (Z.of_nat (length w)))
  = lastn (Z.to_nat (fixed_size s - 1)) w.
Proof.
  intros Hwf Hc Hst Hn. pose proof Hwf as []. set (n := Z.of_nat (length w)).
  pose proof (Z.mod_pos_bound (cb_tail s + n) (fixed_size s) ltac:(lia)) as Hh.
  unfold written.
  set (t := if filled s n then (cb_tail s + n + 1) mod fixed_size s else cb_tail s).
  assert (0 ≤ t < fixed_size s) as Ht
    by (unfold t; destruct (filled s n); [apply Z.mod_pos_bound|]; lia).
  split.
  { constructor; cbn; try done; [lia|]. by rewrite bool_decide_eq_true. }
  change (contents (set_maxed ?m ?x)) with (contents x).
  destruct (filled s n) eqn:Hf; unfold t; clear t Ht.
  - assert (fixed_size s - 1 ≤ n).
    { unfold filled in Hf. apply bool_decide_eq_true in Hf. lia. }
    apply (contents_stream (fixed_size s - 1)); cbn; try done; try lia.
    + fold n. replace (cb_tail s + n - (fixed_size s - 1))
        with (cb_tail s + n + 1 + (-1) * fixed_size s) by lia. by rewrite Z.mod_add by lia.
    + rewrite Zminus_mod_idemp_l, Zminus_mod_idemp_r.
      replace (_ - _) with (-1) by lia. symmetry. apply (Z.mod_unique_pos _ _ (-1)); lia.
  - assert (n < fixed_size s ∧ (cb_tail s ≠ 0 → n < fixed_size s - 1)) as [Hn1 Hn2].
    { unfold filled in Hf. apply bool_decide_eq_false in Hf. lia. }
    rewrite (contents_stream (fixed_size s - 1) _ w _ _ n); cbn; try done; try lia.
    + unfold n. rewrite Nat2Z.id, !lastn_all by lia. done.
    + fold n. replace (cb_tail s + n - n) with (cb_tail s) by lia.
      symmetry. apply Z.mod_small. lia.
    + rewrite Zminus_mod_idemp_l. replace (_ - _) with n by lia. apply Z.mod_small. lia.
Qed.

(** The terminator is stored behind the last item, in the extra cell when that
    item is at the end of the array. *)
Lemma terminator_cell s (w : list Z) i :
  cb_wf s → 0 < Z.of_nat (length w) →
  i = (cb_tail s + Z.of_nat (length w) - 1) mod fixed_size s + 1 →
  (i = (cb_tail s + Z.of_nat (length w)) mod fixed_size s ∧ i < fixed_size s)
  ∨ (i = fixed_size s ∧ (cb_tail s + Z.of_nat (length w)) mod fixed_size s = 0).
Proof.
  intros [] Hw ->. set (x := cb_tail s + Z.of_nat (length w)).
  pose proof (Z.mod_pos_bound (x - 1) (fixed_size s)).
  replace (x mod fixed_size s) with (((x - 1) mod fixed_size s + 1) mod fixed_size s)
    by (rewrite mod_add_l; f_equal; lia).
  destruct (decide ((x - 1) mod fixed_size s + 1 = fixed_size s)) as [->|].
  - right. split; [done|]. apply Z.mod_same. lia.
  - left. rewrite (Z.mod_small ((x - 1) mod fixed_size s + 1)) by lia. lia.
Qed.

Lemma write_items_run s (text rest : list Z) :
  cb_wf s → text ≠ [] → Forall (λ c, c ≠ 0) text → Z.of_nat (length text) < 2 ^ 16 →
  ∃ c, let w := contents s ++ text in
    loop_inv (set_will_clear false s) c w ∧
    write_items (text ++ 0 :: rest) s
    = Ok (tt, written (set_will_clear false s)
        (<[Z.to_nat ((cb_tail s + Z.of_nat (length w) - 1) mod fixed_size s + 1) := 0]> c)
        (Z.of_nat (length w))).
Proof.
  intros Hwf0 Hne Hnz Hlen. set (s0 := set_will_clear false s).
  assert (cb_wf s0) as Hwf by (destruct Hwf0; by constructor).
  pose proof (cb_len_range s Hwf0) as Hlr. pose proof (length_contents s Hwf0) as Hlc.
  destruct (write_loop_ok s0 (text ++ 0 :: rest) text (length (text ++ 0 :: rest)) [] rest
    (contents s0) (cells s0) 0) as (c & Hinv & Hrun); try done.
  { rewrite length_app. cbn. lia. }
  { constructor; try done. by apply stream_contents. }
  { cbn [length]. change (contents s0) with (contents s). change (cb_len s0) with (cb_len s). lia. }
  exists c. split; [done|]. unfold write_items.
  rewrite (M_bind_ok (modify (set_will_clear false)) _ s tt s0 eq_refl).
  change (contents s0) with (contents s) in Hrun.
  set (w := contents s ++ text) in *. set (n := Z.of_nat (length w)) in *.
  assert (n = cb_len s + Z.of_nat (length text)) as Hn by (unfold n, w; rewrite length_app; lia).
  assert (0 < Z.of_nat (length text)) by (destruct text; [done|cbn; lia]).
  assert (loop_state s0 (cells s0) (filled s0 (Z.of_nat (length (contents s)))) = s0) as Hs0.
  { rewrite Hlc, Z2Nat.id by lia. change (cb_len s) with (cb_len s0).
    rewrite <- filled_start by done. by destruct s. }
  rewrite Hs0 in Hrun. cbn [length] in Hrun. change (Z.of_nat 0) with 0 in Hrun.
  rewrite (M_bind_ok _ _ _ _ _ Hrun). clear Hrun Hs0. cbn [app].
  assert (match text with [] => 0 | _ => (cb_tail s0 + n - 1) mod fixed_size s0 end
    = (cb_tail s0 + n - 1) mod fixed_size s0) as -> by (by destruct text).
  set (i := (cb_tail s0 + n - 1) mod fixed_size s0 + 1).
  set (s1 := loop_state s0 c (filled s0 n)). destruct Hinv as [Hl Hs Hst].
  assert (0 < i ≤ fixed_size s0) as Hi.
  { unfold i. pose proof Hwf as []. pose proof (Z.mod_pos_bound (cb_tail s0 + n - 1) (fixed_size s0)). lia. }
  pose proof Hwf as [].
  rewrite (M_bind_ok _ _ _ _ _ (cb_store_ok s1 i end_item ltac:(cbn in *; lia))).
  rewrite (M_bind_ok get _ _ _ _ eq_refl).
  set (s2 := set_cells (<[Z.to_nat i:=end_item]> (cells s1)) s1).
  change (maxed s2) with (filled s0 n). change (cb_head s2) with (cb_head s0).
  set (cnt := Z.of_nat (length text)) in *.
  assert (∀ s', fixed_size s' = fixed_size s0 → ∀ x, 0 ≤ x →
    mod_size x s' = Ok (x mod fixed_size s0, s')) as Hms.
  { intros s' Hf x Hx. rewrite <- Hf. apply mod_size_pos; [rewrite Hf|]; lia. }
  assert (∀ k, (cb_head s0 + cnt + k) mod fixed_size s0 = (cb_tail s0 + n + k) mod fixed_size s0) as Hpos.
  { intros k. rewrite <- Z.add_assoc, head_position, Hn by done.
    change (cb_len s0) with (cb_len s). f_equal. lia. }
  pose proof (Hpos 0) as Hpos0. rewrite !Z.add_0_r in Hpos0.
  assert (0 ≤ cb_head s0 + cnt ∧ 0 ≤ cb_head s0 + cnt + 1) as [Hx0 Hx1] by (cbn in *; lia).
  unfold written. destruct (filled s0 n) eqn:Hf.
  - rewrite M_bind_assoc, (M_bind_ok _ _ _ _ _ (Hms s2 eq_refl _ Hx1)).
    rewrite (M_bind_ok (modify _) _ _ _ _ eq_refl).
    rewrite (M_bind_ok _ _ _ _ _ (Hms (set_tail _ s2) eq_refl _ Hx0)).
    rewrite Hpos, Hpos0. reflexivity.
  - rewrite (M_bind_ok (mret tt) _ _ _ _ eq_refl).
    rewrite (M_bind_ok _ _ _ _ _ (Hms s2 eq_refl _ Hx0)).
    rewrite Hpos0. reflexivity.
Qed.

Lemma write_items_ok s (text rest : list Z) :
  cb_wf s → text ≠ [] → Forall (λ c, c ≠ 0) text → Z.of_nat (length text) < 2 ^ 16 →
  ∃ s', write_items (text ++ 0 :: rest) s = Ok (tt, s') ∧ cb_wf s' ∧
    contents s' = lastn (Z.to_nat (fixed_size s - 1)) (contents s ++ text) ∧
    fixed_size s' = fixed_size s ∧ (cb_text s → cb_text s').
Proof.
  intros Hwf Hne Hnz Hlen.
  destruct (write_items_run s text rest Hwf Hne Hnz Hlen) as (c & [Hl Hsent Hst] & Hrun).
  set (w := contents s ++ text) in *. set (s0 := set_will_clear false s) in *.
  assert (cb_wf s0) as Hwf0 by (destruct Hwf; by constructor).
  assert (Z.of_nat (length w) = cb_len s + Z.of_nat (length text)) as Hw.
  { unfold w. rewrite length_app, length_contents by done. pose proof (cb_len_range s Hwf). lia. }
  assert (0 < Z.of_nat (length w)) as Hw0.
  { pose proof (cb_len_range s Hwf). destruct text; [done|cbn in *; lia]. }
  set (i := (cb_tail s + Z.of_nat (length w) - 1) mod fixed_size s + 1) in *.
  pose proof (terminator_cell s w i Hwf Hw0 eq_refl) as Hi.
  pose proof Hwf as []. cbn in Hl, Hsent.
  assert (0 ≤ i) by (pose proof (Z.mod_pos_bound (cb_tail s + Z.of_nat (length w) - 1) (fixed_size s)); lia).
  destruct (written_ok s0 (<[Z.to_nat i := 0]> c) w Hwf0) as [Hwf' Hc'].
  - by rewrite length_insert.
  - apply (stream_store_behind (set_cells c s0)); [by apply set_cells_wf|done|].
    destruct Hi as [[Hi _]|[Hi _]]; [left|right]; done.
  - change (cb_len s0) with (cb_len s). lia.
  - eexists. split; [exact Hrun|]. split_and!; [done|done|done|].
    intros Ht. pose proof Ht as []. split; [done|..].
    + unfold written. cbn. destruct (decide (i = fixed_size s)) as [->|Hn].
      * apply list_lookup_insert_eq. lia.
      * rewrite list_lookup_insert_ne by lia. by rewrite Hsent.
    + unfold written. cbn. intros Hh. destruct Hi as [[<- Hlt]|[_ Hz]]; [|done].
      apply list_lookup_insert_eq. lia.
    + rewrite Hc'. apply Forall_drop, Forall_app_2; [done|done].
Qed.

(** The cells after [write(item)]: the item joins the stream, its terminator is
    stored behind. *)
Lemma write_item_stream s x :
  cb_wf s → let c := <[Z.to_nat (cb_head s + 1) := 0]> (<[Z.to_nat (cb_head s) := x]> (cells s)) in
  length c = length (cells s) ∧ stream (fixed_size s - 1) (set_cells c s) (contents s ++ [x]).
Proof.
  intros Hwf. pose proof Hwf as []. cbn. rewrite !length_insert. split; [done|].
  pose proof (length_contents s Hwf) as Hlc. pose proof (cb_len_range s Hwf).
  assert (cb_head s = (cb_tail s + Z.of_nat (length (contents s))) mod fixed_size s) as Hh.
  { rewrite Hlc, Z2Nat.id by lia. pose proof (head_position s 0 Hwf) as Hp.
    rewrite !Z.add_0_r in Hp. rewrite <- Hp. symmetry. apply Z.mod_small. lia. }
  pose proof (stream_snoc (fixed_size s) s _ x Hwf (Z.le_refl _) (stream_contents (fixed_size s) s Hwf)) as Hst.
  rewrite <- Hh in Hst.
  apply (stream_store_behind (set_cells (<[Z.to_nat (cb_head s):=x]> (cells s)) s));
    [apply set_cells_wf; [done|apply length_insert]|done|].
  cbn. rewrite length_app, Nat2Z.inj_add. cbn [length].
  replace (cb_tail s + (Z.of_nat (length (contents s)) + Z.of_nat 1))
    with (cb_tail s + Z.of_nat (length (contents s)) + 1) by lia.
  rewrite <- mod_add_l, <- Hh.
  destruct (decide (cb_head s + 1 = fixed_size s)); [by right|left].
  rewrite Z.mod_small; lia.
Qed.

(** The state [write(item)] leaves. *)
Definition item_written (s : CircularBuffer) (x : Z) : CircularBuffer :=
  let c := <[Z.to_nat (cb_head s + 1) := 0]> (<[Z.to_nat (cb_head s) := x]> (cells s)) in
  let t := if maxed s then (cb_head s + 2) mod fixed_size s else cb_tail s in
  let h := (cb_head s + 1) mod fixed_size s in
  set_maxed (bool_decide (h = t - 1))
    (set_head h (set_tail t (set_cells c (set_will_clear false s)))).

Lemma write_item_run s x : cb_wf s → write_item x s = Ok (tt, item_written s x).
Proof.
  intros Hwf. pose proof Hwf as []. unfold write_item.
  rewrite (M_bind_ok (modify _) _ _ _ _ eq_refl), (M_bind_ok get _ _ _ _ eq_refl). cbn [cb_head maxed set_will_clear].
  rewrite (M_bind_ok _ _ _ _ _ (cb_store_ok (set_will_clear false s) (cb_head s) x ltac:(cbn; lia))).
  set (s0 := set_cells _ _).
  assert (length (cells s0) = length (cells s)) as Hl0 by apply length_insert.
  rewrite (M_bind_ok _ _ _ _ _ (cb_store_ok s0 (cb_head s + 1) end_item ltac:(lia))).
  set (s1 := set_cells _ _).
  assert (∀ s' y, fixed_size s' = fixed_size s → 0 ≤ y →
    mod_size y s' = Ok (y mod fixed_size s, s')) as Hm.
  { intros s' y Hf Hy. rewrite <- Hf. apply mod_size_pos; [rewrite Hf|]; lia. }
  unfold item_written. destruct (maxed s).
  - rewrite M_bind_assoc, (M_bind_ok _ _ _ _ _ (Hm s1 (cb_head s + 2) eq_refl ltac:(lia))).
    rewrite (M_bind_ok (modify _) _ _ _ _ eq_refl).
    by rewrite (M_bind_ok _ _ _ _ _ (Hm (set_tail _ s1) (cb_head s + 1) eq_refl ltac:(lia))).
  - rewrite (M_bind_ok (mret tt) _ _ _ _ eq_refl).
    by rewrite (M_bind_ok _ _ _ _ _ (Hm s1 (cb_head s + 1) eq_refl ltac:(lia))).
Qed.

Lemma item_written_wf s x : cb_wf s → cb_wf (item_written s x).
Proof.
  intros []. unfold item_written. constructor; cbn; rewrite ?length_insert; try done.
  - apply Z.mod_pos_bound. lia.
  - destruct (maxed s); [apply Z.mod_pos_bound|]; lia.
  - by rewrite bool_decide_eq_true.
Qed.

Lemma cb_len_maxed s : cb_wf s → maxed s = true → cb_len s = fixed_size s - 1.
Proof.
  intros Hwf Hm. pose proof Hwf as []. apply cbw_maxed0 in Hm. unfold cb_len.
  replace (cb_head s - cb_tail s) with (-1) by lia.
  symmetry. apply (Z.mod_unique_pos _ _ (-1)); lia.
Qed.

(** An unmarked ring is not full, but for the one case the mark misses. *)
Lemma cb_len_unmaxed s :
  cb_wf s → maxed s = false → ¬ (cb_tail s = 0 ∧ cb_head s = fixed_size s - 1) →
  cb_len s < fixed_size s - 1.
Proof.
  intros Hwf Hm Hedge. pose proof (cb_len_range s Hwf). pose proof (cb_len_wraps s Hwf) as Hl.
  pose proof Hwf as []. assert (cb_head s ≠ cb_tail s - 1) by (intros Hn; apply cbw_maxed0 in Hn; congruence).
  unfold wraps, empty in Hl.
  destruct (bool_decide_reflect (cb_head s ≤ cb_tail s)),
    (bool_decide_reflect (cb_head s = cb_tail s)); cbn in Hl; lia.
Qed.

Lemma item_written_contents s x :
  cb_wf s → ¬ (cb_tail s = 0 ∧ cb_head s = fixed_size s - 1) →
  contents (item_written s x) = lastn (Z.to_nat (fixed_size s - 1)) (contents s ++ [x]).
Proof.
  intros Hwf Hedge. destruct (write_item_stream s x Hwf) as [Hl Hst].
  pose proof Hwf as []. pose proof (cb_len_range s Hwf) as Hr.
  pose proof (length_contents s Hwf) as Hlc.
  assert (Z.of_nat (length (contents s ++ [x])) = cb_len s + 1) as Hw by (rewrite length_app; cbn; lia).
  assert (∀ k, (cb_head s + k) mod fixed_size s = (cb_tail s + (cb_len s + k)) mod fixed_size s)
    as Hp by (intros; by apply head_position).
  unfold item_written. change (contents (set_maxed ?m ?y)) with (contents y).
  destruct (maxed s) eqn:Hm.
  - pose proof (cb_len_maxed s Hwf Hm) as Hn.
    apply (contents_stream (fixed_size s - 1)); cbn; try done; try lia; rewrite ?Hw, !Hp.
    + replace (cb_tail s + (cb_len s + 1) - (fixed_size s - 1))
        with (cb_tail s + (cb_len s + 2) + (-1) * fixed_size s) by lia.
      by rewrite Z.mod_add by lia.
    + rewrite Zminus_mod_idemp_l, Zminus_mod_idemp_r.
      replace (_ - _) with (-1) by lia. symmetry. apply (Z.mod_unique_pos _ _ (-1)); lia.
  - pose proof (cb_len_unmaxed s Hwf Hm Hedge) as Hn.
    rewrite (contents_stream (fixed_size s - 1) _ (contents s ++ [x]) _ _ (cb_len s + 1));
      cbn; try done; try lia; rewrite ?Hw, ?Hp.
    + rewrite !lastn_all by lia. done.
    + replace (_ + _ - _) with (cb_tail s) by lia. symmetry. apply Z.mod_small. lia.
    + rewrite Zminus_mod_idemp_l. replace (_ - _) with (cb_len s + 1) by lia.
      apply Z.mod_small. lia.
Qed.

(** * Lemmas: taking items out *)

Lemma empty_unmaxed s : cb_wf s → empty s = true → maxed s = false.
Proof.
  intros Hwf He. destruct (maxed s) eqn:Hm; [|done]. pose proof Hwf as [].
  apply cb_len_maxed in Hm; [|done]. apply cb_len_empty in He; [lia|done].
Qed.

(** Any positive step, or any step from an unmarked ring, keeps the invariant. *)
Lemma take_out_text s n :
  cb_text s → 0 ≤ n ≤ cb_len s → (empty s = false → 0 < n) → cb_text (advance_tail n s).
Proof.
  intros Ht Hn Hpos. apply advance_tail_text; [done..|].
  destruct (empty s) eqn:He; [right; apply empty_unmaxed; [apply Ht|done]|left; auto].
Qed.

Lemma consume_run s :
  cb_wf s → consume s = Ok (if empty s then (0, s) else (cell s (cb_tail s), advance_tail 1 s)).
Proof.
  intros Hwf. pose proof Hwf as []. unfold consume. rewrite (M_bind_ok get _ _ _ _ eq_refl).
  destruct (empty s); [done|].
  rewrite (lift_bind_ok _ _ _ (cell s (cb_tail s))).
  2: { unfold load. rewrite decide_True by lia. by rewrite cell_load. }
  by rewrite (M_bind_ok _ _ _ _ _ (mod_size_ok s (cb_tail s + 1) Hwf ltac:(lia))).
Qed.

Lemma consume_block_run s :
  cb_wf s → consume_block s
    = Ok ((segment1 s, consumable s), advance_tail (consumable s) s).
Proof.
  intros Hwf. destruct (consumable_spec s Hwf) as (_ & Hc & _ & Hz & _). unfold consume_block.
  rewrite (M_bind_ok get _ _ _ _ eq_refl).
  rewrite (lift_bind_ok _ _ _ _ (slice_front s (consumable s) Hwf ltac:(lia))).
  rewrite Hz. done.
Qed.

Lemma consume_block_into_run s block block_size :
  cb_wf s → 0 ≤ block_size → block_size ≤ Z.of_nat (length block) →
  let n := Z.min block_size (consumable s) in
  ∃ block', consume_block_into block block_size s = Ok ((block', n), advance_tail n s) ∧
    starts block' (take (Z.to_nat n) (contents s)).
Proof.
  intros Hwf Hb Hl n. pose proof Hwf as [].
  destruct (consumable_spec s Hwf) as (_ & Hc & _ & Hz & _). unfold consume_block_into.
  rewrite (M_bind_ok get _ _ _ _ eq_refl). fold n.
  assert ((if decide (block_size < consumable s) then mod_size (cb_tail s + n)
    else mret (if wraps s then 0 else cb_head s)) s
    = Ok ((cb_tail s + n) mod fixed_size s, s)) as Ht.
  { case_decide; [apply mod_size_ok; [done|lia]|].
    rewrite Hz. by replace n with (consumable s) by lia. }
  rewrite (M_bind_ok _ _ _ _ _ Ht).
  destruct (copy_out_ok s block 0 (cb_tail s) n [] (take (Z.to_nat n) (contents s)))
    as (b & Hcopy & Hst & _);
    [apply slice_front; [done|lia]|done|done|rewrite length_take; lia|].
  exists b. split; [|done]. unfold copy_out, mbind, result_bind in Hcopy.
  do 2 rewrite (M_bind_ok (modify _) _ _ _ _ eq_refl).
  rewrite (lift_bind_ok _ _ _ _ (slice_front s n Hwf ltac:(lia))).
  rewrite slice_front in Hcopy by (done || lia). by rewrite (lift_bind_ok _ _ _ _ Hcopy).
Qed.

(** * The buffer as a bounded queue *)

(** The operations that the program performs on the buffer. *)
Inductive Op :=
| WriteItem (item : Z)
| WriteText (text : list Z)
| Consume
| ConsumeBlock
| ConsumeBlockInto (block : list Z) (block_size : Z)
| ConsumeLine (line : list Z) (line_size : Z)
| Clear
| ClearIfEmpty.

(** Those that hand out data. *)
Definition takes (op : Op) : bool :=
  match op with Consume | ConsumeBlock | ConsumeBlockInto _ _ | ConsumeLine _ _ => true | _ => false end.

(** Running an operation; the result is the data it hands out. *)
Definition run_op (op : Op) : M CircularBuffer (list Z) :=
  match op with
  | WriteItem x => write_item x;; mret []
  | WriteText text => write_items (text ++ [0]);; mret []
  | Consume => s ← get; x ← consume; mret (if empty s then [] else [x])
  | ConsumeBlock => '(l, _) ← consume_block; mret l
  | ConsumeBlockInto block n =>
      '(b, k) ← consume_block_into block n; mret (take (Z.to_nat k) b)
  | ConsumeLine line n => '(k, l) ← consume_line line n; mret (take (Z.to_nat k) l)
  | Clear => clear;; mret []
  | ClearIfEmpty => clear_if_empty (mret tt);; mret []
  end.

(** What a caller must respect: items and texts have no terminator in them, a single item
    is not written when the read cursor is at the start of the array and the write
    cursor at its end, there is the space given, and [line_ok]. *)
Definition op_ok (s : CircularBuffer) (op : Op) : Prop :=
  match op with
  | WriteItem x => x ≠ 0 ∧ ¬ (cb_tail s = 0 ∧ cb_head s = fixed_size s - 1)
  | WriteText text =>
      text ≠ [] ∧ Forall (λ c, c ≠ 0) text ∧ Z.of_nat (length text) < 2 ^ 16
  | Consume | ConsumeBlock | Clear | ClearIfEmpty => True
  | ConsumeBlockInto block n => 0 < n ≤ Z.of_nat (length block)
  | ConsumeLine line n => 0 < n < 2 ^ 16 ∧ n < Z.of_nat (length line) ∧ line_ok s n
  end.

(** A bounded queue that drops its oldest items: what an operation may do to
    the queue [q], handing out [out]. *)
Inductive queue_step (capacity : nat) : list Z → Op → list Z → list Z → Prop :=
| QueueWriteItem q x :
    queue_step capacity q (WriteItem x) [] (lastn capacity (q ++ [x]))
| QueueWrite q text :
    queue_step capacity q (WriteText text) [] (lastn capacity (q ++ text))
| QueueTake op out q :
    takes op = true →
    (out ++ q ≠ [] → out ≠ []) →
    match op with
    | Consume => (length out ≤ 1)%nat
    | ConsumeBlockInto _ n => Z.of_nat (length out) ≤ n
    | ConsumeLine _ n => Z.of_nat (length out) ≤ n ∧ newline ∉ take (length out - 1) out
    | _ => True
    end →
    queue_step capacity (out ++ q) op out q
| QueueClear q : queue_step capacity q Clear [] []
| QueueClearIfEmpty q : queue_step capacity q ClearIfEmpty [] q.

Lemma first_line_before l (k : nat) :
  Z.of_nat k < first_line l → newline ∉ take k l.
Proof.
  revert k. induction l as [|x l IH]; intros k Hk; [rewrite take_nil; apply not_elem_of_nil|].
  destruct k as [|k]; [apply not_elem_of_nil|]. cbn [first_line] in Hk. cbn [take].
  case_decide; [lia|]. apply not_elem_of_cons. split; [done|]. apply IH. lia.
Qed.

Lemma take_not_in (x : Z) (k : nat) l : x ∉ l → x ∉ take k l.
Proof. intros Hx Hin. apply Hx. by eapply elem_of_take in Hin as (i & Hi & _); eapply list_elem_of_lookup_2. Qed.

(** What [consume_line] hands out has no newline before its last item. *)
Lemma line_length_one_line s line_size :
  cb_wf s → 0 < line_size →
  newline ∉ take (Z.to_nat (line_length s line_size) - 1) (contents s).
Proof.
  intros Hwf Hls. pose proof (line_length_bounds s line_size Hwf Hls) as (Hb & _ & _).
  pose proof (length_segment1 s Hwf) as Hl1. pose proof (length_segment2 s Hwf) as Hl2.
  destruct (consumable_spec s Hwf) as (_ & Hc & _).
  assert (contents s = segment1 s ++ segment2 s) as Hcs by (symmetry; apply take_drop).
  set (n := line_length s line_size) in *. rewrite Hcs, take_app. unfold n, line_length in *. clear n.
  case_decide as Hn1.
  - pose proof (first_line_bound (segment1 s)).
    replace (_ - _ - _)%nat with 0%nat by lia. rewrite app_nil_r.
    apply first_line_before. assert (0 < first_line (segment1 s)); [|lia].
    apply first_line_pos. intros Hnil. rewrite Hnil in Hn1. by apply elem_of_nil in Hn1.
  - apply not_elem_of_app. split; [by apply take_not_in|].
    case_decide; [replace (_ - _ - _)%nat with 0%nat by lia; apply not_elem_of_nil|].
    case_decide as Hn2.
    + apply first_line_before. assert (0 < first_line (segment2 s)); [|lia].
      apply first_line_pos. intros Hnil. rewrite Hnil in Hn2. by apply elem_of_nil in Hn2.
    + by apply take_not_in.
Qed.

(** An operation that takes [n] items out implements the queue's step. *)
Lemma queue_take s op n capacity :
  cb_text s → takes op = true →
  0 ≤ n ≤ cb_len s → (empty s = false → 0 < n) →
  match op with
  | Consume => n ≤ 1
  | ConsumeBlockInto _ k => n ≤ k
  | ConsumeLine _ k => n ≤ k ∧ newline ∉ take (Z.to_nat n - 1) (contents s)
  | _ => True
  end →
  cb_text (advance_tail n s) ∧
  queue_step capacity (contents s) op (take (Z.to_nat n) (contents s)) (contents (advance_tail n s)).
Proof.
  intros Ht Hop' Hn Hpos Hop. pose proof (cbt_wf s Ht) as Hwf. split; [by apply take_out_text|].
  rewrite contents_advance_tail by done.
  assert (length (take (Z.to_nat n) (contents s)) = Z.to_nat n) as Hl.
  { rewrite length_take, length_contents by done. lia. }
  rewrite <- (take_drop (Z.to_nat n) (contents s)) at 1. constructor; [done|..].
  - rewrite take_drop. intros Hne Hnil. rewrite Hnil in Hl. cbn in Hl.
    destruct (empty s) eqn:He; [|specialize (Hpos eq_refl); lia].
    apply Hne, nil_length_inv. rewrite length_contents by done.
    apply cb_len_empty in He; [lia|done].
  - rewrite Hl. destruct op; try done; try lia.
    destruct Hop as [Hk Hnl]. split; [lia|]. rewrite take_take, Nat.min_l by lia. done.
Qed.

Lemma contents_singleton s :
  cb_wf s → empty s = false → take (Z.to_nat 1) (contents s) = [cell s (cb_tail s)].
Proof.
  intros Hwf He. pose proof (cb_len_range s Hwf).
  assert (cb_len s ≠ 0) by (intros H0; apply cb_len_empty in H0; [congruence|done]).
  change (Z.to_nat 1) with 1%nat. rewrite (take_S_r _ 0 (cell s (cb_tail s))); [done|].
  rewrite contents_lookup by lia. do 2 f_equal. lia.
Qed.

Lemma clear_if_empty_run s :
  clear_if_empty (mret tt) s
  = Ok (tt, let s1 := set_will_clear true s in
            if empty s then set_maxed false (set_head 0 (set_tail 0 s1)) else s1).
Proof.
  unfold clear_if_empty. rewrite (M_bind_ok (modify _) _ _ _ _ eq_refl).
  rewrite (M_bind_ok (mret tt) _ _ _ _ eq_refl), (M_bind_ok get _ _ _ _ eq_refl).
  change (empty (set_will_clear true s)) with (empty s). cbn [will_clear_if_empty set_will_clear].
  rewrite andb_true_r. by destruct (empty s).
Qed.

Lemma contents_empty s : cb_wf s → empty s = true → contents s = [].
Proof.
  intros Hwf He. apply nil_length_inv. rewrite length_contents by done.
  apply cb_len_empty in He; [lia|done].
Qed.

Lemma reset_text s :
  cb_text s → empty s = true →
  let s' := set_maxed false (set_head 0 (set_tail 0 (set_will_clear true s))) in
  cb_text s' ∧ contents s' = [] ∧ contents s = [].
Proof.
  intros [Hwf Hs _ _] He s'. pose proof Hwf as [].
  assert (cb_wf s') as Hwf' by (constructor; cbn; try done; lia).
  assert (contents s' = []) as Hc by (by apply contents_empty).
  split_and!; [|done|by apply contents_empty].
  constructor; [done|done|done|]. by rewrite Hc.
Qed.

(** The operation runs, keeps the invariant and implements the queue's step. *)
Definition refines (s : CircularBuffer) (op : Op) : Prop :=
  ∃ out s', run_op op s = Ok (out, s') ∧ cb_text s' ∧
    queue_step (Z.to_nat (fixed_size s - 1)) (contents s) op out (contents s') ∧
    fixed_size s' = fixed_size s.

Lemma refines_write s text : cb_text s → op_ok s (WriteText text) → refines s (WriteText text).
Proof.
  intros Ht (Hne & Hnz & Hl).
  destruct (write_items_ok s text [] (cbt_wf s Ht) Hne Hnz Hl) as (s' & Hrun & Hwf' & Hc' & Hf & Ht').
  exists [], s'. cbn [run_op]. rewrite (M_bind_ok _ _ _ _ _ Hrun), Hc'.
  split_and!; try done; [auto|constructor].
Qed.

Lemma refines_consume s : cb_text s → refines s Consume.
Proof.
  intros Ht. pose proof (cbt_wf s Ht) as Hwf. pose proof (cb_len_range s Hwf).
  unfold refines. cbn [run_op].
  rewrite (M_bind_ok get _ _ _ _ eq_refl). pose proof (consume_run s Hwf) as Hrun.
  destruct (empty s) eqn:He; rewrite (M_bind_ok _ _ _ _ _ Hrun).
  - exists [], s. split_and!; try done. rewrite contents_empty by done.
    by apply (QueueTake _ Consume [] []); cbn; try lia.
  - assert (cb_len s ≠ 0) by (intros H0; apply cb_len_empty in H0; [congruence|done]).
    destruct (queue_take s Consume 1 (Z.to_nat (fixed_size s - 1))) as [Ht' Hq]; try done; try lia.
    rewrite contents_singleton in Hq by done. eauto 10.
Qed.

Lemma refines_block s : cb_text s → refines s ConsumeBlock.
Proof.
  intros Ht. pose proof (cbt_wf s Ht) as Hwf.
  destruct (consumable_spec s Hwf) as (_ & Hc & _ & _ & Hpos).
  unfold refines. cbn [run_op]. rewrite (M_bind_ok _ _ _ _ _ (consume_block_run s Hwf)).
  destruct (queue_take s ConsumeBlock (consumable s) (Z.to_nat (fixed_size s - 1)))
    as [Ht' Hq]; try done; try lia. eauto 10.
Qed.

Lemma refines_block_into s block n :
  cb_text s → 0 < n ≤ Z.of_nat (length block) → refines s (ConsumeBlockInto block n).
Proof.
  intros Ht Hn. pose proof (cbt_wf s Ht) as Hwf.
  destruct (consumable_spec s Hwf) as (_ & Hc & _ & _ & Hpos).
  destruct (consume_block_into_run s block n Hwf) as (b & Hrun & Hst); [lia..|].
  assert (0 ≤ Z.min n (consumable s) ≤ cb_len s ∧ Z.min n (consumable s) ≤ n ∧
    (empty s = false → 0 < Z.min n (consumable s))) as (Hk1 & Hk2 & Hk3).
  { split_and!; try lia. intros He. specialize (Hpos He). lia. }
  unfold refines. cbn [run_op]. rewrite (M_bind_ok _ _ _ _ _ Hrun).
  set (k := Z.min n (consumable s)) in *.
  destruct (queue_take s (ConsumeBlockInto block n) k (Z.to_nat (fixed_size s - 1)))
    as [Ht' Hq]; try done.
  exists (take (Z.to_nat k) (contents s)), (advance_tail k s). unfold mret, M_ret.
  unfold starts in Hst. rewrite length_take, length_contents, Nat.min_l in Hst by (done || lia).
  rewrite Hst. split_and!; done.
Qed.

Lemma refines_line s line n :
  cb_text s → op_ok s (ConsumeLine line n) → refines s (ConsumeLine line n).
Proof.
  intros Ht (Hn & Hcap & Hok). pose proof (cbt_wf s Ht) as Hwf.
  destruct (consume_line_ok s line n Ht Hn Hcap Hok) as (l & Hrun & Hst & _).
  pose proof (line_length_bounds s n Hwf ltac:(lia)) as (Hb1 & Hb2 & Hb3).
  pose proof (line_length_one_line s n Hwf ltac:(lia)) as Hone.
  unfold refines. cbn [run_op]. set (k := line_length s n) in *.
  rewrite (M_bind_ok _ _ _ _ _ Hrun).
  destruct (queue_take s (ConsumeLine line n) k (Z.to_nat (fixed_size s - 1)))
    as [Ht' Hq]; try done; try lia.
  exists (take (Z.to_nat k) (contents s)), (advance_tail k s).
  assert (take (Z.to_nat k) l = take (Z.to_nat k) (contents s)) as Htk.
  { unfold starts in Hst. apply (f_equal (take (Z.to_nat k))) in Hst.
    rewrite take_take, length_app, length_take, length_contents, Nat.min_l in Hst by (done || cbn; lia).
    rewrite Hst, take_app_le; [by rewrite take_take, Nat.min_id|].
    rewrite length_take, length_contents by done. lia. }
  unfold mret, M_ret. rewrite Htk. split_and!; done.
Qed.

Lemma refines_write_item s x : cb_text s → op_ok s (WriteItem x) → refines s (WriteItem x).
Proof.
  intros [Hwf Hsent Hterm Hnz] [Hx Hedge]. pose proof Hwf as [].
  pose proof (item_written_contents s x Hwf Hedge) as Hc.
  exists [], (item_written s x). cbn [run_op]. rewrite (M_bind_ok _ _ _ _ _ (write_item_run s x Hwf)), Hc.
  split_and!; [done| |constructor|done]. constructor; [by apply item_written_wf|cbn..|].
  - destruct (decide (cb_head s + 1 = fixed_size s)) as [<-|Hne].
    + apply list_lookup_insert_eq. rewrite length_insert. lia.
    + by rewrite !list_lookup_insert_ne by lia.
  - destruct (decide (cb_head s + 1 = fixed_size s)) as [->|Hne]; [by rewrite Z.mod_same by lia|].
    rewrite Z.mod_small by lia. intros _. apply list_lookup_insert_eq. rewrite length_insert. lia.
  - rewrite Hc. apply Forall_drop, Forall_app. split; [done|by constructor].
Qed.

Lemma refines_reset s : cb_text s → refines s Clear.
Proof.
  intros [Hwf Hsent _ _]. pose proof Hwf as []. unfold refines. cbn [run_op]. unfold clear.
  do 2 rewrite !M_bind_assoc, (M_bind_ok (modify _) _ _ _ _ eq_refl).
  rewrite !M_bind_assoc, (M_bind_ok _ _ _ _ _ (cb_store_ok (set_tail 0 (set_head 0 s)) 0 end_item ltac:(cbn; lia))).
  eexists _, _. split; [reflexivity|].
  set (s' := set_maxed _ _). assert (cb_wf s') as Hwf'.
  { constructor; cbn; rewrite ?length_insert; try done; try lia. }
  assert (contents s' = []) as Hc by (by apply contents_empty).
  rewrite Hc. split_and!; [|constructor|done].
  constructor; [done|cbn; by rewrite list_lookup_insert_ne by lia|done|by rewrite Hc].
Qed.

Lemma refines_clear s : cb_text s → refines s ClearIfEmpty.
Proof.
  intros Ht. unfold refines. cbn [run_op].
  rewrite (M_bind_ok _ _ _ _ _ (clear_if_empty_run s)). cbn zeta.
  destruct (empty s) eqn:He.
  - destruct (reset_text s Ht He) as (Ht' & Hc' & ->). eexists _, _. split; [done|].
    split_and!; [done| |done]. rewrite Hc'. constructor.
  - eexists _, _. split; [done|]. split_and!; [|constructor|done].
    destruct Ht as [[] ? ? ?]. by constructor; [constructor|..].
Qed.

Lemma run_op_refines s op : cb_text s → op_ok s op → refines s op.
Proof.
  destruct op; intros Ht Hop; auto using refines_write_item, refines_write, refines_consume,
    refines_block, refines_block_into, refines_line, refines_reset, refines_clear.
Qed.

(** A sequence of operations; the data it hands out, in order. *)
Fixpoint run_ops (ops : list Op) : M CircularBuffer (list Z) :=
  match ops with
  | [] => mret []
  | op :: ops' => out ← run_op op; outs ← run_ops ops'; mret (out ++ outs)
  end.

(** Every operation is called as it must be, in the state it finds. *)
Fixpoint ops_ok (s : CircularBuffer) (ops : list Op) : Prop :=
  match ops with
  | [] => True
  | op :: ops' => op_ok s op ∧
      match run_op op s with Ok (_, s') => ops_ok s' ops' | Err _ => False end
  end.

Definition op_text (op : Op) : list Z :=
  match op with WriteItem x => [x] | WriteText text => text | _ => [] end.
Definition ops_text (ops : list Op) : list Z := concat (op_text <$> ops).

Lemma queue_step_conserves capacity q op out q' :
  queue_step capacity q op out q' → op ≠ Clear → (length (q ++ op_text op) ≤ capacity)%nat →
  q ++ op_text op = out ++ q'.
Proof.
  destruct 1 as [q x|q text|op out q Hop Hne Hout|q|q]; cbn [op_text]; intros Hclear Hl; try done.
  - by rewrite lastn_all.
  - by rewrite lastn_all.
  - by destruct op; rewrite ?app_nil_r.
  - by rewrite app_nil_r.
Qed.

Lemma run_ops_conserves ops : ∀ s,
  cb_text s → ops_ok s ops → Forall (λ op, op ≠ Clear) ops →
  Z.of_nat (length (contents s ++ ops_text ops)) ≤ fixed_size s - 1 →
  ∃ out s', run_ops ops s = Ok (out, s') ∧ cb_text s' ∧
    contents s ++ ops_text ops = out ++ contents s'.
Proof.
  induction ops as [|op ops IH]; intros s Ht Hok Hcl Hl.
  - exists [], s. split_and!; try done. by rewrite app_nil_r.
  - apply Forall_cons in Hcl as [Hc Hcl]. destruct Hok as [Hop Hrest]. destruct (run_op_refines s op Ht Hop) as (o & s1 & Hrun & Ht1 & Hq & Hf).
    rewrite Hrun in Hrest. unfold ops_text in *. cbn [fmap list_fmap concat] in *.
    rewrite app_assoc in *. rewrite length_app in Hl.
    apply queue_step_conserves in Hq; [|done|lia]. rewrite Hq in *.
    destruct (IH s1 Ht1 Hrest Hcl) as (outs & s' & Hruns & Ht' & Hc').
    { rewrite Hf. rewrite length_app in *. lia. }
    exists (o ++ outs), s'. cbn [run_ops].
    rewrite (M_bind_ok _ _ _ _ _ Hrun), (M_bind_ok _ _ _ _ _ Hruns).
    split_and!; [done|done|]. by rewrite <- !app_assoc, Hc'.
Qed.

(** * Lemmas: where the operations leave the queue's contract *)

Lemma strchr_after_segment1 s k :
  cb_text s → empty s = false → newline ∉ segment1 s → 0 ≤ k ≤ consumable s →
  strchr (cells s) (cb_tail s + k) newline = Ok None.
Proof.
  intros Ht Hne Hn Hk. destruct (segment1_array s Ht Hne) as [rest Hr].
  pose proof (length_segment1 s (cbt_wf s Ht)) as Hl. pose proof (cbt_wf s Ht) as [].
  unfold strchr. rewrite Z2Nat.inj_add by lia. rewrite <- drop_drop, Hr, drop_app_le by lia.
  destruct (strchr_from_text (drop (Z.to_nat k) (segment1 s)) rest newline (cb_tail s + k))
    as [(d & _ & Hd & _)|[Hs _]]; [apply Forall_drop, Forall_take, Ht|done| |done].
  destruct Hn. apply list_elem_of_lookup. exists (Z.to_nat k + d)%nat. by rewrite <- lookup_drop.
Qed.

Lemma partial_wrong_tail s line line_size pre :
  cb_text s → wraps s = true → newline ∉ segment1 s →
  cb_head s < line_size < consumable s → line_size < Z.of_nat (length line) →
  starts line pre → length pre = Z.to_nat line_size →
  ∃ line' s', consume_line_partial s line line_size line_size s = Ok ((line_size, line'), s') ∧
    starts line' (pre ++ [0]) ∧ cb_tail s' = line_size.
Proof.
  intros Ht Hw Hn Hls Hcap Hst Hpl. pose proof (cbt_wf s Ht) as Hwf. pose proof Hwf as [].
  assert (empty s = false) as Hne.
  { unfold wraps in Hw. apply andb_prop in Hw as [_ Hw]. by destruct (empty s). }
  destruct (consumable_spec s Hwf) as (Hce & Hc & Hb & _ & _). rewrite Hw in Hce.
  unfold consume_line_partial.
  assert (u16 (cb_tail s + line_size) = cb_tail s + line_size) as ->
    by (apply wrap_small; unfold in_width; lia).
  rewrite (lift_bind_ok _ _ _ _ (strchr_after_segment1 s line_size Ht Hne Hn ltac:(lia))).
  rewrite Z.sub_diag. change (u16 0) with 0. rewrite Z.min_l by lia.
  unfold consume_line_finish.
  destruct (copy_out_ok s line line_size (cb_tail s + line_size) 0 pre []) as (l1 & Hc1 & Hs1 & Hl1);
    [rewrite slice_ok; [done|lia..]|done|lia|cbn; lia|]. rewrite app_nil_r in Hs1.
  rewrite (lift_bind_ok _ _ _ _ Hc1), (M_bind_ok (modify _) _ _ _ _ eq_refl), Z.add_0_r.
  rewrite decide_False by lia. rewrite decide_True by (split; [lia|done]).
  rewrite (M_bind_ok (mret _) _ _ _ _ eq_refl).
  destruct (store_nul_ok l1 pre line_size Hs1) as (l2 & Hc2 & Hs2 & _); [lia|lia|].
  rewrite (lift_bind_ok _ _ _ _ Hc2). unfold u16. rewrite wrap_small by (unfold in_width; lia).
  eexists _, _. split_and!; [reflexivity|done|done].
Qed.

(** * Properties *)

(** C29: the buffer implements a bounded queue that drops its oldest items.
    From every state whose text is terminated, each of its operations, called within its
    contract ([op_ok]: no terminator within what is written, a text neither empty nor
    longer than 65535 items, no single item written
    with the cursors at the two ends of the array, space given to read into, and for
    [consume_line] that when no newline comes before the end of the array there are data at
    its start, at least as many as the space if that is too small for the data
    before the end: [line_ok]), runs without undefined behaviour, keeps the
    invariant, and does to the contents what the queue allows: a write of one item or of a
    text appends and keeps the last [fixed_size - 1] items; a read hands out the front of
    the queue, something if there is anything, at most the space given, and at
    most one line; [clear] leaves nothing and [clear_if_empty], without an interrupt in its
    middle, loses nothing. *)
Theorem buffer_refines_queue (s : CircularBuffer) (op : Op) :
  cb_text s → op_ok s op →
  ∃ out s', run_op op s = Ok (out, s') ∧ cb_text s' ∧
    queue_step (Z.to_nat (fixed_size s - 1)) (contents s) op out (contents s') ∧
    fixed_size s' = fixed_size s.
Proof. apply run_op_refines. Qed.

(** over any sequence of operations but [clear] that stays within the capacity nothing
    is lost, duplicated or reordered: what was in the buffer followed by what
    was written is what was handed out followed by what is left. *)
Theorem buffer_conserves (s : CircularBuffer) (ops : list Op) :
  cb_text s → ops_ok s ops → Forall (λ op, op ≠ Clear) ops →
  Z.of_nat (length (contents s ++ ops_text ops)) ≤ fixed_size s - 1 →
  ∃ out s', run_ops ops s = Ok (out, s') ∧ cb_text s' ∧
    contents s ++ ops_text ops = out ++ contents s'.
Proof. apply run_ops_conserves. Qed.

(** [write(item)] appends one item to the queue, dropping the oldest one of
    a full queue, whenever the cursors are not at the two ends of the array. *)
Theorem write_item_appends (s : CircularBuffer) (x : Z) :
  cb_wf s → ¬ (cb_tail s = 0 ∧ cb_head s = fixed_size s - 1) →
  ∃ s', write_item x s = Ok (tt, s') ∧ cb_wf s' ∧
    contents s' = lastn (Z.to_nat (fixed_size s - 1)) (contents s ++ [x]).
Proof.
  intros Hwf He. exists (item_written s x).
  split_and!; [by apply write_item_run|by apply item_written_wf|by apply item_written_contents].
Qed.

(** with the read cursor at the start and the write cursor in the last cell
    the queue holds [fixed_size - 1] items and is not marked as full; writing one
    more item then makes it appear empty, and everything is lost. *)
Theorem write_item_loses_all (s : CircularBuffer) (x : Z) :
  cb_wf s → cb_tail s = 0 → cb_head s = fixed_size s - 1 →
  Z.of_nat (length (contents s)) = fixed_size s - 1 ∧ full s = false ∧
  ∃ s', write_item x s = Ok (tt, s') ∧ cb_wf s' ∧ contents s' = [].
Proof.
  intros Hwf Ht Hh. pose proof Hwf as [].
  assert (maxed s = false) as Hm.
  { apply not_true_is_false. rewrite cbw_maxed0. lia. }
  assert (cb_len s = fixed_size s - 1) as Hl.
  { unfold cb_len. rewrite Ht, Hh, Z.sub_0_r. apply Z.mod_small. lia. }
  split_and!; [rewrite length_contents by done; lia|done|].
  exists (item_written s x).
  split_and!; [by apply write_item_run|by apply item_written_wf|].
  apply contents_empty; [by apply item_written_wf|]. unfold empty, item_written. cbn.
  apply bool_decide_eq_true. rewrite Hm, Ht, Hh.
  replace (fixed_size s - 1 + 1) with (fixed_size s) by lia. apply Z.mod_same. lia.
Qed.

(** when a line longer than the space given runs over the end of the array,
    and less than that space is used at its start, [consume_line] hands out the
    right text but leaves the read cursor at [line_size] instead of behind the
    text: the rest of the line is lost or stale text follows. *)
Theorem consume_line_wrong_tail (s : CircularBuffer) (line : list Z) (line_size : Z) :
  cb_text s → wraps s = true → newline ∉ segment1 s →
  cb_head s < line_size < consumable s → line_size < Z.of_nat (length line) →
  ∃ line' s', consume_line line line_size s = Ok ((line_size, line'), s') ∧
    starts line' (take (Z.to_nat line_size) (contents s) ++ [0]) ∧
    cb_tail s' = line_size ∧ cb_tail s' ≠ (cb_tail s + line_size) mod fixed_size s.
Proof.
  intros Ht Hw Hn Hls Hcap. pose proof (cbt_wf s Ht) as Hwf. pose proof Hwf as [].
  assert (empty s = false) as Hne.
  { unfold wraps in Hw. apply andb_prop in Hw as [_ Hw]. by destruct (empty s). }
  destruct (consumable_spec s Hwf) as (Hce & Hc & Hb & _ & _). rewrite Hw in Hce.
  assert (length (take (Z.to_nat line_size) (contents s)) = Z.to_nat line_size) as Hpl.
  { rewrite length_take, length_contents by done. lia. }
  destruct (copy_out_ok s line 0 (cb_tail s) line_size [] (take (Z.to_nat line_size) (contents s)))
    as (l1 & Hc1 & Hs1 & Hl1); [apply slice_front; [done|lia]|done|done|lia|].
  destruct (partial_wrong_tail s l1 line_size _ Ht Hw Hn Hls ltac:(lia) Hs1 Hpl)
    as (l2 & s' & Hrun & Hst & Htail).
  exists l2, s'. unfold consume_line. rewrite (M_bind_ok get _ _ _ _ eq_refl).
  pose proof (strchr_after_segment1 s 0 Ht Hne Hn ltac:(lia)) as Hs0. rewrite Z.add_0_r in Hs0.
  rewrite (lift_bind_ok _ _ _ _ Hs0), Z.min_l, (lift_bind_ok _ _ _ _ Hc1), decide_False by lia.
  split_and!; [done|done|done|]. rewrite Htail, Z.mod_small by lia.
  unfold wraps, empty in *. apply andb_prop in Hw as [Hw _].
  apply bool_decide_eq_true in Hw. apply bool_decide_eq_false in Hne. lia.
Qed.

(** ** Witnesses *)

(** A fresh buffer of [n] cells that happen to be zero. *)
Definition fresh (n : Z) : CircularBuffer := CircularBuffer_new n (replicate (Z.to_nat n + 1) 0).

(** The state after some operations on a fresh buffer. *)
Definition after (n : Z) (ops : list Op) : CircularBuffer :=
  match run_ops ops (fresh n) with Ok (_, s) => s | Err _ => fresh n end.

#[global] Instance line_ok_dec s n : Decision (line_ok s n).
Proof. unfold line_ok. apply _. Defined.
#[global] Instance op_ok_dec s op : Decision (op_ok s op).
Proof. destruct op; cbn; apply _. Defined.
#[global] Instance ops_ok_dec s ops : Decision (ops_ok s ops).
Proof.
  revert s. induction ops as [|op ops IH]; intros s; cbn; [apply _|].
  apply and_dec; [apply _|]. destruct (run_op op s) as [[]|]; apply _.
Defined.

Lemma cb_wf_alt s :
  cb_wf s ↔ 2 ≤ fixed_size s < 2 ^ 16 ∧
    Z.of_nat (length (cells s)) = fixed_size s + 1 ∧ 0 ≤ cb_head s < fixed_size s ∧
    0 ≤ cb_tail s < fixed_size s ∧ maxed s = bool_decide (cb_head s = cb_tail s - 1).
Proof.
  assert ((maxed s = true ↔ cb_head s = cb_tail s - 1) ↔
    maxed s = bool_decide (cb_head s = cb_tail s - 1)) as Hm.
  { destruct (maxed s), (bool_decide_reflect (cb_head s = cb_tail s - 1)); intuition congruence. }
  split; [intros []|intros (? & ? & ? & ? & ?)]; [|constructor]; rewrite ?Hm in *; auto 10.
Qed.
#[global] Instance cb_wf_dec s : Decision (cb_wf s).
Proof. exact (dec_by (cb_wf_alt s)). Defined.

Lemma cb_text_alt s :
  cb_text s ↔ cb_wf s ∧ cells s !! Z.to_nat (fixed_size s) = Some 0 ∧
    (cb_head s ≠ 0 → cells s !! Z.to_nat (cb_head s) = Some 0) ∧
    Forall (λ c, c ≠ 0) (contents s).
Proof. split; [intros []|intros (? & ? & ? & ?)]; [auto|by constructor]. Qed.
#[global] Instance cb_text_dec s : Decision (cb_text s).
Proof. exact (dec_by (cb_text_alt s)). Defined.

Definition partial_line : list Z := str "partial ".

Lemma buffer_refines_queue_witness :
  let s := after 8 [WriteText partial_line; Consume; WriteText (str "ab")] in
  ∃ out s', run_op (WriteText (str "xyz")) s = Ok (out, s') ∧ cb_text s' ∧
    queue_step (Z.to_nat (fixed_size s - 1)) (contents s) (WriteText (str "xyz")) out (contents s') ∧
    fixed_size s' = fixed_size s.
Proof. apply buffer_refines_queue; decide_concrete. Defined.

Lemma buffer_conserves_witness :
  let s := after 12 [WriteText partial_line; ConsumeBlock] in
  let ops := [WriteText (str "ab"); Consume; WriteText (str "cdefg"); ConsumeBlock] in
  ∃ out s', run_ops ops s = Ok (out, s') ∧ cb_text s' ∧
    contents s ++ ops_text ops = out ++ contents s'.
Proof.
  apply buffer_conserves; [decide_concrete|decide_concrete|by repeat constructor|decide_concrete].
Defined.

Lemma write_item_appends_witness :
  let s := after 8 [WriteText partial_line; WriteText (str "abc")] in
  ∃ s', write_item 33 s = Ok (tt, s') ∧ cb_wf s' ∧
    contents s' = lastn (Z.to_nat (fixed_size s - 1)) (contents s ++ [33]).
Proof. apply write_item_appends; decide_concrete. Defined.

Lemma write_item_loses_all_witness :
  let s := after 8 [WriteText (str "seven..")] in
  Z.of_nat (length (contents s)) = fixed_size s - 1 ∧ full s = false ∧
  ∃ s', write_item 33 s = Ok (tt, s') ∧ cb_wf s' ∧ contents s' = [].
Proof. apply write_item_loses_all; [decide_concrete|reflexivity|reflexivity]. Defined.

Lemma consume_line_wrong_tail_witness :
  let s := after 20 [WriteText (str "fifteen letters"); ConsumeBlockInto (replicate 12 0) 12;
                     WriteText (str "more tex")] in
  let line := replicate 6 0 in
  ∃ line' s', consume_line line 5 s = Ok ((5, line'), s') ∧
    starts line' (take (Z.to_nat 5) (contents s) ++ [0]) ∧
    cb_tail s' = 5 ∧ cb_tail s' ≠ (cb_tail s + 5) mod fixed_size s.
Proof. apply consume_line_wrong_tail; decide_concrete. Defined.
