(* ===== verification/Debugging.v ===== *)
(** Component: the serial log (src/CircularBuffer/Debugging.cpp and Debugging.h, and
    [print_named_data] of src/main.cpp).

    The state is the log buffer, the static [line] array of
    [printAvailableLogging] and what has been printed so far.  [LOG_DEBUG] and
    its siblings are [writeF] on the buffer. *)

From S2P Require Import Prelude BinaryIO CircularBuffer.

(** * State *)

Inductive Printed :=
| BufferMaxed (ignored : Z)     (* "Buffer Maxed - Ignoring %d bytes ..." *)
| LogLine (text : list Z).      (* "%s\n" *)

Record Log := mkLog {
  serialLogBuffer : CircularBuffer;
  log_line : list Z;            (* static char line[SERIAL_LOG_BUFFER_LEN] *)
  printed : list Printed;
}.

Definition SERIAL_LOG_BUFFER_LEN : Z := 160.
Definition serialLogBuffer_size : Z := 3000.

(** * Operations *)

(** An operation of the buffer, on the log. *)
Definition on_buffer {A} (m : M CircularBuffer A) : M Log A := λ s,
  match m (serialLogBuffer s) with
  | Ok (a, b) => Ok (a, mkLog b (log_line s) (printed s))
  | Err e => Err e
  end.

Definition set_line (l : list Z) (s : Log) : Log := mkLog (serialLogBuffer s) l (printed s).
Definition print (p : Printed) : M Log unit :=
  modify (λ s, mkLog (serialLogBuffer s) (log_line s) (printed s ++ [p])).

(** The text [%s] prints: the bytes before the first NUL. *)
Fixpoint c_string (l : list Z) : result (list Z) :=
  match l with
  | [] => Err OutOfBounds
  | x :: l' => if decide (x = 0) then Ok [] else t ← c_string l'; mret (x :: t)
  end.

(** [serialLogBuffer.consume_line(line, SERIAL_LOG_BUFFER_LEN-1)] *)
Definition consume_log_line : M Log Z :=
  buf ← gets log_line;
  '(len, line) ← on_buffer (consume_line buf (SERIAL_LOG_BUFFER_LEN - 1));
  modify (set_line line);;
  mret len.

(** [line[i] = '\0'] *)
Definition terminate_line (i : Z) : M Log unit :=
  buf ← gets log_line; line ← lift_result (store buf i 0); modify (set_line line).

(** The body of the loop of [printAvailableLogging]. *)
Definition print_next_line : M Log unit :=
  len ← consume_log_line;
  line ← gets log_line;
  last ← lift_result (load line (len - 1));
  (if decide (last = newline) then terminate_line (len - 1) else terminate_line len);;
  line ← gets log_line;
  text ← lift_result (c_string line);
  print (LogLine text).

(** [while (!serialLogBuffer.empty())] *)
Fixpoint print_lines (fuel : nat) : M Log unit :=
  s ← get;
  if empty (serialLogBuffer s) then mret tt
  else match fuel with
       | O => fail NoFuel
       | S fuel' => print_next_line;; print_lines fuel'
       end.

Definition printAvailableLogging (fuel : nat) (interrupted : M CircularBuffer unit) : M Log unit :=
  s ← get;
  (if full (serialLogBuffer s) then len ← consume_log_line; print (BufferMaxed len)
   else mret tt);;
  print_lines fuel;;
  on_buffer (clear_if_empty interrupted).

(** [data[i] >= 0x20 && data[i] < 0x7e] *)
Definition printable (b : Z) : bool := bool_decide (0x20 ≤ b ∧ b < 0x7e).

(** [print_named_data]: each [LOG_DEBUG] formats into the log. *)
Definition print_named_data (ndebug : bool) (name data : list Z) : M CircularBuffer unit :=
  writeF ndebug (name ++ str ":");;
  for_each data (λ b, writeF ndebug (hex8 b));;
  writeF ndebug [newline];;
  writeF ndebug (name ++ str "[c]:");;
  for_each data (λ b, writeF ndebug (if printable b then [b] else str " "));;
  writeF ndebug [newline].

(** * Specification *)

(** The text that [print_named_data] logs. *)
Definition named_data_text (name data : list Z) : list Z :=
  name ++ str ":" ++ concat (hex8 <$> data) ++ [newline] ++
  name ++ str "[c]:" ++ ((λ b, if printable b then b else char " ") <$> data) ++ [newline].

(** A piece of log text without its final newline. *)
Definition chomp (l : list Z) : list Z :=
  if decide (last l = Some newline) then take (length l - 1) l else l.

Definition text_wf (l : list Z) : Prop := Forall (λ c, c ≠ 0) l.

(** * Lemmas *)

(** Writing [text] extends the stream; the buffer keeps its end. *)
Definition logs (s : CircularBuffer) (text : list Z) (r : result (unit * CircularBuffer)) : Prop :=
  ∃ s', r = Ok (tt, s') ∧ cb_text s' ∧ fixed_size s' = fixed_size s ∧
    contents s' = lastn (Z.to_nat (fixed_size s - 1)) (contents s ++ text).

Lemma logs_writeF s ndebug text :
  cb_text s → text ≠ [] → text_wf text → Z.of_nat (length text) < print_buf_size →
  logs s text (writeF ndebug text s).
Proof.
  intros Ht Hne Hnz Hl. unfold writeF, print_buf_size in *.
  rewrite bool_decide_eq_false_2, andb_false_r by lia.
  rewrite take_ge by (change (Z.to_nat (600 - 1)) with 599%nat; lia).
  destruct (write_items_ok s text [] (cbt_wf s Ht) Hne Hnz ltac:(lia))
    as (s' & Hrun & _ & Hc & Hf & Ht'). exists s'. auto.
Qed.

Lemma logs_bind s (m k : M CircularBuffer unit) t1 t2 :
  logs s t1 (m s) → (∀ s', cb_text s' → logs s' t2 (k s')) → logs s (t1 ++ t2) ((m;; k) s).
Proof.
  intros (s1 & Hm & Ht1 & Hf1 & Hc1) Hk. destruct (Hk s1 Ht1) as (s2 & Hk2 & Ht2 & Hf2 & Hc2).
  exists s2. rewrite (M_bind_ok _ _ _ _ _ Hm). split_and!; [done|done|congruence|].
  by rewrite Hc2, Hc1, Hf1, lastn_app_lastn, <- app_assoc.
Qed.

Lemma logs_for_each (data : list Z) (f : Z → M CircularBuffer unit) (g : Z → list Z) :
  (∀ b s, b ∈ data → cb_text s → logs s (g b) (f b s)) →
  ∀ s, cb_text s → logs s (concat (g <$> data)) (for_each data f s).
Proof.
  intros Hf s Ht. revert s Ht. induction data as [|b data IH]; intros s Ht; cbn.
  - exists s. split_and!; try done. rewrite app_nil_r, lastn_all; [done|].
    pose proof (cb_len_range s (cbt_wf s Ht)). rewrite length_contents by apply Ht. lia.
  - apply logs_bind; [apply Hf; [set_solver|done]|].
    apply IH. intros; apply Hf; [set_solver|done].
Qed.

Lemma hexify_nonzero d : 0 ≤ d < 16 → hexify d ≠ 0.
Proof.
  intros Hd. unfold hexify. case_decide; unfold u8; rewrite wrap_small;
    unfold in_width; change (char "0") with 48 in *; change (char "a") with 97 in *; lia.
Qed.

Lemma hex8_text b : text_wf (hex8 b).
Proof.
  unfold hex8, text_wf. change 15 with (Z.ones 4).
  repeat constructor; apply hexify_nonzero; rewrite Z.land_ones by lia;
    apply Z.mod_pos_bound; lia.
Qed.

Lemma logs_print_named_data s ndebug name data :
  cb_text s → text_wf name → Z.of_nat (length name) < print_buf_size - 4 →
  logs s (named_data_text name data) (print_named_data ndebug name data s).
Proof.
  intros Ht Hn Hl. unfold named_data_text, print_named_data, print_buf_size in *.
  assert (∀ suffix, suffix ≠ [] → text_wf suffix → (length suffix ≤ 4)%nat → ∀ s, cb_text s →
    logs s (name ++ suffix) (writeF ndebug (name ++ suffix) s)) as Hname.
  { intros suffix Hs Hw Hls s0 Ht0. apply logs_writeF; [done| |by apply Forall_app_2|].
    - destruct name; [by destruct suffix|done].
    - rewrite length_app. unfold print_buf_size. lia. }
  assert (∀ s, cb_text s → logs s [newline] (writeF ndebug [newline] s)) as Hnl.
  { intros. apply logs_writeF; [done|done|by repeat constructor|done]. }
  rewrite app_assoc. apply logs_bind; [by apply Hname; [|repeat constructor| |]; cbn; try lia|].
  intros s1 Ht1. apply logs_bind.
  { apply logs_for_each; [|done]. intros b s0 _ Ht0.
    apply logs_writeF; [done|done|apply hex8_text|done]. }
  intros s2 Ht2. apply logs_bind; [by apply Hnl|]. intros s3 Ht3.
  rewrite app_assoc. apply logs_bind; [by apply Hname; [|repeat constructor| |]; cbn; try lia|].
  intros s4 Ht4. apply logs_bind; [|by apply Hnl].
  assert (((λ b, if printable b then b else char " ") <$> data)
    = concat ((λ b, if printable b then [b] else str " ") <$> data)) as ->.
  { clear. induction data as [|b data IH]; [done|]. cbn. rewrite IH. by destruct (printable b). }
  apply logs_for_each; [|done]. intros b s0 _ Ht0.
  destruct (printable b) eqn:Hp; (apply logs_writeF; [done|done| |done]); repeat constructor; [|done].
  unfold printable in Hp. apply bool_decide_eq_true in Hp. lia.
Qed.

(** ** Printing a line *)

Lemma starts_app l t : starts l t → ∃ rest, l = t ++ rest.
Proof. unfold starts. intros H. exists (drop (length t) l). rewrite <- H at 1. symmetry. apply take_drop. Qed.

Lemma c_string_app t rest : text_wf t → c_string (t ++ 0 :: rest) = Ok t.
Proof.
  induction 1 as [|x t Hx Ht IH]; cbn [app c_string]; [by rewrite decide_True|].
  rewrite decide_False by done. by rewrite IH.
Qed.

Lemma chomp_text t : text_wf t → text_wf (chomp t).
Proof. intros Ht. unfold chomp. case_decide; [by apply Forall_take|done]. Qed.

Definition line_limit : Z := SERIAL_LOG_BUFFER_LEN - 1.

(** The log after [n] items were handed out and [out] was printed. *)
Definition log_advance (n : Z) (line : list Z) (out : list Printed) (s : Log) : Log :=
  mkLog (advance_tail n (serialLogBuffer s)) line (printed s ++ out).

(** What one call of [consume_line] hands out. *)
Definition piece_length (b : CircularBuffer) : Z := line_length b line_limit.
Definition piece (b : CircularBuffer) : list Z := take (Z.to_nat (piece_length b)) (contents b).

Lemma length_piece b : cb_wf b → Z.of_nat (length (piece b)) = piece_length b.
Proof.
  intros Hwf. pose proof (line_length_bounds b line_limit Hwf ltac:(done)).
  unfold piece. rewrite length_take, length_contents by done. unfold piece_length in *. lia.
Qed.

Lemma consume_log_line_run s :
  cb_text (serialLogBuffer s) → line_ok (serialLogBuffer s) line_limit →
  Z.of_nat (length (log_line s)) = SERIAL_LOG_BUFFER_LEN →
  ∃ line, consume_log_line s
    = Ok (piece_length (serialLogBuffer s),
          mkLog (advance_tail (piece_length (serialLogBuffer s)) (serialLogBuffer s)) line (printed s)) ∧
    starts line (piece (serialLogBuffer s) ++ [0]) ∧ length line = length (log_line s).
Proof.
  intros Ht Hok Hl.
  destruct (consume_line_ok (serialLogBuffer s) (log_line s) line_limit Ht) as (line & Hrun & Hst & Hll);
    [done|unfold line_limit; lia|done|].
  exists line. split_and!; [|done|done]. unfold consume_log_line.
  rewrite (M_bind_ok (gets _) _ _ _ _ eq_refl). unfold mbind, M_bind, on_buffer.
  unfold line_limit in Hrun. rewrite Hrun. done.
Qed.

Lemma terminate_line_run s i t :
  0 ≤ i < Z.of_nat (length (log_line s)) → starts (log_line s) t → i = Z.of_nat (length t) →
  ∃ line rest, terminate_line i s = Ok (tt, set_line line s) ∧ line = t ++ 0 :: rest ∧
    length line = length (log_line s).
Proof.
  intros Hi Hst ->. destruct (store_nul_ok _ t _ Hst eq_refl) as (line & Hs & Hst' & Hl); [lia|].
  destruct (starts_app _ _ Hst') as [rest Hr]. rewrite <- app_assoc in Hr.
  exists line, rest. split_and!; [|done|done]. unfold terminate_line.
  rewrite (M_bind_ok (gets _) _ _ _ _ eq_refl). by rewrite (lift_bind_ok _ _ _ _ Hs).
Qed.

(** The newline, if the piece has one, is replaced by the terminator. *)
Lemma terminate_piece s p c rest :
  log_line s = p ++ 0 :: rest → last p = Some c →
  let n := Z.of_nat (length p) in
  ∃ line, (if decide (c = newline) then terminate_line (n - 1) else terminate_line n) s
    = Ok (tt, set_line line s) ∧ (∃ rest', line = chomp p ++ 0 :: rest') ∧
    length line = length (log_line s).
Proof.
  intros Hr Hlast. cbn zeta. assert (length (log_line s) = length p + S (length rest))%nat as Hl
    by (rewrite Hr, length_app; done).
  assert (length p ≠ 0)%nat by (intros H0; apply nil_length_inv in H0; by subst).
  unfold chomp. rewrite Hlast. case_decide as Hc.
  - destruct (terminate_line_run s (Z.of_nat (length p) - 1) (take (length p - 1) p))
      as (l' & r' & H1 & H2 & H3); [lia| |rewrite length_take; lia|].
    + unfold starts. rewrite Hr, length_take, take_app_le by lia. f_equal. lia.
    + exists l'. rewrite decide_True by congruence. eauto.
  - destruct (terminate_line_run s (Z.of_nat (length p)) p) as (l' & r' & H1 & H2 & H3); [lia| |done|].
    + unfold starts. by rewrite Hr, take_app_length.
    + exists l'. rewrite decide_False by congruence. eauto.
Qed.

Lemma print_next_line_run s :
  let b := serialLogBuffer s in
  cb_text b → line_ok b line_limit → empty b = false →
  Z.of_nat (length (log_line s)) = SERIAL_LOG_BUFFER_LEN →
  ∃ line, print_next_line s = Ok (tt, log_advance (piece_length b) line [LogLine (chomp (piece b))] s) ∧
    length line = length (log_line s).
Proof.
  intros b Ht Hok Hne Hl. destruct (consume_log_line_run s Ht Hok Hl) as (line & Hrun & Hst & Hll).
  fold b in Hrun, Hst. pose proof (cbt_wf b Ht) as Hwf.
  destruct (line_length_bounds b line_limit Hwf ltac:(done)) as (_ & _ & Hpos).
  specialize (Hpos Hne). fold (piece_length b) in Hpos.
  pose proof (length_piece b Hwf) as Hpl.
  assert (text_wf (piece b)) as Htw by (apply Forall_take, Ht).
  destruct (starts_app _ _ Hst) as [rest Hr]. rewrite <- app_assoc in Hr. cbn [app] in Hr.
  unfold print_next_line. rewrite (M_bind_ok _ _ _ _ _ Hrun), (M_bind_ok (gets _) _ _ _ _ eq_refl).
  set (s1 := mkLog _ _ _). rewrite <- Hpl in Hpos |- *.
  destruct (last (piece b)) as [c|] eqn:Hlast;
    [|apply last_None in Hlast; rewrite Hlast in Hpos; cbn in Hpos; lia].
  rewrite (lift_bind_ok _ _ _ c).
  2: { unfold load. rewrite decide_True by lia. cbn [log_line s1]. rewrite Hr.
       rewrite last_lookup in Hlast. rewrite lookup_app_l by lia.
       replace (Z.to_nat _) with (pred (length (piece b))) by lia. by rewrite Hlast. }
  destruct (terminate_piece s1 (piece b) c rest Hr Hlast) as (line' & Hterm & (rest' & Hline') & Hll').
  rewrite (M_bind_ok _ _ _ _ _ Hterm), (M_bind_ok (gets _) _ _ _ _ eq_refl).
  rewrite (lift_bind_ok _ _ _ (chomp (piece b))).
  2: { cbn [log_line set_line]. rewrite Hline'. by apply c_string_app, chomp_text. }
  exists line'. rewrite Hpl. split; [reflexivity|]. by rewrite Hll'.
Qed.

(** ** Draining the log *)

(** Wrapped text whose part at the start of the array fills a line, or text
    that does not wrap: [consume_line] stays within its contract while the
    buffer is drained. *)
Definition drain_ok (b : CircularBuffer) : Prop :=
  wraps b = true → line_limit ≤ cb_head b.

Lemma drain_ok_line b : cb_wf b → drain_ok b → line_ok b line_limit.
Proof.
  intros [] Hd Hw _. specialize (Hd Hw). unfold line_limit, SERIAL_LOG_BUFFER_LEN in *. lia.
Qed.

Lemma drain_ok_advance b n : cb_wf b → 0 ≤ n ≤ cb_len b → drain_ok b → drain_ok (advance_tail n b).
Proof.
  intros Hwf Hn Hd Hw. change (cb_head (advance_tail n b)) with (cb_head b).
  destruct (wraps b) eqn:Hb; [by apply Hd|]. exfalso.
  pose proof (cb_len_wraps b Hwf) as Hl. rewrite Hb in Hl. pose proof Hwf as [].
  unfold wraps, empty, advance_tail in Hw. cbn in Hw. rewrite Z.mod_small in Hw by lia.
  apply andb_prop in Hw as [H1 H2]. apply bool_decide_eq_true in H1.
  apply negb_true_iff, bool_decide_eq_false in H2. lia.
Qed.

Definition line_like (p : list Z) : Prop :=
  p ≠ [] ∧ Z.of_nat (length p) ≤ line_limit ∧ newline ∉ take (length p - 1) p.

Lemma piece_spec b :
  cb_text b → contents b = piece b ++ contents (advance_tail (piece_length b) b) ∧
  cb_text (advance_tail (piece_length b) b) ∧
  (drain_ok b → drain_ok (advance_tail (piece_length b) b)) ∧
  (empty b = false → line_like (piece b)).
Proof.
  intros Ht. pose proof (cbt_wf b Ht) as Hwf. pose proof (length_piece b Hwf) as Hpl.
  destruct (line_length_bounds b line_limit Hwf ltac:(done)) as (Hb & Hle & Hpos).
  fold (piece_length b) in *. split_and!.
  - rewrite contents_advance_tail by done. symmetry. apply take_drop.
  - by apply take_out_text.
  - by apply drain_ok_advance.
  - intros He. specialize (Hpos He). unfold line_like. split_and!.
    + intros Hnil. rewrite Hnil in Hpl. cbn in Hpl. lia.
    + lia.
    + pose proof (line_length_one_line b line_limit Hwf ltac:(done)) as H1.
      fold (piece_length b) in H1. unfold piece at 2. rewrite take_take, Nat.min_l by lia.
      by replace (length (piece b) - 1)%nat with (Z.to_nat (piece_length b) - 1)%nat by lia.
Qed.

Lemma print_lines_run fuel : ∀ s,
  let b := serialLogBuffer s in
  cb_text b → drain_ok b → Z.of_nat (length (log_line s)) = SERIAL_LOG_BUFFER_LEN →
  (length (contents b) ≤ fuel)%nat →
  ∃ s' pieces, print_lines fuel s = Ok (tt, s') ∧ cb_text (serialLogBuffer s') ∧
    empty (serialLogBuffer s') = true ∧ concat pieces = contents b ∧ Forall line_like pieces ∧
    printed s' = printed s ++ (LogLine ∘ chomp <$> pieces).
Proof.
  induction fuel as [|fuel IH]; intros s b Ht Hd Hl Hf; cbn [print_lines];
    rewrite (M_bind_ok get _ _ _ _ eq_refl); fold b; destruct (empty b) eqn:He.
  1, 3: exists s, []; rewrite app_nil_r; split_and!; try done; by rewrite contents_empty by (done || apply Ht).
  - exfalso. pose proof (cbt_wf b Ht) as Hwf. pose proof (cb_len_range b Hwf).
    rewrite length_contents in Hf by done.
    assert (cb_len b = 0) as H0 by lia. apply cb_len_empty in H0; [congruence|done].
  - destruct (print_next_line_run s Ht (drain_ok_line _ (cbt_wf _ Ht) Hd) He Hl) as (line & Hrun & Hll).
    fold b in Hrun. destruct (piece_spec b Ht) as (Hc & Ht' & Hd' & Hp).
    destruct (Hp He) as (Hpne & _). rewrite (M_bind_ok _ _ _ _ _ Hrun).
    destruct (IH (log_advance (piece_length b) line [LogLine (chomp (piece b))] s))
      as (s' & pieces & Hruns & Hts & Hes & Hcs & Hps & Hpr); cbn [serialLogBuffer log_advance log_line];
      [done|auto|lia| |].
    { assert (length (piece b) ≠ 0)%nat by (intros H0; by apply nil_length_inv in H0).
      rewrite Hc, length_app in Hf. fold b. lia. }
    exists s', (piece b :: pieces). split_and!; try done.
    + cbn [concat]. rewrite Hcs. symmetry. exact Hc.
    + constructor; auto.
    + rewrite Hpr. cbn. by rewrite <- app_assoc.
Qed.

(** The partial line that is dropped first when the buffer has overflowed. *)
Lemma ignore_partial_line s :
  let b := serialLogBuffer s in
  cb_text b → drain_ok b → Z.of_nat (length (log_line s)) = SERIAL_LOG_BUFFER_LEN →
  ∃ s' ignored,
    (if full b then len ← consume_log_line; print (BufferMaxed len) else mret tt) s = Ok (tt, s') ∧
    cb_text (serialLogBuffer s') ∧ drain_ok (serialLogBuffer s') ∧
    length (log_line s') = length (log_line s) ∧
    contents b = ignored ++ contents (serialLogBuffer s') ∧
    printed s' = printed s ++ (if full b then [BufferMaxed (Z.of_nat (length ignored))] else []) ∧
    (if full b then line_like ignored else ignored = []).
Proof.
  intros b Ht Hd Hl. destruct (full b) eqn:Hfull.
  - destruct (consume_log_line_run s Ht (drain_ok_line _ (cbt_wf _ Ht) Hd) Hl) as (line & Hrun & _ & Hll).
    fold b in Hrun. destruct (piece_spec b Ht) as (Hc & Ht' & Hd' & Hline).
    rewrite (M_bind_ok _ _ _ _ _ Hrun).
    eexists _, (piece b). split; [reflexivity|]. cbn [serialLogBuffer log_line printed].
    split_and!; try done; [by apply Hd'|by rewrite length_piece by apply Ht|].
    apply Hline, not_true_is_false. intros He. apply empty_unmaxed in He; [|apply Ht]. unfold full in Hfull. congruence.
  - exists s, []. rewrite app_nil_r. done.
Qed.

(** ** A log that is never drained *)

(** [n] turns of the loop, each from a non-empty buffer. *)
Fixpoint spin (n : nat) (s : Log) : option Log :=
  match n with
  | O => Some s
  | S n' =>
      if empty (serialLogBuffer s) then None
      else match print_next_line s with Ok (_, s') => spin n' s' | Err _ => None end
  end.

(** Without what was printed, which the loop never reads. *)
Definition forget (s : Log) : Log := mkLog (serialLogBuffer s) (log_line s) [].

Definition blind {A} (m : M Log A) : Prop := ∀ s s',
  forget s = forget s' →
  match m s, m s' with
  | Ok (a, t), Ok (a', t') => a = a' ∧ forget t = forget t'
  | Err e, Err e' => e = e'
  | _, _ => False
  end.

Lemma blind_bind {A B} (m : M Log A) (k : A → M Log B) :
  blind m → (∀ a, blind (k a)) → blind (m ≫= k).
Proof.
  intros Hm Hk s s' Hs. specialize (Hm s s' Hs). unfold mbind, M_bind.
  destruct (m s) as [[a t]|], (m s') as [[a' t']|]; try done.
  destruct Hm as [-> Ht]. by apply Hk.
Qed.

Lemma blind_ret {A} (a : A) : blind (mret a).
Proof. by intros s s' Hs. Qed.
Lemma blind_line : blind (gets log_line).
Proof. intros s s' Hs. by injection Hs. Qed.
Lemma blind_lift {A} (r : result A) : blind (lift_result r).
Proof. intros s s' Hs. by destruct r. Qed.
Lemma blind_set_line l : blind (modify (set_line l)).
Proof. intros [] [] Hs. unfold forget in *. by simplify_eq/=. Qed.
Lemma blind_print p : blind (print p).
Proof. intros [] [] Hs. unfold forget in *. by simplify_eq/=. Qed.
Lemma blind_on_buffer {A} (m : M CircularBuffer A) : blind (on_buffer m).
Proof.
  intros [b l p] [b' l' p'] Hs. unfold forget in *. simplify_eq/=. unfold on_buffer. cbn.
  by destruct (m b') as [[]|].
Qed.

Create HintDb blind.
#[export] Hint Resolve blind_bind blind_ret blind_line blind_lift blind_set_line blind_print
  blind_on_buffer : blind.

Lemma blind_print_next_line : blind print_next_line.
Proof.
  assert (∀ i, blind (terminate_line i)) by (unfold terminate_line; auto with blind).
  unfold print_next_line. apply blind_bind.
  { unfold consume_log_line. apply blind_bind; [auto with blind|]. intros.
    apply blind_bind; [auto with blind|]. intros []. auto with blind. }
  intros n. apply blind_bind; [auto with blind|]. intros. apply blind_bind; [auto with blind|].
  intros. apply blind_bind; [case_decide; auto with blind|auto with blind].
Qed.

Lemma spin_blind n : ∀ s s', forget s = forget s' → forget <$> spin n s = forget <$> spin n s'.
Proof.
  induction n as [|n IH]; intros s s' Hs; cbn [spin]; [by cbn; f_equal|].
  assert (serialLogBuffer s = serialLogBuffer s') as -> by (by injection Hs).
  destruct (empty _); [done|]. pose proof (blind_print_next_line s s' Hs) as Hp.
  destruct (print_next_line s) as [[u1 s1]|], (print_next_line s') as [[u2 s2]|]; try done.
  apply IH, Hp.
Qed.

Lemma spin_plus n m s : spin (n + m) s = s' ← spin n s; spin m s'.
Proof.
  revert s. induction n as [|n IH]; intros s; [done|]. cbn [spin Nat.add].
  destruct (empty _); [done|]. destruct (print_next_line s) as [[]|]; [apply IH|done].
Qed.

Lemma spin_no_fuel fuel : ∀ s, is_Some (spin (S fuel) s) → print_lines fuel s = Err NoFuel.
Proof.
  induction fuel as [|fuel IH]; intros s [s' Hs]; cbn [print_lines];
    rewrite (M_bind_ok get _ _ _ _ eq_refl); cbn [spin] in Hs; destruct (empty _); try done.
  unfold mbind, M_bind. destruct (print_next_line s) as [[u s1]|]; [|done].
  apply IH. by exists s'.
Qed.

Lemma spin_cycle k s :
  (0 < k)%nat → forget <$> spin k s = Some (forget s) → ∀ n, is_Some (spin n s).
Proof.
  intros Hk Hc n. assert (∀ m, forget <$> spin (m * k) s = Some (forget s)) as Hm.
  { induction m as [|m IH]; [done|]. cbn [Nat.mul]. rewrite spin_plus.
    destruct (spin k s) as [s1|]; [|done]. apply (inj Some) in Hc. cbn [mbind option_bind].
    by rewrite (spin_blind _ _ _ Hc). }
  specialize (Hm n). replace (n * k)%nat with (n + (n * k - n))%nat in Hm by nia.
  rewrite spin_plus in Hm. destruct (spin n s); [eauto|done].
Qed.

(** Twenty-nine lines of a hundred bytes and a hundred bytes of a thirtieth. *)
Definition hundred : list Z := replicate 99 (char "x") ++ [newline].
Definition unfinished : list Z := replicate 100 (char "y").
Definition thirty_writes : M CircularBuffer unit :=
  for_each (replicate 29 hundred ++ [unfinished]) (writeF true).

Definition startup_log : Log :=
  mkLog (fresh serialLogBuffer_size) (replicate (Z.to_nat SERIAL_LOG_BUFFER_LEN) 0) [].

#[global] Instance CircularBuffer_eq_dec : EqDecision CircularBuffer.
Proof. solve_decision. Defined.
#[global] Instance Printed_eq_dec : EqDecision Printed.
Proof. solve_decision. Defined.
#[global] Instance Log_eq_dec : EqDecision Log.
Proof. solve_decision. Defined.

(** After [m] the buffer is full, its partial first line can be ignored, and
    after [k0] turns the loop comes back to where it was every [k] turns. *)
Definition livelocks (m : M CircularBuffer unit) (s : Log) (k0 k : nat) : bool :=
  match on_buffer m s with
  | Ok (_, s0) =>
      full (serialLogBuffer s0) &&
      match (len ← consume_log_line; print (BufferMaxed len)) s0 with
      | Ok (_, s1) =>
          match spin k0 s1 with
          | Some s2 => bool_decide (forget <$> spin k s2 = Some (forget s2))
          | None => false
          end
      | Err _ => false
      end
  | Err _ => false
  end.

Lemma livelocks_no_fuel m s k0 k fuel interrupted :
  (0 < k)%nat → livelocks m s k0 k = true →
  (on_buffer m;; printAvailableLogging fuel interrupted) s = Err NoFuel.
Proof.
  intros Hk. unfold livelocks. unfold mbind at 2, M_bind at 2.
  destruct (on_buffer m s) as [[u s0]|]; [|done]. intros [Hfull Hs1]%andb_prop.
  unfold printAvailableLogging. rewrite (M_bind_ok get _ _ _ _ eq_refl), Hfull.
  unfold mbind at 1, M_bind at 1.
  destruct ((len ← consume_log_line; print (BufferMaxed len)) s0) as [[u1 s1]|]; [|done].
  destruct (spin k0 s1) as [s2|] eqn:H2; [|done]. apply bool_decide_eq_true in Hs1.
  unfold mbind, M_bind. rewrite spin_no_fuel; [done|].
  assert (is_Some (spin (k0 + S fuel) s1)) as [s' Hs'].
  { rewrite spin_plus, H2. by apply (spin_cycle k). }
  rewrite Nat.add_comm, spin_plus in Hs'. destruct (spin (S fuel) s1); [eauto|done].
Qed.

(** * Properties *)

(** C35: when the text in the log does not wrap around the end of its array, or at least a
    line of it is at the start of the array ([drain_ok]), [printAvailableLogging] ends
    after at most one turn per byte, with the buffer empty and its cursors at the start.
    After an overflow it drops the piece in front, at most a line, and says how long
    it was; all the rest is printed, in order and once, in pieces that are each at most a
    line and lose only their newline. *)
Theorem printAvailableLogging_prints_all (s : Log) (fuel : nat) :
  let b := serialLogBuffer s in
  cb_text b → drain_ok b → Z.of_nat (length (log_line s)) = SERIAL_LOG_BUFFER_LEN →
  (length (contents b) ≤ fuel)%nat →
  ∃ s' ignored pieces, printAvailableLogging fuel (mret tt) s = Ok (tt, s') ∧
    contents b = ignored ++ concat pieces ∧ Forall line_like pieces ∧
    (if full b then line_like ignored else ignored = []) ∧
    printed s' = printed s ++ (if full b then [BufferMaxed (Z.of_nat (length ignored))] else [])
                   ++ (LogLine ∘ chomp <$> pieces) ∧
    cb_text (serialLogBuffer s') ∧ contents (serialLogBuffer s') = [] ∧
    cb_head (serialLogBuffer s') = 0 ∧ cb_tail (serialLogBuffer s') = 0.
Proof.
  intros b Ht Hd Hl Hf.
  destruct (ignore_partial_line s Ht Hd Hl) as (s1 & ig & H1 & Ht1 & Hd1 & Hl1 & Hc1 & Hp1 & Hig).
  fold b in H1, Hc1, Hp1, Hig.
  destruct (print_lines_run fuel s1 Ht1 Hd1 ltac:(lia)) as (s2 & ps & H2 & Ht2 & He2 & Hc2 & Hps & Hp2).
  { rewrite Hc1, length_app in Hf. lia. }
  destruct (reset_text _ Ht2 He2) as (Ht3 & Hc3 & _).
  pose proof (clear_if_empty_run (serialLogBuffer s2)) as H3. rewrite He2 in H3. cbn zeta in H3.
  unfold printAvailableLogging. rewrite (M_bind_ok get _ _ _ _ eq_refl). fold b.
  rewrite (M_bind_ok _ _ _ _ _ H1), (M_bind_ok _ _ _ _ _ H2). unfold on_buffer. rewrite H3.
  eexists _, ig, ps. split; [reflexivity|]. cbn [serialLogBuffer printed].
  split_and!; try done; [by rewrite Hc1, Hc2|]. by rewrite Hp2, Hp1, <- app_assoc.
Qed.

(** [print_named_data] appends to the log the name and the bytes in
    hexadecimal on one line and the name and the printable bytes on the next,
    whatever the bytes are (a NUL included); an overflow drops the oldest text. *)
Theorem print_named_data_logs (s : CircularBuffer) (ndebug : bool) (name data : list Z) :
  cb_text s → text_wf name → Z.of_nat (length name) < print_buf_size - 4 →
  ∃ s', print_named_data ndebug name data s = Ok (tt, s') ∧ cb_text s' ∧
    contents s' = lastn (Z.to_nat (fixed_size s - 1)) (contents s ++ named_data_text name data).
Proof.
  intros Ht Hn Hl. destruct (logs_print_named_data s ndebug name data Ht Hn Hl)
    as (s' & Hrun & Ht' & _ & Hc). eauto.
Qed.

(** when the bytes logged since start-up fill the array exactly and the last
    line is unfinished, [printAvailableLogging] never ends: at the end of the
    array [consume_line] takes the stale text at its start for the rest of the
    line, and the loop goes round over text it has printed already. *)
Theorem printAvailableLogging_livelock (fuel : nat) (interrupted : M CircularBuffer unit) :
  (on_buffer thirty_writes;; printAvailableLogging fuel interrupted) startup_log = Err NoFuel.
Proof.
  apply (livelocks_no_fuel _ _ 31 30); [lia|]. vm_compute. reflexivity.
Qed.

(** ** Witnesses *)

Definition example_log : Log :=
  mkLog (after 300 [WriteText (str "two "); WriteText (str "words" ++ [newline]); WriteText (str "more")])
    (replicate 160 0) [].

#[global] Instance drain_ok_dec b : Decision (drain_ok b).
Proof. unfold drain_ok. apply _. Defined.
#[global] Instance text_wf_dec l : Decision (text_wf l).
Proof. unfold text_wf. apply _. Defined.

Lemma printAvailableLogging_prints_all_witness :
  let b := serialLogBuffer example_log in
  ∃ s' ignored pieces, printAvailableLogging 300 (mret tt) example_log = Ok (tt, s') ∧
    contents b = ignored ++ concat pieces ∧ Forall line_like pieces ∧
    (if full b then line_like ignored else ignored = []) ∧
    printed s' = printed example_log
                   ++ (if full b then [BufferMaxed (Z.of_nat (length ignored))] else [])
                   ++ (LogLine ∘ chomp <$> pieces) ∧
    cb_text (serialLogBuffer s') ∧ contents (serialLogBuffer s') = [] ∧
    cb_head (serialLogBuffer s') = 0 ∧ cb_tail (serialLogBuffer s') = 0.
Proof.
  apply (printAvailableLogging_prints_all example_log 300);
    [decide_concrete|decide_concrete|reflexivity|decide_concrete].
Defined.

Lemma print_named_data_logs_witness :
  let s := fresh 64 in
  ∃ s', print_named_data true (str "data") [0; 65; 255] s = Ok (tt, s') ∧ cb_text s' ∧
    contents s' = lastn (Z.to_nat (fixed_size s - 1))
                    (contents s ++ named_data_text (str "data") [0; 65; 255]).
Proof. apply print_named_data_logs; decide_concrete. Defined.
