(* ===== verification/BleConnection.v ===== *)
(** Component: a connection (src/BLE/BleConnection.h and BleConnection.cpp).

    The fields of the class are the fields of the record, the setters its
    updates.  The notification listener, which only BTstack reads and links into
    its lists, is represented by the address of the connection that holds it. *)

From S2P Require Import Prelude.

(** * Constants *)

Definition BD_ADDR_LEN : Z := 6.
Definition BD_ADDR_TYPE_LE_RANDOM : Z := 1.
Definition BD_ADDR_TYPE_UNKNOWN : Z := 0xfe.
Definition HCI_ROLE_MASTER : Z := 0.
Definition HCI_ROLE_SLAVE : Z := 1.
Definition HCI_ROLE_INVALID : Z := 0xff.

Definition packet_service_uuid : list Z :=
  [0x29; 0x8c; 0xfe; 0xca; 0xa1; 0x0d; 0x49; 0xee; 0x8a; 0x74; 0xe5; 0x13; 0x54; 0x7f; 0x7e; 0xf7].
Definition packet_service_uuid_reversed : list Z :=
  [0xf7; 0x7e; 0x7f; 0x54; 0x13; 0xe5; 0x74; 0x8a; 0xee; 0x49; 0x0d; 0xa1; 0xca; 0xfe; 0x8c; 0x29].
Definition packet_service_name : list Z := str "Repeater".
Definition packet_characteristic_uuid : list Z :=
  [0xa8; 0xd9; 0x91; 0x67; 0xe5; 0x8c; 0x4a; 0x0c; 0x95; 0x65; 0xe2; 0xf1; 0xa7; 0xfb; 0xc0; 0x5d].

Inductive service_uuid_check_status :=
| ServiceUUIDNotFound        (* 0 *)
| ServiceUUIDFound           (* 0b1 *)
| ServiceUUIDAndNameFound.   (* 0b11 *)

#[global] Instance service_status_eq_dec : EqDecision service_uuid_check_status.
Proof. solve_decision. Defined.

(** The enumerators' values. *)
Definition status_value (s : service_uuid_check_status) : Z :=
  match s with ServiceUUIDNotFound => 0 | ServiceUUIDFound => 1 | ServiceUUIDAndNameFound => 3 end.

(** What BTstack reports of a remote service or characteristic. *)
Record gatt_client_service := mkService {
  start_group_handle : Z;
  end_group_handle : Z;
  service_uuid16 : Z;
  service_uuid128 : list Z;
}.

Record gatt_client_characteristic := mkCharacteristic {
  start_handle : Z;
  value_handle : Z;
  end_handle : Z;
  properties : Z;
  characteristic_uuid16 : Z;
  characteristic_uuid128 : list Z;
}.

(** * State *)

Record BleConnection := mkConn {
  connection_handle : Z;
  bt_address : list Z;
  bt_address_type : Z;
  bt_mtu : Z;
  packet_service_start_group_handle : Z;
  packet_service_end_group_handle : Z;
  packet_characteristic_value_handle : Z;
  notification_enabled : bool;
  has_data_to_send : bool;
  connected : bool;
  services_found : service_uuid_check_status;
  rssi : Z;
  role : Z;
  last_seen_time : Z;
}.

#[global] Instance BleConnection_eq_dec : EqDecision BleConnection.
Proof. solve_decision. Defined.

(** The default member initialisers. *)
Definition BleConnection_new : BleConnection :=
  mkConn 0 [0; 0; 0; 0; 0; 0] BD_ADDR_TYPE_UNKNOWN 0 0 0 0 false false false
    ServiceUUIDFound 0 HCI_ROLE_INVALID 0.

(** * Operations *)

Definition setConnectionHandle (v : Z) (c : BleConnection) : BleConnection :=
  mkConn v (bt_address c) (bt_address_type c) (bt_mtu c) (packet_service_start_group_handle c)
    (packet_service_end_group_handle c) (packet_characteristic_value_handle c)
    (notification_enabled c) (has_data_to_send c) (connected c) (services_found c) (rssi c)
    (role c) (last_seen_time c).

Definition setNotificationEnabled (v : bool) (c : BleConnection) : BleConnection :=
  mkConn (connection_handle c) (bt_address c) (bt_address_type c) (bt_mtu c)
    (packet_service_start_group_handle c) (packet_service_end_group_handle c)
    (packet_characteristic_value_handle c) v (has_data_to_send c) (connected c)
    (services_found c) (rssi c) (role c) (last_seen_time c).

(** The [int] argument is converted to the 16-bit field. *)
Definition setPacketCharacteristicValueHandle (v : Z) (c : BleConnection) : BleConnection :=
  mkConn (connection_handle c) (bt_address c) (bt_address_type c) (bt_mtu c)
    (packet_service_start_group_handle c) (packet_service_end_group_handle c) (u16 v)
    (notification_enabled c) (has_data_to_send c) (connected c) (services_found c) (rssi c)
    (role c) (last_seen_time c).

Definition setConnected (v : bool) (c : BleConnection) : BleConnection :=
  mkConn (connection_handle c) (bt_address c) (bt_address_type c) (bt_mtu c)
    (packet_service_start_group_handle c) (packet_service_end_group_handle c)
    (packet_characteristic_value_handle c) (notification_enabled c) (has_data_to_send c) v
    (services_found c) (rssi c) (role c) (last_seen_time c).

Definition setBleAddress (addr : list Z) (addr_type : Z) (c : BleConnection) : BleConnection :=
  mkConn (connection_handle c) addr addr_type (bt_mtu c)
    (packet_service_start_group_handle c) (packet_service_end_group_handle c)
    (packet_characteristic_value_handle c) (notification_enabled c) (has_data_to_send c)
    (connected c) (services_found c) (rssi c) (role c) (last_seen_time c).

Definition setHasData (v : bool) (c : BleConnection) : BleConnection :=
  mkConn (connection_handle c) (bt_address c) (bt_address_type c) (bt_mtu c)
    (packet_service_start_group_handle c) (packet_service_end_group_handle c)
    (packet_characteristic_value_handle c) (notification_enabled c) v (connected c)
    (services_found c) (rssi c) (role c) (last_seen_time c).

Definition setServices (v : service_uuid_check_status) (c : BleConnection) : BleConnection :=
  mkConn (connection_handle c) (bt_address c) (bt_address_type c) (bt_mtu c)
    (packet_service_start_group_handle c) (packet_service_end_group_handle c)
    (packet_characteristic_value_handle c) (notification_enabled c) (has_data_to_send c)
    (connected c) v (rssi c) (role c) (last_seen_time c).

Definition setRssi (v : Z) (c : BleConnection) : BleConnection :=
  mkConn (connection_handle c) (bt_address c) (bt_address_type c) (bt_mtu c)
    (packet_service_start_group_handle c) (packet_service_end_group_handle c)
    (packet_characteristic_value_handle c) (notification_enabled c) (has_data_to_send c)
    (connected c) (services_found c) v (role c) (last_seen_time c).

Definition setTimestamp (v : Z) (c : BleConnection) : BleConnection :=
  mkConn (connection_handle c) (bt_address c) (bt_address_type c) (bt_mtu c)
    (packet_service_start_group_handle c) (packet_service_end_group_handle c)
    (packet_characteristic_value_handle c) (notification_enabled c) (has_data_to_send c)
    (connected c) (services_found c) (rssi c) (role c) v.

Definition setMtu (v : Z) (c : BleConnection) : BleConnection :=
  mkConn (connection_handle c) (bt_address c) (bt_address_type c) v
    (packet_service_start_group_handle c) (packet_service_end_group_handle c)
    (packet_characteristic_value_handle c) (notification_enabled c) (has_data_to_send c)
    (connected c) (services_found c) (rssi c) (role c) (last_seen_time c).

Definition setRole (v : Z) (c : BleConnection) : BleConnection :=
  mkConn (connection_handle c) (bt_address c) (bt_address_type c) (bt_mtu c)
    (packet_service_start_group_handle c) (packet_service_end_group_handle c)
    (packet_characteristic_value_handle c) (notification_enabled c) (has_data_to_send c)
    (connected c) (services_found c) (rssi c) v (last_seen_time c).

(** The two assignments of [storeHandlesIfServiceMatches]. *)
Definition setServiceHandles (first last : Z) (c : BleConnection) : BleConnection :=
  mkConn (connection_handle c) (bt_address c) (bt_address_type c) (bt_mtu c) first last
    (packet_characteristic_value_handle c) (notification_enabled c) (has_data_to_send c)
    (connected c) (services_found c) (rssi c) (role c) (last_seen_time c).

Definition storeHandlesIfServiceMatches (service : gatt_client_service) (c : BleConnection) :
    BleConnection :=
  if decide (service_uuid128 service = packet_service_uuid)
  then setServiceHandles (start_group_handle service) (end_group_handle service) c
  else c.

Definition storeHandlesIfCharacteristicMatches (ch : gatt_client_characteristic)
    (c : BleConnection) : BleConnection :=
  if decide (characteristic_uuid128 ch = packet_characteristic_uuid)
  then setPacketCharacteristicValueHandle (value_handle ch) c
  else c.

Definition isRepeater (c : BleConnection) : bool :=
  bool_decide (services_found c = ServiceUUIDAndNameFound).

Definition isRandom (c : BleConnection) : bool :=
  bool_decide (bt_address_type c = BD_ADDR_TYPE_LE_RANDOM).

Definition getTimestampMs (c : BleConnection) : Z := last_seen_time c / 1000.

(** Returns the filled-in service when the characteristic is still to be found. *)
Definition canAndNeedToDiscoverPacketCharacteristicsQuery (service : gatt_client_service)
    (c : BleConnection) : bool * gatt_client_service :=
  if decide (packet_service_start_group_handle c > 0 ∧ packet_characteristic_value_handle c = 0)
  then (true, mkService (packet_service_start_group_handle c)
                (packet_service_end_group_handle c) 0 packet_service_uuid)
  else (false, service).

(** The connections that packets are sent to: [available] in [sendPackets]. *)
Definition available (c : BleConnection) : bool :=
  connected c && bool_decide (packet_characteristic_value_handle c > 0).

(** * Discovery as a sequence of events *)

Inductive Discovery :=
| ServiceResult (service : gatt_client_service)
| CharacteristicResult (ch : gatt_client_characteristic).

Definition discover (c : BleConnection) (e : Discovery) : BleConnection :=
  match e with
  | ServiceResult service =>
      if decide (service_uuid16 service = 0) then storeHandlesIfServiceMatches service c else c
  | CharacteristicResult ch =>
      if decide (characteristic_uuid16 ch = 0) then storeHandlesIfCharacteristicMatches ch c else c
  end.

(** The events that concern the packet service and its characteristic. *)
Definition matching_service (e : Discovery) : option gatt_client_service :=
  match e with
  | ServiceResult service =>
      if decide (service_uuid16 service = 0 ∧ service_uuid128 service = packet_service_uuid)
      then Some service else None
  | CharacteristicResult _ => None
  end.

Definition matching_characteristic (e : Discovery) : option gatt_client_characteristic :=
  match e with
  | CharacteristicResult ch =>
      if decide (characteristic_uuid16 ch = 0 ∧
                 characteristic_uuid128 ch = packet_characteristic_uuid)
      then Some ch else None
  | ServiceResult _ => None
  end.

(** * Lemmas *)

Lemma discover_service c e :
  packet_service_start_group_handle (discover c e)
  = match matching_service e with
    | Some service => start_group_handle service
    | None => packet_service_start_group_handle c
    end.
Proof.
  destruct e as [service|ch]; cbn; unfold storeHandlesIfServiceMatches,
    storeHandlesIfCharacteristicMatches; repeat case_decide; naive_solver.
Qed.

Lemma discover_value_handle c e :
  packet_characteristic_value_handle (discover c e)
  = match matching_characteristic e with
    | Some ch => u16 (value_handle ch)
    | None => packet_characteristic_value_handle c
    end.
Proof.
  destruct e as [service|ch]; cbn; unfold storeHandlesIfServiceMatches,
    storeHandlesIfCharacteristicMatches; repeat case_decide; naive_solver.
Qed.

Lemma discover_frame c e :
  connection_handle (discover c e) = connection_handle c ∧
  connected (discover c e) = connected c ∧ bt_mtu (discover c e) = bt_mtu c ∧
  has_data_to_send (discover c e) = has_data_to_send c.
Proof.
  destruct e as [service|ch]; cbn; unfold storeHandlesIfServiceMatches,
    storeHandlesIfCharacteristicMatches; repeat case_decide; done.
Qed.

(** The last result of interest decides, the first connection's value if none. *)
Lemma discover_all_value_handle events c :
  packet_characteristic_value_handle (foldl discover c events)
  = match last (omap matching_characteristic events) with
    | Some ch => u16 (value_handle ch)
    | None => packet_characteristic_value_handle c
    end.
Proof.
  revert c. induction events as [|e events IH]; intros c; [done|]. cbn [foldl omap list_omap].
  rewrite IH, discover_value_handle.
  destruct (matching_characteristic e) as [ch|]; [|done].
  rewrite last_cons. by destruct (last _).
Qed.

Lemma discover_all_service events c :
  packet_service_start_group_handle (foldl discover c events)
  = match last (omap matching_service events) with
    | Some service => start_group_handle service
    | None => packet_service_start_group_handle c
    end.
Proof.
  revert c. induction events as [|e events IH]; intros c; [done|]. cbn [foldl omap list_omap].
  rewrite IH, discover_service.
  destruct (matching_service e) as [service|]; [|done].
  rewrite last_cons. by destruct (last _).
Qed.

Lemma discover_all_connected events c : connected (foldl discover c events) = connected c.
Proof.
  revert c. induction events as [|e events IH]; intros c; [done|]. cbn [foldl].
  rewrite IH. apply discover_frame.
Qed.

(** * Properties *)

(** service discovery makes a connection available exactly when it is
    connected and the last characteristic reported with the packet UUID has a
    non-zero value handle; and the query for characteristics is asked for
    exactly while the packet service is known and no such handle is. *)
Theorem discovery_outcome (c : BleConnection) (events : list Discovery) (scratch : gatt_client_service) :
  packet_characteristic_value_handle c = 0 → packet_service_start_group_handle c = 0 →
  let c' := foldl discover c events in
  (available c' = true ↔
     connected c = true ∧ ∃ ch, last (omap matching_characteristic events) = Some ch ∧
       0 < u16 (value_handle ch)) ∧
  (fst (canAndNeedToDiscoverPacketCharacteristicsQuery scratch c') = true ↔
     (∃ service, last (omap matching_service events) = Some service ∧
        0 < start_group_handle service) ∧
     ∀ ch, last (omap matching_characteristic events) = Some ch → u16 (value_handle ch) = 0).
Proof.
  intros Hv Hs c'. unfold available, canAndNeedToDiscoverPacketCharacteristicsQuery, c'.
  rewrite discover_all_connected, discover_all_value_handle, discover_all_service, Hv, Hs.
  destruct (last (omap matching_characteristic events)) as [ch|],
    (last (omap matching_service events)) as [service|];
    (split; [rewrite andb_true_iff, bool_decide_eq_true|case_decide]);
    naive_solver lia.
Qed.

Definition example_service : gatt_client_service := mkService 9 14 0 packet_service_uuid.

Lemma discovery_outcome_witness :
  let c := setConnected true BleConnection_new in
  let events := [ServiceResult example_service;
    CharacteristicResult (mkCharacteristic 10 12 14 0 0 packet_characteristic_uuid)] in
  let c' := foldl discover c events in
  (available c' = true ↔
     connected c = true ∧ ∃ ch, last (omap matching_characteristic events) = Some ch ∧
       0 < u16 (value_handle ch)) ∧
  (fst (canAndNeedToDiscoverPacketCharacteristicsQuery example_service c') = true ↔
     (∃ service, last (omap matching_service events) = Some service ∧
        0 < start_group_handle service) ∧
     ∀ ch, last (omap matching_characteristic events) = Some ch → u16 (value_handle ch) = 0).
Proof. apply (discovery_outcome (setConnected true BleConnection_new)); reflexivity. Defined.
