(* ===== verification/Advertising.v ===== *)
(** Component: advertising and the recognition of other repeaters (src/main.cpp).

    [populate_advertising_data] fills the static array [adv_data]; a
    neighbour hands the bytes it hears to [check_for_uuid].  The iterator over
    the structures of an advertisement belongs to BTstack and is a parameter. *)

From S2P Require Import Prelude BleConnection.

(** * Constants *)

Definition BLE_ADVERTISING_MAX_LENGTH : Z := 31.
Definition BLE_FLAG_LE_GENERAL_DISC_MODE : Z := 0x02.
Definition BLE_FLAG_BR_EDR_NOT_SUPPORTED : Z := 0x04.
Definition BLE_FLAGS_LE_ONLY_GENERAL_DISC_MODE : Z :=
  Z.lor BLE_FLAG_LE_GENERAL_DISC_MODE BLE_FLAG_BR_EDR_NOT_SUPPORTED.

(** Assigned numbers of the Bluetooth specification. *)
Definition BLUETOOTH_DATA_TYPE_FLAGS : Z := 0x01.
Definition BLUETOOTH_DATA_TYPE_INCOMPLETE_LIST_OF_128_BIT_SERVICE_CLASS_UUIDS : Z := 0x06.
Definition BLUETOOTH_DATA_TYPE_COMPLETE_LIST_OF_128_BIT_SERVICE_CLASS_UUIDS : Z := 0x07.
Definition BLUETOOTH_DATA_TYPE_SHORTENED_LOCAL_NAME : Z := 0x08.
Definition BLUETOOTH_DATA_TYPE_COMPLETE_LOCAL_NAME : Z := 0x09.
Definition BLUETOOTH_DATA_TYPE_LIST_OF_128_BIT_SERVICE_SOLICITATION_UUIDS : Z := 0x15.

(** * The advertisement sent *)

(** The statics [adv_data] and [adv_data_len]. *)
Record Adv := mkAdv {
  adv_data : list Z;      (* uint8_t[BLE_ADVERTISING_MAX_LENGTH] *)
  adv_data_len : Z;       (* uint8_t *)
}.

Definition Adv_new : Adv := mkAdv (replicate (Z.to_nat BLE_ADVERTISING_MAX_LENGTH) 0) 0.

(** [adv_data[adv_data_len++] = b] *)
Definition adv_push (b : Z) : M Adv unit :=
  s ← get;
  data ← lift_result (store (adv_data s) (adv_data_len s) (u8 b));
  put (mkAdv data (u8 (adv_data_len s + 1))).

(** [memcpy(&adv_data[adv_data_len], src, n); adv_data_len += n] *)
Definition adv_append (src : list Z) : M Adv unit :=
  s ← get;
  data ← lift_result (store_bytes (adv_data s) (adv_data_len s) src);
  put (mkAdv data (u8 (adv_data_len s + Z.of_nat (length src)))).

Definition populate_advertising_data : M Adv unit :=
  adv_push 2;;
  adv_push BLUETOOTH_DATA_TYPE_FLAGS;;
  adv_push BLE_FLAGS_LE_ONLY_GENERAL_DISC_MODE;;
  adv_push 17;;
  adv_push BLUETOOTH_DATA_TYPE_INCOMPLETE_LIST_OF_128_BIT_SERVICE_CLASS_UUIDS;;
  adv_append packet_service_uuid_reversed;;
  let name_len := u8 (Z.of_nat (length packet_service_name)) in
  s ← get;
  let fitable_name_len := Z.min (u8 (BLE_ADVERTISING_MAX_LENGTH - adv_data_len s - 2)) name_len in
  adv_push (fitable_name_len + 1);;
  (if decide (fitable_name_len = name_len)
   then adv_push BLUETOOTH_DATA_TYPE_COMPLETE_LOCAL_NAME
   else adv_push BLUETOOTH_DATA_TYPE_SHORTENED_LOCAL_NAME);;
  name ← lift_result (slice packet_service_name 0 fitable_name_len);
  adv_append name.

(** * The advertisement heard *)

(** One round of the loop over an advertisement: what [ad_iterator_get_data_type],
    [ad_iterator_get_data_len] and [ad_iterator_get_data] return, the last as an
    offset from the start of the advertisement. *)
Record AdElement := mkAdElement {
  ad_data_type : Z;
  ad_data_len : Z;
  ad_data_offset : Z;
}.

(** The rounds of [for (ad_iterator_init(...); ad_iterator_has_more(...);
    ad_iterator_next(...))], given the size and the memory from the start of the
    advertisement on. *)
Class AdIterator := ad_elements : Z → list Z → list AdElement.

(** [0 == memcmp(expected, data, strlen(expected))] *)
Definition memcmp_equal (expected data : list Z) : result bool :=
  found ← slice data 0 (Z.of_nat (length expected));
  mret (bool_decide (found = expected)).

Definition lists_128_bit_uuids (data_type : Z) : bool :=
  bool_decide (data_type ∈
    [BLUETOOTH_DATA_TYPE_INCOMPLETE_LIST_OF_128_BIT_SERVICE_CLASS_UUIDS;
     BLUETOOTH_DATA_TYPE_COMPLETE_LIST_OF_128_BIT_SERVICE_CLASS_UUIDS;
     BLUETOOTH_DATA_TYPE_LIST_OF_128_BIT_SERVICE_SOLICITATION_UUIDS]).

Definition is_local_name (data_type : Z) : bool :=
  bool_decide (data_type ∈
    [BLUETOOTH_DATA_TYPE_SHORTENED_LOCAL_NAME; BLUETOOTH_DATA_TYPE_COMPLETE_LOCAL_NAME]).

(** The loop; [found_uuid] and [found_name] are assigned anew by each element. *)
Fixpoint check_elements (elements : list AdElement) (memory : list Z)
    (found_uuid found_name : bool) : result (bool * bool) :=
  match elements with
  | [] => mret (found_uuid, found_name)
  | e :: elements' =>
      let data := drop (Z.to_nat (ad_data_offset e)) memory in
      if lists_128_bit_uuids (ad_data_type e) then
        found_uuid ← memcmp_equal packet_service_uuid_reversed data;
        check_elements elements' memory found_uuid found_name
      else if is_local_name (ad_data_type e) then
        found_name ← memcmp_equal packet_service_name data;
        check_elements elements' memory found_uuid found_name
      else check_elements elements' memory found_uuid found_name
  end.

Definition service_status (found_uuid found_name : bool) : service_uuid_check_status :=
  if found_uuid then if found_name then ServiceUUIDAndNameFound else ServiceUUIDFound
  else ServiceUUIDNotFound.

Definition check_for_uuid `{!AdIterator} (advertisement_data : list Z) (adv_size : Z) :
    result service_uuid_check_status :=
  '(found_uuid, found_name) ←
    check_elements (ad_elements adv_size advertisement_data) advertisement_data false false;
  mret (service_status found_uuid found_name).

(** * The format of advertisements *)

(** A structure is its type and its data; on the air the length of both comes
    first. *)
Abbreviation structure := (Z * list Z)%type.

Definition structure_bytes (e : structure) : list Z :=
  Z.of_nat (S (length (snd e))) :: fst e :: snd e.

Definition ad_bytes (es : list structure) : list Z := es ≫= structure_bytes.

Fixpoint ad_rounds (offset : Z) (es : list structure) : list AdElement :=
  match es with
  | [] => []
  | (type, data) :: es' =>
      let len := Z.of_nat (length data) in
      mkAdElement type len (offset + 2) :: ad_rounds (offset + 2 + len) es'
  end.

(** What BTstack's documentation says of the iterator: it goes over the
    structures in order, and its pointers are into the advertisement. *)
Class AdIteratorSpec (iterator : AdIterator) : Prop :=
  ad_elements_spec : ∀ (es : list structure) (tail : list Z),
    Z.of_nat (length (ad_bytes es)) < 256 →
    ad_elements (Z.of_nat (length (ad_bytes es))) (ad_bytes es ++ tail) = ad_rounds 0 es.

(** Parsing the bytes on the air. *)
Fixpoint ad_structures (fuel : nat) (l : list Z) : option (list structure) :=
  match l, fuel with
  | [], _ => Some []
  | len :: type :: body, S fuel' =>
      let n := Z.to_nat (len - 1) in
      if decide (1 ≤ len ∧ (n ≤ length body)%nat)
      then cons (type, take n body) <$> ad_structures fuel' (drop n body) else None
  | _, _ => None
  end.

(** What the last structure with some types says, [initial] if there is none. *)
Definition last_begins_with (P : Z → bool) (expected : list Z) (initial : bool)
    (es : list structure) : bool :=
  match last (filter (λ e : structure, P (fst e) = true) es) with
  | Some (_, data) => bool_decide (take (length expected) data = expected)
  | None => initial
  end.

(** The structures that are compared are as long as what they are compared with. *)
Definition comparable (e : structure) : Prop :=
  (lists_128_bit_uuids (fst e) = true → (16 ≤ length (snd e))%nat) ∧
  (is_local_name (fst e) = true → (8 ≤ length (snd e))%nat).

#[global] Instance comparable_dec e : Decision (comparable e).
Proof. unfold comparable. apply _. Defined.

(** The advertisement of a repeater. *)
Definition repeater_structures : list structure :=
  [(BLUETOOTH_DATA_TYPE_FLAGS, [BLE_FLAGS_LE_ONLY_GENERAL_DISC_MODE]);
   (BLUETOOTH_DATA_TYPE_INCOMPLETE_LIST_OF_128_BIT_SERVICE_CLASS_UUIDS, packet_service_uuid_reversed);
   (BLUETOOTH_DATA_TYPE_COMPLETE_LOCAL_NAME, packet_service_name)].

(** * Lemmas *)

Lemma ad_structures_bytes fuel : ∀ l es, ad_structures fuel l = Some es → ad_bytes es = l.
Proof.
  induction fuel as [|fuel IH]; intros [|len [|type body]] es; cbn; try done; try by intros [= <-].
  case_decide as Hd; [|done]. intros (es' & Hes & ->)%fmap_Some. cbn.
  rewrite length_take. f_equal; [lia|]. f_equal.
  change (es' ≫= structure_bytes) with (ad_bytes es'). rewrite (IH _ _ Hes). apply take_drop.
Qed.

Lemma last_begins_cons P expected initial e es :
  last_begins_with P expected initial (e :: es)
  = last_begins_with P expected
      (if P (fst e) then bool_decide (take (length expected) (snd e) = expected) else initial) es.
Proof.
  unfold last_begins_with. rewrite filter_cons. destruct e as [t d]. cbn [fst snd].
  destruct (P t); [|done]. rewrite decide_True, last_cons by done. by destruct (last _).
Qed.

Lemma memcmp_prefix expected data tail :
  (length expected ≤ length data)%nat →
  memcmp_equal expected (data ++ tail) = Ok (bool_decide (take (length expected) data = expected)).
Proof.
  intros Hl. unfold memcmp_equal. rewrite slice_ok by (rewrite ?length_app; lia).
  cbn [mbind result_bind]. rewrite drop_0, Nat2Z.id, take_app_le by lia. done.
Qed.

Lemma uuid_not_name t : lists_128_bit_uuids t = true → is_local_name t = false.
Proof.
  unfold lists_128_bit_uuids, is_local_name. rewrite bool_decide_eq_true, bool_decide_eq_false.
  intros Ht. apply elem_of_cons in Ht as [->|Ht]; [by vm_compute; set_solver|].
  set_solver.
Qed.

(** The loop over the rounds, from any structure on. *)
Lemma check_rounds es : ∀ pre tail u n,
  Forall comparable es →
  check_elements (ad_rounds (Z.of_nat (length pre)) es) (pre ++ ad_bytes es ++ tail) u n
  = Ok (last_begins_with lists_128_bit_uuids packet_service_uuid_reversed u es,
        last_begins_with is_local_name packet_service_name n es).
Proof.
  induction es as [|[t d] es IH]; intros pre tail u n Hes; [done|].
  inversion Hes as [|? ? [Hu Hn] Hes']; subst. cbn [fst snd] in Hu, Hn.
  set (pre' := pre ++ structure_bytes (t, d)).
  specialize (IH pre' tail). assert (pre ++ ad_bytes ((t, d) :: es) ++ tail
    = pre' ++ ad_bytes es ++ tail) as -> by (unfold pre'; cbn; by rewrite <- !app_assoc).
  assert (Z.of_nat (length pre) + 2 + Z.of_nat (length d) = Z.of_nat (length pre')) as Hoff
    by (unfold pre'; rewrite length_app; cbn; lia).
  rewrite !last_begins_cons. cbn [ad_rounds check_elements ad_data_type ad_data_offset fst snd].
  rewrite Hoff. assert (drop (Z.to_nat (Z.of_nat (length pre) + 2)) (pre' ++ ad_bytes es ++ tail)
    = d ++ ad_bytes es ++ tail) as ->.
  { unfold pre'. rewrite <- app_assoc, drop_app_ge by lia.
    by replace (Z.to_nat _ - length pre)%nat with 2%nat by lia. }
  destruct (lists_128_bit_uuids t) eqn:Ht; [|destruct (is_local_name t) eqn:Ht'].
  - rewrite uuid_not_name, memcmp_prefix by (done || (cbn; auto)). by apply IH.
  - rewrite memcmp_prefix by (cbn; auto). by apply IH.
  - by apply IH.
Qed.

Lemma check_for_uuid_run `{!AdIteratorSpec iterator} es tail :
  Forall comparable es → Z.of_nat (length (ad_bytes es)) < 256 →
  check_for_uuid (ad_bytes es ++ tail) (Z.of_nat (length (ad_bytes es)))
  = Ok (service_status
      (last_begins_with lists_128_bit_uuids packet_service_uuid_reversed false es)
      (last_begins_with is_local_name packet_service_name false es)).
Proof.
  intros Hes Hl. unfold check_for_uuid. rewrite ad_elements_spec by done.
  pose proof (check_rounds es [] tail false false Hes) as Hc. cbn [app] in Hc.
  change (Z.of_nat (length [])) with 0 in Hc. by rewrite Hc.
Qed.

(** An iterator that satisfies the documentation. *)
Fixpoint example_rounds (fuel : nat) (offset size : Z) (memory : list Z) : list AdElement :=
  match fuel with
  | O => []
  | S fuel' =>
      if decide (offset < size) then
        match drop (Z.to_nat offset) memory with
        | len :: type :: _ =>
            mkAdElement type (len - 1) (offset + 2) ::
              example_rounds fuel' (offset + 1 + len) size memory
        | _ => []
        end
      else []
  end.

Definition example_iterator : AdIterator := λ size memory,
  example_rounds (Z.to_nat size) 0 size memory.

#[global] Instance example_iterator_spec : AdIteratorSpec example_iterator.
Proof.
  intros es tail _. unfold ad_elements, example_iterator. rewrite Nat2Z.id.
  enough (∀ es pre fuel, (length (ad_bytes es) ≤ fuel)%nat →
    example_rounds fuel (Z.of_nat (length pre)) (Z.of_nat (length (pre ++ ad_bytes es)))
      (pre ++ ad_bytes es ++ tail) = ad_rounds (Z.of_nat (length pre)) es) as Hgen
    by exact (Hgen es [] _ (le_n _)).
  clear es. induction es as [|[t d] es IH]; intros pre fuel Hf.
  - destruct fuel; [done|]. cbn. rewrite app_nil_r, decide_False by lia. done.
  - change (ad_bytes ((t, d) :: es)) with (structure_bytes (t, d) ++ ad_bytes es) in *.
    rewrite length_app in Hf. cbn in Hf. destruct fuel as [|fuel]; [lia|].
    cbn [example_rounds ad_rounds]. rewrite decide_True by (cbn; rewrite !length_app; cbn; lia).
    rewrite Nat2Z.id, drop_app_length. cbn [ad_bytes mbind list_bind structure_bytes app fst snd].
    f_equal; [cbn; f_equal; lia|]. set (pre' := pre ++ structure_bytes (t, d)).
    specialize (IH pre' fuel). assert (Z.of_nat (length pre) + 2 + Z.of_nat (length d)
      = Z.of_nat (length pre')) as -> by (unfold pre'; rewrite length_app; cbn; lia).
    rewrite <- IH by lia. unfold pre'. rewrite <- !app_assoc.
    rewrite length_app. cbn. f_equal; rewrite ?length_app; cbn; rewrite ?length_app; lia.
Qed.

(** * Properties *)

(** C23: [check_for_uuid] reads nothing outside well-formed advertisements whose
    lists of UUIDs and names are as long as what they are compared with, ends, and
    goes by the last list of 128-bit UUIDs and the last local name: an earlier
    list with the service's UUID is forgotten. *)
Theorem check_for_uuid_last `{!AdIteratorSpec iterator} (es : list structure) (tail : list Z) :
  Forall comparable es → Z.of_nat (length (ad_bytes es)) < 256 →
  check_for_uuid (ad_bytes es ++ tail) (Z.of_nat (length (ad_bytes es)))
  = Ok (service_status
      (last_begins_with lists_128_bit_uuids packet_service_uuid_reversed false es)
      (last_begins_with is_local_name packet_service_name false es)).
Proof.
  apply check_for_uuid_run.
Qed.

(** C26: the advertisement a repeater sets up fills the array exactly, is taken
    for the service and the name of a repeater by any other that hears it, and
    can be set up only once: since the length is never reset, a second
    [populate_advertising_data], which a second event that the stack is working
    leads to, writes outside the array. *)
Theorem advertisement_once `{!AdIteratorSpec iterator} (data tail : list Z) :
  length data = 31%nat →
  let sent := ad_bytes repeater_structures in
  populate_advertising_data (mkAdv data 0) = Ok (tt, mkAdv sent 31) ∧
  check_for_uuid (sent ++ tail) 31 = Ok ServiceUUIDAndNameFound ∧
  populate_advertising_data (mkAdv sent 31) = Err OutOfBounds.
Proof.
  intros Hl sent. split_and!.
  - do 32 (destruct data as [|? data]; try discriminate Hl). reflexivity.
  - pose proof (check_for_uuid_run repeater_structures tail) as Hc. by apply Hc; decide_concrete.
  - reflexivity.
Qed.

(** ** Witnesses *)

Definition example_advert : list structure :=
  repeater_structures ++ [(BLUETOOTH_DATA_TYPE_LIST_OF_128_BIT_SERVICE_SOLICITATION_UUIDS, replicate 16 0)].

Lemma check_for_uuid_last_witness :
  @check_for_uuid example_iterator (ad_bytes example_advert ++ [1; 2; 3])
    (Z.of_nat (length (ad_bytes example_advert))) = Ok ServiceUUIDNotFound.
Proof. apply (check_for_uuid_last example_advert [1; 2; 3]); [decide_concrete|reflexivity]. Defined.

Lemma advertisement_once_witness :
  populate_advertising_data Adv_new = Ok (tt, mkAdv (ad_bytes repeater_structures) 31) ∧
  @check_for_uuid example_iterator (ad_bytes repeater_structures ++ []) 31
    = Ok ServiceUUIDAndNameFound ∧
  populate_advertising_data (mkAdv (ad_bytes repeater_structures) 31) = Err OutOfBounds.
Proof. apply (advertisement_once (replicate 31 0) []). reflexivity. Defined.
