(* ===== verification/StdContainers.v ===== *)
(** The standard containers as the tracker uses them.

    A [std::map] is a finite map whose nodes have addresses: pointers to values
    stay valid until their node is erased, which is what the tracker's lists of
    pointers rely on.  Iteration is in key order.  A [std::multimap] with integer
    or pointer keys is a list kept in key order, elements with equal keys in the
    order of insertion. *)

From S2P Require Import Prelude.

(** * Ordered keys *)

Class KeyOrder (K : Type) `{EqDecision K} := {
  key_le : relation K;
  #[global] key_le_dec :: RelDecision key_le;
  #[global] key_le_total :: Total key_le;
  #[global] key_le_trans :: Transitive key_le;
  #[global] key_le_anti :: AntiSymm (=) key_le;
}.

#[global] Instance Z_key_order : KeyOrder Z := { key_le := Z.le }.

(** [std::string] compares its bytes lexicographically. *)
Fixpoint bytes_le (a b : list Z) : Prop :=
  match a, b with
  | [], _ => True
  | _ :: _, [] => False
  | x :: a', y :: b' => x < y ∨ (x = y ∧ bytes_le a' b')
  end.

#[global] Instance bytes_le_dec : RelDecision bytes_le.
Proof.
  intros a. induction a as [|x a IH]; intros [|y b]; cbn; apply _.
Defined.

Lemma bytes_le_total : Total bytes_le.
Proof.
  intros a. induction a as [|x a IH]; intros [|y b]; cbn; auto.
  destruct (Z.lt_trichotomy x y) as [|[->|]]; auto. destruct (IH b); auto.
Qed.

Lemma bytes_le_trans : Transitive bytes_le.
Proof.
  intros a. induction a as [|x a IH]; intros [|y b] [|z c]; cbn; try done.
  intros [|[-> Hab]] [|[-> Hbc]]; [left; lia|auto|auto|]. right. split; [done|]. by eapply IH.
Qed.

Lemma bytes_le_anti : AntiSymm (=) bytes_le.
Proof.
  intros a. induction a as [|x a IH]; intros [|y b]; cbn; try done.
  intros [|[-> Hab]] [|[Heq Hba]]; try lia. f_equal. by apply IH.
Qed.

#[global] Instance bytes_key_order : KeyOrder (list Z) := {
  key_le := bytes_le;
  key_le_total := bytes_le_total;
  key_le_trans := bytes_le_trans;
  key_le_anti := bytes_le_anti;
}.

(** * Maps with addressed nodes *)

(** [nodes K V] is [std::map<K, V>]: a value together with its node's address. *)
Abbreviation nodes K V := (gmap K (Z * V)) (only parsing).

Definition item_le {K V} `{KeyOrder K} : relation (K * (Z * V)) :=
  λ x y, key_le (fst x) (fst y).
#[global] Instance item_le_dec {K V} `{KeyOrder K} : RelDecision (@item_le K V _ _).
Proof. intros x y. unfold item_le. apply _. Defined.

(** Iteration: the elements in key order. *)
Definition items {K V} `{Countable K} `{!KeyOrder K} (m : nodes K V) : list (K * (Z * V)) :=
  merge_sort item_le (map_to_list m).

(** The element a pointer refers to. *)
Definition node_at {K V} `{Countable K} (m : nodes K V) (a : Z) : option (K * V) :=
  '(k, (_, v)) ← find (λ kn, Z.eqb (fst (snd kn)) a) (map_to_list m); Some (k, v).

(** The addresses of the nodes. *)
Definition node_addrs {K V} `{Countable K} (m : nodes K V) : list Z :=
  (fst ∘ snd) <$> map_to_list m.

(** A mutation of the value with key [k]; the node stays where it is. *)
Definition node_update {K V} `{Countable K} (f : V → V) (k : K) (m : nodes K V) : nodes K V :=
  alter (λ n, (fst n, f (snd n))) k m.

(** [std::erase_if] *)
Definition erase_if {K V} `{Countable K} (p : V → bool) (m : nodes K V) : nodes K V :=
  filter (λ kn, p (snd (snd kn)) = false) m.

(** * Multimaps *)

Abbreviation multimap V := (list (Z * V)) (only parsing).

(** [emplace]: behind the elements with an equal or smaller key. *)
Fixpoint emplace {V} (k : Z) (v : V) (l : multimap V) : multimap V :=
  match l with
  | [] => [(k, v)]
  | (k', v') :: l' => if decide (k' ≤ k) then (k', v') :: emplace k v l' else (k, v) :: l
  end.

(** The elements of [equal_range(k)]. *)
Definition equal_range {V} (k : Z) (l : multimap V) : multimap V :=
  filter (λ e, fst e = k) l.

(** The elements from [lower_bound(k)] on; [equal_range(k).first] is its start. *)
Fixpoint lower_bound {V} (k : Z) (l : multimap V) : multimap V :=
  match l with
  | [] => []
  | (k', v) :: l' => if decide (k' < k) then lower_bound k l' else l
  end.

(** The elements from [find(k)] to [end()]. *)
Definition find_to_end {V} (k : Z) (l : multimap V) : multimap V :=
  match equal_range k l with [] => [] | _ => lower_bound k l end.

(** [erase(first, last)] of [equal_range(k)]. *)
Definition erase_range {V} (k : Z) (l : multimap V) : multimap V :=
  filter (λ e, fst e ≠ k) l.

(** [erase(equal_range(k).first)], for an iterator that is not the end. *)
Fixpoint erase_lower_bound {V} (k : Z) (l : multimap V) : multimap V :=
  match l with
  | [] => []
  | (k', v) :: l' => if decide (k' < k) then (k', v) :: erase_lower_bound k l' else l'
  end.

Definition sorted {V} (l : multimap V) : Prop := StronglySorted Z.le (fst <$> l).

(** * Lemmas: maps *)

Section nodes.
Context {K V : Type} `{Countable K} `{!KeyOrder K}.
Implicit Types (m : nodes K V) (k : K) (a : Z) (v : V).

Lemma items_permutation m : items m ≡ₚ map_to_list m.
Proof. apply merge_sort_Permutation. Qed.

Lemma elem_of_items m k n : (k, n) ∈ items m ↔ m !! k = Some n.
Proof. rewrite items_permutation. apply elem_of_map_to_list. Qed.

Lemma NoDup_items m : NoDup (fst <$> items m).
Proof. rewrite items_permutation. apply NoDup_fst_map_to_list. Qed.

Lemma elem_of_node_addrs m a : a ∈ node_addrs m ↔ ∃ k v, m !! k = Some (a, v).
Proof.
  unfold node_addrs. rewrite list_elem_of_fmap. split.
  - intros ([k [a' v]] & -> & Hin). apply elem_of_map_to_list in Hin. eauto.
  - intros (k & v & Hk). exists (k, (a, v)). split; [done|]. by apply elem_of_map_to_list.
Qed.

Lemma node_at_sound m a k v : node_at m a = Some (k, v) → m !! k = Some (a, v).
Proof.
  unfold node_at. destruct (find _ (map_to_list m)) as [[k' [a' v']]|] eqn:Hf; [|done].
  cbn. intros [= -> ->]. apply find_some in Hf as [Hin Heq]. cbn in Heq.
  apply Z.eqb_eq in Heq as ->. by apply elem_of_map_to_list, list_elem_of_In.
Qed.

Lemma node_at_live m a k v : m !! k = Some (a, v) → is_Some (node_at m a).
Proof.
  intros Hk. unfold node_at.
  destruct (find _ (map_to_list m)) as [[k' [a' v']]|] eqn:Hf; [by eexists|].
  apply elem_of_map_to_list, list_elem_of_In in Hk.
  apply (find_none _ _ Hf) in Hk. cbn in Hk. by rewrite Z.eqb_refl in Hk.
Qed.

(** The addresses of distinct nodes differ. *)
Definition nodes_inj m : Prop :=
  ∀ k k' a v v', m !! k = Some (a, v) → m !! k' = Some (a, v') → k = k'.

Lemma node_at_complete m a k v :
  nodes_inj m → m !! k = Some (a, v) → node_at m a = Some (k, v).
Proof.
  intros Hinj Hk. destruct (node_at_live m a k v Hk) as [[k' v'] Hn].
  rewrite Hn. apply node_at_sound in Hn. assert (k = k') as <- by (by eapply Hinj).
  rewrite Hk in Hn. by injection Hn as ->.
Qed.

Lemma lookup_node_update f k k' m :
  node_update f k m !! k'
  = if decide (k = k') then (λ n, (fst n, f (snd n))) <$> m !! k' else m !! k'.
Proof. unfold node_update. case_decide as Hd; [subst; apply lookup_alter_eq|by apply lookup_alter_ne]. Qed.

(** The keys and the addresses of the nodes are not changed by an update. *)
Lemma node_update_shape f k m k' :
  fst <$> node_update f k m !! k' = fst <$> m !! k'.
Proof. rewrite lookup_node_update. case_decide; [|done]. by destruct (m !! k'). Qed.

Lemma lookup_erase_if p m k a v :
  erase_if p m !! k = Some (a, v) ↔ m !! k = Some (a, v) ∧ p v = false.
Proof. unfold erase_if. by rewrite map_lookup_filter_Some. Qed.
End nodes.

(** Integer keys come in increasing order. *)
Lemma items_sorted {V} (m : nodes Z V) : StronglySorted Z.lt (fst <$> items m).
Proof.
  assert (StronglySorted Z.le (fst <$> items m)) as Hs.
  { assert (StronglySorted (@item_le Z V _ _) (items m)) as Hs.
    { apply Sorted_StronglySorted; [intros x y z; unfold item_le; cbn; lia|].
      apply Sorted_merge_sort. intros x y. unfold item_le. cbn. lia. }
    induction Hs as [|x l Hs IH Hall]; [constructor|]. cbn. constructor; [done|].
    by apply Forall_fmap. }
  pose proof (NoDup_items m) as Hnd. induction Hs as [|x l Hs IH Hall]; constructor.
  - apply IH. by apply NoDup_cons in Hnd as [_ ?].
  - apply NoDup_cons in Hnd as [Hx _]. apply Forall_forall. intros y Hy.
    eapply Forall_forall in Hall; [|exact Hy]. assert (x ≠ y) by congruence. lia.
Qed.

(** * Lemmas: multimaps *)

Section multimap.
Context {V : Type}.
Implicit Types (l : multimap V) (k : Z) (v : V).

Lemma emplace_permutation k v l : emplace k v l ≡ₚ (k, v) :: l.
Proof.
  induction l as [|[k' v'] l IH]; [done|]. cbn. case_decide; [|done].
  rewrite IH. constructor.
Qed.

Lemma elem_of_emplace k v l e : e ∈ emplace k v l ↔ e = (k, v) ∨ e ∈ l.
Proof. by rewrite emplace_permutation, elem_of_cons. Qed.

Lemma emplace_sorted k v l : sorted l → sorted (emplace k v l).
Proof.
  unfold sorted. induction l as [|[k' v'] l IH]; intros Hs; cbn.
  - repeat constructor.
  - rewrite fmap_cons in Hs. apply StronglySorted_inv in Hs as [Hs Hall]. case_decide as Hle; cbn.
    + constructor; [auto|]. rewrite emplace_permutation. by constructor.
    + constructor; [by constructor|]. constructor; [lia|].
      eapply Forall_impl; [done|]. cbn. lia.
Qed.

Lemma elem_of_equal_range k l e : e ∈ equal_range k l ↔ e ∈ l ∧ fst e = k.
Proof. unfold equal_range. rewrite list_elem_of_filter. tauto. Qed.

Lemma erase_range_sorted k l : sorted l → sorted (erase_range k l).
Proof.
  unfold sorted, erase_range. induction l as [|[k' v'] l IH]; intros Hs; [done|].
  rewrite fmap_cons in Hs. apply StronglySorted_inv in Hs as [Hs Hall]. rewrite filter_cons. case_decide; [|auto].
  rewrite fmap_cons. constructor; [auto|]. rewrite Forall_fmap in *.
  apply Forall_forall. intros e He%list_elem_of_filter. eapply Forall_forall in Hall; [exact Hall|apply He].
Qed.

Lemma lower_bound_suffix k l : ∃ pre, l = pre ++ lower_bound k l ∧ Forall (λ e, fst e < k) pre.
Proof.
  induction l as [|[k' v] l (pre & Hl & Hpre)]; [by exists []|]. cbn. case_decide.
  - exists ((k', v) :: pre). cbn. split; [by f_equal|by constructor].
  - by exists [].
Qed.

Lemma lower_bound_app k pre l :
  Forall (λ e, fst e < k) pre → lower_bound k (pre ++ l) = lower_bound k l.
Proof.
  induction 1 as [|[k' v] pre Hk _ IH]; [done|]. cbn in *. by rewrite decide_True.
Qed.

Lemma erase_lower_bound_app k pre l :
  Forall (λ e, fst e < k) pre → erase_lower_bound k (pre ++ l) = pre ++ erase_lower_bound k l.
Proof.
  induction 1 as [|[k' v] pre Hk _ IH]; [done|]. cbn in *. rewrite decide_True by done. by rewrite IH.
Qed.

(** What [lower_bound] finds is what is erased. *)
Lemma erase_lower_bound_permutation k l e rest :
  lower_bound k l = e :: rest → l ≡ₚ e :: erase_lower_bound k l.
Proof.
  induction l as [|[k' v] l IH]; cbn [lower_bound erase_lower_bound]; [done|]. case_decide.
  - intros Hl. rewrite (IH Hl) at 1. constructor.
  - by intros [= -> ->].
Qed.

Lemma elem_of_lower_bound k l e : sorted l → e ∈ lower_bound k l ↔ e ∈ l ∧ k ≤ fst e.
Proof.
  unfold sorted. induction l as [|[k' v] l IH]; intros Hs; cbn [lower_bound]; [set_solver|].
  rewrite fmap_cons in Hs. apply StronglySorted_inv in Hs as [Hs Hall]. case_decide.
  - rewrite IH by done. rewrite elem_of_cons. split; [naive_solver|].
    intros [[->|] ?]; [cbn in *; lia|done].
  - split; [|by intros [? _]]. intros Hin. split; [done|].
    apply elem_of_cons in Hin as [->|Hin]; [cbn; lia|].
    rewrite Forall_fmap in Hall. eapply Forall_forall in Hall; [|done]. cbn in *. lia.
Qed.

(** The loop from [find(k)] to [end()] passes the elements with key [k] and all
    those with a greater key, when there is an element with key [k]. *)
Lemma elem_of_find_to_end k l e :
  sorted l → e ∈ find_to_end k l ↔ (∃ v, (k, v) ∈ l) ∧ e ∈ l ∧ k ≤ fst e.
Proof.
  intros Hs. unfold find_to_end. rewrite <- (elem_of_lower_bound k l e Hs).
  destruct (equal_range k l) as [|[k' v] r] eqn:Hr.
  - split; [set_solver|]. intros [[v Hv] _]. exfalso.
    assert ((k, v) ∈ equal_range k l) as Hin by (by apply elem_of_equal_range).
    rewrite Hr in Hin. set_solver.
  - assert ((k', v) ∈ equal_range k l) as [Hin Heq]%elem_of_equal_range by (rewrite Hr; set_solver).
    cbn in Heq. subst k'. naive_solver.
Qed.
End multimap.
