(* ===== verification/Tracker.v ===== *)
(** Component: the connection tracker (src/BLE/BleConnectionTracker.h and
    BleConnectionTracker.cpp).

    The state is the object [connection_tracker] with the statics of its file.
    A pointer to a packet, a connection or a peer is the address of the map node
    (or of the member [announce]) that holds it; using a pointer looks the node
    up and is an error when there is none.  Calls into BTstack and the Pico SDK
    are answered by the environment, which sees all calls made before; the
    allocator is part of the environment and may give out the address of an
    erased node again.  What is written to the log is not part of the state. *)

From S2P Require Import Prelude BinaryIO Packets StdContainers BleConnection.

(** * The environment *)

(** The calls into the SDK whose result or effect matters. *)
Inductive Call :=
| time_us_64_call
| hci_connection_for_handle (handle : Z)
| att_server_request_to_send_notification (handle : Z)
| gatt_client_request_to_write_without_response (handle : Z)
| att_server_notify (handle attribute_handle : Z) (value : list Z)
| gatt_client_write_value_of_characteristic_without_response
    (handle attribute_handle : Z) (value : list Z)
| gatt_client_listen_for_characteristic_value_updates (listener : Addr) (handle attribute_handle : Z)
| gatt_client_stop_listening_for_characteristic_value_updates (listener : Addr)
| gap_read_rssi (handle : Z)
| sleep_ms (ms : Z)
| time_us_32_call
| gap_advertisements_set_params (adv_int_min adv_int_max adv_type direct_address_typ : Z)
    (direct_address : list Z) (channel_map filter_policy : Z)
| gap_advertisements_set_data (data : list Z)
| gap_advertisements_enable (enabled : Z)
| gap_set_max_number_peripheral_connections (count : Z)
| gap_set_scan_params (scan_type scan_interval scan_window scanning_filter_policy : Z)
| gap_set_scan_duplicate_filter (enabled : bool)
| gap_start_scan
| gap_stop_scan
| btstack_run_loop_set_timer (timeout_in_ms : Z)
| btstack_run_loop_add_timer
| gap_connect (address : list Z) (address_type : Z)
| gap_get_role (handle : Z)
| gatt_client_discover_primary_services_by_uuid128 (handle : Z) (uuid128 : list Z)
| gatt_client_discover_characteristics_for_service_by_uuid128
    (handle : Z) (service : gatt_client_service) (uuid128 : list Z)
| cyw43_arch_gpio_put (value : bool)
| wfi
| set_sys_clock_khz (freq_khz : Z) (required : bool)
| stdio_init_all
| gpio_init (gpio : Z)
| gpio_set_dir (gpio : Z) (out : bool)
| gpio_pull_up (gpio : Z)
| gpio_set_irq_enabled_with_callback (gpio events : Z) (enabled : bool)    (* gpio_callback *)
| cyw43_arch_init
| l2cap_init
| gatt_client_init
| sm_init
| sm_set_io_capabilities (io_capability : Z)
| att_server_init                      (* att_read_callback, att_write_callback *)
| hci_add_event_handler                (* hci_packet_handler *)
| sm_add_event_handler                 (* sm_packet_handler *)
| att_server_register_packet_handler   (* att_packet_handler *)
| hci_power_control (power_mode : Z).

Class Env := {
  answer : list Call → Call → Z;       (* the result of a call, given the earlier ones *)
  local_bd_addr : list Z;              (* gap_local_bd_addr *)
  alloc : gset Z → Addr;               (* a free address, given those in use *)
  hash_string : list Z → Z;            (* std::hash<std::string> *)
  size_t_bits : Z;                     (* the width of std::size_t *)
  ndebug : bool;                       (* whether assert() is compiled out *)
}.

Definition build_time_ms : Z := 1755685519.
Definition ten_minutes_in_ms : Z := 1000 * 60 * 10.
Definition MESSAGE_TIMEOUT : Z := 300000.
Definition ERROR_CODE_SUCCESS : Z := 0.
Definition ERROR_CODE_UNKNOWN_CONNECTION_IDENTIFIER : Z := 2.

(** * State *)

Record Tracker := mkTracker {
  peers : nodes Z Peer;                             (* std::map<uint64_t, Peer> *)
  messages : nodes (list Z) Message;                (* std::map<std::string, Message> *)
  packets : nodes Z PacketPassAlong;                (* std::map<std::size_t, PacketPassAlong> *)
  announce_at : Addr;                               (* the address of the member announce *)
  announce : Announce;                              (* Announce *)
  connections : nodes Z BleConnection;              (* std::map<hci_con_handle_t, BleConnection> *)
  available_neighbours : nodes (list Z) BleConnection; (* std::map<std::string, BleConnection> *)
  raw_packet_to_notify : multimap (list Z);         (* std::multimap<hci_con_handle_t, std::vector<uint8_t>> *)
  raw_packet_to_write : multimap (list Z);          (* the same *)
  timestamp_offset_ms : Z;                          (* uint64_t *)
  handle_peer_map : gmap Z Addr;                    (* std::map<hci_con_handle_t, Peer *> *)
  packets_connections_sent_list : multimap Addr;    (* std::multimap<Base *, BleConnection *> *)
  packets_peers_sent_list : multimap Addr;          (* std::multimap<Base *, Peer *> *)
  broadcast_packets_to_send_list : list Addr;       (* std::vector<Base *> *)
  targeted_packets_to_send_list : multimap Addr;    (* std::multimap<Base *, BleConnection *> *)
  notify_context : option Z;                        (* static notify_context_callback_registration.context *)
  write_context : option Z;                         (* static write_context_callback_registration.context *)
  rssi_iterator : option (option Addr);             (* static iterator of requestNextRssi: unset, end() or a node *)
  calls : list Call;                                (* the calls into the SDK so far *)
}.

(** Updates of one member. *)
Definition upd_peers (f : nodes Z Peer → nodes Z Peer) (s : Tracker) : Tracker :=
  mkTracker (f (peers s)) (messages s) (packets s) (announce_at s) (announce s) (connections s)
    (available_neighbours s) (raw_packet_to_notify s) (raw_packet_to_write s)
    (timestamp_offset_ms s) (handle_peer_map s) (packets_connections_sent_list s)
    (packets_peers_sent_list s) (broadcast_packets_to_send_list s)
    (targeted_packets_to_send_list s) (notify_context s) (write_context s) (rssi_iterator s)
    (calls s).
Definition upd_messages (f : nodes (list Z) Message → nodes (list Z) Message) (s : Tracker) : Tracker :=
  mkTracker (peers s) (f (messages s)) (packets s) (announce_at s) (announce s) (connections s)
    (available_neighbours s) (raw_packet_to_notify s) (raw_packet_to_write s)
    (timestamp_offset_ms s) (handle_peer_map s) (packets_connections_sent_list s)
    (packets_peers_sent_list s) (broadcast_packets_to_send_list s)
    (targeted_packets_to_send_list s) (notify_context s) (write_context s) (rssi_iterator s)
    (calls s).
Definition upd_packets (f : nodes Z PacketPassAlong → nodes Z PacketPassAlong) (s : Tracker) : Tracker :=
  mkTracker (peers s) (messages s) (f (packets s)) (announce_at s) (announce s) (connections s)
    (available_neighbours s) (raw_packet_to_notify s) (raw_packet_to_write s)
    (timestamp_offset_ms s) (handle_peer_map s) (packets_connections_sent_list s)
    (packets_peers_sent_list s) (broadcast_packets_to_send_list s)
    (targeted_packets_to_send_list s) (notify_context s) (write_context s) (rssi_iterator s)
    (calls s).
Definition upd_announce (f : Announce → Announce) (s : Tracker) : Tracker :=
  mkTracker (peers s) (messages s) (packets s) (announce_at s) (f (announce s)) (connections s)
    (available_neighbours s) (raw_packet_to_notify s) (raw_packet_to_write s)
    (timestamp_offset_ms s) (handle_peer_map s) (packets_connections_sent_list s)
    (packets_peers_sent_list s) (broadcast_packets_to_send_list s)
    (targeted_packets_to_send_list s) (notify_context s) (write_context s) (rssi_iterator s)
    (calls s).
Definition upd_connections (f : nodes Z BleConnection → nodes Z BleConnection) (s : Tracker) : Tracker :=
  mkTracker (peers s) (messages s) (packets s) (announce_at s) (announce s) (f (connections s))
    (available_neighbours s) (raw_packet_to_notify s) (raw_packet_to_write s)
    (timestamp_offset_ms s) (handle_peer_map s) (packets_connections_sent_list s)
    (packets_peers_sent_list s) (broadcast_packets_to_send_list s)
    (targeted_packets_to_send_list s) (notify_context s) (write_context s) (rssi_iterator s)
    (calls s).
Definition upd_available_neighbours (f : nodes (list Z) BleConnection → nodes (list Z) BleConnection) (s : Tracker) : Tracker :=
  mkTracker (peers s) (messages s) (packets s) (announce_at s) (announce s) (connections s) (f
    (available_neighbours s)) (raw_packet_to_notify s) (raw_packet_to_write s)
    (timestamp_offset_ms s) (handle_peer_map s) (packets_connections_sent_list s)
    (packets_peers_sent_list s) (broadcast_packets_to_send_list s)
    (targeted_packets_to_send_list s) (notify_context s) (write_context s) (rssi_iterator s)
    (calls s).
Definition upd_raw_packet_to_notify (f : multimap (list Z) → multimap (list Z)) (s : Tracker) : Tracker :=
  mkTracker (peers s) (messages s) (packets s) (announce_at s) (announce s) (connections s)
    (available_neighbours s) (f (raw_packet_to_notify s)) (raw_packet_to_write s)
    (timestamp_offset_ms s) (handle_peer_map s) (packets_connections_sent_list s)
    (packets_peers_sent_list s) (broadcast_packets_to_send_list s)
    (targeted_packets_to_send_list s) (notify_context s) (write_context s) (rssi_iterator s)
    (calls s).
Definition upd_raw_packet_to_write (f : multimap (list Z) → multimap (list Z)) (s : Tracker) : Tracker :=
  mkTracker (peers s) (messages s) (packets s) (announce_at s) (announce s) (connections s)
    (available_neighbours s) (raw_packet_to_notify s) (f (raw_packet_to_write s))
    (timestamp_offset_ms s) (handle_peer_map s) (packets_connections_sent_list s)
    (packets_peers_sent_list s) (broadcast_packets_to_send_list s)
    (targeted_packets_to_send_list s) (notify_context s) (write_context s) (rssi_iterator s)
    (calls s).
Definition upd_timestamp_offset_ms (f : Z → Z) (s : Tracker) : Tracker :=
  mkTracker (peers s) (messages s) (packets s) (announce_at s) (announce s) (connections s)
    (available_neighbours s) (raw_packet_to_notify s) (raw_packet_to_write s) (f
    (timestamp_offset_ms s)) (handle_peer_map s) (packets_connections_sent_list s)
    (packets_peers_sent_list s) (broadcast_packets_to_send_list s)
    (targeted_packets_to_send_list s) (notify_context s) (write_context s) (rssi_iterator s)
    (calls s).
Definition upd_handle_peer_map (f : gmap Z Addr → gmap Z Addr) (s : Tracker) : Tracker :=
  mkTracker (peers s) (messages s) (packets s) (announce_at s) (announce s) (connections s)
    (available_neighbours s) (raw_packet_to_notify s) (raw_packet_to_write s)
    (timestamp_offset_ms s) (f (handle_peer_map s)) (packets_connections_sent_list s)
    (packets_peers_sent_list s) (broadcast_packets_to_send_list s)
    (targeted_packets_to_send_list s) (notify_context s) (write_context s) (rssi_iterator s)
    (calls s).
Definition upd_packets_connections_sent_list (f : multimap Addr → multimap Addr) (s : Tracker) : Tracker :=
  mkTracker (peers s) (messages s) (packets s) (announce_at s) (announce s) (connections s)
    (available_neighbours s) (raw_packet_to_notify s) (raw_packet_to_write s)
    (timestamp_offset_ms s) (handle_peer_map s) (f (packets_connections_sent_list s))
    (packets_peers_sent_list s) (broadcast_packets_to_send_list s)
    (targeted_packets_to_send_list s) (notify_context s) (write_context s) (rssi_iterator s)
    (calls s).
Definition upd_packets_peers_sent_list (f : multimap Addr → multimap Addr) (s : Tracker) : Tracker :=
  mkTracker (peers s) (messages s) (packets s) (announce_at s) (announce s) (connections s)
    (available_neighbours s) (raw_packet_to_notify s) (raw_packet_to_write s)
    (timestamp_offset_ms s) (handle_peer_map s) (packets_connections_sent_list s) (f
    (packets_peers_sent_list s)) (broadcast_packets_to_send_list s)
    (targeted_packets_to_send_list s) (notify_context s) (write_context s) (rssi_iterator s)
    (calls s).
Definition upd_broadcast_packets_to_send_list (f : list Addr → list Addr) (s : Tracker) : Tracker :=
  mkTracker (peers s) (messages s) (packets s) (announce_at s) (announce s) (connections s)
    (available_neighbours s) (raw_packet_to_notify s) (raw_packet_to_write s)
    (timestamp_offset_ms s) (handle_peer_map s) (packets_connections_sent_list s)
    (packets_peers_sent_list s) (f (broadcast_packets_to_send_list s))
    (targeted_packets_to_send_list s) (notify_context s) (write_context s) (rssi_iterator s)
    (calls s).
Definition upd_targeted_packets_to_send_list (f : multimap Addr → multimap Addr) (s : Tracker) : Tracker :=
  mkTracker (peers s) (messages s) (packets s) (announce_at s) (announce s) (connections s)
    (available_neighbours s) (raw_packet_to_notify s) (raw_packet_to_write s)
    (timestamp_offset_ms s) (handle_peer_map s) (packets_connections_sent_list s)
    (packets_peers_sent_list s) (broadcast_packets_to_send_list s) (f
    (targeted_packets_to_send_list s)) (notify_context s) (write_context s) (rssi_iterator s)
    (calls s).
Definition upd_notify_context (f : option Z → option Z) (s : Tracker) : Tracker :=
  mkTracker (peers s) (messages s) (packets s) (announce_at s) (announce s) (connections s)
    (available_neighbours s) (raw_packet_to_notify s) (raw_packet_to_write s)
    (timestamp_offset_ms s) (handle_peer_map s) (packets_connections_sent_list s)
    (packets_peers_sent_list s) (broadcast_packets_to_send_list s)
    (targeted_packets_to_send_list s) (f (notify_context s)) (write_context s) (rssi_iterator s)
    (calls s).
Definition upd_write_context (f : option Z → option Z) (s : Tracker) : Tracker :=
  mkTracker (peers s) (messages s) (packets s) (announce_at s) (announce s) (connections s)
    (available_neighbours s) (raw_packet_to_notify s) (raw_packet_to_write s)
    (timestamp_offset_ms s) (handle_peer_map s) (packets_connections_sent_list s)
    (packets_peers_sent_list s) (broadcast_packets_to_send_list s)
    (targeted_packets_to_send_list s) (notify_context s) (f (write_context s)) (rssi_iterator s)
    (calls s).
Definition upd_rssi_iterator (f : option (option Addr) → option (option Addr)) (s : Tracker) : Tracker :=
  mkTracker (peers s) (messages s) (packets s) (announce_at s) (announce s) (connections s)
    (available_neighbours s) (raw_packet_to_notify s) (raw_packet_to_write s)
    (timestamp_offset_ms s) (handle_peer_map s) (packets_connections_sent_list s)
    (packets_peers_sent_list s) (broadcast_packets_to_send_list s)
    (targeted_packets_to_send_list s) (notify_context s) (write_context s) (f (rssi_iterator s))
    (calls s).
Definition upd_calls (f : list Call → list Call) (s : Tracker) : Tracker :=
  mkTracker (peers s) (messages s) (packets s) (announce_at s) (announce s) (connections s)
    (available_neighbours s) (raw_packet_to_notify s) (raw_packet_to_write s)
    (timestamp_offset_ms s) (handle_peer_map s) (packets_connections_sent_list s)
    (packets_peers_sent_list s) (broadcast_packets_to_send_list s)
    (targeted_packets_to_send_list s) (notify_context s) (write_context s) (rssi_iterator s) (f
    (calls s)).

(** The addresses in use. *)
Definition used (s : Tracker) : gset Z :=
  {[ announce_at s ]} ∪ list_to_set (node_addrs (peers s) ++ node_addrs (messages s) ++
    node_addrs (packets s) ++ node_addrs (connections s) ++ node_addrs (available_neighbours s)).

(** The object behind a [Base *], with its dynamic class. *)
Inductive Packet :=
| PMessage (m : Message)
| PPassAlong (p : PacketPassAlong)
| PAnnounce (a : Announce).

#[global] Instance Packet_is_packet : IsPacket Packet := {
  base_of p := match p with PMessage m => base_of m | PPassAlong p => base_of p
                          | PAnnounce a => base_of a end;
  writePacketPayload get_id p :=
    match p with PMessage m => writePacketPayload get_id m
               | PPassAlong p => writePacketPayload get_id p
               | PAnnounce a => writePacketPayload get_id a end;
}.

(** What a pointer refers to. *)
Definition packet_at (s : Tracker) (a : Addr) : option Packet :=
  if decide (a = announce_at s) then Some (PAnnounce (announce s))
  else match node_at (messages s) a with
       | Some (_, m) => Some (PMessage m)
       | None => (PPassAlong ∘ snd) <$> node_at (packets s) a
       end.

Definition connection_at (s : Tracker) (a : Addr) : option BleConnection :=
  match node_at (connections s) a with
  | Some (_, c) => Some c
  | None => snd <$> node_at (available_neighbours s) a
  end.

Definition peer_at (s : Tracker) (a : Addr) : option Peer := snd <$> node_at (peers s) a.

Definition deref {A} (at_addr : Tracker → Addr → option A) (a : Addr) : M Tracker A :=
  s ← get; match at_addr s a with Some x => mret x | None => fail DanglingPtr end.

(** [p->getId()] for the peers that a packet refers to. *)
Definition peer_id_of (s : Tracker) (a : Addr) : result Z :=
  match peer_at s a with Some p => Ok (peer_id p) | None => Err DanglingPtr end.

(** [pointer->getConnectionHandle()] *)
Definition handle_of (a : Addr) : M Tracker Z :=
  c ← deref connection_at a; mret (connection_handle c).

Section tracker.
Context {env : Env}.

(** ** Calls and subscripts *)

Definition ext (c : Call) : M Tracker Z :=
  s ← get; modify (upd_calls (λ t, t ++ [c]));; mret (answer (calls s) c).

Definition time_us_64 : M Tracker Z := t ← ext time_us_64_call; mret (u64 t).

(** [operator[]] of a [std::map]: the node, made with a default value if there
    is none. *)
Definition subscript {K V} `{Countable K} (field : Tracker → nodes K V)
    (update : (nodes K V → nodes K V) → Tracker → Tracker) (initial : V) (k : K) :
    M Tracker (Addr * V) :=
  s ← get;
  match field s !! k with
  | Some n => mret n
  | None => let n := (alloc (used s), initial) in
            modify (update (λ m, <[k := n]> m));; mret n
  end.

(** [connections[handle]] and [connections[handle].f()] *)
Definition connection_ref (handle : Z) : M Tracker (Addr * BleConnection) :=
  subscript connections upd_connections BleConnection_new handle.

Definition connection_do (f : BleConnection → BleConnection) (handle : Z) : M Tracker unit :=
  connection_ref handle;; modify (upd_connections (node_update f handle)).

(** [available_neighbours[address].f()] *)
Definition neighbour_do (f : BleConnection → BleConnection) (address : list Z) : M Tracker unit :=
  subscript available_neighbours upd_available_neighbours BleConnection_new address;;
  modify (upd_available_neighbours (node_update f address)).

(** [p->f()] for a mutating method of the connection behind a pointer. *)
Definition connection_ptr_do (f : BleConnection → BleConnection) (a : Addr) : M Tracker unit :=
  s ← get;
  match node_at (connections s) a with
  | Some (h, _) => modify (upd_connections (node_update f h))
  | None =>
      match node_at (available_neighbours s) a with
      | Some (k, _) => modify (upd_available_neighbours (node_update f k))
      | None => fail DanglingPtr
      end
  end.

(** ** Stores *)

Definition connectionForConnHandle (handle : Z) : M Tracker (Addr * BleConnection) :=
  s ← get;
  match connections s !! handle with
  | Some n => mret n
  | None => connection_do (setConnectionHandle handle) handle;; connection_ref handle
  end.

(** The moved-from argument keeps its numbers, of which the callers read the
    sender; the result is the address of the stored message. *)
Definition storeMessageAndReturnIfNew (message : Message) : M Tracker (option Addr) :=
  s ← get;
  let id := message_id message in
  match messages s !! id with
  | Some _ => mret None
  | None =>
      '(a, _) ← subscript messages upd_messages Message_new id;
      modify (upd_messages (node_update (λ _, message) id));;
      mret (Some a)
  end.

Definition storePacketAndReturnIfNew (pass_along : PacketPassAlong) : M Tracker (option Addr) :=
  s ← get;
  id ← lift_result (getPacketHash hash_string size_t_bits pass_along);
  match packets s !! id with
  | Some _ => mret None
  | None =>
      '(a, _) ← subscript packets upd_packets (PacketPassAlong_new type_unknown) id;
      modify (upd_packets (node_update (λ _, pass_along) id));;
      mret (Some a)
  end.

Definition messageWithId (id : list Z) : M Tracker (option Addr) :=
  gets (λ s, fst <$> messages s !! id).

Definition peerWithId (id : Z) : M Tracker (option Addr) :=
  gets (λ s, fst <$> peers s !! id).

Definition checkSenderInPeers (sender : Z) : M Tracker Addr :=
  s ← get;
  (match peers s !! sender with
   | Some _ => mret tt
   | None => subscript peers upd_peers Peer_new sender;;
             modify (upd_peers (node_update (setId sender) sender))
   end);;
  '(a, _) ← subscript peers upd_peers Peer_new sender;
  mret a.

(** ** Queues *)

Definition enqueueTargetedPacket (packet : Addr) (to_connection : BleConnection) : M Tracker unit :=
  p ← deref packet_at packet;
  if decide (packet_ttl (base_of p) > 0) then
    '(con, _) ← connectionForConnHandle (connection_handle to_connection);
    modify (upd_targeted_packets_to_send_list (emplace packet con))
  else mret tt.

Definition enqueueBroadcastPacket (packet : Addr) : M Tracker unit :=
  p ← deref packet_at packet;
  if decide (packet_ttl (base_of p) > 0)
  then modify (upd_broadcast_packets_to_send_list (λ l, l ++ [packet]))
  else mret tt.

Definition enqueueBroadcastPacketFrom (packet from_connection from_peer : Addr) : M Tracker unit :=
  modify (upd_packets_connections_sent_list (emplace packet from_connection));;
  modify (upd_packets_peers_sent_list (emplace packet from_peer));;
  enqueueBroadcastPacket packet.

(** ** Neighbours and connections *)

Definition addAvailablePeer (bt_address : list Z) (bt_address_type : Z)
    (services : service_uuid_check_status) (rssi : Z) : M Tracker unit :=
  neighbour_do (setBleAddress bt_address bt_address_type) bt_address;;
  neighbour_do (setServices services) bt_address;;
  neighbour_do (setRssi rssi) bt_address;;
  t ← time_us_64;
  neighbour_do (setTimestamp t) bt_address.

Definition reportConnection (handle : Z) (addr : list Z) (address_type : Z) : M Tracker unit :=
  s ← get;
  (match available_neighbours s !! addr with
   | Some (_, c) =>
       connection_do (λ _, c) handle;;
       modify (upd_available_neighbours (delete addr))
   | None => mret tt
   end);;
  connection_do (setConnectionHandle handle) handle;;
  connection_do (setConnected true) handle;;
  connection_do (setBleAddress addr address_type) handle;;
  t ← time_us_64;
  connection_do (setTimestamp t) handle;;
  modify (upd_available_neighbours (delete addr)).

Definition reportConnectionWithRole (handle : Z) (addr : list Z) (address_type role : Z) :
    M Tracker unit :=
  reportConnection handle addr address_type;;
  connection_ref handle;;
  connection_do (setRole role) handle;;
  '(a, c) ← connection_ref handle;
  if decide (role = HCI_ROLE_MASTER) then
    ext (gatt_client_listen_for_characteristic_value_updates a handle
           (packet_characteristic_value_handle c));;
    mret tt
  else mret tt.

(** The lambda captures [removed_connection] by copy, so the address it
    compares with is that of the copy in the closure, an object that is none
    of the nodes. *)
Definition reportDisconnection (handle : Z) : M Tracker unit :=
  connection_ref handle;;
  connection_do (setNotificationEnabled false) handle;;
  connection_do (setConnected false) handle;;
  '(a, c) ← connection_ref handle;
  (if decide (role c = HCI_ROLE_MASTER)
   then ext (gatt_client_stop_listening_for_characteristic_value_updates a);; mret tt
   else mret tt);;
  modify (upd_handle_peer_map (delete handle));;
  s ← get;
  let captured := alloc (used s) in
  modify (upd_packets_connections_sent_list
    (filter (λ e, ¬ (fst e = announce_at s ∧ snd e = captured)))).

Definition getConnectableNeighbours : M Tracker (list Addr) :=
  time_us_64;;
  gets (λ s, omap (λ kn : list Z * (Addr * BleConnection),
    let '(_, (a, c)) := kn in
    if (bool_decide (build_time_ms ≤ timestamp_offset_ms s) || isRepeater c)
       && negb (connected c) && negb (isRandom c)
    then Some a else None) (items (available_neighbours s))).

(** [connections.begin()] and the successor of a node. *)
Definition connections_begin (s : Tracker) : option Addr :=
  (λ kn : Z * (Addr * BleConnection), fst (snd kn)) <$> head (items (connections s)).

Definition connections_next (s : Tracker) (k : Z) : option Addr :=
  (λ kn : Z * (Addr * BleConnection), fst (snd kn)) <$>
    find (λ kn, Z.ltb k (fst kn)) (items (connections s)).

Definition requestNextRssi (restart : bool) : M Tracker bool :=
  s ← get;
  let iterator := default (connections_begin s) (rssi_iterator s) in
  let iterator := match iterator with
                  | Some a => if restart then connections_begin s else Some a
                  | None => connections_begin s
                  end in
  match iterator ≫= node_at (connections s) with
  | None => fail InvalidIterator
  | Some (handle, _) =>
      ext (gap_read_rssi handle);;
      let next := connections_next s handle in
      modify (upd_rssi_iterator (λ _, Some next));;
      mret (bool_decide (next ≠ None))
  end.

(** ** Time *)

Definition getTimeMs : M Tracker Z :=
  t ← time_us_64; s ← get; mret (u64 (timestamp_offset_ms s + t / 1000)).

(** Subtraction and [llabs] on [int64_t]. *)
Definition sub_s64 (a b : Z) : result Z :=
  if decide (- 2 ^ 63 < a - b < 2 ^ 63) then Ok (a - b) else Err SignedOverflow.

Definition possiblyUpdateTimeOffset (timestamp_ms : Z) : M Tracker unit :=
  our_now ← getTimeMs;
  diff ← lift_result (sub_s64 (s64 timestamp_ms) (s64 our_now));
  let diff_abs := Z.abs diff in
  if decide (diff_abs > MESSAGE_TIMEOUT ∨ timestamp_ms > our_now)
  then modify (upd_timestamp_offset_ms (λ o, u64 (o + diff)))
  else mret tt.

Definition setConnectionStarted (neighbour : Addr) : M Tracker unit :=
  c ← deref connection_at neighbour;
  modify (upd_available_neighbours (delete (bt_address c))).

(** ** Sending *)

(** The first half of [SendPacketToConnection] looks the peer up for the log. *)
Definition peerWithConnectionHandle (con_handle : Z) : M Tracker (option Addr) :=
  gets (λ s, handle_peer_map s !! con_handle).

Definition SendPacketToConnection (packet ble_connection : Addr) : M Tracker bool :=
  s ← get;
  p ← deref packet_at packet;
  packet_data ← lift_result (packet_bytes (peer_id_of s) p);
  c ← deref connection_at ble_connection;
  (if decide (Z.of_nat (length packet_data) > bt_mtu c ∧ ndebug = false)
   then fail AssertFailed else mret tt);;
  let con_handle := connection_handle c in
  peer ← peerWithConnectionHandle con_handle;
  (match peer with Some a => deref peer_at a;; mret tt | None => mret tt end);;
  ext (hci_connection_for_handle con_handle);;
  connection_ptr_do (setHasData true) ble_connection;;
  c ← deref connection_at ble_connection;
  status ← (if decide (role c = HCI_ROLE_SLAVE) then
      modify (upd_raw_packet_to_notify (emplace con_handle packet_data));;
      modify (upd_notify_context (λ _, Some con_handle));;
      ext (att_server_request_to_send_notification con_handle)
    else
      modify (upd_raw_packet_to_write (emplace con_handle packet_data));;
      modify (upd_write_context (λ _, Some con_handle));;
      ext (gatt_client_request_to_write_without_response con_handle));
  ext (sleep_ms 20);;
  mret (bool_decide (u8 status = 0)).

Definition havePacketsToSend : M Tracker bool :=
  gets (λ s, negb (bool_decide (broadcast_packets_to_send_list s = []) &&
                   bool_decide (targeted_packets_to_send_list s = []))).

(** [find_if] over the connections a packet was sent to, for the handle [h]. *)
Fixpoint sent_to_handle (range : multimap Addr) (h : M Tracker Z) : M Tracker bool :=
  match range with
  | [] => mret false
  | (_, c) :: range' =>
      h1 ← handle_of c;
      h2 ← h;
      if decide (h1 = h2) then mret true else sent_to_handle range' h
  end.

Definition packet_needed (packet connection : Addr) : M Tracker bool :=
  s ← get;
  found ← sent_to_handle (equal_range packet (packets_connections_sent_list s))
            (handle_of connection);
  mret (negb found).

(** The loop over the targeted packets; returns [targeted_packets_to_remove]. *)
Fixpoint send_targeted (todo : multimap Addr) : M Tracker (list Addr) :=
  match todo with
  | [] => mret []
  | (packet, connection) :: todo' =>
      needed ← packet_needed packet connection;
      if needed : bool then
        SendPacketToConnection packet connection;;
        modify (upd_packets_connections_sent_list (emplace packet connection));;
        rest ← send_targeted todo'; mret (packet :: rest)
      else send_targeted todo'
  end.

(** The search loop runs on to [end()], without stopping at a match. *)
Fixpoint search_sendable (entries : multimap Addr) (h : Z) (sendable : bool) : M Tracker bool :=
  match entries with
  | [] => mret sendable
  | (_, c) :: entries' =>
      h1 ← handle_of c;
      search_sendable entries' h (if decide (h1 = h) then false else sendable)
  end.

(** One packet to one connection, given by its key; whether it was sent. *)
Definition broadcast_to (packet : Addr) (key : Z) : M Tracker bool :=
  s ← get;
  match connections s !! key with
  | Some (a, c) =>
      if available c then
        sendable ← search_sendable (find_to_end packet (packets_connections_sent_list s))
                     (connection_handle c) true;
        if sendable : bool then
          SendPacketToConnection packet a;;
          modify (upd_packets_connections_sent_list (emplace packet a));;
          mret true
        else mret false
      else mret false
  | None => mret false
  end.

Fixpoint broadcast_packet (packet : Addr) (keys : list Z) : M Tracker bool :=
  match keys with
  | [] => mret false
  | k :: keys' =>
      sent ← broadcast_to packet k;
      rest ← broadcast_packet packet keys';
      mret (sent || rest)
  end.

(** The loop over the broadcast packets; returns [broadcast_packets_to_remove]. *)
Fixpoint send_broadcast (todo : list Addr) : M Tracker (list Addr) :=
  match todo with
  | [] => mret []
  | packet :: todo' =>
      s ← get;
      packet_sent ← broadcast_packet packet (fst <$> items (connections s));
      rest ← send_broadcast todo';
      mret (if packet_sent : bool then packet :: rest else rest)
  end.

Definition sendPackets : M Tracker unit :=
  s ← get;
  if decide (broadcast_packets_to_send_list s = [] ∧ targeted_packets_to_send_list s = [])
  then mret tt else
  targeted ← send_targeted (targeted_packets_to_send_list s);
  modify (upd_targeted_packets_to_send_list (λ l, foldr erase_range l targeted));;
  broadcast ← send_broadcast (broadcast_packets_to_send_list s);
  modify (upd_broadcast_packets_to_send_list (filter (λ p, p ∉ broadcast))).

(** [packet_can_send_notification_handler] runs when BTstack can send. *)
Definition notifyRawPacket (con_handle : Z) : M Tracker unit :=
  s ← get;
  (match lower_bound con_handle (raw_packet_to_notify s) with
   | (_, data) :: _ =>
       '(_, c) ← connection_ref con_handle;
       (if decide (has_data_to_send c = false ∧ ndebug = false)
        then fail AssertFailed else mret tt);;
       ret ← ext (att_server_notify con_handle (packet_characteristic_value_handle c) data);
       if decide (u8 ret = ERROR_CODE_SUCCESS ∨
                  u8 ret = ERROR_CODE_UNKNOWN_CONNECTION_IDENTIFIER)
       then modify (upd_raw_packet_to_notify (erase_lower_bound con_handle))
       else mret tt
   | [] => mret tt
   end);;
  s ← get;
  match lower_bound con_handle (raw_packet_to_notify s) with
  | [] => connection_ref con_handle;; mret tt     (* setHasData(false) on a copy *)
  | _ =>
      modify (upd_notify_context (λ _, Some con_handle));;
      ext (att_server_request_to_send_notification con_handle);;
      mret tt
  end.

Definition writeRawPacket (con_handle : Z) : M Tracker unit :=
  s ← get;
  (match lower_bound con_handle (raw_packet_to_write s) with
   | (_, data) :: _ =>
       '(_, c) ← connection_ref con_handle;
       (if decide (has_data_to_send c = false ∧ ndebug = false)
        then fail AssertFailed else mret tt);;
       ret ← ext (gatt_client_write_value_of_characteristic_without_response con_handle
                    (packet_characteristic_value_handle c) data);
       if decide (u8 ret = ERROR_CODE_SUCCESS ∨
                  u8 ret = ERROR_CODE_UNKNOWN_CONNECTION_IDENTIFIER)
       then modify (upd_raw_packet_to_write (erase_lower_bound con_handle))
       else mret tt
   | [] => mret tt
   end);;
  s ← get;
  match lower_bound con_handle (raw_packet_to_write s) with
  | [] => connection_ref con_handle;; mret tt     (* setHasData(false) on a copy *)
  | _ =>
      modify (upd_write_context (λ _, Some con_handle));;
      ext (gatt_client_request_to_write_without_response con_handle);;
      mret tt
  end.

(** BTstack calls these when it can take a packet, with the context that was registered
    last: a handle as a pointer, of which 16 bits are kept.  Their test of
    [connection_tracker_ptr] is left out: main.cpp initialises it with the address of the
    tracker and nothing assigns it. *)
Definition packet_can_send_notification_handler (context : Z) : M Tracker unit :=
  notifyRawPacket (u16 context).

Definition packet_can_write_without_response_handler (context : Z) : M Tracker unit :=
  writeRawPacket (u16 context).

(** ** Announcing *)

(** [memcpy] of the six address bytes into a zeroed little-endian word. *)
Definition address_word (addr : list Z) : Z := be_value (rev (take 6 addr)).

Definition announced_name : result (list Z) :=
  lo ← load local_bd_addr (BD_ADDR_LEN - 2);
  hi ← load local_bd_addr (BD_ADDR_LEN - 1);
  '(_, name) ← (write_data_ptr packet_service_name (Z.of_nat (length packet_service_name));;
                write_data_str (str ":") 1;;
                write_uint8_hex16 lo;;
                write_uint8_hex16 hi) [];
  mret name.

Definition set_announce_base (f : Base → Base) (a : Announce) : Announce :=
  let p := an_pass a in
  let b := pa_base p in
  mkAnnounce (mkPassAlong (mkPacketBase (f (pb_base b)) (packet_sender_id b)
    (packet_recipient_id b)) (payload p) (hasPayload p)) (an_name a).

Definition set_announce_sender (sender : Z) (a : Announce) : Announce :=
  let p := an_pass a in
  mkAnnounce (mkPassAlong (setPacketSenderId sender (pa_base p)) (payload p) (hasPayload p))
    (an_name a).

Definition setupAnnounceIfNeeded : M Tracker unit :=
  s ← get;
  if decide (packet_ttl (base_of (announce s)) = 3) then mret tt else
  let sender := address_word local_bd_addr in
  modify (upd_announce (set_announce_base (setPacketTtl 3)));;
  modify (upd_announce (set_announce_base (setPacketFlags 0)));;
  modify (upd_announce (set_announce_sender sender));;
  name ← lift_result announced_name;
  modify (upd_announce (setName name)).

(** One connection, given by its key and copied into the loop variable. *)
Definition announce_to (announced_to : multimap Addr) (key : Z) : M Tracker unit :=
  s ← get;
  match connections s !! key with
  | Some (_, connection) =>
      if available connection && bool_decide (build_time_ms ≤ timestamp_offset_ms s) then
        found ← sent_to_handle announced_to (mret (connection_handle connection));
        if found : bool then mret tt else
        now ← getTimeMs;
        modify (upd_announce (set_announce_base (setPacketTimestamp now)));;
        enqueueTargetedPacket (announce_at s) connection
      else mret tt
  | None => mret tt
  end.

Definition announceToConnections : M Tracker unit :=
  setupAnnounceIfNeeded;;
  s ← get;
  for_each (fst <$> items (connections s))
    (announce_to (equal_range (announce_at s) (packets_connections_sent_list s))).

Definition getTargetedPacketsToSendSize : M Tracker Z :=
  gets (λ s, Z.of_nat (length (targeted_packets_to_send_list s))).

Definition getAnyPacket : M Tracker (option Addr) :=
  gets (λ s, (λ kn : Z * (Addr * PacketPassAlong), fst (snd kn)) <$> head (items (packets s))).

(** ** Clean-up *)

(** [x + ten_minutes_in_ms < now] on [uint64_t]. *)
Definition stale (now x : Z) : bool := bool_decide (u64 (x + ten_minutes_in_ms) < now).

Definition connection_stale (now : Z) (c : BleConnection) : bool :=
  negb (connected c) && stale now (getTimestampMs c).

(** [packet_connection_stale]: the packet's timestamp is used as it is. *)
Definition packet_connection_stale (now : Z) (e : Addr * Addr) : M Tracker bool :=
  p ← deref packet_at (fst e);
  if stale now (packet_timestamp (base_of p)) then mret true else
  c ← deref connection_at (snd e);
  mret (connection_stale now c).

(** [packet_peer_stale] and [packet_stale]: the timestamp is divided by 1000. *)
Definition packet_stale (now : Z) (packet : Addr) : M Tracker bool :=
  p ← deref packet_at packet;
  mret (stale now (getPacketTimestampMs (base_of p))).

Definition not_stale {A} (p : A → M Tracker bool) (x : A) : M Tracker bool :=
  b ← p x; mret (negb b).

Definition cleanupStaleItems : M Tracker unit :=
  now ← getTimeMs;
  s ← get;
  l1 ← filterM (not_stale (packet_connection_stale now)) (packets_connections_sent_list s);
  modify (upd_packets_connections_sent_list (λ _, l1));;
  l2 ← filterM (not_stale (λ e, packet_stale now (fst e))) (packets_peers_sent_list s);
  modify (upd_packets_peers_sent_list (λ _, l2));;
  l3 ← filterM (not_stale (packet_stale now)) (broadcast_packets_to_send_list s);
  modify (upd_broadcast_packets_to_send_list (λ _, l3));;
  l4 ← filterM (not_stale (packet_connection_stale now)) (targeted_packets_to_send_list s);
  modify (upd_targeted_packets_to_send_list (λ _, l4));;
  modify (upd_connections (erase_if (connection_stale now)));;
  modify (upd_available_neighbours (erase_if (connection_stale now)));;
  modify (upd_messages (erase_if (λ m, stale now (getPacketTimestampMs (base_of m)))));;
  modify (upd_packets (erase_if (λ p, stale now (getPacketTimestampMs (base_of p))))).

(** ** Queries *)

Definition getConnectionsCount : M Tracker Z :=
  gets (λ s, Z.of_nat (size (connections s)) + Z.of_nat (size (available_neighbours s))).

Definition setConnectionHandleForPeer (con_handle : Z) (peer : Addr) : M Tracker unit :=
  modify (upd_handle_peer_map (λ m, <[con_handle := peer]> m)).

Definition getConnectionForAddress (address : list Z) : M Tracker (option Addr) :=
  gets (λ s, (λ kn : Z * (Addr * BleConnection), fst (snd kn)) <$>
    find (λ kn, connected (snd (snd kn)) &&
                bool_decide (take 6 (bt_address (snd (snd kn))) = take 6 address))
      (items (connections s))).

(** The loop over [handle_peer_map]; [reversed] maps peers to handles, 0 for
    none.  The log line makes nodes for handles without a connection. *)
Fixpoint find_duplicate (todo : list (Z * Addr)) (reversed : gmap Z Z) : M Tracker Z :=
  match todo with
  | [] => mret 0
  | (handle, peer) :: todo' =>
      let earlier := default 0 (reversed !! peer) in
      if decide (earlier ≠ 0) then
        '(_, c1) ← connection_ref earlier;
        '(_, c2) ← connection_ref handle;
        mret (if decide (last_seen_time c1 < last_seen_time c2) then earlier else handle)
      else find_duplicate todo' (<[peer := handle]> reversed)
  end.

Definition handle_le : relation (Z * Addr) := λ x y, fst x ≤ fst y.

#[global] Instance handle_le_dec : RelDecision handle_le.
Proof. intros x y. unfold handle_le. apply _. Defined.

Definition getAnyDuplicateHandle : M Tracker Z :=
  s ← get;
  find_duplicate (merge_sort handle_le (map_to_list (handle_peer_map s))) ∅.

(** [printStats]: the up time as it is printed, and the counts. *)
Definition uptime (time_us : Z) : Z * Z * Z * Z :=
  let time_ms := u32 (time_us / 1000) in
  let seconds := time_ms / 1000 in
  let minutes := seconds / 60 in
  let hours := minutes / 60 in
  (hours, u16 (minutes - u32 (hours * 60)), u16 (seconds - u32 (minutes * 60)),
   u16 (time_ms - u32 (seconds * 1000))).

Definition printStats : M Tracker ((Z * Z * Z * Z) * list Z) :=
  t ← time_us_64;
  s ← get;
  let active := filter (λ kn : Z * (Addr * BleConnection), connected (snd (snd kn)) = true)
                  (items (connections s)) in
  mret (uptime t, Z.of_nat <$>
    [length active; size (connections s); size (available_neighbours s);
     size (messages s); size (packets s); length (broadcast_packets_to_send_list s);
     length (targeted_packets_to_send_list s)]).
End tracker.
