(* ===== verification/TrackerWf.v ===== *)
(** The invariant of the connection tracker.

    [addr_of] says where each object of the tracker lives.  [wf] says that
    distinct objects have distinct addresses, that every pointer kept in one of
    the lists or maps refers to a live object of its class, that the multimaps
    are in order, that a connected connection is stored under its own handle and
    that a neighbour is not connected.
    Every operation is shown to run without undefined behaviour from a
    well-formed state and to keep it well formed; where an operation has a
    further precondition, the lemma states it. *)

From S2P Require Import Prelude BinaryIO Packets StdContainers BleConnection Tracker.

(** * Objects and where they live *)

Inductive Object :=
| OAnnounce
| OMessage (id : list Z)
| OPacket (hash : Z)
| OConnection (handle : Z)
| ONeighbour (address : list Z)
| OPeer (id : Z).

#[global] Instance Object_eq_dec : EqDecision Object.
Proof. solve_decision. Defined.

Definition addr_of (s : Tracker) (o : Object) : option Addr :=
  match o with
  | OAnnounce => Some (announce_at s)
  | OMessage id => fst <$> messages s !! id
  | OPacket hash => fst <$> packets s !! hash
  | OConnection handle => fst <$> connections s !! handle
  | ONeighbour address => fst <$> available_neighbours s !! address
  | OPeer id => fst <$> peers s !! id
  end.

Definition is_packet (o : Object) : bool :=
  match o with OAnnounce | OMessage _ | OPacket _ => true | _ => false end.

Definition live_packet (s : Tracker) (a : Addr) : Prop :=
  ∃ o, is_packet o = true ∧ addr_of s o = Some a.
Definition live_connection (s : Tracker) (a : Addr) : Prop :=
  ∃ h, addr_of s (OConnection h) = Some a.
Definition live_peer (s : Tracker) (a : Addr) : Prop :=
  ∃ id, addr_of s (OPeer id) = Some a.

(** Distinct objects have distinct addresses. *)
Definition separate (s : Tracker) : Prop :=
  ∀ o o' a, addr_of s o = Some a → addr_of s o' = Some a → o = o'.

(** Every pointer that is kept refers to a live object. *)
Record pointers_ok (s : Tracker) : Prop := {
  po_sent : ∀ e, e ∈ packets_connections_sent_list s →
    live_packet s (fst e) ∧ live_connection s (snd e);
  po_peers : ∀ e, e ∈ packets_peers_sent_list s → live_packet s (fst e) ∧ live_peer s (snd e);
  po_broadcast : ∀ a, a ∈ broadcast_packets_to_send_list s → live_packet s a;
  po_targeted : ∀ e, e ∈ targeted_packets_to_send_list s →
    live_packet s (fst e) ∧ live_connection s (snd e);
  po_handles : ∀ h a, handle_peer_map s !! h = Some a → live_peer s a;
}.

Record ordered (s : Tracker) : Prop := {
  or_sent : sorted (packets_connections_sent_list s);
  or_targeted : sorted (targeted_packets_to_send_list s);
}.

(** A connected connection is stored under its own handle. *)
Definition handles_ok (s : Tracker) : Prop :=
  ∀ h a c, connections s !! h = Some (a, c) → connected c = true → connection_handle c = h.

(** A neighbour is not connected. *)
Definition neighbours_ok (s : Tracker) : Prop :=
  ∀ k a c, available_neighbours s !! k = Some (a, c) → connected c = false.

Record wf (s : Tracker) : Prop := {
  wf_separate : separate s;
  wf_pointers : pointers_ok s;
  wf_ordered : ordered s;
  wf_handles : handles_ok s;
  wf_neighbours : neighbours_ok s;
}.

(** The allocator gives out addresses that are not in use. *)
Class AllocFresh (env : Env) : Prop := alloc_fresh : ∀ X : gset Z, alloc X ∉ X.

(** The state at start-up. *)
Definition Tracker_new (announce_address : Addr) : Tracker :=
  mkTracker ∅ ∅ ∅ announce_address Announce_new ∅ ∅ [] [] 0 ∅ [] [] [] [] None None None [].

(** * Lemmas: addresses *)

Lemma addr_of_used s o a : addr_of s o = Some a → a ∈ used s.
Proof.
  unfold used. rewrite elem_of_union, elem_of_singleton, elem_of_list_to_set, !elem_of_app,
    !elem_of_node_addrs.
  destruct o; cbn; [intros [= <-]; auto|..]; rewrite fmap_Some; intros ([a' v] & Hl & ->);
    right; naive_solver.
Qed.

Lemma node_at_None {K V} `{Countable K} (m : nodes K V) a :
  (∀ k, fst <$> m !! k ≠ Some a) → node_at m a = None.
Proof.
  intros Hm. destruct (node_at m a) as [[k v]|] eqn:Hn; [|done].
  apply node_at_sound in Hn. destruct (Hm k). by rewrite Hn.
Qed.

Lemma separate_nodes_inj {K V} `{Countable K} s (m : nodes K V) (o : K → Object) :
  separate s → (∀ k, addr_of s (o k) = fst <$> m !! k) → Inj (=) (=) o → nodes_inj m.
Proof.
  intros Hs Ho Hinj k k' a v v' Hk Hk'. apply Hinj, (Hs _ _ a); rewrite Ho; by rewrite ?Hk, ?Hk'.
Qed.

(** A pointer to an object that lives in a map is looked up to its value. *)
Lemma node_at_object {K V} `{Countable K} s (m : nodes K V) (o : K → Object) k a v :
  separate s → (∀ k, addr_of s (o k) = fst <$> m !! k) → Inj (=) (=) o →
  m !! k = Some (a, v) → node_at m a = Some (k, v).
Proof. intros. by eapply node_at_complete; [eapply separate_nodes_inj|]. Qed.

(** ... and to nothing in a map that holds other objects. *)
Lemma node_at_other {K V} `{Countable K} s (m : nodes K V) (o : K → Object) o' a :
  separate s → (∀ k, addr_of s (o k) = fst <$> m !! k) → (∀ k, o k ≠ o') →
  addr_of s o' = Some a → node_at m a = None.
Proof.
  intros Hs Ho Hne Ha. apply node_at_None. intros k Hk. apply (Hne k), (Hs _ _ a); [|done].
  by rewrite Ho.
Qed.

Section deref.
Context (s : Tracker) (Hs : separate s).

Lemma connection_at_object h a c :
  connections s !! h = Some (a, c) →
  node_at (connections s) a = Some (h, c) ∧ connection_at s a = Some c.
Proof.
  intros Hc. assert (node_at (connections s) a = Some (h, c)) as Hn.
  { by eapply (node_at_object s _ OConnection); [done|done|intros ??; congruence|]. }
  split; [done|]. unfold connection_at. by rewrite Hn.
Qed.

Lemma connection_at_live a :
  live_connection s a → ∃ h c, connections s !! h = Some (a, c) ∧
    node_at (connections s) a = Some (h, c) ∧ connection_at s a = Some c.
Proof.
  intros [h Ha]. cbn in Ha. apply fmap_Some in Ha as ([a' c] & Hc & ->).
  exists h, c. split; [done|]. by apply connection_at_object.
Qed.

Lemma peer_at_live a : live_peer s a → ∃ p, peer_at s a = Some p.
Proof.
  intros [id Ha]. cbn in Ha. apply fmap_Some in Ha as ([a' p] & Hp & ->).
  exists p. unfold peer_at. rewrite (node_at_object s _ OPeer id a' p); try done.
  intros ??; congruence.
Qed.

(** The packet an object is. *)
Definition packet_of (o : Object) : option Packet :=
  match o with
  | OAnnounce => Some (PAnnounce (announce s))
  | OMessage id => (PMessage ∘ snd) <$> messages s !! id
  | OPacket hash => (PPassAlong ∘ snd) <$> packets s !! hash
  | _ => None
  end.

Lemma packet_at_object o a :
  is_packet o = true → addr_of s o = Some a → packet_at s a = packet_of o.
Proof.
  intros Hp Ha. unfold packet_at. case_decide as Heq.
  - assert (o = OAnnounce) as -> by (apply (Hs _ _ a); [done|by subst]). done.
  - destruct o as [|id|hash| | |]; try done; cbn in Ha.
    + by destruct Heq; injection Ha.
    + apply fmap_Some in Ha as ([a' m] & Hm & ->). cbn. rewrite Hm.
      by rewrite (node_at_object s _ OMessage id a' m); [|done|done|intros ??; congruence|].
    + apply fmap_Some in Ha as ([a' p] & Hp' & ->). cbn [fst] in *.
      rewrite (node_at_other s _ OMessage (OPacket hash)); [|done|done|done|cbn; by rewrite Hp'].
      cbn. rewrite Hp'. by rewrite (node_at_object s _ OPacket hash a' p); [|done|done|intros ??; congruence|].
Qed.

Lemma packet_at_live a : live_packet s a → ∃ o p, is_packet o = true ∧
  addr_of s o = Some a ∧ packet_of o = Some p ∧ packet_at s a = Some p.
Proof.
  intros (o & Hp & Ha). assert (∃ p, packet_of o = Some p) as [p Hpk].
  { destruct o; try done; cbn in *; [by eexists|..];
      apply fmap_Some in Ha as (n & -> & _); by eexists. }
  exists o, p. split_and!; try done. by rewrite (packet_at_object o).
Qed.
End deref.

(** * Lemmas: keeping the invariant *)

(** Everything that pointers may refer to is still where it was. *)
Definition extends (s s' : Tracker) : Prop :=
  ∀ o a, (∀ k, o ≠ ONeighbour k) → addr_of s o = Some a → addr_of s' o = Some a.

#[global] Instance extends_preorder : PreOrder extends.
Proof.
  split; [by intros s o a _ ?|]. intros s1 s2 s3 H1 H2 o a Ho Ha. auto.
Qed.

Lemma live_packet_extends s s' a : extends s s' → live_packet s a → live_packet s' a.
Proof.
  intros He (o & Hp & Ha). exists o. split; [done|]. apply He; [|done]. by destruct o.
Qed.
Lemma live_connection_extends s s' a : extends s s' → live_connection s a → live_connection s' a.
Proof. intros He [h Ha]. exists h. by apply He. Qed.
Lemma live_peer_extends s s' a : extends s s' → live_peer s a → live_peer s' a.
Proof. intros He [id Ha]. exists id. by apply He. Qed.

Create HintDb live.
#[export] Hint Resolve live_packet_extends live_connection_extends live_peer_extends : live.

(** The pointers kept are the same. *)
Definition same_pointers (s s' : Tracker) : Prop :=
  packets_connections_sent_list s' = packets_connections_sent_list s ∧
  packets_peers_sent_list s' = packets_peers_sent_list s ∧
  broadcast_packets_to_send_list s' = broadcast_packets_to_send_list s ∧
  targeted_packets_to_send_list s' = targeted_packets_to_send_list s ∧
  handle_peer_map s' = handle_peer_map s.

Lemma pointers_ok_extends s s' :
  extends s s' → same_pointers s s' → pointers_ok s → pointers_ok s'.
Proof.
  intros He (H1 & H2 & H3 & H4 & H5) []. constructor; rewrite ?H1, ?H2, ?H3, ?H4, ?H5;
    naive_solver eauto with live.
Qed.

Lemma wf_extends s s' :
  wf s → extends s s' → same_pointers s s' → separate s' → handles_ok s' → neighbours_ok s' → wf s'.
Proof.
  intros [Hs Hp [Ho1 Ho2] Hh _] He Hsame Hs' Hh' Hn'. constructor; [done| | |done|done].
  - by eapply pointers_ok_extends.
  - destruct Hsame as (H1 & _ & _ & H4 & _). constructor; congruence.
Qed.

Lemma separate_same s s' : (∀ o, addr_of s' o = addr_of s o) → separate s → separate s'.
Proof. intros Heq Hs o o' a. rewrite !Heq. apply Hs. Qed.

Lemma separate_shrink s s' :
  (∀ o a, addr_of s' o = Some a → addr_of s o = Some a) → separate s → separate s'.
Proof. intros Hsub Hs o o' a Ho Ho'. eauto. Qed.

Lemma separate_insert s s' o0 a :
  (∀ o, addr_of s' o = if decide (o = o0) then Some a else addr_of s o) →
  a ∉ used s → separate s → separate s'.
Proof.
  intros Heq Ha Hs o o' b. rewrite !Heq. repeat case_decide; subst; try done.
  - intros [= <-] Ho'. by destruct Ha; eapply addr_of_used.
  - intros Ho [= <-]. by destruct Ha; eapply addr_of_used.
  - apply Hs.
Qed.

Lemma extends_same s s' : (∀ o, addr_of s' o = addr_of s o) → extends s s'.
Proof. intros Heq o a _. by rewrite Heq. Qed.

Lemma extends_insert s s' o0 a :
  (∀ o, addr_of s' o = if decide (o = o0) then Some a else addr_of s o) →
  addr_of s o0 = None → extends s s'.
Proof. intros Heq Hn o b _ Ho. rewrite Heq. case_decide; [congruence|done]. Qed.

(** How the updates of the maps act on the addresses. *)
Ltac solve_addr :=
  match goal with |- addr_of ?s ?o = _ => destruct o as [|?|?|?|?|?] end;
  cbn [addr_of upd_connections upd_available_neighbours upd_messages upd_packets upd_peers
       connections available_neighbours messages packets peers announce_at];
  try (by rewrite ?node_update_shape);
  rewrite ?lookup_insert; repeat case_decide; simplify_eq; done.

Lemma addr_of_new_connection s h n o :
  addr_of (upd_connections (λ m, <[h := n]> m) s) o
  = if decide (o = OConnection h) then Some (fst n) else addr_of s o.
Proof. solve_addr. Qed.
Lemma addr_of_new_neighbour s k n o :
  addr_of (upd_available_neighbours (λ m, <[k := n]> m) s) o
  = if decide (o = ONeighbour k) then Some (fst n) else addr_of s o.
Proof. solve_addr. Qed.
Lemma addr_of_new_message s k n o :
  addr_of (upd_messages (λ m, <[k := n]> m) s) o
  = if decide (o = OMessage k) then Some (fst n) else addr_of s o.
Proof. solve_addr. Qed.
Lemma addr_of_new_packet s k n o :
  addr_of (upd_packets (λ m, <[k := n]> m) s) o
  = if decide (o = OPacket k) then Some (fst n) else addr_of s o.
Proof. solve_addr. Qed.
Lemma addr_of_new_peer s k n o :
  addr_of (upd_peers (λ m, <[k := n]> m) s) o
  = if decide (o = OPeer k) then Some (fst n) else addr_of s o.
Proof. solve_addr. Qed.

Lemma addr_of_update_connection s f h o :
  addr_of (upd_connections (node_update f h) s) o = addr_of s o.
Proof. solve_addr. Qed.
Lemma addr_of_update_neighbour s f k o :
  addr_of (upd_available_neighbours (node_update f k) s) o = addr_of s o.
Proof. solve_addr. Qed.
Lemma addr_of_update_message s f k o :
  addr_of (upd_messages (node_update f k) s) o = addr_of s o.
Proof. solve_addr. Qed.
Lemma addr_of_update_packet s f k o :
  addr_of (upd_packets (node_update f k) s) o = addr_of s o.
Proof. solve_addr. Qed.
Lemma addr_of_update_peer s f k o :
  addr_of (upd_peers (node_update f k) s) o = addr_of s o.
Proof. solve_addr. Qed.

(** ** Updates that do not move anything *)

(** A change of the parts that neither hold objects nor pointers. *)
Lemma wf_irrelevant s s' :
  (∀ o, addr_of s' o = addr_of s o) → same_pointers s s' → connections s' = connections s →
  available_neighbours s' = available_neighbours s →
  wf s → wf s' ∧ extends s s'.
Proof.
  intros Heq Hp Hc Hn Hwf. split; [|by apply extends_same].
  apply (wf_extends s); [done|by apply extends_same|done|by eapply separate_same, Hwf|..].
  - intros h a c. rewrite Hc. apply Hwf.
  - intros k a c. rewrite Hn. apply Hwf.
Qed.

Ltac irrelevant := apply wf_irrelevant; try done; intros; solve_addr.

Lemma wf_calls s f : wf s → wf (upd_calls f s) ∧ extends s (upd_calls f s).
Proof. irrelevant. Qed.
Lemma wf_notify s f : wf s → wf (upd_raw_packet_to_notify f s) ∧ extends s (upd_raw_packet_to_notify f s).
Proof. irrelevant. Qed.
Lemma wf_write s f : wf s → wf (upd_raw_packet_to_write f s) ∧ extends s (upd_raw_packet_to_write f s).
Proof. irrelevant. Qed.
Lemma wf_notify_context s f : wf s → wf (upd_notify_context f s) ∧ extends s (upd_notify_context f s).
Proof. irrelevant. Qed.
Lemma wf_write_context s f : wf s → wf (upd_write_context f s) ∧ extends s (upd_write_context f s).
Proof. irrelevant. Qed.
Lemma wf_rssi_iterator s f : wf s → wf (upd_rssi_iterator f s) ∧ extends s (upd_rssi_iterator f s).
Proof. irrelevant. Qed.
Lemma wf_offset s f : wf s → wf (upd_timestamp_offset_ms f s) ∧ extends s (upd_timestamp_offset_ms f s).
Proof. irrelevant. Qed.
Lemma wf_announce s f : wf s → wf (upd_announce f s) ∧ extends s (upd_announce f s).
Proof. irrelevant. Qed.
Lemma wf_update_message s f k :
  wf s → wf (upd_messages (node_update f k) s) ∧ extends s (upd_messages (node_update f k) s).
Proof. irrelevant. Qed.
Lemma wf_update_packet s f k :
  wf s → wf (upd_packets (node_update f k) s) ∧ extends s (upd_packets (node_update f k) s).
Proof. irrelevant. Qed.
Lemma wf_update_peer s f k :
  wf s → wf (upd_peers (node_update f k) s) ∧ extends s (upd_peers (node_update f k) s).
Proof. irrelevant. Qed.
Lemma wf_update_neighbour s f k :
  wf s → (∀ c, connected c = false → connected (f c) = false) →
  wf (upd_available_neighbours (node_update f k) s) ∧
    extends s (upd_available_neighbours (node_update f k) s).
Proof.
  intros Hwf Hf. assert (extends s (upd_available_neighbours (node_update f k) s)) as He.
  { apply extends_same. intros. solve_addr. }
  split; [|done]. apply (wf_extends s); [done..| |apply Hwf|].
  - eapply separate_same; [|apply Hwf]. intros. solve_addr.
  - intros k' a c. cbn. rewrite lookup_node_update. case_decide as Hd; [subst k'|apply Hwf].
    destruct (available_neighbours s !! k) as [[a' c']|] eqn:Hc; [|done].
    intros [= <- <-]. by eapply Hf, Hwf.
Qed.

(** An update of a connection that keeps the handle in step. *)
Lemma wf_update_connection s f h :
  wf s → (∀ a c, connections s !! h = Some (a, c) → connected (f c) = true →
          connection_handle (f c) = h) →
  wf (upd_connections (node_update f h) s) ∧ extends s (upd_connections (node_update f h) s).
Proof.
  intros Hwf Hf. assert (extends s (upd_connections (node_update f h) s)) as He.
  { apply extends_same. intros. solve_addr. }
  split; [|done]. apply (wf_extends s); [done..| | |apply Hwf].
  - eapply separate_same; [|apply Hwf]. intros. solve_addr.
  - intros h' a c. cbn. rewrite lookup_node_update. case_decide as Hd; [subst h'|apply Hwf].
    destruct (connections s !! h) as [[a' c']|] eqn:Hc; [|done]. intros [= <- <-]. by eapply Hf.
Qed.

(** ** New objects *)

Section alloc.
Context {env : Env} `{!AllocFresh env}.

Lemma wf_new s s' o0 :
  wf s → addr_of s o0 = None →
  (∀ o, addr_of s' o = if decide (o = o0) then Some (alloc (used s)) else addr_of s o) →
  same_pointers s s' → handles_ok s' → neighbours_ok s' → wf s' ∧ extends s s'.
Proof.
  intros Hwf Hn Heq Hp Hh Hnb. assert (extends s s') as He by (by eapply extends_insert).
  split; [|done]. apply (wf_extends s); try done.
  eapply separate_insert; [done|apply alloc_fresh|apply Hwf].
Qed.

(** [m[k]] on the five maps: the state with the node in place. *)
Definition ensure {K V} `{Countable K} (field : Tracker → nodes K V)
    (update : (nodes K V → nodes K V) → Tracker → Tracker) (initial : V) (k : K) (s : Tracker) :
    Tracker :=
  match field s !! k with
  | Some _ => s
  | None => update (λ m, <[k := (alloc (used s), initial)]> m) s
  end.

Definition node_or {K V} `{Countable K} (field : Tracker → nodes K V) (initial : V) (k : K)
    (s : Tracker) : Addr * V := default (alloc (used s), initial) (field s !! k).

Lemma subscript_run {K V} `{Countable K} (field : Tracker → nodes K V) update (initial : V) k s :
  subscript field update initial k s
  = Ok (node_or field initial k s, ensure field update initial k s).
Proof.
  unfold subscript, ensure, node_or. rewrite (M_bind_ok get _ _ _ _ eq_refl).
  by destruct (field s !! k).
Qed.

Definition ensure_connection : Z → Tracker → Tracker :=
  ensure connections upd_connections BleConnection_new.
Definition ensure_peer : Z → Tracker → Tracker := ensure peers upd_peers Peer_new.
Definition ensure_neighbour : list Z → Tracker → Tracker :=
  ensure available_neighbours upd_available_neighbours BleConnection_new.

Lemma wf_ensure_connection h s :
  wf s → wf (ensure_connection h s) ∧ extends s (ensure_connection h s).
Proof.
  intros Hwf. unfold ensure_connection, ensure.
  destruct (connections s !! h) as [[a c]|] eqn:Hc; [by split|].
  apply (wf_new s _ (OConnection h)); [done|cbn; by rewrite Hc| |done| |apply Hwf].
  - intros. by rewrite addr_of_new_connection.
  - intros h' a' c'. cbn. rewrite lookup_insert. case_decide; [|apply Hwf]. by intros [= <- <-].
Qed.

Lemma wf_ensure_peer k s : wf s → wf (ensure_peer k s) ∧ extends s (ensure_peer k s).
Proof.
  intros Hwf. unfold ensure_peer, ensure.
  destruct (peers s !! k) as [[a c]|] eqn:Hc; [by split|].
  apply (wf_new s _ (OPeer k)); [done|cbn; by rewrite Hc| |done|apply Hwf|apply Hwf].
  intros. by rewrite addr_of_new_peer.
Qed.

Lemma wf_ensure_neighbour k s : wf s → wf (ensure_neighbour k s) ∧ extends s (ensure_neighbour k s).
Proof.
  intros Hwf. unfold ensure_neighbour, ensure.
  destruct (available_neighbours s !! k) as [[a c]|] eqn:Hc; [by split|].
  apply (wf_new s _ (ONeighbour k)); [done|cbn; by rewrite Hc| |done|apply Hwf|].
  - intros. by rewrite addr_of_new_neighbour.
  - intros k' a' c'. cbn. rewrite lookup_insert. case_decide; [|apply Hwf]. by intros [= <- <-].
Qed.

Lemma wf_new_message k m s :
  messages s !! k = None → wf s →
  let s' := upd_messages (λ ms, <[k := (alloc (used s), m)]> ms) s in wf s' ∧ extends s s'.
Proof.
  intros Hn Hwf. apply (wf_new s _ (OMessage k)); [done|cbn; by rewrite Hn| |done|apply Hwf|apply Hwf].
  intros. by rewrite addr_of_new_message.
Qed.

Lemma wf_new_packet k p s :
  packets s !! k = None → wf s →
  let s' := upd_packets (λ ps, <[k := (alloc (used s), p)]> ps) s in wf s' ∧ extends s s'.
Proof.
  intros Hn Hwf. apply (wf_new s _ (OPacket k)); [done|cbn; by rewrite Hn| |done|apply Hwf|apply Hwf].
  intros. by rewrite addr_of_new_packet.
Qed.
End alloc.

(** ** Neighbours that are removed *)

Lemma wf_delete_neighbour s k :
  wf s → wf (upd_available_neighbours (delete k) s) ∧
    extends s (upd_available_neighbours (delete k) s).
Proof.
  intros Hwf. assert (extends s (upd_available_neighbours (delete k) s)) as He.
  { intros o a Ho Ha. destruct o; try done. by destruct (Ho address). }
  split; [|done]. apply (wf_extends s); [done..| |apply Hwf|].
  - eapply separate_shrink; [|apply Hwf]. intros o a. destruct o; try done.
    cbn. rewrite lookup_delete. by case_decide.
  - intros k' a c. cbn. rewrite lookup_delete. case_decide; [done|apply Hwf].
Qed.

(** ** Other pointers *)

Lemma wf_other_pointers s s' :
  (∀ o, addr_of s' o = addr_of s o) → connections s' = connections s →
  available_neighbours s' = available_neighbours s → wf s →
  (∀ e, e ∈ packets_connections_sent_list s' → live_packet s (fst e) ∧ live_connection s (snd e)) →
  (∀ e, e ∈ packets_peers_sent_list s' → live_packet s (fst e) ∧ live_peer s (snd e)) →
  (∀ a, a ∈ broadcast_packets_to_send_list s' → live_packet s a) →
  (∀ e, e ∈ targeted_packets_to_send_list s' → live_packet s (fst e) ∧ live_connection s (snd e)) →
  (∀ h a, handle_peer_map s' !! h = Some a → live_peer s a) →
  sorted (packets_connections_sent_list s') → sorted (targeted_packets_to_send_list s') →
  wf s' ∧ extends s s'.
Proof.
  intros Heq Hc Hn Hwf H1 H2 H3 H4 H5 Ho1 Ho2.
  assert (extends s s') as He by (by apply extends_same). split; [|done].
  constructor; [by eapply separate_same, Hwf| |by constructor|..].
  - constructor; naive_solver eauto with live.
  - intros h a c. rewrite Hc. apply Hwf.
  - intros k a c. rewrite Hn. apply Hwf.
Qed.

Ltac other_pointers Hwf :=
  let Hp := fresh "Hp" in let Ho := fresh "Ho" in
  pose proof (wf_pointers _ Hwf) as Hp; pose proof (wf_ordered _ Hwf) as Ho; destruct Hp, Ho;
  apply wf_other_pointers; try done; cbn; try (intros; solve_addr); auto using emplace_sorted.

Lemma wf_emplace_sent s p c :
  wf s → live_packet s p → live_connection s c →
  let s' := upd_packets_connections_sent_list (emplace p c) s in wf s' ∧ extends s s'.
Proof. intros Hwf Hp Hc. other_pointers Hwf. intros e [->|]%elem_of_emplace; auto. Qed.

Lemma wf_emplace_peers s p c :
  wf s → live_packet s p → live_peer s c →
  let s' := upd_packets_peers_sent_list (emplace p c) s in wf s' ∧ extends s s'.
Proof. intros Hwf Hp Hc. other_pointers Hwf. intros e [->|]%elem_of_emplace; auto. Qed.

Lemma wf_emplace_targeted s p c :
  wf s → live_packet s p → live_connection s c →
  let s' := upd_targeted_packets_to_send_list (emplace p c) s in wf s' ∧ extends s s'.
Proof. intros Hwf Hp Hc. other_pointers Hwf. intros e [->|]%elem_of_emplace; auto. Qed.

Lemma wf_push_broadcast s p :
  wf s → live_packet s p →
  let s' := upd_broadcast_packets_to_send_list (λ l, l ++ [p]) s in wf s' ∧ extends s s'.
Proof.
  intros Hwf Hp. other_pointers Hwf. intros a [Ha| ->%list_elem_of_singleton]%elem_of_app; auto.
Qed.

Lemma wf_set_peer s h p :
  wf s → live_peer s p →
  let s' := upd_handle_peer_map (λ m, <[h := p]> m) s in wf s' ∧ extends s s'.
Proof.
  intros Hwf Hp. other_pointers Hwf.
  intros h' a. rewrite lookup_insert. case_decide; [by intros [= <-]|eauto].
Qed.

Lemma wf_unset_peer s h :
  wf s → let s' := upd_handle_peer_map (delete h) s in wf s' ∧ extends s s'.
Proof.
  intros Hwf. other_pointers Hwf.
  intros h' a. rewrite lookup_delete. case_decide; [done|eauto].
Qed.

Lemma sorted_filter {V} (P : Z * V → Prop) `{!∀ e, Decision (P e)} (l : multimap V) :
  sorted l → sorted (filter P l).
Proof.
  unfold sorted. induction l as [|e l IH]; intros Hs; [done|].
  rewrite fmap_cons in Hs. apply StronglySorted_inv in Hs as [Hs Hall].
  rewrite filter_cons. case_decide; [|auto]. rewrite fmap_cons. constructor; [auto|].
  rewrite Forall_fmap in *. apply Forall_forall. intros x Hx%list_elem_of_filter.
  eapply Forall_forall in Hall; [exact Hall|apply Hx].
Qed.

Lemma wf_filter_sent s (P : Addr * Addr → Prop) `{!∀ e, Decision (P e)} :
  wf s → let s' := upd_packets_connections_sent_list (filter P) s in wf s' ∧ extends s s'.
Proof.
  intros Hwf. other_pointers Hwf; [|by apply sorted_filter].
  intros e [_ He]%list_elem_of_filter. auto.
Qed.

Lemma wf_filter_broadcast s (P : Addr → Prop) `{!∀ e, Decision (P e)} :
  wf s → let s' := upd_broadcast_packets_to_send_list (filter P) s in wf s' ∧ extends s s'.
Proof. intros Hwf. other_pointers Hwf. intros e [_ He]%list_elem_of_filter. auto. Qed.

Lemma elem_of_erase_ranges {V} (ks : list Z) (l : multimap V) e :
  e ∈ foldr erase_range l ks ↔ e ∈ l ∧ fst e ∉ ks.
Proof.
  induction ks as [|k ks IH]; cbn; [set_solver|].
  unfold erase_range at 1. rewrite list_elem_of_filter, IH, not_elem_of_cons. tauto.
Qed.

Lemma sorted_erase_ranges {V} (ks : list Z) (l : multimap V) :
  sorted l → sorted (foldr erase_range l ks).
Proof. intros Hl. induction ks; cbn; auto using erase_range_sorted. Qed.

Lemma wf_erase_targeted s ks :
  wf s → let s' := upd_targeted_packets_to_send_list (λ l, foldr erase_range l ks) s in
  wf s' ∧ extends s s'.
Proof.
  intros Hwf. other_pointers Hwf; [|by apply sorted_erase_ranges].
  intros e [He _]%elem_of_erase_ranges. auto.
Qed.

(** * Lemmas: operations *)

(** [m] runs from [s], keeps the invariant and everything pointers refer to. *)
Definition wfp {A} (m : M Tracker A) (Q : A → Tracker → Prop) (s : Tracker) : Prop :=
  wp m (λ a s', wf s' ∧ extends s s' ∧ Q a s') s.

Definition any {A} : A → Tracker → Prop := λ _ _, True.

Lemma wfp_ret {A} (a : A) (Q : A → Tracker → Prop) s : wf s → Q a s → wfp (mret a) Q s.
Proof. by intros. Qed.

Lemma wfp_bind {A B} (m : M Tracker A) (k : A → M Tracker B) R Q s :
  wfp m R s → (∀ a s', wf s' → extends s s' → R a s' → wfp (k a) Q s') → wfp (m ≫= k) Q s.
Proof.
  intros Hm Hk. apply wp_bind. eapply wp_mono; [exact Hm|]. intros a s' (Hwf & He & HR).
  eapply wp_mono; [by apply Hk|]. intros b s'' (Hwf' & He' & HQ).
  split_and!; [done|by etrans|done].
Qed.

Lemma wfp_get {B} (k : Tracker → M Tracker B) Q s : wfp (k s) Q s → wfp (get ≫= k) Q s.
Proof. done. Qed.

Lemma wfp_gets {A} (f : Tracker → A) (Q : A → Tracker → Prop) s :
  wf s → Q (f s) s → wfp (gets f) Q s.
Proof. by intros. Qed.

Lemma wfp_modify f (Q : unit → Tracker → Prop) s :
  wf (f s) ∧ extends s (f s) → Q tt (f s) → wfp (modify f) Q s.
Proof. intros [? ?]. by unfold wfp, wp, modify. Qed.

Lemma wfp_lift {A} (r : result A) a (Q : A → Tracker → Prop) s :
  r = Ok a → wf s → Q a s → wfp (lift_result r) Q s.
Proof. by intros ->. Qed.

Lemma wfp_mono {A} (m : M Tracker A) (R Q : A → Tracker → Prop) s :
  wfp m R s → (∀ a s', wf s' → extends s s' → R a s' → Q a s') → wfp m Q s.
Proof. intros Hm HQ. eapply wp_mono; [exact Hm|]. naive_solver. Qed.

Lemma wfp_for_each {A} (xs : list A) (f : A → M Tracker unit) (I : Tracker → Prop) s :
  wf s → I s → (∀ x s', x ∈ xs → wf s' → extends s s' → I s' → wfp (f x) (λ _, I) s') →
  wfp (for_each xs f) (λ _, I) s.
Proof.
  intros Hwf HI Hf. eapply wp_mono.
  - apply (wp_for_each xs f (λ s', wf s' ∧ extends s s' ∧ I s')); [done|].
    intros x s' Hx (Hwf' & He & HI'). eapply wp_mono; [by apply Hf|].
    intros [] s'' (? & ? & ?). split_and!; [done|by etrans|done].
  - done.
Qed.

(** Runs the next step of a body with its specification. *)
Ltac wfp_call lem := eapply wfp_bind; [eapply lem|].

Section operations.
Context {env : Env} `{!AllocFresh env}.

Lemma wfp_ext c (Q : Z → Tracker → Prop) s :
  wf s → (∀ r, Q r (upd_calls (λ t, t ++ [c]) s)) → wfp (ext c) Q s.
Proof.
  intros Hwf HQ. apply wfp_get. eapply wfp_bind with (R := λ _ s', s' = upd_calls (λ t, t ++ [c]) s).
  - apply wfp_modify; [by apply wf_calls|done].
  - intros [] s' Hwf' He ->. by apply wfp_ret.
Qed.

Lemma wfp_time_us_64 s :
  wf s → wfp time_us_64 (λ t s', in_width 64 t ∧ s' = upd_calls (λ l, l ++ [time_us_64_call]) s) s.
Proof.
  intros Hwf. eapply wfp_bind; [by apply wfp_ext with (Q := λ _ s', s' = upd_calls (λ l, l ++ [time_us_64_call]) s)|].
  intros t s' Hwf' _ ->. apply wfp_ret; [done|]. split; [|done]. apply wrap_in_width. lia.
Qed.

(** *** Pointers *)

Lemma wfp_packet a s :
  wf s → live_packet s a → wfp (deref packet_at a) (λ p s', s' = s ∧ packet_at s a = Some p) s.
Proof.
  intros Hwf Ha. apply wfp_get.
  destruct (packet_at_live s (wf_separate s Hwf) a Ha) as (o & p & _ & _ & _ & ->).
  by apply wfp_ret.
Qed.

Lemma wfp_connection a s :
  wf s → live_connection s a →
  wfp (deref connection_at a)
    (λ c s', s' = s ∧ connection_at s a = Some c ∧ ∃ h, connections s !! h = Some (a, c)) s.
Proof.
  intros Hwf Ha. apply wfp_get.
  destruct (connection_at_live s (wf_separate s Hwf) a Ha) as (h & c & Hc & _ & ->).
  apply wfp_ret; eauto.
Qed.

Lemma wfp_handle_of a s :
  wf s → live_connection s a →
  wfp (handle_of a) (λ h s', s' = s ∧ connection_handle <$> connection_at s a = Some h) s.
Proof.
  intros Hwf Ha. wfp_call wfp_connection; [done..|]. intros c s' _ _ (-> & Hc & _).
  apply wfp_ret; [done|]. by rewrite Hc.
Qed.

(** *** Connections *)

Lemma connection_ref_run h s :
  connection_ref h s = Ok (node_or connections BleConnection_new h s, ensure_connection h s).
Proof. apply subscript_run. Qed.

Lemma ensure_connection_lookup h s :
  ∃ a c, connections (ensure_connection h s) !! h = Some (a, c) ∧
    node_or connections BleConnection_new h s = (a, c).
Proof.
  unfold ensure_connection, ensure, node_or. destruct (connections s !! h) as [[a c]|] eqn:Hc.
  - rewrite Hc. by exists a, c.
  - exists (alloc (used s)), BleConnection_new. cbn. by rewrite lookup_insert_eq.
Qed.

Lemma wfp_connection_ref h s :
  wf s → wfp (connection_ref h) (λ n s', s' = ensure_connection h s ∧ connections s' !! h = Some n) s.
Proof.
  intros Hwf. unfold wfp, wp. rewrite connection_ref_run.
  destruct (wf_ensure_connection h s Hwf). split_and!; try done.
  destruct (ensure_connection_lookup h s) as (a & c & H1 & ->). done.
Qed.

(** [connections[h].f()]: the connection before and after. *)
Lemma wfp_connection_do_from f h s :
  wf s → (∀ a c, connections (ensure_connection h s) !! h = Some (a, c) →
          connected (f c) = true → connection_handle (f c) = h) →
  wfp (connection_do f h)
    (λ _ s', s' = upd_connections (node_update f h) (ensure_connection h s) ∧
       ∃ a c, connections (ensure_connection h s) !! h = Some (a, c) ∧
         connections s' !! h = Some (a, f c)) s.
Proof.
  intros Hwf Hf. wfp_call wfp_connection_ref; [done|]. intros [a c] s' Hwf' _ [-> Hn].
  apply wfp_modify; [by apply wf_update_connection|]. split; [done|]. exists a, c.
  split; [done|]. cbn. rewrite lookup_node_update, decide_True by done. by rewrite Hn.
Qed.

(** ... for an [f] that keeps the handle in step by itself. *)
Lemma wfp_connection_do f h s :
  wf s → (∀ c, (connected c = true → connection_handle c = h) →
          connected (f c) = true → connection_handle (f c) = h) →
  wfp (connection_do f h)
    (λ _ s', s' = upd_connections (node_update f h) (ensure_connection h s) ∧
       ∃ a c, connections (ensure_connection h s) !! h = Some (a, c) ∧
         connections s' !! h = Some (a, f c)) s.
Proof.
  intros Hwf Hf. apply wfp_connection_do_from; [done|]. intros a c Hc. apply Hf.
  destruct (wf_ensure_connection h s Hwf) as [Hwf' _]. by apply Hwf' in Hc.
Qed.

Lemma ensure_connection_present h s n :
  connections s !! h = Some n → ensure_connection h s = s.
Proof. intros Hn. unfold ensure_connection, ensure. by rewrite Hn. Qed.
End operations.

(** * A check of the invariant on concrete states *)

Definition objects (s : Tracker) : list (Object * Addr) :=
  (OAnnounce, announce_at s)
  :: ((λ kn, (OMessage (fst kn), fst (snd kn))) <$> map_to_list (messages s))
  ++ ((λ kn, (OPacket (fst kn), fst (snd kn))) <$> map_to_list (packets s))
  ++ ((λ kn, (OConnection (fst kn), fst (snd kn))) <$> map_to_list (connections s))
  ++ ((λ kn, (ONeighbour (fst kn), fst (snd kn))) <$> map_to_list (available_neighbours s))
  ++ ((λ kn, (OPeer (fst kn), fst (snd kn))) <$> map_to_list (peers s)).

Definition packet_addrs (s : Tracker) : list Addr :=
  announce_at s :: node_addrs (messages s) ++ node_addrs (packets s).

Fixpoint sortedb {V} (l : multimap V) : bool :=
  match l with
  | [] => true
  | e :: l' => bool_decide (Forall (λ e', fst e ≤ fst e') l') && sortedb l'
  end.

(** A sufficient condition, by evaluation. *)
Definition wf_check (s : Tracker) : bool :=
  bool_decide (NoDup (snd <$> objects s)) &&
  bool_decide (Forall (λ e, fst e ∈ packet_addrs s ∧ snd e ∈ node_addrs (connections s))
                 (packets_connections_sent_list s)) &&
  bool_decide (Forall (λ e, fst e ∈ packet_addrs s ∧ snd e ∈ node_addrs (peers s))
                 (packets_peers_sent_list s)) &&
  bool_decide (Forall (λ a, a ∈ packet_addrs s) (broadcast_packets_to_send_list s)) &&
  bool_decide (Forall (λ e, fst e ∈ packet_addrs s ∧ snd e ∈ node_addrs (connections s))
                 (targeted_packets_to_send_list s)) &&
  bool_decide (map_Forall (λ _ a, a ∈ node_addrs (peers s)) (handle_peer_map s)) &&
  sortedb (packets_connections_sent_list s) && sortedb (targeted_packets_to_send_list s) &&
  bool_decide (map_Forall (λ h n, connected (snd n) = true → connection_handle (snd n) = h)
                 (connections s)) &&
  bool_decide (map_Forall (λ _ n, connected (snd n) = false) (available_neighbours s)).

Lemma NoDup_snd_inj {A B} (l : list (A * B)) x y b :
  NoDup (snd <$> l) → (x, b) ∈ l → (y, b) ∈ l → x = y.
Proof.
  induction l as [|[a b'] l IH]; intros Hnd Hx Hy; [by apply elem_of_nil in Hx|].
  rewrite fmap_cons in Hnd. apply NoDup_cons in Hnd as [Hn Hnd].
  assert (∀ z, (z, b) ∈ l → b = b' → False) as Hno.
  { intros z Hz ->. apply Hn, list_elem_of_fmap. by exists (z, b'). }
  apply elem_of_cons in Hx as [Hx|Hx]; apply elem_of_cons in Hy as [Hy|Hy].
  - congruence.
  - destruct (Hno y Hy). congruence.
  - destruct (Hno x Hx). congruence.
  - by apply IH.
Qed.

Lemma elem_of_node_objects {K V} `{Countable K} (f : K → Object) (m : nodes K V) k a :
  fst <$> m !! k = Some a → (f k, a) ∈ (λ kn, (f (fst kn), fst (snd kn))) <$> map_to_list m.
Proof.
  intros ([a' v] & Hk & ->)%fmap_Some. apply list_elem_of_fmap. exists (k, (a', v)).
  split; [done|]. by apply elem_of_map_to_list.
Qed.

Lemma addr_of_objects s o a : addr_of s o = Some a → (o, a) ∈ objects s.
Proof.
  unfold objects. rewrite elem_of_cons, !elem_of_app.
  destruct o; cbn; [by intros [= <-]; auto|..]; intros Ha.
  - right; left. by apply elem_of_node_objects.
  - right; right; left. by apply elem_of_node_objects.
  - right; right; right; left. by apply elem_of_node_objects.
  - right; right; right; right; left. by apply elem_of_node_objects.
  - right; right; right; right; right. by apply elem_of_node_objects.
Qed.

Lemma live_node_addrs {K V} `{Countable K} (m : nodes K V) a :
  a ∈ node_addrs m → ∃ k, fst <$> m !! k = Some a.
Proof. intros (k & v & Hk)%elem_of_node_addrs. exists k. by rewrite Hk. Qed.

Lemma packet_addrs_live s a : a ∈ packet_addrs s → live_packet s a.
Proof.
  unfold packet_addrs. rewrite elem_of_cons, elem_of_app. intros [->|[Ha|Ha]].
  - by exists OAnnounce.
  - apply live_node_addrs in Ha as [k Hk]. by exists (OMessage k).
  - apply live_node_addrs in Ha as [k Hk]. by exists (OPacket k).
Qed.

Lemma sortedb_sound {V} (l : multimap V) : sortedb l = true → sorted l.
Proof.
  unfold sorted. induction l as [|e l IH]; [constructor|]. cbn [sortedb].
  intros [He Hl]%andb_prop. apply bool_decide_eq_true in He. rewrite fmap_cons.
  constructor; [auto|]. by rewrite Forall_fmap.
Qed.

Lemma wf_check_sound s : wf_check s = true → wf s.
Proof.
  unfold wf_check. rewrite !andb_true_iff, !bool_decide_eq_true.
  intros (((((((((Hnd & H1) & H2) & H3) & H4) & H5) & H6) & H7) & H8) & H9).
  rewrite Forall_forall in H1, H2, H4. rewrite Forall_forall in H3. constructor.
  - intros o o' a Ho Ho'. by eapply NoDup_snd_inj; [done|by apply addr_of_objects..].
  - constructor.
    + intros e He. destruct (H1 e He) as [Hp Hc].
      split; [by apply packet_addrs_live|exact (live_node_addrs _ _ Hc)].
    + intros e He. destruct (H2 e He) as [Hp Hc].
      split; [by apply packet_addrs_live|exact (live_node_addrs _ _ Hc)].
    + intros a Ha. by apply packet_addrs_live, H3.
    + intros e He. destruct (H4 e He) as [Hp Hc].
      split; [by apply packet_addrs_live|exact (live_node_addrs _ _ Hc)].
    + intros h a Ha. exact (live_node_addrs _ _ (H5 h a Ha)).
  - constructor; by apply sortedb_sound.
  - intros h a c Hc. by apply (H8 h (a, c)).
  - intros k a c Hc. by apply (H9 k (a, c)).
Qed.

(** Packets by their pointers, as a list. *)
Definition all_packets (s : Tracker) : list Packet :=
  PAnnounce (announce s) :: ((PMessage ∘ snd ∘ snd) <$> map_to_list (messages s))
  ++ ((PPassAlong ∘ snd ∘ snd) <$> map_to_list (packets s)).

Lemma packet_at_all s a p : packet_at s a = Some p → p ∈ all_packets s.
Proof.
  unfold packet_at, all_packets. rewrite elem_of_cons, elem_of_app. case_decide; [by intros [= <-]; left|].
  destruct (node_at (messages s) a) as [[k m]|] eqn:Hm.
  - intros [= <-]. right; left. apply node_at_sound, elem_of_map_to_list in Hm.
    apply list_elem_of_fmap. by exists (k, (a, m)).
  - intros ([k q] & Hq & ->)%fmap_Some. right; right. apply node_at_sound, elem_of_map_to_list in Hq.
    apply list_elem_of_fmap. by exists (k, (a, q)).
Qed.

(** * A concrete environment *)

(** Every call answers 0; the allocator gives out the next address above those in
    use; strings hash to their value as big-endian numbers. *)
#[local] Instance example_env : Env := {
  answer := λ _ _, 0;
  local_bd_addr := [0x28; 0xcd; 0xc1; 0x0f; 0xea; 0x5a];
  alloc := λ X, 1 + foldr Z.max 0 (elements X);
  hash_string := λ l, wrap 32 (be_value l);
  size_t_bits := 32;
  ndebug := true;
}.

Lemma foldr_max_ge (l : list Z) x : x ∈ l → x ≤ foldr Z.max 0 l.
Proof. induction l; [intros H; by apply elem_of_nil in H|]. intros [->|?]%elem_of_cons; cbn; [lia|]. specialize (IHl H). lia. Qed.

Lemma foldr_max_nonneg (l : list Z) : 0 ≤ foldr Z.max 0 l.
Proof. induction l; cbn; lia. Qed.

#[global] Instance example_env_fresh : AllocFresh example_env.
Proof.
  intros X HX. cbn in HX. apply elem_of_elements, foldr_max_ge in HX. lia.
Qed.
