(* ===== verification/TrackerSafety.v ===== *)
(** Safety of the connection tracker: every operation keeps the invariant [wf] of
    TrackerWf and runs without undefined behaviour.

    One lemma per operation, with what the operation needs and what is known of
    its result; sending has a file of its own. *)

From S2P Require Import Prelude BinaryIO Packets StdContainers BleConnection Tracker TrackerWf.

(** * What a packet needs to be sent *)

(** The packet can be written; [encoding] is its wire form. *)
Definition forwardable (p : Packet) : Prop :=
  match p with
  | PMessage m => Message_ok m ∧ hasSenderPeerID m = false
  | PPassAlong p => PassAlong_ok p ∧ Z.of_nat (length (payload p)) < 2 ^ 16
  | PAnnounce a => Announce_ok a ∧ Z.of_nat (length (payload (an_pass a))) < 2 ^ 16
  end.

Definition encoding (p : Packet) : list Z :=
  match p with
  | PMessage m => packet_enc (base_of m) (Message_enc m)
  | PPassAlong p => packet_enc (base_of p) (PassAlong_enc p)
  | PAnnounce a => packet_enc (base_of a) (Announce_enc a)
  end.

#[global] Instance forwardable_dec p : Decision (forwardable p).
Proof. destruct p; cbn; apply _. Defined.

Lemma packet_bytes_encoding get_id p :
  forwardable p → packet_bytes get_id p = Ok (encoding p).
Proof.
  destruct p as [m|p|a]; cbn [forwardable]; intros [Hok H2].
  - transitivity (packet_bytes get_id m); [reflexivity|].
    by apply packet_bytes_writes, writes_Message_plain.
  - transitivity (packet_bytes get_id p); [reflexivity|].
    apply packet_bytes_writes, writes_writePacket, writes_PassAlong; [apply Hok|done].
  - transitivity (packet_bytes get_id a); [reflexivity|].
    by apply packet_bytes_writes, writes_writePacket, writes_Announce.
Qed.

(** Every packet of the tracker can be sent. *)
Definition packets_forwardable (s : Tracker) : Prop :=
  ∀ a p, packet_at s a = Some p → forwardable p.

(** An operation whose result is not used. *)
Definition discard {A} (m : M Tracker A) : M Tracker unit := m;; mret tt.

(** * Lemmas: the address of the device *)

Lemma hex8_bytes v : bytes_ok (hex8 v).
Proof.
  assert (∀ n, in_width 8 (hexify n)) as Hh by (intros; unfold hexify; case_decide; by apply wrap_in_width).
  unfold hex8. by repeat (apply Forall_cons; split; [apply Hh|]).
Qed.

Lemma address_word_width addr : bytes_ok addr → in_width 64 (address_word addr).
Proof.
  intros Ha. unfold address_word. pose proof (be_value_bound (rev (take 6 addr))) as Hb.
  apply (in_width_weaken (8 * Z.of_nat (length (rev (take 6 addr))))).
  - rewrite length_rev, length_take. lia.
  - apply Hb, Forall_rev, Forall_take, Ha.
Qed.

(** The name "Repeater:" with the last two bytes of the address. *)
Definition repeater_name (addr : list Z) : list Z :=
  str "Repeater:" ++ hex8 (default 0 (addr !! 4%nat)) ++ hex8 (default 0 (addr !! 5%nat)).

Lemma repeater_name_bytes addr : bytes_ok (repeater_name addr).
Proof.
  unfold repeater_name. apply Forall_app; split; [decide_concrete|].
  apply Forall_app; split; apply hex8_bytes.
Qed.

(** * Lemmas: the operations keep the invariant *)

Section safety.
Context {env : Env} `{!AllocFresh env}.

Lemma wfp_discard {A} (m : M Tracker A) R s : wfp m R s → wfp (discard m) any s.
Proof. intros Hm. eapply wfp_bind; [exact Hm|]. intros a s' Hwf _ _. by apply wfp_ret. Qed.

(** *** Connections *)

Lemma wfp_connectionForConnHandle h s :
  wf s → wfp (connectionForConnHandle h) (λ n s', connections s' !! h = Some n) s.
Proof.
  intros Hwf. apply wfp_get. destruct (connections s !! h) as [n|] eqn:Hn; [by apply wfp_ret|].
  wfp_call wfp_connection_do; [done|done|]. intros [] s' Hwf' _ _.
  eapply wfp_mono; [by apply wfp_connection_ref|]. by intros n s'' _ _ [_ ?].
Qed.

Lemma wfp_neighbour_do f k s :
  wf s → (∀ c, connected c = false → connected (f c) = false) → wfp (neighbour_do f k) any s.
Proof.
  intros Hwf Hf. eapply wfp_bind with (R := any).
  - unfold wfp, wp. rewrite subscript_run. destruct (wf_ensure_neighbour k s Hwf). done.
  - intros n s' Hwf' _ _. apply wfp_modify; [by apply wf_update_neighbour|done].
Qed.

Lemma wfp_addAvailablePeer addr type services rssi s :
  wf s → wfp (addAvailablePeer addr type services rssi) any s.
Proof.
  intros Hwf. unfold addAvailablePeer.
  do 3 (wfp_call wfp_neighbour_do; [done|done|]; intros [] ? ? _ _).
  wfp_call wfp_time_us_64; [done|]. intros t ? ? _ _. by apply wfp_neighbour_do.
Qed.

Lemma wfp_then_connection {B} f h (k : M Tracker B) Q s :
  wf s → (∀ c, (connected c = true → connection_handle c = h) →
          connected (f c) = true → connection_handle (f c) = h) →
  (∀ s', wf s' → wfp k Q s') → wfp (connection_do f h;; k) Q s.
Proof.
  intros Hwf Hf Hk. wfp_call wfp_connection_do; [done|done|]. intros [] s' Hwf' _ _. by apply Hk.
Qed.

Lemma wfp_reportConnection h addr type s : wf s → wfp (reportConnection h addr type) any s.
Proof.
  intros Hwf. apply wfp_get. eapply wfp_bind with (R := any).
  - destruct (available_neighbours s !! addr) as [[a c]|] eqn:Hn; [|by apply wfp_ret].
    assert (connected c = false) as Hc by (by eapply wf_neighbours).
    wfp_call wfp_connection_do; [done|congruence|]. intros [] ? ? _ _.
    apply wfp_modify; [by apply wf_delete_neighbour|done].
  - intros [] s1 Hwf1 _ _. wfp_call wfp_connection_do; [done|done|].
    intros [] s2 Hwf2 _ [_ (a & c & _ & Hc)].
    wfp_call wfp_connection_do_from; [done| |].
    { intros a' c'. rewrite (ensure_connection_present _ _ _ Hc), Hc. by intros [= <- <-]. }
    intros [] ? ? _ _. apply wfp_then_connection; [done|done|]. intros ? ?.
    wfp_call wfp_time_us_64; [done|]. intros t ? ? _ _. apply wfp_then_connection; [done|done|]. intros ? ?.
    apply wfp_modify; [by apply wf_delete_neighbour|done].
Qed.

Lemma wfp_ext_any c s : wf s → wfp (ext c;; mret tt) any s.
Proof.
  intros Hwf. wfp_call wfp_ext; [done|by instantiate (1 := any)|]. intros r s' Hwf' _ _.
  by apply wfp_ret.
Qed.

Lemma wfp_reportConnectionWithRole h addr type role s :
  wf s → wfp (reportConnectionWithRole h addr type role) any s.
Proof.
  intros Hwf. wfp_call wfp_reportConnection; [done|]. intros [] ? ? _ _.
  wfp_call wfp_connection_ref; [done|]. intros [] ? ? _ _. apply wfp_then_connection; [done|done|]. intros ? ?.
  wfp_call wfp_connection_ref; [done|]. intros [] ? ? _ _.
  case_decide; [by apply wfp_ext_any|by apply wfp_ret].
Qed.

Lemma wfp_reportDisconnection h s : wf s → wfp (reportDisconnection h) any s.
Proof.
  intros Hwf. wfp_call wfp_connection_ref; [done|]. intros [] ? ? _ _. do 2 (apply wfp_then_connection; [done|done|]; intros ? ?).
  wfp_call wfp_connection_ref; [done|]. intros [] ? ? _ _.
  eapply wfp_bind with (R := any); [case_decide; [by apply wfp_ext_any|by apply wfp_ret]|].
  intros [] ? ? _ _. wfp_call wfp_modify; [by apply wf_unset_peer|by instantiate (1 := any)|].
  intros [] ? ? _ _. apply wfp_get. apply wfp_modify; [by apply wf_filter_sent|done].
Qed.

(** *** Stores *)

Lemma wfp_storeMessage m s :
  wf s → wfp (storeMessageAndReturnIfNew m)
    (λ r s', match r with
             | Some a => messages s !! message_id m = None ∧
                         messages s' !! message_id m = Some (a, m)
             | None => s' = s ∧ messages s !! message_id m ≠ None
             end) s.
Proof.
  intros Hwf. apply wfp_get. cbn zeta.
  destruct (messages s !! message_id m) as [[a m0]|] eqn:Hm; [by apply wfp_ret|].
  eapply wfp_bind with (R := λ n s', messages s' !! message_id m = Some n).
  - unfold wfp, wp. rewrite subscript_run. unfold ensure, node_or. rewrite Hm.
    destruct (wf_new_message (message_id m) Message_new s Hm Hwf).
    split_and!; try done. cbn. apply lookup_insert_eq.
  - intros [a m0] s' Hwf' _ Hn. wfp_call wfp_modify; [by apply wf_update_message| |].
    { instantiate (1 := λ _ s', messages s' !! message_id m = Some (a, m)).
      cbn. rewrite lookup_node_update, decide_True by done. by rewrite Hn. }
    intros [] s'' Hwf'' _ Hn'. by apply wfp_ret.
Qed.

Lemma getPacketHash_ok p : ∃ id, getPacketHash hash_string size_t_bits p = Ok id.
Proof. by eexists. Qed.

Lemma wfp_storePacket p s :
  wf s → wfp (storePacketAndReturnIfNew p)
    (λ r s', ∃ id, getPacketHash hash_string size_t_bits p = Ok id ∧
             match r with
             | Some a => packets s !! id = None ∧ packets s' !! id = Some (a, p)
             | None => s' = s ∧ packets s !! id ≠ None
             end) s.
Proof.
  intros Hwf. apply wfp_get. destruct (getPacketHash_ok p) as [id Hid].
  eapply wfp_bind with (R := λ i s', i = id ∧ s' = s); [by eapply wfp_lift|].
  intros i s1 _ _ [-> ->]. destruct (packets s !! id) as [[a p0]|] eqn:Hp.
  { apply wfp_ret; [done|]. exists id. by rewrite Hp. }
  eapply wfp_bind with (R := λ n s', packets s' !! id = Some n).
  - unfold wfp, wp. rewrite subscript_run. unfold ensure, node_or. rewrite Hp.
    destruct (wf_new_packet id (PacketPassAlong_new type_unknown) s Hp Hwf).
    split_and!; try done. cbn. apply lookup_insert_eq.
  - intros [a p0] s' Hwf' _ Hn. wfp_call wfp_modify; [by apply wf_update_packet| |].
    { instantiate (1 := λ _ s', packets s' !! id = Some (a, p)).
      cbn. rewrite lookup_node_update, decide_True by done. by rewrite Hn. }
    intros [] s'' Hwf'' _ Hn'. apply wfp_ret; [done|]. by exists id.
Qed.

Lemma wfp_ensure_peer k s :
  wf s → wfp (subscript peers upd_peers Peer_new k)
    (λ n s', s' = ensure_peer k s ∧ peers s' !! k = Some n) s.
Proof.
  intros Hwf. unfold wfp, wp. rewrite subscript_run. destruct (wf_ensure_peer k s Hwf).
  split_and!; try done. unfold ensure_peer, ensure, node_or.
  destruct (peers s !! k) eqn:Hk; [done|]. apply lookup_insert_eq.
Qed.

Lemma wfp_checkSender sender s :
  wf s → wfp (checkSenderInPeers sender)
    (λ a s', live_peer s' a ∧ (fst <$> peers s' !! sender) = Some a) s.
Proof.
  intros Hwf. apply wfp_get. eapply wfp_bind with (R := any).
  - destruct (peers s !! sender); [by apply wfp_ret|].
    wfp_call wfp_ensure_peer; [done|]. intros n s' Hwf' _ _.
    apply wfp_modify; [by apply wf_update_peer|done].
  - intros [] s1 Hwf1 _ _. wfp_call wfp_ensure_peer; [done|].
    intros [a p] s2 Hwf2 _ [_ Hp]. apply wfp_ret; [done|].
    assert ((fst <$> peers s2 !! sender) = Some a) as Ha by (by rewrite Hp).
    split; [by exists sender|done].
Qed.

(** *** Queues *)

Lemma wfp_enqueueTargeted p c s :
  wf s → live_packet s p → wfp (enqueueTargetedPacket p c) any s.
Proof.
  intros Hwf Hp. wfp_call wfp_packet; [done..|]. intros pk s1 _ _ [-> _].
  case_decide; [|by apply wfp_ret].
  wfp_call wfp_connectionForConnHandle; [done|]. intros [con c'] s2 Hwf2 He Hc.
  apply wfp_modify; [|done]. apply wf_emplace_targeted; [done|eauto with live|].
  exists (connection_handle c). cbn. by rewrite Hc.
Qed.

Lemma wfp_enqueueBroadcast p s :
  wf s → live_packet s p →
  wfp (enqueueBroadcastPacket p) (λ _ s', ∃ pk, packet_at s p = Some pk ∧
    s' = if decide (packet_ttl (base_of pk) > 0)
         then upd_broadcast_packets_to_send_list (λ l, l ++ [p]) s else s) s.
Proof.
  intros Hwf Hp. wfp_call wfp_packet; [done..|]. intros pk s1 _ _ [-> Hpk].
  case_decide.
  - apply wfp_modify; [by apply wf_push_broadcast|]. exists pk. by rewrite decide_True.
  - apply wfp_ret; [done|]. exists pk. by rewrite decide_False.
Qed.

Lemma wfp_enqueueBroadcastFrom p c peer s :
  wf s → live_packet s p → live_connection s c → live_peer s peer →
  wfp (enqueueBroadcastPacketFrom p c peer) any s.
Proof.
  intros Hwf Hp Hc Hpe.
  wfp_call wfp_modify; [by apply wf_emplace_sent|by instantiate (1 := any)|].
  intros [] s1 Hwf1 He1 _.
  wfp_call wfp_modify; [apply wf_emplace_peers; eauto with live|by instantiate (1 := any)|].
  intros [] s2 Hwf2 He2 _.
  eapply wfp_mono; [apply wfp_enqueueBroadcast; eauto with live|done].
Qed.

(** *** Time *)

Lemma wfp_getTimeMs s :
  wf s → wfp getTimeMs (λ now s', (∃ t, in_width 64 t ∧
    now = u64 (timestamp_offset_ms s + t / 1000)) ∧
    s' = upd_calls (λ l, l ++ [time_us_64_call]) s) s.
Proof.
  intros Hwf. wfp_call wfp_time_us_64; [done|]. intros t s' Hwf' _ [Ht ->].
  apply wfp_get. apply wfp_ret; [done|]. split; [by exists t|done].
Qed.

Lemma sub_s64_ok a b : in_width 63 a → in_width 63 b → sub_s64 (s64 a) (s64 b) = Ok (a - b).
Proof.
  unfold in_width, sub_s64, s64. intros Ha Hb. rewrite !Z.mod_small by lia.
  rewrite decide_True by lia. f_equal. lia.
Qed.

(** What the clock will read next, and the time in milliseconds it stands for. *)
Definition clock (s : Tracker) : Z := u64 (answer (calls s) time_us_64_call).
Definition now_of (s : Tracker) : Z := u64 (timestamp_offset_ms s + clock s / 1000).
Definition ticked (s : Tracker) : Tracker := upd_calls (λ l, l ++ [time_us_64_call]) s.

Lemma getTimeMs_run s : getTimeMs s = Ok (now_of s, ticked s).
Proof. done. Qed.

(** Whether the offset follows the timestamp of an announcement. *)
Definition time_differs (ts now : Z) : Prop := Z.abs (ts - now) > MESSAGE_TIMEOUT ∨ ts > now.

#[global] Instance time_differs_dec ts now : Decision (time_differs ts now).
Proof. unfold time_differs. apply _. Defined.

Lemma possiblyUpdate_run ts s :
  in_width 63 ts → now_of s < 2 ^ 63 →
  possiblyUpdateTimeOffset ts s
  = Ok (tt, upd_timestamp_offset_ms
              (λ o, if decide (time_differs ts (now_of s)) then u64 (o + (ts - now_of s)) else o)
              (ticked s)).
Proof.
  intros Hts Hnow. unfold possiblyUpdateTimeOffset.
  rewrite (M_bind_ok _ _ _ _ _ (getTimeMs_run s)).
  assert (0 ≤ now_of s) by (apply (wrap_in_width 64); lia).
  rewrite (sub_s64_ok ts (now_of s)) by (done || (unfold in_width; lia)).
  rewrite (M_bind_ok (lift_result (Ok _)) _ _ _ _ eq_refl). cbn zeta.
  unfold upd_timestamp_offset_ms, time_differs. by case_decide; rewrite ?decide_True, ?decide_False by done.
Qed.

Lemma wfp_possiblyUpdate ts s :
  wf s → in_width 63 ts → now_of s < 2 ^ 63 → wfp (possiblyUpdateTimeOffset ts) any s.
Proof.
  intros Hwf Hts Hnow. unfold wfp, wp. rewrite possiblyUpdate_run by done.
  destruct (wf_calls s (λ l, l ++ [time_us_64_call]) Hwf) as [Hw1 He1].
  match goal with |- wf (upd_timestamp_offset_ms ?f ?x) ∧ _ =>
    destruct (wf_offset x f Hw1) as [Hw2 He2] end.
  split_and!; [done|by etrans|done].
Qed.

(** *** Neighbours *)

Lemma wfp_getConnectableNeighbours s : wf s → wfp getConnectableNeighbours any s.
Proof.
  intros Hwf. wfp_call wfp_time_us_64; [done|]. intros t s' Hwf' _ _. by apply wfp_gets.
Qed.

Lemma wfp_setConnectionStarted a k s :
  wf s → addr_of s (ONeighbour k) = Some a → wfp (setConnectionStarted a) any s.
Proof.
  intros Hwf Ha. assert (∃ c, connection_at s a = Some c) as [c Hc].
  { unfold connection_at. pose proof (wf_separate s Hwf) as Hs.
    rewrite (node_at_other s _ OConnection (ONeighbour k)) by done.
    cbn in Ha. apply fmap_Some in Ha as ([a' c] & Hc & ->). exists c.
    by rewrite (node_at_object s _ ONeighbour k a' c); [|done|done|intros ??; congruence|]. }
  eapply wfp_bind with (R := any).
  { apply wfp_get. rewrite Hc. by apply wfp_ret. }
  intros c' s' Hwf' _ _. apply wfp_modify; [by apply wf_delete_neighbour|done].
Qed.

Lemma items_nonempty {V} (m : nodes Z V) : m ≠ ∅ → items m ≠ [].
Proof.
  intros Hm Hi. apply Hm, map_empty. intros k. destruct (m !! k) eqn:Hk; [|done].
  apply elem_of_items in Hk. rewrite Hi in Hk. by apply elem_of_nil in Hk.
Qed.

Lemma wfp_requestNextRssi_restart s :
  wf s → connections s ≠ ∅ → wfp (requestNextRssi true) any s.
Proof.
  intros Hwf Hne. apply wfp_get. unfold connections_begin.
  destruct (items (connections s)) as [|[h [a c]] l] eqn:Hi; [by apply items_nonempty in Hne|].
  assert (connections s !! h = Some (a, c)) as Hc by (apply elem_of_items; rewrite Hi; set_solver).
  destruct (connection_at_object s (wf_separate s Hwf) h a c Hc) as [Hn _].
  assert (match default (Some a) (rssi_iterator s) with Some _ => Some a | None => Some a end
    = Some a) as Hit by (by destruct (default _ _)).
  cbn [head fmap option_fmap option_map fst snd]. rewrite Hit. cbn [mbind option_bind]. rewrite Hn.
  wfp_call wfp_ext; [done|by instantiate (1 := any)|]. intros r s1 Hwf1 _ _. cbn zeta.
  wfp_call wfp_modify; [by apply wf_rssi_iterator|by instantiate (1 := any)|].
  intros [] s2 Hwf2 _ _. by apply wfp_ret.
Qed.

(** *** Announcing *)

(** The handle behind a pointer to a connection. *)
Definition handle_at (s : Tracker) (a : Addr) : option Z :=
  connection_handle <$> connection_at s a.

Lemma wfp_sent_to_handle range (h : M Tracker Z) hv s :
  wf s → (∀ e, e ∈ range → live_connection s (snd e)) →
  (range ≠ [] → wfp h (λ x s', s' = s ∧ x = hv) s) →
  wfp (sent_to_handle range h)
    (λ b s', s' = s ∧ (b = true ↔ ∃ e, e ∈ range ∧ handle_at s (snd e) = Some hv)) s.
Proof.
  intros Hwf. induction range as [|[p c] range IH]; intros Hr Hh; cbn [sent_to_handle].
  { apply wfp_ret; [done|]. split; [done|]. split; [done|]. intros (e & He & _). by apply elem_of_nil in He. }
  wfp_call wfp_handle_of; [done|apply (Hr (p, c)); set_solver|]. intros h1 s1 _ _ [-> H1].
  eapply wfp_bind; [by apply Hh|]. intros h2 s2 _ _ [-> ->].
  case_decide as Heq; subst.
  - apply wfp_ret; [done|]. split; [done|]. split; [|done]. intros _. exists (p, c). set_solver.
  - eapply wfp_mono.
    + apply IH; [intros; apply Hr; set_solver|]. intros _. by apply Hh.
    + intros b s' _ _ [-> Hb]. split; [done|]. rewrite Hb. split.
      * intros (e & He & Hv). exists e. set_solver.
      * intros (e & He & Hv). apply elem_of_cons in He as [->|He]; [|eauto].
        cbn in Hv. unfold handle_at in Hv. rewrite H1 in Hv. congruence.
Qed.

Lemma announced_name_ok :
  length local_bd_addr = 6%nat → announced_name = Ok (repeater_name local_bd_addr).
Proof.
  intros Hl. unfold announced_name, repeater_name.
  destruct local_bd_addr as [|b0 [|b1 [|b2 [|b3 [|b4 [|b5 [|]]]]]]]; try done.
Qed.

Lemma wfp_setupAnnounce s :
  wf s → length local_bd_addr = 6%nat → wfp setupAnnounceIfNeeded any s.
Proof.
  intros Hwf Hl. apply wfp_get. case_decide; [by apply wfp_ret|]. cbn zeta.
  do 3 (wfp_call wfp_modify; [by apply wf_announce|by instantiate (1 := any)|]; intros [] ? ? _ _).
  eapply wfp_bind with (R := any); [by eapply wfp_lift; [apply announced_name_ok|..]|].
  intros name ? ? _ _. apply wfp_modify; [by apply wf_announce|done].
Qed.

Lemma live_announce s : live_packet s (announce_at s).
Proof. by exists OAnnounce. Qed.

Lemma wfp_announce_to range h s :
  wf s → (∀ e, e ∈ range → live_connection s (snd e)) → wfp (announce_to range h) any s.
Proof.
  intros Hwf Hr. apply wfp_get. destruct (connections s !! h) as [[a c]|]; [|by apply wfp_ret].
  destruct (_ && _); [|by apply wfp_ret].
  wfp_call wfp_sent_to_handle; [done|done|intros _; by apply wfp_ret|].
  intros found s1 _ _ [-> _]. destruct found; [by apply wfp_ret|].
  wfp_call wfp_getTimeMs; [done|]. intros now s2 Hwf2 _ [_ ->].
  wfp_call wfp_modify; [by apply wf_announce|by instantiate (1 := any)|].
  intros [] s3 Hwf3 He _. apply wfp_enqueueTargeted; [done|].
  eapply live_packet_extends; [exact He|]. exact (live_announce (upd_calls _ s)).
Qed.

Lemma wfp_announceToConnections s :
  wf s → length local_bd_addr = 6%nat → wfp announceToConnections any s.
Proof.
  intros Hwf Hl. wfp_call wfp_setupAnnounce; [done..|]. intros [] s1 Hwf1 _ _. apply wfp_get.
  eapply wfp_mono; [apply (wfp_for_each _ _ (λ _, True)); [done|done|]|done].
  intros h s2 _ Hwf2 He2 _. eapply wfp_mono; [apply wfp_announce_to; [done|]|done].
  intros e [He _]%elem_of_equal_range.
  eapply live_connection_extends; [exact He2|]. by apply (wf_pointers s1 Hwf1).
Qed.

(** *** Raw packets *)

Lemma wfp_notifyRawPacket h s : wf s → ndebug = true → wfp (notifyRawPacket h) any s.
Proof.
  intros Hwf Hnd. apply wfp_get. eapply wfp_bind with (R := any).
  - destruct (lower_bound h (raw_packet_to_notify s)) as [|[k data] l]; [by apply wfp_ret|].
    wfp_call wfp_connection_ref; [done|]. intros [a c] s1 Hwf1 _ _.
    rewrite decide_False by (rewrite Hnd; by intros [_ ?]).
    eapply wfp_bind with (R := any); [by apply wfp_ret|]. intros [] s2 Hwf2 _ _.
    wfp_call wfp_ext; [done|by instantiate (1 := any)|]. intros r s3 Hwf3 _ _.
    case_decide; [|by apply wfp_ret]. apply wfp_modify; [by apply wf_notify|done].
  - intros [] s1 Hwf1 _ _. apply wfp_get. destruct (lower_bound h _).
    + wfp_call wfp_connection_ref; [done|]. intros [a c] s2 Hwf2 _ _. by apply wfp_ret.
    + wfp_call wfp_modify; [by apply wf_notify_context|by instantiate (1 := any)|].
      intros [] s2 Hwf2 _ _. by apply wfp_ext_any.
Qed.

Lemma wfp_writeRawPacket h s : wf s → ndebug = true → wfp (writeRawPacket h) any s.
Proof.
  intros Hwf Hnd. apply wfp_get. eapply wfp_bind with (R := any).
  - destruct (lower_bound h (raw_packet_to_write s)) as [|[k data] l]; [by apply wfp_ret|].
    wfp_call wfp_connection_ref; [done|]. intros [a c] s1 Hwf1 _ _.
    rewrite decide_False by (rewrite Hnd; by intros [_ ?]).
    eapply wfp_bind with (R := any); [by apply wfp_ret|]. intros [] s2 Hwf2 _ _.
    wfp_call wfp_ext; [done|by instantiate (1 := any)|]. intros r s3 Hwf3 _ _.
    case_decide; [|by apply wfp_ret]. apply wfp_modify; [by apply wf_write|done].
  - intros [] s1 Hwf1 _ _. apply wfp_get. destruct (lower_bound h _).
    + wfp_call wfp_connection_ref; [done|]. intros [a c] s2 Hwf2 _ _. by apply wfp_ret.
    + wfp_call wfp_modify; [by apply wf_write_context|by instantiate (1 := any)|].
      intros [] s2 Hwf2 _ _. by apply wfp_ext_any.
Qed.

(** *** Duplicates *)

Lemma wfp_find_duplicate todo : ∀ reversed s, wf s → wfp (find_duplicate todo reversed) any s.
Proof.
  induction todo as [|[h p] todo IH]; intros reversed s Hwf; [by apply wfp_ret|].
  cbn [find_duplicate]. cbn zeta. case_decide; [|by apply IH].
  wfp_call wfp_connection_ref; [done|]. intros [a1 c1] s1 Hwf1 _ _.
  wfp_call wfp_connection_ref; [done|]. intros [a2 c2] s2 Hwf2 _ _. by apply wfp_ret.
Qed.
End safety.
