(* ===== verification/Sending.v ===== *)
(** Sending: [SendPacketToConnection] and [sendPackets] of
    src/BLE/BleConnectionTracker.cpp.

    [sending s s' sent] says what a run of the sending loops does: the pairs
    [sent] of a packet and a connection are recorded in
    [packets_connections_sent_list], the encoded packets are queued for BTstack
    under the connections' handles, no pair of a packet and a handle is repeated,
    and nothing else changes but the [has_data_to_send] flags. *)

From S2P Require Import Prelude BinaryIO Packets StdContainers BleConnection Tracker TrackerWf TrackerSafety.

(** * What sending does *)

(** The raw packets that wait for BTstack, with their handles. *)
Definition outbox (s : Tracker) : multimap (list Z) :=
  raw_packet_to_notify s ++ raw_packet_to_write s.

(** What is queued for a pair of a packet and a connection. *)
Definition delivery (s : Tracker) (e : Addr * Addr) : Z * list Z :=
  (default 0 (handle_at s (snd e)), default [] (encoding <$> packet_at s (fst e))).

(** Pairs are told apart by packet and handle. *)
Definition pair_key (s : Tracker) (e : Addr * Addr) : Addr * option Z :=
  (fst e, handle_at s (snd e)).

(** The connections without their [has_data_to_send] flags. *)
Definition quiet (n : Addr * BleConnection) : Addr * BleConnection :=
  (fst n, setHasData false (snd n)).

Record same_but_sent (s s' : Tracker) : Prop := {
  sb_messages : messages s' = messages s;
  sb_packets : packets s' = packets s;
  sb_announce : announce s' = announce s;
  sb_announce_at : announce_at s' = announce_at s;
  sb_peers : peers s' = peers s;
  sb_handle_peer_map : handle_peer_map s' = handle_peer_map s;
  sb_neighbours : available_neighbours s' = available_neighbours s;
  sb_connections : ∀ h, quiet <$> connections s' !! h = quiet <$> connections s !! h;
  sb_offset : timestamp_offset_ms s' = timestamp_offset_ms s;
  sb_broadcast : broadcast_packets_to_send_list s' = broadcast_packets_to_send_list s;
}.

Record sending (s s' : Tracker) (sent : list (Addr * Addr)) : Prop := {
  se_wf : wf s';
  se_extends : extends s s';
  se_same : same_but_sent s s';
  se_list : packets_connections_sent_list s' ≡ₚ sent ++ packets_connections_sent_list s;
  se_outbox : outbox s' ≡ₚ (delivery s <$> sent) ++ outbox s;
  se_nodup : NoDup (pair_key s <$> sent);
  se_new : ∀ e, e ∈ sent → pair_key s e ∉ pair_key s <$> packets_connections_sent_list s;
}.

(** * Lemmas *)

Lemma same_but_sent_refl s : same_but_sent s s.
Proof. by constructor. Qed.

Lemma same_but_sent_trans s1 s2 s3 :
  same_but_sent s1 s2 → same_but_sent s2 s3 → same_but_sent s1 s3.
Proof.
  intros [] []. constructor; try congruence.
Qed.

Lemma quiet_handle n n' : quiet n = quiet n' → connection_handle (snd n) = connection_handle (snd n').
Proof. destruct n as [a []], n' as [a' []]. unfold quiet. intros Hq. by simplify_eq/=. Qed.

Lemma quiet_available n n' : quiet n = quiet n' → available (snd n) = available (snd n').
Proof.
  destruct n as [a []], n' as [a' []]. unfold quiet, available. intros Hq. by simplify_eq/=.
Qed.

Lemma packet_at_same s s' a : same_but_sent s s' → packet_at s' a = packet_at s a.
Proof. intros [Hm Hp Ha Hat]. unfold packet_at. by rewrite Hm, Hp, Ha, Hat. Qed.

(** A node of one state is, up to its flag, a node of the other. *)
Lemma same_node s s' h a c :
  same_but_sent s s' → connections s !! h = Some (a, c) →
  ∃ c', connections s' !! h = Some (a, c') ∧ connection_handle c' = connection_handle c ∧
    available c' = available c.
Proof.
  intros Hsame Hc. pose proof (sb_connections _ _ Hsame h) as Hq. rewrite Hc in Hq.
  destruct (connections s' !! h) as [[a' c']|]; [|done]. apply (inj Some) in Hq.
  pose proof (quiet_handle _ _ Hq). pose proof (quiet_available _ _ Hq).
  injection Hq as <-. eauto.
Qed.

Lemma same_but_sent_sym s s' : same_but_sent s s' → same_but_sent s' s.
Proof. intros []. by constructor. Qed.

Lemma handle_at_same s s' a :
  wf s → wf s' → same_but_sent s s' → handle_at s' a = handle_at s a.
Proof.
  intros Hwf Hwf' Hsame. unfold handle_at, connection_at.
  destruct (node_at (connections s) a) as [[h c]|] eqn:Hn.
  - apply node_at_sound in Hn. destruct (same_node s s' h a c Hsame Hn) as (c' & Hc' & Hh & _).
    destruct (connection_at_object s' (wf_separate s' Hwf') h a c' Hc') as [-> _]. cbn. congruence.
  - destruct (node_at (connections s') a) as [[h c]|] eqn:Hn'.
    + apply node_at_sound in Hn'.
      destruct (same_node s' s h a c (same_but_sent_sym _ _ Hsame) Hn') as (c' & Hc' & _).
      destruct (connection_at_object s (wf_separate s Hwf) h a c' Hc') as [Hx _]. congruence.
    + by rewrite (sb_neighbours _ _ Hsame).
Qed.

Lemma delivery_same s s' e :
  wf s → wf s' → same_but_sent s s' → delivery s' e = delivery s e.
Proof.
  intros. unfold delivery. by rewrite (handle_at_same s s'), (packet_at_same s s').
Qed.

Lemma pair_key_same s s' e :
  wf s → wf s' → same_but_sent s s' → pair_key s' e = pair_key s e.
Proof. intros. unfold pair_key. by rewrite (handle_at_same s s'). Qed.

Lemma sending_refl s : wf s → sending s s [].
Proof.
  intros Hwf. constructor; [done|done|apply same_but_sent_refl|done|done|constructor|].
  intros e He. by apply elem_of_nil in He.
Qed.

Lemma sending_trans s1 s2 s3 l1 l2 :
  wf s1 → sending s1 s2 l1 → sending s2 s3 l2 → sending s1 s3 (l2 ++ l1).
Proof.
  intros Hwf [Hwf2 He2 Hs2 Hl2 Ho2 Hd2 Hn2] [Hwf3 He3 Hs3 Hl3 Ho3 Hd3 Hn3].
  assert (∀ l : list (Addr * Addr), pair_key s2 <$> l = pair_key s1 <$> l) as Hk.
  { intros l. apply list_fmap_ext. intros _ e _. by apply pair_key_same. }
  assert (delivery s2 <$> l2 = delivery s1 <$> l2) as Hd.
  { apply list_fmap_ext. intros _ e _. by apply delivery_same. }
  rewrite Hk in Hd3. setoid_rewrite Hk in Hn3.
  assert (∀ e, e ∈ l2 → pair_key s1 e ∉ pair_key s1 <$> (l1 ++ packets_connections_sent_list s1)) as Hn.
  { intros e He. rewrite <- Hl2, <- (pair_key_same s1 s2) by done. by apply Hn3. }
  constructor; [done|by etrans|by eapply same_but_sent_trans| | | |].
  - by rewrite Hl3, Hl2, app_assoc.
  - by rewrite Ho3, Ho2, Hd, fmap_app, app_assoc.
  - rewrite fmap_app. apply NoDup_app. split_and!; [done| |done].
    intros k Hk2 Hk1. apply list_elem_of_fmap in Hk2 as (e & -> & He).
    apply (Hn e He). rewrite fmap_app. apply elem_of_app. by left.
  - intros e [He|He]%elem_of_app; [|by apply Hn2].
    specialize (Hn e He). rewrite fmap_app, not_elem_of_app in Hn. apply Hn.
Qed.

(** * Lemmas: one packet *)

Section send.
Context {env : Env} `{!AllocFresh env}.

(** The state after [SendPacketToConnection] to the connection [c] under key [h]. *)
Definition after_send (s : Tracker) (h : Z) (c : BleConnection) (data : list Z) : Tracker :=
  let ch := connection_handle c in
  let s1 := upd_connections (node_update (setHasData true) h)
              (upd_calls (λ t, t ++ [hci_connection_for_handle ch]) s) in
  upd_calls (λ t, t ++ [sleep_ms 20])
    (if decide (role c = HCI_ROLE_SLAVE)
     then upd_calls (λ t, t ++ [att_server_request_to_send_notification ch])
            (upd_notify_context (λ _, Some ch) (upd_raw_packet_to_notify (emplace ch data) s1))
     else upd_calls (λ t, t ++ [gatt_client_request_to_write_without_response ch])
            (upd_write_context (λ _, Some ch) (upd_raw_packet_to_write (emplace ch data) s1))).

Lemma deref_ok {A} (at_addr : Tracker → Addr → option A) a x s :
  at_addr s a = Some x → deref at_addr a s = Ok (x, s).
Proof. intros Hx. unfold deref. rewrite (M_bind_ok get _ _ _ _ eq_refl). by rewrite Hx. Qed.

Lemma ext_run c s : ext c s = Ok (answer (calls s) c, upd_calls (λ t, t ++ [c]) s).
Proof. done. Qed.

Lemma peer_lookup_ok ch s :
  wf s →
  match handle_peer_map s !! ch with
  | Some a => deref peer_at a;; mret tt
  | None => mret tt
  end s = Ok (tt, s).
Proof.
  intros Hwf. destruct (handle_peer_map s !! ch) as [a|] eqn:Hp; [|done].
  destruct (peer_at_live s (wf_separate s Hwf) a) as [p Hpa].
  { by eapply (po_handles s (wf_pointers s Hwf)). }
  by rewrite (M_bind_ok _ _ _ _ _ (deref_ok peer_at a p s Hpa)).
Qed.

Lemma SendPacket_run s p pk h a c :
  wf s → ndebug = true → packet_at s p = Some pk → forwardable pk →
  connections s !! h = Some (a, c) →
  ∃ b, SendPacketToConnection p a s = Ok (b, after_send s h c (encoding pk)).
Proof.
  intros Hwf Hnd Hp Hf Hc.
  destruct (connection_at_object s (wf_separate s Hwf) h a c Hc) as [Hn Hca].
  unfold SendPacketToConnection. rewrite (M_bind_ok get _ _ _ _ eq_refl).
  rewrite (M_bind_ok _ _ _ _ _ (deref_ok packet_at p pk s Hp)).
  rewrite (packet_bytes_encoding (peer_id_of s) pk Hf).
  rewrite (M_bind_ok (lift_result (Ok _)) _ _ _ _ eq_refl).
  rewrite (M_bind_ok _ _ _ _ _ (deref_ok connection_at a c s Hca)).
  rewrite decide_False by (rewrite Hnd; by intros [_ ?]).
  rewrite (M_bind_ok (mret tt) _ _ _ _ eq_refl). cbn zeta.
  rewrite (M_bind_ok (peerWithConnectionHandle _) _ _ _ _ eq_refl).
  rewrite (M_bind_ok _ _ _ _ _ (peer_lookup_ok (connection_handle c) s Hwf)).
  rewrite (M_bind_ok _ _ _ _ _ (ext_run (hci_connection_for_handle (connection_handle c)) s)).
  set (s1 := upd_calls _ s).
  assert (connection_ptr_do (setHasData true) a s1
    = Ok (tt, upd_connections (node_update (setHasData true) h) s1)) as Hdo.
  { unfold connection_ptr_do. rewrite (M_bind_ok get _ _ _ _ eq_refl).
    change (connections s1) with (connections s). by rewrite Hn. }
  rewrite (M_bind_ok _ _ _ _ _ Hdo). set (s2 := upd_connections _ s1).
  assert (wf s2) as Hwf2.
  { destruct (wf_calls s (λ t, t ++ [hci_connection_for_handle (connection_handle c)]) Hwf) as [Hw1 _].
    apply wf_update_connection; [done|]. intros a' c' Hc'. apply (wf_handles _ Hw1 _ _ _ Hc'). }
  assert (connections s2 !! h = Some (a, setHasData true c)) as Hc2.
  { cbn. rewrite lookup_node_update, decide_True by done. by rewrite Hc. }
  destruct (connection_at_object s2 (wf_separate s2 Hwf2) h a _ Hc2) as [_ Hca2].
  rewrite (M_bind_ok _ _ _ _ _ (deref_ok connection_at a _ s2 Hca2)).
  change (role (setHasData true c)) with (role c). unfold after_send. fold s1. fold s2.
  case_decide; eexists; reflexivity.
Qed.

Lemma after_send_same s h a c data :
  connections s !! h = Some (a, c) → same_but_sent s (after_send s h c data).
Proof.
  intros Hc. unfold after_send. constructor; try (by case_decide).
  intros h'. transitivity (quiet <$> node_update (setHasData true) h (connections s) !! h');
    [by case_decide|].
  rewrite lookup_node_update. case_decide; [|done]. by destruct (connections s !! h') as [[? []]|].
Qed.

Lemma after_send_wf s h a c data :
  wf s → connections s !! h = Some (a, c) →
  wf (after_send s h c data) ∧ extends s (after_send s h c data).
Proof.
  intros Hwf Hc. pose proof (after_send_same s h a c data Hc) as Hsame.
  assert (∀ o, addr_of (after_send s h c data) o = addr_of s o) as Ha.
  { intros o. destruct o; cbn [addr_of];
      rewrite ?(sb_announce_at _ _ Hsame), ?(sb_messages _ _ Hsame), ?(sb_packets _ _ Hsame),
        ?(sb_neighbours _ _ Hsame), ?(sb_peers _ _ Hsame); try done.
    pose proof (sb_connections _ _ Hsame handle) as Hq. apply (f_equal (fmap fst)) in Hq.
    by rewrite <- !option_fmap_compose in Hq. }
  split; [|by apply extends_same].
  apply (wf_extends s); [done|by apply extends_same| |by eapply separate_same, Hwf|..].
  - unfold after_send. by case_decide.
  - intros h' a' c' Hc' Hcon.
    assert (connections (after_send s h c data) = node_update (setHasData true) h (connections s))
      as Hcs by (unfold after_send; by case_decide).
    rewrite Hcs, lookup_node_update in Hc'. case_decide; [subst h'|by eapply Hwf].
    rewrite Hc in Hc'. injection Hc' as <- <-. exact (wf_handles s Hwf _ _ _ Hc Hcon).
  - intros k a' c'. rewrite (sb_neighbours _ _ Hsame). apply Hwf.
Qed.

(** Sending one packet and recording it. *)
Lemma send_one s p pk h a c :
  wf s → ndebug = true → live_packet s p → packet_at s p = Some pk → forwardable pk →
  connections s !! h = Some (a, c) →
  (∀ e, e ∈ packets_connections_sent_list s → fst e = p →
        handle_at s (snd e) ≠ Some (connection_handle c)) →
  ∃ s', (SendPacketToConnection p a;;
         modify (upd_packets_connections_sent_list (emplace p a))) s = Ok (tt, s') ∧
    sending s s' [(p, a)].
Proof.
  intros Hwf Hnd Hlive Hp Hf Hc Hnew.
  destruct (SendPacket_run s p pk h a c Hwf Hnd Hp Hf Hc) as [b Hrun].
  destruct (after_send_wf s h a c (encoding pk) Hwf Hc) as [Hwf1 He1].
  pose proof (after_send_same s h a c (encoding pk) Hc) as Hsame.
  destruct (connection_at_object s (wf_separate s Hwf) h a c Hc) as [_ Hca].
  assert (handle_at s a = Some (connection_handle c)) as Hha by (unfold handle_at; by rewrite Hca).
  set (s1 := after_send s h c (encoding pk)) in *.
  assert (packets_connections_sent_list s1 = packets_connections_sent_list s) as Hl
    by (unfold s1, after_send; by case_decide).
  assert (outbox s1 ≡ₚ (connection_handle c, encoding pk) :: outbox s) as Ho.
  { unfold s1, after_send, outbox. case_decide; cbn; rewrite emplace_permutation; [done|].
    symmetry. apply Permutation_middle. }
  assert (live_connection s1 a) as Hlc.
  { apply (live_connection_extends s); [done|]. exists h. cbn. by rewrite Hc. }
  destruct (wf_emplace_sent s1 p a Hwf1 (live_packet_extends _ _ _ He1 Hlive) Hlc) as [Hwf2 He2].
  eexists. split; [by rewrite (M_bind_ok _ _ _ _ _ Hrun)|].
  constructor; [done|by etrans| | | | |].
  - destruct Hsame. by constructor.
  - cbn [packets_connections_sent_list upd_packets_connections_sent_list app].
    by rewrite Hl, emplace_permutation.
  - cbn [fmap list_fmap app]. unfold delivery. cbn [fst snd]. rewrite Hp, Hha. exact Ho.
  - apply NoDup_singleton.
  - intros e0 ->%list_elem_of_singleton (e & Hk & He)%list_elem_of_fmap.
    unfold pair_key in Hk. injection Hk as Hk1 Hk2. apply (Hnew e He); [done|].
    cbn in Hk2. by rewrite <- Hk2.
Qed.

(** ** The loops *)

(** All packets of the tracker can be written, and assertions are off. *)
Definition can_send (s : Tracker) : Prop := ndebug = true ∧ packets_forwardable s.

Lemma can_send_same s s' : same_but_sent s s' → can_send s → can_send s'.
Proof.
  intros Hsame [Hnd Hf]. split; [done|]. intros a p. rewrite (packet_at_same s s' a Hsame). apply Hf.
Qed.

Definition recorded (s : Tracker) (e : Addr * Addr) : Prop :=
  pair_key s e ∈ pair_key s <$> packets_connections_sent_list s.

#[global] Instance recorded_dec s e : Decision (recorded s e).
Proof. unfold recorded. apply _. Defined.

Lemma recorded_sending s s' sent e :
  wf s → sending s s' sent → recorded s e ∨ e ∈ sent → recorded s' e.
Proof.
  intros Hwf [Hwf' _ Hsame Hl _ _ _] He. unfold recorded.
  rewrite (pair_key_same s s') by done.
  rewrite (list_fmap_ext _ (pair_key s)) by (intros; by apply pair_key_same).
  rewrite Hl, fmap_app, elem_of_app. destruct He as [He|He]; [by right|left].
  by apply list_elem_of_fmap_2.
Qed.

Lemma packet_needed_run p c s :
  wf s → live_connection s c →
  ∃ b, packet_needed p c s = Ok (b, s) ∧
    (b = true ↔ ∀ e, e ∈ packets_connections_sent_list s → fst e = p →
                 handle_at s (snd e) ≠ handle_at s c).
Proof.
  intros Hwf Hc. destruct (connection_at_live s (wf_separate s Hwf) c Hc) as (h & cn & Hcn & _ & Hca).
  set (hv := connection_handle cn).
  assert (wfp (packet_needed p c) (λ b s', s' = s ∧ (b = true ↔
    ¬ ∃ e, e ∈ equal_range p (packets_connections_sent_list s) ∧ handle_at s (snd e) = Some hv)) s) as Hw.
  { apply wfp_get. eapply wfp_bind; [eapply (wfp_sent_to_handle _ _ hv)|]; [done| | |].
    - intros e [He _]%elem_of_equal_range. by apply (wf_pointers s Hwf).
    - intros _. eapply wfp_mono; [by apply wfp_handle_of|]. intros x s' _ _ [-> Hx].
      rewrite Hca in Hx. split; [done|]. by injection Hx.
    - intros found s' Hwf' _ [-> Hfound]. apply wfp_ret; [done|]. split; [done|].
      rewrite negb_true_iff, <- not_true_iff_false, Hfound. done. }
  apply wp_ok in Hw as (b & s' & Hrun & _ & _ & -> & Hb). exists b. split; [done|].
  rewrite Hb. assert (handle_at s c = Some hv) as -> by (unfold handle_at; by rewrite Hca).
  setoid_rewrite elem_of_equal_range. naive_solver.
Qed.

Lemma send_targeted_run todo : ∀ s,
  wf s → can_send s → (∀ e, e ∈ todo → live_packet s (fst e) ∧ live_connection s (snd e)) →
  ∃ removed s' sent, send_targeted todo s = Ok (removed, s') ∧ sending s s' sent ∧
    (∀ e, e ∈ sent → e ∈ todo) ∧ (∀ p, p ∈ removed ↔ p ∈ fst <$> sent) ∧
    (∀ e, e ∈ todo → recorded s' e).
Proof.
  induction todo as [|[p c] todo IH]; intros s Hwf Hcan Hlive.
  { exists [], s, []. split_and!; [done|by apply sending_refl|done|done|].
    intros e He. by apply elem_of_nil in He. }
  destruct (Hlive (p, c)) as [Hp Hc]; [apply elem_of_cons; by left|]. cbn [fst snd] in Hp, Hc.
  assert (∀ e, e ∈ todo → live_packet s (fst e) ∧ live_connection s (snd e)) as Hrest
    by (intros e He; apply Hlive, elem_of_cons; by right).
  destruct (packet_needed_run p c s Hwf Hc) as (needed & Hneed & Hn). cbn [send_targeted].
  rewrite (M_bind_ok _ _ _ _ _ Hneed). destruct needed.
  - destruct (packet_at_live s (wf_separate s Hwf) p Hp) as (o & pk & _ & _ & _ & Hpk).
    destruct (connection_at_live s (wf_separate s Hwf) c Hc) as (h & cn & Hcn & _ & Hca).
    assert (handle_at s c = Some (connection_handle cn)) as Hha by (unfold handle_at; by rewrite Hca).
    destruct (send_one s p pk h c cn Hwf (proj1 Hcan) Hp Hpk (proj2 Hcan _ _ Hpk) Hcn)
      as (s1 & Hrun1 & Hs1).
    { rewrite <- Hha. by apply Hn. }
    destruct (IH s1) as (removed & s2 & sent & Hrun2 & Hs2 & Hsub & Hrem & Hrec).
    { apply Hs1. }
    { apply (can_send_same s); [apply Hs1|done]. }
    { intros e He. destruct (Hrest e He). pose proof (se_extends _ _ _ Hs1). eauto with live. }
    exists (p :: removed), s2, (sent ++ [(p, c)]). split_and!.
    + rewrite <- M_bind_assoc, (M_bind_ok _ _ _ _ _ Hrun1). by rewrite (M_bind_ok _ _ _ _ _ Hrun2).
    + by eapply sending_trans.
    + intros e [He| ->%list_elem_of_singleton]%elem_of_app; set_solver.
    + intros p'. rewrite fmap_app, elem_of_app, elem_of_cons, Hrem. cbn. set_solver.
    + intros e [->|He]%elem_of_cons; [|by apply Hrec].
      apply (recorded_sending s1 s2 sent); [apply Hs1|done|left].
      apply (recorded_sending s s1 [(p, c)]); [done|done|right; by apply list_elem_of_singleton].
  - destruct (IH s Hwf Hcan Hrest) as (removed & s' & sent & Hrun & Hs & Hsub & Hrem & Hrec).
    exists removed, s', sent. split_and!; try done; [set_solver|].
    intros e [->|He]%elem_of_cons; [|by apply Hrec].
    apply (recorded_sending s s' sent); [done|done|left].
    destruct (decide (recorded s (p, c))) as [|Hnr]; [done|]. exfalso.
    assert (false = true); [|done]. apply Hn. intros e He Hk Hh. apply Hnr.
    unfold recorded. apply list_elem_of_fmap. exists e. split; [|done].
    unfold pair_key. cbn. congruence.
Qed.

Lemma search_sendable_run entries h : ∀ b s,
  wf s → (∀ e, e ∈ entries → live_connection s (snd e)) →
  ∃ b', search_sendable entries h b s = Ok (b', s) ∧
    (b' = true ↔ b = true ∧ ∀ e, e ∈ entries → handle_at s (snd e) ≠ Some h).
Proof.
  induction entries as [|[p c] entries IH]; intros b s Hwf Hlive.
  { exists b. split; [done|]. split; [|by intros [? _]]. intros ->. split; [done|].
    intros e He. by apply elem_of_nil in He. }
  pose proof (wfp_handle_of c s Hwf ltac:(apply (Hlive (p, c)), elem_of_cons; by left)) as Hw.
  apply wp_ok in Hw as (h1 & s' & Hrun & _ & _ & -> & Hh1). cbn [search_sendable].
  rewrite (M_bind_ok _ _ _ _ _ Hrun).
  destruct (IH (if decide (h1 = h) then false else b) s Hwf) as (b' & Hb' & Hiff).
  { intros e He. apply Hlive, elem_of_cons. by right. }
  exists b'. split; [done|]. rewrite Hiff. setoid_rewrite elem_of_cons.
  fold (handle_at s c) in Hh1. case_decide; naive_solver.
Qed.

(** Whether [broadcast_to] sends, and what it does. *)
Definition broadcast_sends (s : Tracker) (p : Addr) (h : Z) : Prop :=
  ∃ a c, connections s !! h = Some (a, c) ∧ available c = true ∧
    ∀ e, e ∈ find_to_end p (packets_connections_sent_list s) →
         handle_at s (snd e) ≠ Some (connection_handle c).

Lemma elem_of_find_to_end_sub {V} k (l : multimap V) e : e ∈ find_to_end k l → e ∈ l.
Proof.
  unfold find_to_end. destruct (equal_range k l); [intros He; by apply elem_of_nil in He|].
  destruct (lower_bound_suffix k l) as (pre & Hl & _). intros He. rewrite Hl.
  apply elem_of_app. by right.
Qed.

(** [broadcast_to] either leaves the state alone or sends to the connection. *)
Lemma broadcast_to_cases p h s :
  wf s →
  (¬ broadcast_sends s p h ∧ broadcast_to p h s = Ok (false, s)) ∨
  (broadcast_sends s p h ∧ ∃ a c, connections s !! h = Some (a, c) ∧ available c = true ∧
    broadcast_to p h s = (SendPacketToConnection p a;;
      modify (upd_packets_connections_sent_list (emplace p a));; mret true) s).
Proof.
  intros Hwf. unfold broadcast_to. rewrite (M_bind_ok get _ _ _ _ eq_refl).
  destruct (connections s !! h) as [[a c]|] eqn:Hc.
  2: { left. split; [|done]. intros (? & ? & ? & _). congruence. }
  destruct (available c) eqn:Hav.
  2: { left. split; [|done]. intros (? & ? & ? & ? & _). congruence. }
  destruct (search_sendable_run (find_to_end p (packets_connections_sent_list s))
    (connection_handle c) true s Hwf) as (b & Hrun & Hb).
  { intros e He%elem_of_find_to_end_sub. by apply (wf_pointers s Hwf). }
  rewrite (M_bind_ok _ _ _ _ _ Hrun).
  assert (b = true ↔ broadcast_sends s p h) as Hiff.
  { rewrite Hb. split; [intros [_ Hall]; by exists a, c|].
    intros (a' & c' & Hc' & _ & Hall). rewrite Hc in Hc'. by injection Hc' as <- <-. }
  destruct b; [right|left].
  - split; [by apply Hiff|]. by exists a, c.
  - split; [|done]. intros Hs%Hiff. done.
Qed.

Lemma broadcast_to_run p h s :
  wf s → can_send s → live_packet s p →
  ∃ b s' sent, broadcast_to p h s = Ok (b, s') ∧ sending s s' sent ∧
    (b = true ↔ broadcast_sends s p h) ∧
    (if b then ∃ a c, connections s !! h = Some (a, c) ∧ available c = true ∧ sent = [(p, a)]
     else sent = [] ∧ s' = s).
Proof.
  intros Hwf Hcan Hp.
  destruct (broadcast_to_cases p h s Hwf) as [[Hn Hrun]|(Hsends & a & c & Hc & Hav & Hrun)].
  { exists false, s, []. split_and!; [done|by apply sending_refl| |done|done]. by split. }
  destruct (packet_at_live s (wf_separate s Hwf) p Hp) as (o & pk & _ & _ & _ & Hpk).
  destruct (send_one s p pk h a c Hwf (proj1 Hcan) Hp Hpk (proj2 Hcan _ _ Hpk) Hc) as (s1 & Hrun1 & Hs1).
  { intros [p' c'] He Hk. cbn in Hk. subst p'. destruct Hsends as (a' & c1 & Hc1 & _ & Hall).
    rewrite Hc in Hc1. injection Hc1 as <- <-. apply (Hall (p, c')).
    apply elem_of_find_to_end; [apply (wf_ordered s Hwf)|]. split_and!; [eauto|done|done]. }
  exists true, s1, [(p, a)]. rewrite Hrun, <- M_bind_assoc, (M_bind_ok _ _ _ _ _ Hrun1).
  split_and!; try done. eauto 10.
Qed.

(** If sending the packet fails, so does the loop, once a connection needs it. *)
Lemma broadcast_packet_fails p keys s e :
  wf s → (∀ a h c, connections s !! h = Some (a, c) → SendPacketToConnection p a s = Err e) →
  (∃ h, h ∈ keys ∧ broadcast_sends s p h) → broadcast_packet p keys s = Err e.
Proof.
  intros Hwf Hfail (h & Hh & Hsends). induction keys as [|k keys IH]; [by apply elem_of_nil in Hh|].
  cbn [broadcast_packet].
  destruct (broadcast_to_cases p k s Hwf) as [[Hn Hrun]|(_ & a & c & Hc & _ & Hrun)].
  - rewrite (M_bind_ok _ _ _ _ _ Hrun). apply elem_of_cons in Hh as [->|Hh]; [done|].
    unfold mbind at 1, M_bind at 1. by rewrite IH.
  - unfold mbind at 1, M_bind at 1. rewrite Hrun. unfold mbind at 1, M_bind at 1.
    by rewrite (Hfail a k c Hc).
Qed.

Lemma broadcast_packet_run p keys : ∀ s,
  wf s → can_send s → live_packet s p →
  ∃ b s' sent, broadcast_packet p keys s = Ok (b, s') ∧ sending s s' sent ∧
    (b = true ↔ sent ≠ []) ∧
    (∀ e, e ∈ sent → fst e = p ∧
       ∃ h c, connections s !! h = Some (snd e, c) ∧ available c = true).
Proof.
  induction keys as [|h keys IH]; intros s Hwf Hcan Hp.
  { exists false, s, []. split_and!; [done|by apply sending_refl|done|].
    intros e He. by apply elem_of_nil in He. }
  destruct (broadcast_to_run p h s Hwf Hcan Hp) as (b1 & s1 & l1 & Hrun1 & Hs1 & _ & Hb1).
  destruct (IH s1) as (b2 & s2 & l2 & Hrun2 & Hs2 & Hb2 & Hl2).
  { apply Hs1. }
  { apply (can_send_same s); [apply Hs1|done]. }
  { eapply live_packet_extends; [apply Hs1|done]. }
  exists (b1 || b2), s2, (l2 ++ l1). cbn [broadcast_packet].
  rewrite (M_bind_ok _ _ _ _ _ Hrun1), (M_bind_ok _ _ _ _ _ Hrun2).
  split_and!; [done|by eapply sending_trans| |].
  - rewrite orb_true_iff, Hb2. destruct b1.
    + destruct Hb1 as (a & c & _ & _ & ->). split; [by destruct l2|by left].
    + destruct Hb1 as [-> _]. rewrite app_nil_r. naive_solver.
  - intros e [He|He]%elem_of_app.
    + destruct (Hl2 e He) as (Hk & h' & c' & Hc' & Hav). split; [done|].
      destruct (same_node s1 s h' _ c' (same_but_sent_sym _ _ (se_same _ _ _ Hs1)) Hc')
        as (c & Hc & _ & Heq). exists h', c. split; [done|congruence].
    + destruct b1; [|by destruct Hb1 as [-> _]; apply elem_of_nil in He].
      destruct Hb1 as (a & c & Hc & Hav & ->). apply list_elem_of_singleton in He as ->. eauto.
Qed.

(** ** Every connection is served *)

(** The loop of [sendPackets] looks at all records from the packet's address on: the packet
    has a record, or no packet at a greater address has one. *)
Definition looked_at (s : Tracker) (p : Addr) : Prop :=
  (∃ c0, (p, c0) ∈ packets_connections_sent_list s) ∨
  (∀ e, e ∈ packets_connections_sent_list s → fst e ≤ p).

Lemma looked_at_sending s s1 l p :
  sending s s1 l → (∀ e, e ∈ l → fst e = p) → looked_at s p → looked_at s1 p.
Proof.
  intros [_ _ _ Hl _ _ _] Hp Hlook. unfold looked_at in *. setoid_rewrite Hl. setoid_rewrite elem_of_app.
  destruct Hlook as [[c0 Hc0]|Hall]; [left; eauto|right]. intros e [He|He]; [rewrite (Hp e He); lia|auto].
Qed.

(** What [broadcast_sends] amounts to then. *)
Lemma broadcast_sends_recorded s p h :
  wf s → looked_at s p →
  broadcast_sends s p h ↔ ∃ a c, connections s !! h = Some (a, c) ∧ available c = true ∧
    ∀ e, e ∈ packets_connections_sent_list s → p ≤ fst e →
         handle_at s (snd e) ≠ Some (connection_handle c).
Proof.
  intros Hwf Hrec. unfold broadcast_sends.
  setoid_rewrite elem_of_find_to_end; [|apply (wf_ordered s Hwf)].
  destruct Hrec as [Hrec|Htop]; [naive_solver|].
  assert (∀ e, e ∈ packets_connections_sent_list s → p ≤ fst e → ∃ c0, (p, c0) ∈ packets_connections_sent_list s) as Hp.
  { intros [p' c0] He Hle. pose proof (Htop _ He). cbn in *. exists c0. by replace p with p' by lia. }
  naive_solver.
Qed.

(** Sending elsewhere does not change who is served. *)
Lemma broadcast_sends_step s s1 l p h :
  wf s → sending s s1 l → (∀ e, e ∈ l → fst e = p) → looked_at s p →
  (∀ e a c, e ∈ l → connections s !! h = Some (a, c) → available c = true →
            handle_at s (snd e) ≠ Some (connection_handle c)) →
  broadcast_sends s1 p h ↔ broadcast_sends s p h.
Proof.
  intros Hwf Hs Hlp Hrec Hother. pose proof (looked_at_sending s s1 l p Hs Hlp Hrec) as Hrec1.
  destruct Hs as [Hwf1 _ Hsame Hl _ _ _].
  rewrite !broadcast_sends_recorded by done. setoid_rewrite Hl. setoid_rewrite elem_of_app.
  split; intros (a & c & Hc & Hav & Hall).
  - destruct (same_node s1 s h a c (same_but_sent_sym _ _ Hsame) Hc) as (c' & Hc' & Hh & Heq).
    exists a, c'. split_and!; [done|congruence|]. intros e He Hle.
    rewrite Hh, <- (handle_at_same s s1) by done. auto.
  - destruct (same_node s s1 h a c Hsame Hc) as (c' & Hc' & Hh & Heq).
    exists a, c'. split_and!; [done|congruence|]. intros e He Hle.
    rewrite Hh, (handle_at_same s s1) by done. destruct He as [He|He]; eauto.
Qed.

(** The node with key [h] of an available connection has the handle [h]. *)
Lemma available_handle s h a c :
  wf s → connections s !! h = Some (a, c) → available c = true →
  connection_handle c = h ∧ handle_at s a = Some h.
Proof.
  intros Hwf Hc Hav. assert (connection_handle c = h) as Hh.
  { apply (wf_handles s Hwf h a c Hc). unfold available in Hav. by apply andb_prop in Hav as [? _]. }
  split; [done|]. unfold handle_at.
  destruct (connection_at_object s (wf_separate s Hwf) h a c Hc) as [_ ->]. cbn. congruence.
Qed.

Lemma broadcast_packet_serves p keys : ∀ s,
  wf s → can_send s → live_packet s p → NoDup keys → looked_at s p →
  ∃ b s' sent, broadcast_packet p keys s = Ok (b, s') ∧ sending s s' sent ∧
    (b = true ↔ sent ≠ []) ∧
    ∀ e, e ∈ sent ↔ fst e = p ∧ ∃ h, h ∈ keys ∧ broadcast_sends s p h ∧
      ∃ c, connections s !! h = Some (snd e, c).
Proof.
  induction keys as [|h keys IH]; intros s Hwf Hcan Hp Hnd Hrec.
  { exists false, s, []. split_and!; [done|by apply sending_refl|done|]. set_solver. }
  apply NoDup_cons in Hnd as [Hnin Hnd].
  destruct (broadcast_to_run p h s Hwf Hcan Hp) as (b1 & s1 & l1 & Hrun1 & Hs1 & Hsends & Hb1).
  assert (∀ e, e ∈ l1 → fst e = p) as Hlp.
  { intros e He. destruct b1; [|by destruct Hb1 as [-> _]; apply elem_of_nil in He].
    destruct Hb1 as (a1 & c1 & _ & _ & ->). by apply list_elem_of_singleton in He as ->. }
  pose proof (looked_at_sending s s1 l1 p Hs1 Hlp Hrec) as Hrec1.
  destruct (IH s1 (se_wf _ _ _ Hs1)) as (b2 & s2 & l2 & Hrun2 & Hs2 & Hb2 & Hl2); [|..|done|done|].
  { apply (can_send_same s); [apply Hs1|done]. }
  { eapply live_packet_extends; [apply Hs1|done]. }
  exists (b1 || b2), s2, (l2 ++ l1). cbn [broadcast_packet].
  rewrite (M_bind_ok _ _ _ _ _ Hrun1), (M_bind_ok _ _ _ _ _ Hrun2).
  assert (∀ h', h' ∈ keys → broadcast_sends s1 p h' ↔ broadcast_sends s p h') as Hstep.
  { intros h' Hh'. apply (broadcast_sends_step s s1 l1); [done..|]. intros e a c He Hc Hav.
    destruct b1; [|by destruct Hb1 as [-> _]; apply elem_of_nil in He].
    destruct Hb1 as (a1 & c1 & Hc1 & Hav1 & ->). apply list_elem_of_singleton in He as ->. cbn.
    destruct (available_handle s h a1 c1) as [_ ->]; [done..|].
    destruct (available_handle s h' a c) as [-> _]; [done..|]. intros [= <-]. done. }
  assert (∀ h' a, (∃ c, connections s1 !! h' = Some (a, c)) ↔ ∃ c, connections s !! h' = Some (a, c)) as Hnode.
  { intros h' a. split; intros [c Hc].
    - destruct (same_node s1 s h' a c) as (c' & ? & _); [apply same_but_sent_sym, Hs1|done|eauto].
    - destruct (same_node s s1 h' a c) as (c' & ? & _); [apply Hs1|done|eauto]. }
  split_and!; [done|by eapply sending_trans| |].
  - rewrite orb_true_iff, Hb2. destruct b1.
    + destruct Hb1 as (a & c & _ & _ & ->). split; [by destruct l2|by left].
    + destruct Hb1 as [-> _]. rewrite app_nil_r. naive_solver.
  - intros e. rewrite elem_of_app, Hl2. setoid_rewrite elem_of_cons. setoid_rewrite Hnode.
    assert (e ∈ l1 ↔ fst e = p ∧ broadcast_sends s p h ∧ ∃ c, connections s !! h = Some (snd e, c)) as ->.
    { rewrite <- Hsends. destruct b1; [|by destruct Hb1 as [-> _]; set_solver].
      destruct Hb1 as (a & c & Hc & _ & ->). rewrite list_elem_of_singleton.
      destruct e as [p' a']. cbn. rewrite Hc. naive_solver. }
    naive_solver.
Qed.

Lemma send_broadcast_run todo : ∀ s,
  wf s → can_send s → (∀ p, p ∈ todo → live_packet s p) →
  ∃ removed s' sent, send_broadcast todo s = Ok (removed, s') ∧ sending s s' sent ∧
    (∀ e, e ∈ sent → fst e ∈ todo ∧
       ∃ h c, connections s !! h = Some (snd e, c) ∧ available c = true) ∧
    (∀ p, p ∈ removed ↔ p ∈ fst <$> sent).
Proof.
  induction todo as [|p todo IH]; intros s Hwf Hcan Hlive.
  { exists [], s, []. split_and!; [done|by apply sending_refl| |done].
    intros e He. by apply elem_of_nil in He. }
  destruct (broadcast_packet_run p (fst <$> items (connections s)) s Hwf Hcan)
    as (b & s1 & l1 & Hrun1 & Hs1 & Hb & Hl1); [apply Hlive, elem_of_cons; by left|].
  destruct (IH s1) as (removed & s2 & l2 & Hrun2 & Hs2 & Hl2 & Hrem).
  { apply Hs1. }
  { apply (can_send_same s); [apply Hs1|done]. }
  { intros p' Hp'. eapply live_packet_extends; [apply Hs1|]. apply Hlive, elem_of_cons. by right. }
  exists (if b then p :: removed else removed), s2, (l2 ++ l1). cbn [send_broadcast].
  rewrite (M_bind_ok get _ _ _ _ eq_refl), (M_bind_ok _ _ _ _ _ Hrun1), (M_bind_ok _ _ _ _ _ Hrun2).
  split_and!; [by destruct b|by eapply sending_trans| |].
  - intros e [He|He]%elem_of_app; rewrite elem_of_cons.
    + destruct (Hl2 e He) as (Hk & h' & c' & Hc' & Hav). split; [by right|].
      destruct (same_node s1 s h' _ c' (same_but_sent_sym _ _ (se_same _ _ _ Hs1)) Hc')
        as (c & Hc & _ & Heq). exists h', c. split; [done|congruence].
    + destruct (Hl1 e He) as (Hk & Hc). auto.
  - intros p'. rewrite fmap_app, elem_of_app, <- Hrem. destruct b.
    + assert (p ∈ fst <$> l1) as Hpin.
      { destruct l1 as [|e l1]; [by destruct (proj1 Hb eq_refl)|].
        apply list_elem_of_fmap. exists e. split; [|apply elem_of_cons; by left].
        symmetry. apply Hl1, elem_of_cons. by left. }
      rewrite elem_of_cons. split; [by intros [->|?]; auto|]. intros [?|Hin]; [by right|left].
      apply list_elem_of_fmap in Hin as (e & -> & He). by apply Hl1.
    + assert (l1 = []) as ->; [|set_solver]. destruct l1; [done|]. exfalso.
      assert (false = true) by (by apply Hb). done.
Qed.

(** One run of [sendPackets]: the pairs [sent]. *)
Record send_round (s s' : Tracker) (sent : list (Addr * Addr)) : Prop := {
  (* they are recorded, and their encodings queued under the handles *)
  sr_recorded : packets_connections_sent_list s' ≡ₚ sent ++ packets_connections_sent_list s;
  sr_outbox : outbox s' ≡ₚ (delivery s <$> sent) ++ outbox s;
  (* no handle gets a packet twice, nor one it is recorded to have *)
  sr_once : NoDup (pair_key s <$> sent);
  sr_new : ∀ e, e ∈ sent → pair_key s e ∉ pair_key s <$> packets_connections_sent_list s;
  (* each pair was targeted, or broadcast to an available connection *)
  sr_queued : ∀ e, e ∈ sent → e ∈ targeted_packets_to_send_list s ∨
    (fst e ∈ broadcast_packets_to_send_list s ∧
     ∃ h c, connections s !! h = Some (snd e, c) ∧ available c = true);
  (* every targeted pair is recorded afterwards *)
  sr_targeted : ∀ e, e ∈ targeted_packets_to_send_list s →
    pair_key s e ∈ pair_key s <$> packets_connections_sent_list s';
  (* a broadcast packet leaves its queue only if it was sent *)
  sr_broadcast : ∀ p, p ∈ broadcast_packets_to_send_list s' → p ∈ broadcast_packets_to_send_list s;
  sr_left : ∀ p, p ∈ broadcast_packets_to_send_list s →
    p ∉ broadcast_packets_to_send_list s' → p ∈ fst <$> sent;
}.

Lemma sendPackets_run s :
  wf s → can_send s →
  ∃ s' sent, sendPackets s = Ok (tt, s') ∧ wf s' ∧ extends s s' ∧ send_round s s' sent.
Proof.
  intros Hwf Hcan. unfold sendPackets. rewrite (M_bind_ok get _ _ _ _ eq_refl).
  case_decide as Hempty.
  { destruct Hempty as [Hb Ht]. exists s, []. split_and!; [done|done|done|].
    constructor; rewrite ?Ht; try done; [constructor|set_solver..]. }
  destruct (send_targeted_run (targeted_packets_to_send_list s) s Hwf Hcan)
    as (rem1 & s1 & l1 & Hrun1 & Hs1 & Hl1 & Hrem1 & Hrec); [apply (wf_pointers s Hwf)|].
  rewrite (M_bind_ok _ _ _ _ _ Hrun1), (M_bind_ok (modify _) _ _ _ _ eq_refl).
  destruct (wf_erase_targeted s1 rem1 (se_wf _ _ _ Hs1)) as [Hwf2 He2].
  set (s2 := upd_targeted_packets_to_send_list _ s1) in *.
  assert (sending s s2 l1) as Hs2.
  { destruct Hs1 as [_ He1 [] Hl Ho Hd Hn].
    constructor; [done|by etrans|by constructor|done|done|done|done]. }
  destruct (send_broadcast_run (broadcast_packets_to_send_list s) s2 Hwf2) as
    (rem2 & s3 & l2 & Hrun2 & Hs3 & Hl2 & Hrem2).
  { apply (can_send_same s); [apply Hs2|done]. }
  { intros p Hp. eapply live_packet_extends; [apply Hs2|]. by apply (wf_pointers s Hwf). }
  rewrite (M_bind_ok _ _ _ _ _ Hrun2).
  destruct (wf_filter_broadcast s3 (λ p, p ∉ rem2) (se_wf _ _ _ Hs3)) as [Hwf4 He4].
  set (s4 := upd_broadcast_packets_to_send_list _ s3) in *.
  pose proof (sending_trans s s2 s3 l1 l2 Hwf Hs2 Hs3) as Hs.
  assert (broadcast_packets_to_send_list s4 = filter (λ p, p ∉ rem2) (broadcast_packets_to_send_list s)) as Hb4.
  { cbn. by rewrite (sb_broadcast _ _ (se_same _ _ _ Hs)). }
  exists s4, (l2 ++ l1). split; [done|]. split; [done|]. split; [by etrans; [apply Hs|]|].
  destruct Hs as [Hwf3 _ Hsame Hl Ho Hd Hn].
  constructor; [exact Hl|exact Ho|exact Hd|exact Hn|..].
  - intros e [He|He]%elem_of_app; [right|left; by apply Hl1].
    destruct (Hl2 e He) as (Hk & h & c & Hc & Hav). split; [done|].
    destruct (same_node s2 s h _ c (same_but_sent_sym _ _ (se_same _ _ _ Hs2)) Hc)
      as (c' & Hc' & _ & Heq). exists h, c'. split; [done|congruence].
  - intros e He. specialize (Hrec e He). unfold recorded in Hrec.
    change (packets_connections_sent_list s4) with (packets_connections_sent_list s3).
    rewrite (se_list _ _ _ Hs3), fmap_app, elem_of_app. right.
    change (packets_connections_sent_list s2) with (packets_connections_sent_list s1).
    rewrite <- (pair_key_same s s1) by (done || apply Hs1).
    rewrite <- (list_fmap_ext (pair_key s1) (pair_key s)); [done|].
    intros; apply pair_key_same; (done || apply Hs1).
  - intros p. rewrite Hb4. by intros [_ ?]%list_elem_of_filter.
  - intros p Hp Hnp. rewrite Hb4, list_elem_of_filter in Hnp.
    destruct (decide (p ∈ rem2)) as [Hin|]; [|tauto]. apply Hrem2 in Hin.
    rewrite fmap_app, elem_of_app. by left.
Qed.
(** A round with one broadcast packet. *)
Lemma sendPackets_single s p :
  wf s → can_send s → targeted_packets_to_send_list s = [] →
  broadcast_packets_to_send_list s = [p] → looked_at s p →
  ∃ s1 sent, let s' := upd_broadcast_packets_to_send_list (λ l, if decide (sent = []) then l else []) s1 in
    sendPackets s = Ok (tt, s') ∧ wf s' ∧ sending s s1 sent ∧
    send_broadcast [p] s = Ok (if decide (sent = []) then [] else [p], s1) ∧
    (∀ e, e ∈ sent ↔ fst e = p ∧ ∃ h, broadcast_sends s p h ∧
      ∃ c, connections s !! h = Some (snd e, c)).
Proof.
  intros Hwf Hcan Ht Hb Hrec. unfold sendPackets. rewrite (M_bind_ok get _ _ _ _ eq_refl).
  rewrite decide_False by (rewrite Hb; by intros [? _]). rewrite Ht, Hb.
  cbn [send_targeted]. rewrite (M_bind_ok (mret []) _ _ _ _ eq_refl).
  rewrite (M_bind_ok (modify _) _ _ _ _ eq_refl). cbn [foldr].
  assert (upd_targeted_packets_to_send_list (λ l, l) s = s) as -> by (by destruct s).
  assert (NoDup (fst <$> items (connections s))) as Hnd by apply NoDup_items.
  destruct (broadcast_packet_serves p _ s Hwf Hcan
    (po_broadcast s (wf_pointers s Hwf) p ltac:(rewrite Hb; set_solver)) Hnd Hrec)
    as (b & s1 & sent & Hrun & Hs & Hbs & Hsent). exists s1, sent.
  assert (send_broadcast [p] s = Ok (if decide (sent = []) then [] else [p], s1)) as Hsb.
  { cbn [send_broadcast]. rewrite (M_bind_ok get _ _ _ _ eq_refl), (M_bind_ok _ _ _ _ _ Hrun).
    cbn. destruct b; [by rewrite decide_False by (by apply Hbs)|]. rewrite decide_True; [done|].
    destruct sent; [done|]. exfalso. assert (false = true) by (by apply Hbs). done. }
  cbn zeta. rewrite (M_bind_ok _ _ _ _ _ Hsb). pose proof Hs as [Hwf1 _ Hsame _ _ _ _].
  assert (filter (λ x, x ∉ (if decide (sent = []) then [] else [p])) (broadcast_packets_to_send_list s1)
    = if decide (sent = []) then broadcast_packets_to_send_list s1 else []) as Hfl.
  { rewrite (sb_broadcast _ _ Hsame), Hb. case_decide; cbn.
    - by rewrite decide_True by set_solver.
    - by rewrite decide_False by set_solver. }
  assert (upd_broadcast_packets_to_send_list (filter (λ x, x ∉ (if decide (sent = []) then [] else [p]))) s1
    = upd_broadcast_packets_to_send_list (λ l, if decide (sent = []) then l else []) s1) as Hupd.
  { unfold upd_broadcast_packets_to_send_list. by rewrite Hfl. }
  split; [by rewrite <- Hupd|]. split.
  { rewrite <- Hupd. apply (wf_filter_broadcast s1 (λ x, x ∉ _)), Hwf1. }
  split_and!; [done|done|].
  intros e. rewrite Hsent. split; [naive_solver|]. intros (He & h & Hh & c & Hc). split; [done|].
  exists h. split_and!; [|done|eauto]. apply list_elem_of_fmap. exists (h, (snd e, c)).
  split; [done|]. by apply elem_of_items.
Qed.

(** A round with one broadcast packet that can not be written. *)
Lemma sendPackets_fails s p e :
  wf s → targeted_packets_to_send_list s = [] → broadcast_packets_to_send_list s = [p] →
  (∀ a h c, connections s !! h = Some (a, c) → SendPacketToConnection p a s = Err e) →
  (∃ h, broadcast_sends s p h) → sendPackets s = Err e.
Proof.
  intros Hwf Ht Hb Hfail [h Hh]. unfold sendPackets. rewrite (M_bind_ok get _ _ _ _ eq_refl).
  rewrite decide_False by (rewrite Hb; by intros [? _]). rewrite Ht, Hb.
  cbn [send_targeted]. rewrite (M_bind_ok (mret []) _ _ _ _ eq_refl).
  rewrite (M_bind_ok (modify _) _ _ _ _ eq_refl). cbn [foldr].
  assert (upd_targeted_packets_to_send_list (λ l, l) s = s) as -> by (by destruct s).
  cbn [send_broadcast]. rewrite M_bind_assoc, (M_bind_ok get _ _ _ _ eq_refl), M_bind_assoc.
  unfold mbind at 1, M_bind at 1. rewrite (broadcast_packet_fails p _ s e); [done..|].
  destruct Hh as (a & c & Hc & Hrest). exists h. split; [|by exists a, c].
  apply list_elem_of_fmap. exists (h, (a, c)). split; [done|]. by apply elem_of_items.
Qed.
End send.

(** * Properties *)

(** C11: [sendPackets] runs without undefined behaviour, keeps the invariant, and
    sends exactly the pairs it records: every targeted packet reaches its
    connection, broadcast packets go to available connections only, and a packet
    is never sent twice to a handle, nor to one that is recorded to have it, such
    as the handle it was received from. *)
Theorem sendPackets_at_most_once {env : Env} `{!AllocFresh env} (s : Tracker) :
  wf s → can_send s →
  ∃ s' sent, sendPackets s = Ok (tt, s') ∧ wf s' ∧ send_round s s' sent.
Proof.
  intros Hwf Hcan. destruct (sendPackets_run s Hwf Hcan) as (s' & sent & ? & ? & _ & ?). eauto.
Qed.

(** a broadcast packet goes to a connection exactly when the connection is
    available and none of the records from the packet's first one to the end of
    the list, including those of packets at greater addresses, has its handle. *)
Theorem broadcast_to_condition {env : Env} `{!AllocFresh env} (s : Tracker) (p : Addr) (h : Z) :
  wf s → can_send s → live_packet s p →
  ∃ b s', broadcast_to p h s = Ok (b, s') ∧ wf s' ∧
    (b = true ↔ ∃ a c, connections s !! h = Some (a, c) ∧ available c = true ∧
       ∀ e, e ∈ packets_connections_sent_list s →
            (∃ c0, (p, c0) ∈ packets_connections_sent_list s) → p ≤ fst e →
            handle_at s (snd e) ≠ Some (connection_handle c)) ∧
    (b = false → s' = s).
Proof.
  intros Hwf Hcan Hp. destruct (broadcast_to_run p h s Hwf Hcan Hp) as (b & s' & l & Hrun & Hs & Hb & Hf).
  exists b, s'. split_and!; [done|apply Hs| |].
  - rewrite Hb. unfold broadcast_sends. setoid_rewrite elem_of_find_to_end; [|apply (wf_ordered s Hwf)].
    naive_solver.
  - intros ->. apply Hf.
Qed.

(** a packet that has a record is withheld from a connection that never got
    it, because another packet at a greater address was sent there: the search
    runs on past the packet's own records. *)
Theorem broadcast_suppressed {env : Env} `{!AllocFresh env} (s : Tracker) (p p' c0 c' : Addr) (h : Z) a c :
  wf s → can_send s → live_packet s p → connections s !! h = Some (a, c) →
  (p, c0) ∈ packets_connections_sent_list s → (p', c') ∈ packets_connections_sent_list s →
  p < p' → handle_at s c' = Some (connection_handle c) →
  broadcast_to p h s = Ok (false, s).
Proof.
  intros Hwf Hcan Hp Hc H0 H' Hlt Hh.
  destruct (broadcast_to_run p h s Hwf Hcan Hp) as (b & s' & l & Hrun & _ & Hb & Hf).
  destruct b; [|by destruct Hf as [_ ->]]. exfalso.
  destruct (proj1 Hb eq_refl) as (a1 & c1 & Hc1 & _ & Hall). rewrite Hc in Hc1. injection Hc1 as <- <-.
  apply (Hall (p', c')); [|done]. apply elem_of_find_to_end; [apply (wf_ordered s Hwf)|].
  split_and!; [by exists c0|done|cbn; lia].
Qed.

(** ** Witnesses *)

(** Two connections and two messages; the first message came from handle 1, the
    second has been sent to handle 2. *)
Definition message_to_send (id : string) : Message :=
  setMessageId (str id) (Message_make 7 1000 0 5).

Definition connection_to (h : Z) : BleConnection :=
  setPacketCharacteristicValueHandle 9 (setConnected true (setConnectionHandle h BleConnection_new)).

Definition sending_example (broadcast : list Addr) (targeted : multimap Addr) : Tracker :=
  mkTracker ∅ {[ str "a" := (30, message_to_send "a"); str "b" := (40, message_to_send "b") ]} ∅
    1 Announce_new {[ 1 := (10, connection_to 1); 2 := (20, connection_to 2) ]} ∅ [] [] 0 ∅
    [(30, 10); (40, 20)] [] broadcast targeted None None None [].

Lemma packets_forwardable_check s : Forall forwardable (all_packets s) → packets_forwardable s.
Proof. intros Hall a p Hp. by eapply Forall_forall in Hall; [|eapply packet_at_all]. Qed.

Lemma sending_example_ok broadcast targeted :
  wf_check (sending_example broadcast targeted) = true →
  wf (sending_example broadcast targeted) ∧
  @can_send example_env (sending_example broadcast targeted).
Proof.
  intros Hc. split; [by apply wf_check_sound|]. split; [done|]. apply packets_forwardable_check.
  change (Forall forwardable (all_packets (sending_example [] []))). decide_concrete.
Qed.

Lemma sendPackets_at_most_once_witness :
  ∃ s' sent, @sendPackets example_env (sending_example [30; 40] [(1, 20)]) = Ok (tt, s') ∧
    wf s' ∧ send_round (sending_example [30; 40] [(1, 20)]) s' sent.
Proof. apply sendPackets_at_most_once; apply sending_example_ok; vm_compute; reflexivity. Defined.

Lemma broadcast_to_condition_witness :
  let s := sending_example [30] [] in
  ∃ b s', @broadcast_to example_env 40 1 s = Ok (b, s') ∧ wf s' ∧
    (b = true ↔ ∃ a c, connections s !! 1 = Some (a, c) ∧ available c = true ∧
       ∀ e, e ∈ packets_connections_sent_list s →
            (∃ c0, (40, c0) ∈ packets_connections_sent_list s) → 40 ≤ fst e →
            handle_at s (snd e) ≠ Some (connection_handle c)) ∧
    (b = false → s' = s).
Proof.
  apply broadcast_to_condition; [apply sending_example_ok; vm_compute; reflexivity..|].
  by exists (OMessage (str "b")).
Defined.

Lemma broadcast_suppressed_witness :
  @broadcast_to example_env 30 2 (sending_example [30] []) = Ok (false, sending_example [30] []).
Proof.
  apply (broadcast_suppressed (sending_example [30] []) 30 40 10 20 2 20 (connection_to 2));
    [apply sending_example_ok; vm_compute; reflexivity..|by exists (OMessage (str "a"))
    |reflexivity|decide_concrete|decide_concrete|lia|vm_compute; reflexivity].
Defined.
