(* ===== verification/Events.v ===== *)
(** The operations of the tracker as events, and the safety of any sequence of
    them.

    [Event] lists the operations that the rest of the program calls, [event_ok]
    what each of them needs.  The clean-up is not among them, since it does not
    keep the invariant; it is treated in the file Cleanup. *)

From S2P Require Import Prelude BinaryIO Packets StdContainers BleConnection Tracker TrackerWf TrackerSafety Sending.

(** * Events *)

Inductive Event :=
| EvConnectionForHandle (handle : Z)
| EvStoreMessage (m : Message)
| EvStorePacket (p : PacketPassAlong)
| EvCheckSender (sender : Z)
| EvAddAvailablePeer (address : list Z) (type : Z) (services : service_uuid_check_status) (rssi : Z)
| EvReportConnection (handle : Z) (address : list Z) (type : Z)
| EvReportConnectionWithRole (handle : Z) (address : list Z) (type role : Z)
| EvReportDisconnection (handle : Z)
| EvGetConnectableNeighbours
| EvRequestNextRssi
| EvPossiblyUpdateTimeOffset (timestamp_ms : Z)
| EvSetConnectionStarted (neighbour : Addr)
| EvEnqueueBroadcast (packet : Addr)
| EvEnqueueBroadcastFrom (packet connection peer : Addr)
| EvEnqueueTargeted (packet : Addr) (connection : BleConnection)
| EvAnnounceToConnections
| EvSendPackets
| EvNotifyRawPacket (handle : Z)
| EvWriteRawPacket (handle : Z)
| EvSetConnectionHandleForPeer (handle : Z) (peer : Addr)
| EvGetAnyDuplicateHandle.

Section events.
Context {env : Env}.

Definition run_event (e : Event) : M Tracker unit :=
  match e with
  | EvConnectionForHandle h => discard (connectionForConnHandle h)
  | EvStoreMessage m => discard (storeMessageAndReturnIfNew m)
  | EvStorePacket p => discard (storePacketAndReturnIfNew p)
  | EvCheckSender sender => discard (checkSenderInPeers sender)
  | EvAddAvailablePeer addr type services rssi => addAvailablePeer addr type services rssi
  | EvReportConnection h addr type => reportConnection h addr type
  | EvReportConnectionWithRole h addr type role => reportConnectionWithRole h addr type role
  | EvReportDisconnection h => reportDisconnection h
  | EvGetConnectableNeighbours => discard getConnectableNeighbours
  | EvRequestNextRssi => discard (requestNextRssi true)
  | EvPossiblyUpdateTimeOffset t => possiblyUpdateTimeOffset t
  | EvSetConnectionStarted a => setConnectionStarted a
  | EvEnqueueBroadcast p => enqueueBroadcastPacket p
  | EvEnqueueBroadcastFrom p c peer => enqueueBroadcastPacketFrom p c peer
  | EvEnqueueTargeted p c => enqueueTargetedPacket p c
  | EvAnnounceToConnections => announceToConnections
  | EvSendPackets => sendPackets
  | EvNotifyRawPacket h => notifyRawPacket h
  | EvWriteRawPacket h => writeRawPacket h
  | EvSetConnectionHandleForPeer h p => setConnectionHandleForPeer h p
  | EvGetAnyDuplicateHandle => discard getAnyDuplicateHandle
  end.

(** What the caller of an operation must guarantee: pointers are live, a
    received timestamp (and the clock) fit the signed arithmetic, the packets can
    be written, assertions are compiled out, and the measurement of signal
    strengths has a connection to start with. *)
Definition event_ok (s : Tracker) (e : Event) : Prop :=
  match e with
  | EvRequestNextRssi => connections s ≠ ∅
  | EvPossiblyUpdateTimeOffset t => in_width 63 t ∧ now_of s < 2 ^ 63
  | EvSetConnectionStarted a => ∃ k, addr_of s (ONeighbour k) = Some a
  | EvEnqueueBroadcast p => live_packet s p
  | EvEnqueueBroadcastFrom p c peer => live_packet s p ∧ live_connection s c ∧ live_peer s peer
  | EvEnqueueTargeted p _ => live_packet s p
  | EvAnnounceToConnections => length local_bd_addr = 6%nat
  | EvSendPackets => ndebug = true ∧ packets_forwardable s
  | EvNotifyRawPacket _ | EvWriteRawPacket _ => ndebug = true
  | EvSetConnectionHandleForPeer _ p => live_peer s p
  | _ => True
  end.
End events.


Section event_safety.
Context {env : Env} `{!AllocFresh env}.

Lemma wfp_run_event e s : wf s → event_ok s e → wfp (run_event e) any s.
Proof.
  intros Hwf Hok. destruct e; cbn [run_event event_ok] in *.
  - eapply wfp_discard. by apply wfp_connectionForConnHandle.
  - eapply wfp_discard. by apply wfp_storeMessage.
  - eapply wfp_discard. by apply wfp_storePacket.
  - eapply wfp_discard. by apply wfp_checkSender.
  - by apply wfp_addAvailablePeer.
  - by apply wfp_reportConnection.
  - by apply wfp_reportConnectionWithRole.
  - by apply wfp_reportDisconnection.
  - eapply wfp_discard. by apply wfp_getConnectableNeighbours.
  - eapply wfp_discard. by apply wfp_requestNextRssi_restart.
  - destruct Hok as [Ht Ho]. by apply wfp_possiblyUpdate.
  - destruct Hok as [k Hk]. by eapply wfp_setConnectionStarted.
  - eapply wfp_mono; [by apply wfp_enqueueBroadcast|done].
  - destruct Hok as (Hp & Hc & Hpe). by apply wfp_enqueueBroadcastFrom.
  - by apply wfp_enqueueTargeted.
  - by apply wfp_announceToConnections.
  - destruct (sendPackets_run s Hwf Hok) as (s' & sent & Hrun & Hwf' & He & _).
    unfold wfp, wp. rewrite Hrun. done.
  - by apply wfp_notifyRawPacket.
  - by apply wfp_writeRawPacket.
  - apply wfp_modify; [by apply wf_set_peer|done].
  - eapply wfp_discard. apply wfp_get. by apply wfp_find_duplicate.
Qed.

(** Every event is called as it must be, in the state it finds; that the events
    before it run is not assumed. *)
Fixpoint events_ok (s : Tracker) (es : list Event) : Prop :=
  match es with
  | [] => True
  | e :: es' => event_ok s e ∧
      match run_event e s with Ok (_, s') => events_ok s' es' | Err _ => True end
  end.

(** A sufficient condition, by evaluation. *)
Definition event_check (s : Tracker) (e : Event) : bool :=
  match e with
  | EvRequestNextRssi => bool_decide (connections s ≠ ∅)
  | EvPossiblyUpdateTimeOffset t =>
      bool_decide (in_width 63 t ∧ now_of s < 2 ^ 63)
  | EvSetConnectionStarted a => bool_decide (a ∈ node_addrs (available_neighbours s))
  | EvEnqueueBroadcast p => bool_decide (p ∈ packet_addrs s)
  | EvEnqueueBroadcastFrom p c peer =>
      bool_decide (p ∈ packet_addrs s ∧ c ∈ node_addrs (connections s) ∧
                   peer ∈ node_addrs (peers s))
  | EvEnqueueTargeted p _ => bool_decide (p ∈ packet_addrs s)
  | EvAnnounceToConnections => bool_decide (length local_bd_addr = 6%nat)
  | EvSendPackets => ndebug && bool_decide (Forall forwardable (all_packets s))
  | EvNotifyRawPacket _ | EvWriteRawPacket _ => ndebug
  | EvSetConnectionHandleForPeer _ p => bool_decide (p ∈ node_addrs (peers s))
  | _ => true
  end.

Fixpoint events_check (s : Tracker) (es : list Event) : bool :=
  match es with
  | [] => true
  | e :: es' => event_check s e &&
      match run_event e s with Ok (_, s') => events_check s' es' | Err _ => false end
  end.

Lemma event_check_sound s e : event_check s e = true → event_ok s e.
Proof.
  destruct e; cbn [event_check event_ok]; rewrite ?andb_true_iff, ?bool_decide_eq_true; try done.
  - intros Ha. exact (live_node_addrs _ _ Ha).
  - apply packet_addrs_live.
  - intros (Hp & Hc & Hpe). split_and!; [by apply packet_addrs_live
      |exact (live_node_addrs _ _ Hc)|exact (live_node_addrs _ _ Hpe)].
  - apply packet_addrs_live.
  - intros [Hnd Hf]. split; [done|by apply packets_forwardable_check].
  - intros Ha. exact (live_node_addrs _ _ Ha).
Qed.

Lemma events_check_sound es : ∀ s, events_check s es = true → events_ok s es.
Proof.
  induction es as [|e es IH]; intros s; [done|]. cbn [events_check events_ok].
  intros [He Hr]%andb_prop. split; [by apply event_check_sound|].
  destruct (run_event e s) as [[]|]; [by apply IH|done].
Qed.

Lemma wf_Tracker_new a : wf (Tracker_new a).
Proof.
  constructor; [|constructor; cbn; intros *; rewrite ?lookup_empty; try done; intros He; by apply elem_of_nil in He
                |constructor; constructor|..].
  - intros o o' b. destruct o, o'; cbn; rewrite ?lookup_empty; done.
  - intros h b c. cbn. by rewrite lookup_empty.
  - intros k b c. cbn. by rewrite lookup_empty.
Qed.
End event_safety.

(** * Properties *)

(** C1: starting from a well-formed state, such as the state at start-up, no
    sequence of tracker operations has undefined behaviour: no pointer in the
    tracker's lists dangles, no node is shared and nothing overflows, provided
    each operation is called as it must be; and the state stays well formed. *)
Theorem tracker_safe {env : Env} `{!AllocFresh env} (s : Tracker) (es : list Event) :
  wf s → events_ok s es → wp (for_each es run_event) (λ _, wf) s.
Proof.
  revert s. induction es as [|e es IH]; intros s Hwf Hok; [done|]. destruct Hok as [He Hrest].
  cbn [for_each]. apply wp_bind. pose proof (wfp_run_event e s Hwf He) as Hw.
  apply wp_ok in Hw as (u & s' & Hrun & Hwf' & _ & _). rewrite Hrun in Hrest.
  unfold wp at 1. rewrite Hrun. by apply IH.
Qed.

(** ** Witness *)

(** A neighbour is found, connected and discovered, a message is stored and
    broadcast, and the raw packet is handed over. *)
Definition example_events : list Event :=
  [EvAddAvailablePeer [1; 2; 3; 4; 5; 6] 0 ServiceUUIDAndNameFound (-40);
   EvGetConnectableNeighbours;
   EvReportConnectionWithRole 64 [1; 2; 3; 4; 5; 6] 0 HCI_ROLE_SLAVE;
   EvStoreMessage (message_to_send "a");
   EvCheckSender 5;
   EvAnnounceToConnections;
   EvRequestNextRssi;
   EvSendPackets;
   EvNotifyRawPacket 64;
   EvGetAnyDuplicateHandle;
   EvReportDisconnection 64].

Lemma tracker_safe_witness :
  wp (for_each example_events (@run_event example_env)) (λ _, wf) (Tracker_new 1).
Proof.
  apply (@tracker_safe example_env _); [apply wf_Tracker_new|].
  apply events_check_sound. vm_compute. reflexivity.
Defined.
