(* ===== verification/Protocol.v ===== *)
(** Component: the protocol processor (src/Packet/ProtocolProcessor.h and
    ProtocolProcessor.cpp), on top of the packet classes and the tracker.

    [processWrite] parses a value written by a peer and hands the packet to the
    tracker.  A [BleConnection &] argument is the address and the value of the
    connection, as [connectionForConnHandle] returns them.  The theorems follow a
    message from its arrival at one repeater to its arrival at the next. *)

From S2P Require Import Prelude BinaryIO Packets StdContainers BleConnection Tracker TrackerWf TrackerSafety Sending.

(** * ProtocolProcessor *)

Definition stringForType (type : Z) : string :=
  if decide (type = type_announce) then "Announce"
  else if decide (type = type_message) then "Message"
  else "UnknownType".

(** [peer.f()] for a mutating method of the peer behind a reference. *)
Definition peer_ptr_do (f : Peer → Peer) (a : Addr) : M Tracker unit :=
  s ← get;
  match node_at (peers s) a with
  | Some (id, _) => modify (upd_peers (node_update f id))
  | None => fail DanglingPtr
  end.

Section protocol.
Context {env : Env}.

Definition updateOrStorePeerNameFromAnnouncement (announce : Announce) (connection : BleConnection) :
    M Tracker unit :=
  peer ← checkSenderInPeers (packet_sender_id (pa_base (an_pass announce)));
  peer_ptr_do (updateName (an_name announce)) peer;;
  p ← deref peer_at peer;
  if decide (max_ttl p ≤ packet_ttl (base_of announce)) then
    peer_ptr_do (setAnnounceTtl (packet_ttl (base_of announce))) peer;;
    setConnectionHandleForPeer (connection_handle connection) peer
  else mret tt.

(** The case [type_announce]: the argument of [storePacketAndReturnIfNew] is the
    [PacketPassAlong] part of the announcement. *)
Definition process_announce (connection : Addr * BleConnection) (announce : Announce) : M Tracker unit :=
  updateOrStorePeerNameFromAnnouncement announce (snd connection);;
  possiblyUpdateTimeOffset (getPacketTimestampMs (base_of announce));;
  stored_announce ← storePacketAndReturnIfNew (an_pass announce);
  match stored_announce with
  | Some stored =>
      peer ← checkSenderInPeers (packet_sender_id (pa_base (an_pass announce)));
      enqueueBroadcastPacketFrom stored (fst connection) peer
  | None => mret tt
  end.

(** The case [type_message]. *)
Definition process_message (connection : Addr * BleConnection) (message : Message) : M Tracker unit :=
  stored_message ← storeMessageAndReturnIfNew message;
  match stored_message with
  | Some stored =>
      peer ← checkSenderInPeers (packet_sender_id (msg_base message));
      enqueueBroadcastPacketFrom stored (fst connection) peer
  | None => mret tt
  end.

Definition processWrite (connection : Addr * BleConnection) (offset : Z) (buffer : list Z)
    (buffer_size : Z) : M Tracker unit :=
  let reader := BinaryReader_new offset buffer buffer_size in
  '(version, reader) ← lift_result (read_uint8 reader);
  if decide (version < 1 ∨ version > 2) then mret tt else
  '(type, reader) ← lift_result (read_uint8 reader);
  if decide (type = type_announce) then
    '(announce, _) ← lift_result (Announce_read type version reader);
    process_announce connection announce
  else if decide (type = type_message) then
    '(message, _) ← lift_result (Message_read type version reader);
    process_message connection message
  else mret tt.
End protocol.

(** * What a buffer holds *)

Inductive Received :=
| RMessage (m : Message)
| RAnnounce (a : Announce)
| ROther.

(** The packet [processWrite] takes from a buffer. *)
Definition parse (offset : Z) (buffer : list Z) (buffer_size : Z) : result Received :=
  '(version, reader) ← read_uint8 (BinaryReader_new offset buffer buffer_size);
  if decide (version < 1 ∨ version > 2) then mret ROther else
  '(type, reader) ← read_uint8 reader;
  if decide (type = type_announce) then
    '(a, _) ← Announce_read type version reader; mret (RAnnounce a)
  else if decide (type = type_message) then
    '(m, _) ← Message_read type version reader; mret (RMessage m)
  else mret ROther.

(** What a parsed packet guarantees: every field has its width, the strings are
    within the limits of the wire format, and an announcement has no payload. *)
Definition received_ok (r : Received) : Prop :=
  match r with
  | RMessage m => Message_ok m ∧ normal_message m = m ∧ packet_type (base_of m) = type_message
  | RAnnounce a => Announce_ok a ∧ hasPayload (an_pass a) = false ∧ payload (an_pass a) = [] ∧
                   normal_announce a = a ∧ packet_type (base_of a) = type_announce
  | ROther => True
  end.

(** A value as BTstack hands it over: bytes, with 16-bit offset and size, the size
    within the memory. *)
Definition value_ok (offset : Z) (buffer : list Z) (size : Z) : Prop :=
  bytes_ok buffer ∧ in_width 16 offset ∧ in_width 16 size ∧ size ≤ Z.of_nat (length buffer).

#[global] Instance value_ok_dec offset buffer size : Decision (value_ok offset buffer size).
Proof. unfold value_ok. apply _. Defined.

(** * Lemmas: parsing *)

Lemma lift_bind {S A B} (r : result A) (k : A → M S B) s :
  (lift_result r ≫= k) s = match r with Ok a => k a s | Err e => Err e end.
Proof. by destruct r. Qed.

Section parsing.
Context {env : Env}.

Definition process (connection : Addr * BleConnection) (r : Received) : M Tracker unit :=
  match r with
  | RMessage m => process_message connection m
  | RAnnounce a => process_announce connection a
  | ROther => mret tt
  end.

(** [processWrite] parses and then processes. *)
Lemma processWrite_parse connection offset buffer size s :
  processWrite connection offset buffer size s
  = match parse offset buffer size with Ok r => process connection r s | Err e => Err e end.
Proof.
  unfold processWrite, parse. rewrite lift_bind.
  destruct (read_uint8 _) as [[version r1]|]; [|done]. cbn [mbind result_bind].
  case_decide; [done|]. rewrite lift_bind.
  destruct (read_uint8 r1) as [[type r2]|]; [|done]. cbn [mbind result_bind].
  case_decide; [|case_decide; [|done]]; rewrite lift_bind.
  - by destruct (Announce_read type version r2) as [[a r3]|].
  - by destruct (Message_read type version r2) as [[m r3]|].
Qed.
End parsing.

Lemma reader_wf_new offset buffer size :
  bytes_ok buffer → in_width 16 offset → in_width 16 size → size ≤ Z.of_nat (length buffer) →
  reader_wf (BinaryReader_new offset buffer size).
Proof. intros. constructor; cbn; auto; unfold in_width in *; lia. Qed.

(** Any buffer is parsed without reading outside it. *)
Lemma parse_ok offset buffer size :
  value_ok offset buffer size → ∃ r, parse offset buffer size = Ok r ∧ received_ok r.
Proof.
  intros (Hb & Ho & Hs & Hl). pose proof (reader_wf_new offset buffer size Hb Ho Hs Hl) as Hr. unfold parse.
  pose proof (wp_read_uint8 _ Hr) as Hw. apply wp_ok in Hw as (version & r1 & -> & Hr1 & _ & _).
  cbn [mbind result_bind]. case_decide; [by exists ROther|].
  pose proof (wp_read_uint8 _ Hr1) as Hw. apply wp_ok in Hw as (type & r2 & -> & Hr2 & _ & Ht).
  cbn [mbind result_bind]. case_decide; [|case_decide; [|by exists ROther]].
  - pose proof (wp_Announce_read type version r2 Ht Hr2) as Hw.
    apply wp_ok in Hw as (a & r3 & -> & _ & _ & Ha). exists (RAnnounce a). split; [done|]. cbn [received_ok]. by subst type.
  - pose proof (wp_Message_read type version r2 Ht Hr2) as Hw.
    apply wp_ok in Hw as (m & r3 & -> & _ & _ & Hm). exists (RMessage m). split; [done|]. cbn [received_ok]. by subst type.
Qed.

Lemma parse_received_ok offset buffer size r :
  value_ok offset buffer size → parse offset buffer size = Ok r → received_ok r.
Proof. intros Hv Hr. destruct (parse_ok _ _ _ Hv) as (r' & Hr' & Hok). congruence. Qed.

(** * Lemmas: a message arrives *)

(** Forwardability in terms of the maps. *)
Lemma packets_forwardable_alt s :
  wf s → packets_forwardable s ↔
    forwardable (PAnnounce (announce s)) ∧
    (∀ k a m, messages s !! k = Some (a, m) → forwardable (PMessage m)) ∧
    (∀ k a p, packets s !! k = Some (a, p) → forwardable (PPassAlong p)).
Proof.
  intros Hwf. pose proof (wf_separate s Hwf) as Hs. split.
  - intros Hf. split_and!.
    + apply (Hf (announce_at s)). by rewrite (packet_at_object s Hs OAnnounce).
    + intros k a m Hm. apply (Hf a).
      rewrite (packet_at_object s Hs (OMessage k)); cbn; by rewrite ?Hm.
    + intros k a p Hp. apply (Hf a).
      rewrite (packet_at_object s Hs (OPacket k)); cbn; by rewrite ?Hp.
  - intros (Ha & Hm & Hp) a p Hat. apply packet_at_all in Hat. unfold all_packets in Hat.
    apply elem_of_cons in Hat as [->|[Hat|Hat]%elem_of_app]; [done|..];
      apply list_elem_of_fmap in Hat as ([k [a' q]] & -> & Hin%elem_of_map_to_list).
    + exact (Hm _ _ _ Hin).
    + exact (Hp _ _ _ Hin).
Qed.

Section message.
Context {env : Env} `{!AllocFresh env}.

(** The node of the peer with an id, made if there is none. *)
Definition add_peer (id : Z) (s : Tracker) : Tracker :=
  match peers s !! id with
  | Some _ => s
  | None => upd_peers (λ m, <[id := (alloc (used s), setId id Peer_new)]> m) s
  end.

Definition peer_addr (id : Z) (s : Tracker) : Addr :=
  default 0 (fst <$> peers s !! id).

Lemma checkSender_run id s :
  checkSenderInPeers id s = Ok (peer_addr id (add_peer id s), add_peer id s).
Proof.
  unfold checkSenderInPeers, add_peer, peer_addr. rewrite (M_bind_ok get _ _ _ _ eq_refl).
  destruct (peers s !! id) as [[a p]|] eqn:Hp.
  - rewrite (M_bind_ok (mret tt) _ _ _ _ eq_refl), (M_bind_ok _ _ _ _ _ (subscript_run _ _ _ _ _)).
    unfold node_or, ensure. by rewrite !Hp.
  - rewrite M_bind_assoc, (M_bind_ok _ _ _ _ _ (subscript_run _ _ _ _ _)).
    unfold ensure. rewrite Hp. rewrite (M_bind_ok (modify _) _ _ _ _ eq_refl).
    set (n := (alloc (used s), setId id Peer_new)).
    replace (upd_peers (node_update (setId id) id) _) with (upd_peers (λ m, <[id := n]> m) s).
    2: { unfold upd_peers. cbn. f_equal. unfold node_update. by rewrite alter_insert_eq. }
    rewrite (M_bind_ok _ _ _ _ _ (subscript_run _ _ _ _ _)). unfold node_or, ensure.
    cbn [peers upd_peers]. by rewrite !lookup_insert_eq.
Qed.

Lemma storeMessage_new m s :
  messages s !! message_id m = None →
  storeMessageAndReturnIfNew m s
  = Ok (Some (alloc (used s)),
        upd_messages (λ ms, <[message_id m := (alloc (used s), m)]> ms) s).
Proof.
  intros Hm. unfold storeMessageAndReturnIfNew. rewrite (M_bind_ok get _ _ _ _ eq_refl). cbn zeta.
  rewrite Hm, (M_bind_ok _ _ _ _ _ (subscript_run _ _ _ _ _)). unfold node_or, ensure. rewrite Hm.
  cbn [default]. rewrite (M_bind_ok (modify _) _ _ _ _ eq_refl). unfold mret, M_ret. do 2 f_equal.
  unfold upd_messages. cbn. f_equal. unfold node_update. by rewrite alter_insert_eq.
Qed.

(** Enqueueing a packet from a connection and a peer that are all live. *)
Definition enqueued (p con peer : Addr) (pk : Packet) (s : Tracker) : Tracker :=
  upd_broadcast_packets_to_send_list
    (λ l, if decide (packet_ttl (base_of pk) > 0) then l ++ [p] else l)
    (upd_packets_peers_sent_list (emplace p peer)
      (upd_packets_connections_sent_list (emplace p con) s)).

(** The state after a new message has arrived over [connection]. *)
Definition relayed (connection : Addr) (m : Message) (s : Tracker) : Tracker :=
  let a := alloc (used s) in
  let sender := packet_sender_id (msg_base m) in
  let s1 := add_peer sender (upd_messages (λ ms, <[message_id m := (a, m)]> ms) s) in
  enqueued a connection (peer_addr sender s1) (PMessage m) s1.

Lemma wf_add_peer id s : wf s → wf (add_peer id s) ∧ extends s (add_peer id s).
Proof.
  intros Hwf. pose proof (wfp_checkSender id s Hwf) as Hw. unfold wfp, wp in Hw.
  rewrite checkSender_run in Hw. naive_solver.
Qed.

Lemma peer_addr_add id s : fst <$> peers (add_peer id s) !! id = Some (peer_addr id (add_peer id s)).
Proof.
  unfold peer_addr, add_peer. destruct (peers s !! id) as [[a p]|] eqn:Hp; [by rewrite Hp|].
  cbn. by rewrite lookup_insert_eq.
Qed.

(** Adding a peer changes nothing else. *)
Lemma add_peer_same id s :
  messages (add_peer id s) = messages s ∧ packets (add_peer id s) = packets s ∧
  announce (add_peer id s) = announce s ∧ announce_at (add_peer id s) = announce_at s ∧
  connections (add_peer id s) = connections s ∧
  available_neighbours (add_peer id s) = available_neighbours s ∧
  packets_connections_sent_list (add_peer id s) = packets_connections_sent_list s ∧
  packets_peers_sent_list (add_peer id s) = packets_peers_sent_list s ∧
  broadcast_packets_to_send_list (add_peer id s) = broadcast_packets_to_send_list s ∧
  targeted_packets_to_send_list (add_peer id s) = targeted_packets_to_send_list s ∧
  timestamp_offset_ms (add_peer id s) = timestamp_offset_ms s ∧
  handle_peer_map (add_peer id s) = handle_peer_map s ∧
  outbox (add_peer id s) = outbox s ∧ calls (add_peer id s) = calls s.
Proof. unfold add_peer. by destruct (peers s !! id). Qed.

Lemma enqueueFrom_run p con peer pk s :
  wf s → live_packet s p → live_connection s con → live_peer s peer → packet_at s p = Some pk →
  enqueueBroadcastPacketFrom p con peer s = Ok (tt, enqueued p con peer pk s) ∧
  wf (enqueued p con peer pk s) ∧ extends s (enqueued p con peer pk s).
Proof.
  intros Hwf Hp Hc Hpe Hpk.
  assert (enqueueBroadcastPacketFrom p con peer s = Ok (tt, enqueued p con peer pk s)) as Hrun.
  { unfold enqueueBroadcastPacketFrom, enqueueBroadcastPacket.
    rewrite !(M_bind_ok (modify _) _ _ _ _ eq_refl).
    erewrite M_bind_ok by (apply deref_ok; exact Hpk).
    unfold enqueued. by case_decide. }
  pose proof (wfp_enqueueBroadcastFrom p con peer s Hwf Hp Hc Hpe) as Hw.
  unfold wfp, wp in Hw. rewrite Hrun in Hw. naive_solver.
Qed.

Lemma process_message_new connection m s :
  wf s → live_connection s (fst connection) → messages s !! message_id m = None →
  process_message connection m s = Ok (tt, relayed (fst connection) m s) ∧
  wf (relayed (fst connection) m s) ∧ extends s (relayed (fst connection) m s).
Proof.
  intros Hwf Hc Hm. unfold process_message.
  rewrite (M_bind_ok _ _ _ _ _ (storeMessage_new m s Hm)).
  destruct (wf_new_message (message_id m) m s Hm Hwf) as [Hwf1 He1].
  rewrite (M_bind_ok _ _ _ _ _ (checkSender_run _ _)). unfold relayed. cbn zeta.
  set (s1 := upd_messages _ s) in *. set (sender := packet_sender_id _).
  destruct (wf_add_peer sender s1 Hwf1) as [Hwf2 He2].
  destruct (add_peer_same sender s1) as (Hms & _).
  assert (addr_of (add_peer sender s1) (OMessage (message_id m)) = Some (alloc (used s))) as Ha.
  { cbn. rewrite Hms. cbn. by rewrite lookup_insert_eq. }
  destruct (enqueueFrom_run (alloc (used s)) (fst connection) (peer_addr sender (add_peer sender s1))
    (PMessage m) (add_peer sender s1) Hwf2) as (Hrun & Hwf3 & He3).
  - by exists (OMessage (message_id m)).
  - apply (live_connection_extends s); [by etrans|done].
  - exists sender. apply peer_addr_add.
  - rewrite (packet_at_object _ (wf_separate _ Hwf2) (OMessage (message_id m))) by done.
    cbn. rewrite Hms. cbn. by rewrite lookup_insert_eq.
  - rewrite Hrun. split_and!; [done|exact Hwf3|]. etrans; [exact He1|]. by etrans.
Qed.

Lemma process_message_known connection m s :
  messages s !! message_id m ≠ None → process_message connection m s = Ok (tt, s).
Proof.
  intros Hm. unfold process_message, storeMessageAndReturnIfNew.
  rewrite M_bind_assoc, (M_bind_ok get _ _ _ _ eq_refl). cbn zeta.
  by destruct (messages s !! message_id m).
Qed.

(** What [relayed] changes. *)
Lemma relayed_fields con m s :
  let a := alloc (used s) in
  let s' := relayed con m s in
  messages s' = <[message_id m := (a, m)]> (messages s) ∧
  (∃ peer, fst <$> peers s' !! packet_sender_id (msg_base m) = Some peer ∧
     packets_peers_sent_list s' = emplace a peer (packets_peers_sent_list s)) ∧
  packets_connections_sent_list s' = emplace a con (packets_connections_sent_list s) ∧
  broadcast_packets_to_send_list s'
    = (if decide (packet_ttl (base_of m) > 0) then broadcast_packets_to_send_list s ++ [a]
       else broadcast_packets_to_send_list s) ∧
  targeted_packets_to_send_list s' = targeted_packets_to_send_list s ∧
  connections s' = connections s ∧ available_neighbours s' = available_neighbours s ∧
  packets s' = packets s ∧ announce s' = announce s ∧ outbox s' = outbox s.
Proof.
  cbn zeta. unfold relayed, enqueued. set (s1 := upd_messages _ s). cbn zeta.
  set (sender := packet_sender_id _).
  destruct (add_peer_same sender s1) as (H1 & H2 & H3 & _ & H5 & H6 & H7 & H8 & H9 & H10 & _ & _ & H13 & _).
  split_and!; [exact H1| | | |exact H10|exact H5|exact H6|exact H2|exact H3|exact H13].
  - exists (peer_addr sender (add_peer sender s1)). split; [apply peer_addr_add|].
    by rewrite <- (H8 : _ = packets_peers_sent_list s).
  - by rewrite <- (H7 : _ = packets_connections_sent_list s).
  - cbn. by rewrite H9.
Qed.

(** The state [relayed] in full: the tracker with a message at [a], known to the
    peer at [peer], and with the peers [ps]. *)
Definition with_message (a peer con : Addr) (m : Message) (ps : nodes Z Peer) (s : Tracker) : Tracker :=
  mkTracker ps (<[message_id m := (a, m)]> (messages s)) (packets s) (announce_at s) (announce s)
    (connections s) (available_neighbours s) (raw_packet_to_notify s) (raw_packet_to_write s)
    (timestamp_offset_ms s) (handle_peer_map s)
    (emplace a con (packets_connections_sent_list s)) (emplace a peer (packets_peers_sent_list s))
    (broadcast_packets_to_send_list s ++ (if decide (packet_ttl (base_of m) > 0) then [a] else []))
    (targeted_packets_to_send_list s) (notify_context s) (write_context s) (rssi_iterator s) (calls s).

(** The sender of a message that arrives is the peer there is, or a new one. *)
Definition sender_known (id : Z) (fresh : Addr → Prop) (peer : Addr) (s : Tracker) (ps : nodes Z Peer) : Prop :=
  match peers s !! id with
  | Some (p, _) => peer = p ∧ ps = peers s
  | None => fresh peer ∧ ps = <[id := (peer, setId id Peer_new)]> (peers s)
  end.

Lemma used_new_message a id m s x :
  messages s !! id = None → x ∈ used s → x ∈ used (upd_messages (λ ms, <[id := (a, m)]> ms) s).
Proof.
  intros Hm. unfold used. cbn [peers messages packets connections available_neighbours announce_at upd_messages].
  rewrite !elem_of_union, !elem_of_list_to_set, !elem_of_app, !(elem_of_node_addrs (messages s)),
    !(elem_of_node_addrs (<[id := (a, m)]> (messages s))).
  intros [H|[H|[(k & v & Hk)|H]]]; [tauto|tauto| |tauto]. right. right. left. exists k, v.
  rewrite lookup_insert_ne by congruence. done.
Qed.

Lemma relayed_eq con m s :
  let a := alloc (used s) in
  messages s !! message_id m = None →
  ∃ peer ps, relayed con m s = with_message a peer con m ps s ∧
    sender_known (packet_sender_id (msg_base m)) (λ p, p ∉ used s ∧ p ≠ a) peer s ps.
Proof.
  intros a Hm. unfold relayed, add_peer, sender_known, enqueued, with_message. fold a. cbv zeta. cbn [peers upd_messages].
  destruct (peers s !! packet_sender_id (msg_base m)) as [[p q]|] eqn:Hp.
  - exists p, (peers s). split; [|done]. unfold peer_addr. cbn. rewrite Hp. cbn.
    unfold upd_broadcast_packets_to_send_list. cbn. by case_decide; rewrite ?app_nil_r.
  - set (s1 := upd_messages _ s). exists (alloc (used s1)). eexists. split; [|split; [|reflexivity]].
    + unfold peer_addr. cbn. rewrite lookup_insert_eq. cbn.
      unfold upd_broadcast_packets_to_send_list. cbn. by case_decide; rewrite ?app_nil_r.
    + pose proof (alloc_fresh (used s1)) as Hf. split.
      * intros Hin. apply Hf. by apply used_new_message.
      * intros Hin. apply Hf. rewrite Hin. apply addr_of_used with (OMessage (message_id m)).
        cbn. by rewrite lookup_insert_eq.
Qed.

Lemma relayed_forwardable con m s :
  wf s → wf (relayed con m s) → packets_forwardable s → forwardable (PMessage m) →
  packets_forwardable (relayed con m s).
Proof.
  intros Hwf Hwf' (Ha & Hm & Hp)%packets_forwardable_alt Hf; [|done].
  destruct (relayed_fields con m s) as (Hms & _ & _ & _ & _ & _ & _ & Hps & Han & _).
  apply packets_forwardable_alt; [done|]. rewrite Hms, Hps, Han. split_and!; [done| |done].
  intros k a m'. rewrite lookup_insert. case_decide; [by intros [= <- <-]|apply Hm].
Qed.
End message.

(** * Lemmas: an announcement arrives *)

Section announcement.
Context {env : Env} `{!AllocFresh env}.

Lemma peer_node s id a p :
  separate s → peers s !! id = Some (a, p) → node_at (peers s) a = Some (id, p).
Proof. intros Hs Hp. apply (node_at_object s _ OPeer id a p); try done. intros ??; congruence. Qed.

Lemma peer_ptr_do_run f id a p s :
  separate s → peers s !! id = Some (a, p) →
  peer_ptr_do f a s = Ok (tt, upd_peers (node_update f id) s).
Proof.
  intros Hs Hp. unfold peer_ptr_do. rewrite (M_bind_ok get _ _ _ _ eq_refl).
  by rewrite (peer_node s id a p).
Qed.

Definition announce_sender (an : Announce) : Z := packet_sender_id (pa_base (an_pass an)).

(** The peer an announcement is about, before it. *)
Definition known_peer (id : Z) (s : Tracker) : Peer :=
  default (setId id Peer_new) (snd <$> peers s !! id).

(** The state after [updateOrStorePeerNameFromAnnouncement]. *)
Definition introduced (an : Announce) (c : BleConnection) (s : Tracker) : Tracker :=
  let id := announce_sender an in
  let s1 := add_peer id s in
  let s2 := upd_peers (node_update (updateName (an_name an)) id) s1 in
  if decide (max_ttl (known_peer id s) ≤ packet_ttl (base_of an))
  then upd_handle_peer_map (λ m, <[connection_handle c := peer_addr id s1]> m)
         (upd_peers (node_update (setAnnounceTtl (packet_ttl (base_of an))) id) s2)
  else s2.

Lemma add_peer_lookup id s :
  peers (add_peer id s) !! id = Some (peer_addr id (add_peer id s), known_peer id s).
Proof.
  unfold peer_addr, known_peer, add_peer. destruct (peers s !! id) as [[a p]|] eqn:Hp.
  - by rewrite Hp.
  - cbn. by rewrite lookup_insert_eq.
Qed.

Lemma introduced_run an c s :
  wf s →
  updateOrStorePeerNameFromAnnouncement an c s = Ok (tt, introduced an c s) ∧
  wf (introduced an c s) ∧ extends s (introduced an c s).
Proof.
  intros Hwf. unfold updateOrStorePeerNameFromAnnouncement, introduced.
  fold (announce_sender an). set (id := announce_sender an).
  rewrite (M_bind_ok _ _ _ _ _ (checkSender_run id s)). cbn zeta.
  destruct (wf_add_peer id s Hwf) as [Hwf1 He1]. pose proof (add_peer_lookup id s) as Hp.
  set (a := peer_addr id (add_peer id s)) in *. set (p := known_peer id s) in *.
  rewrite (M_bind_ok _ _ _ _ _ (peer_ptr_do_run _ id a p _ (wf_separate _ Hwf1) Hp)).
  destruct (wf_update_peer _ (updateName (an_name an)) id Hwf1) as [Hwf2 He2].
  set (s2 := upd_peers (node_update (updateName (an_name an)) id) _) in *.
  assert (peers s2 !! id = Some (a, updateName (an_name an) p)) as Hp2.
  { cbn. by rewrite lookup_node_update, decide_True, Hp by done. }
  erewrite M_bind_ok by (apply deref_ok; unfold peer_at;
    by rewrite (peer_node s2 id a _ (wf_separate _ Hwf2) Hp2)).
  change (max_ttl (snd (id, updateName (an_name an) p))) with (max_ttl p). case_decide.
  - rewrite (M_bind_ok _ _ _ _ _ (peer_ptr_do_run _ id a _ _ (wf_separate _ Hwf2) Hp2)).
    destruct (wf_update_peer _ (setAnnounceTtl (packet_ttl (base_of an))) id Hwf2) as [Hwf3 He3].
    set (s3 := upd_peers (node_update (setAnnounceTtl _) id) s2) in *.
    assert (live_peer s3 a) as Hlive.
    { exists id. cbn. rewrite lookup_node_update, decide_True by done.
      by rewrite lookup_node_update, decide_True, Hp by done. }
    destruct (wf_set_peer s3 (connection_handle c) a Hwf3 Hlive) as [Hwf4 He4].
    split_and!; [done|done|]. etrans; [exact He1|]. etrans; [exact He2|]. by etrans.
  - split_and!; [done|done|by etrans].
Qed.

Lemma introduced_now an c s : now_of (introduced an c s) = now_of s.
Proof.
  unfold introduced, now_of, clock. destruct (add_peer_same (announce_sender an) s)
    as (_ & _ & _ & _ & _ & _ & _ & _ & _ & _ & H1 & _ & _ & H2).
  case_decide; cbn; by rewrite H1, H2.
Qed.

(** The peer after an announcement. *)
Lemma introduced_peer an c s :
  let id := announce_sender an in
  let ttl := packet_ttl (base_of an) in
  let p := known_peer id s in
  ∃ a, peers (introduced an c s) !! id
         = Some (a, updateName (an_name an) (setAnnounceTtl (Z.max (max_ttl p) ttl) p)) ∧
    handle_peer_map (introduced an c s)
      = if decide (max_ttl p ≤ ttl) then <[connection_handle c := a]> (handle_peer_map s)
        else handle_peer_map s.
Proof.
  cbn zeta. set (id := announce_sender an). exists (peer_addr id (add_peer id s)).
  unfold introduced. fold id. cbn zeta. pose proof (add_peer_lookup id s) as Hp.
  generalize (packet_ttl (base_of an)). intros ttl.
  destruct (add_peer_same id s) as (_ & _ & _ & _ & _ & _ & _ & _ & _ & _ & _ & Hh & _).
  destruct (known_peer id s) as [i n k t h] eqn:Hk. cbn [max_ttl].
  case_decide; cbn; rewrite !lookup_node_update, ?decide_True, Hp by done; cbn; rewrite Hh;
    (split; [|done]); do 3 f_equal; unfold setAnnounceTtl, updateName; cbn; f_equal; lia.
Qed.

(** An announcement touches nothing but the peers and the map of handles ... *)
Lemma introduced_same an c s :
  let s' := introduced an c s in
  messages s' = messages s ∧ packets s' = packets s ∧ announce s' = announce s ∧
  connections s' = connections s ∧ available_neighbours s' = available_neighbours s ∧
  packets_connections_sent_list s' = packets_connections_sent_list s ∧
  packets_peers_sent_list s' = packets_peers_sent_list s ∧
  broadcast_packets_to_send_list s' = broadcast_packets_to_send_list s ∧
  targeted_packets_to_send_list s' = targeted_packets_to_send_list s ∧
  timestamp_offset_ms s' = timestamp_offset_ms s.
Proof.
  cbn zeta. unfold introduced. cbn zeta. destruct (add_peer_same (announce_sender an) s)
    as (H1 & H2 & H3 & _ & H5 & H6 & H7 & H8 & H9 & H10 & H11 & _).
  case_decide; split_and!; assumption.
Qed.

(** ... then the clock, ... *)
Definition synchronised (ts : Z) (s : Tracker) : Tracker :=
  upd_timestamp_offset_ms
    (λ o, if decide (time_differs ts (now_of s)) then u64 (o + (ts - now_of s)) else o) (ticked s).

Lemma synchronised_run ts s :
  wf s → in_width 63 ts → now_of s < 2 ^ 63 →
  possiblyUpdateTimeOffset ts s = Ok (tt, synchronised ts s) ∧
  wf (synchronised ts s) ∧ extends s (synchronised ts s).
Proof.
  intros Hwf Hts Hnow. pose proof (wfp_possiblyUpdate ts s Hwf Hts Hnow) as Hw.
  unfold wfp, wp in Hw. rewrite possiblyUpdate_run in * by done. naive_solver.
Qed.

(** ... and then stores the packet. *)
Definition hash_of (p : PacketPassAlong) : Z :=
  match getPacketHash hash_string size_t_bits p with Ok id => id | Err _ => 0 end.

Lemma storePacket_run p s :
  storePacketAndReturnIfNew p s
  = match packets s !! hash_of p with
    | Some _ => Ok (None, s)
    | None => Ok (Some (alloc (used s)),
                  upd_packets (λ ps, <[hash_of p := (alloc (used s), p)]> ps) s)
    end.
Proof.
  unfold storePacketAndReturnIfNew, hash_of. rewrite (M_bind_ok get _ _ _ _ eq_refl), lift_bind.
  destruct (getPacketHash_ok p) as [id ->]. destruct (packets s !! id) as [n|] eqn:Hp; [done|].
  rewrite (M_bind_ok _ _ _ _ _ (subscript_run _ _ _ _ _)). unfold node_or, ensure. rewrite Hp.
  cbn [default]. rewrite (M_bind_ok (modify _) _ _ _ _ eq_refl). unfold mret, M_ret. do 2 f_equal.
  unfold upd_packets. cbn. f_equal. unfold node_update. by rewrite alter_insert_eq.
Qed.

(** The state after an announcement has arrived over [connection]. *)
Definition heard (connection : Addr * BleConnection) (an : Announce) (s : Tracker) : Tracker :=
  let p := an_pass an in
  let s1 := synchronised (getPacketTimestampMs (base_of an)) (introduced an (snd connection) s) in
  match packets s1 !! hash_of p with
  | Some _ => s1
  | None =>
      enqueued (alloc (used s1)) (fst connection) (peer_addr (announce_sender an) s1) (PPassAlong p)
        (upd_packets (λ ps, <[hash_of p := (alloc (used s1), p)]> ps) s1)
  end.

Lemma process_announce_run connection an s :
  wf s → live_connection s (fst connection) → Announce_ok an → now_of s < 2 ^ 63 →
  process_announce connection an s = Ok (tt, heard connection an s) ∧
  wf (heard connection an s) ∧ extends s (heard connection an s).
Proof.
  intros Hwf Hc Hok Hnow. unfold process_announce, heard. cbn zeta.
  destruct (introduced_run an (snd connection) s Hwf) as (Hrun1 & Hwf1 & He1).
  rewrite (M_bind_ok _ _ _ _ _ Hrun1). pose proof (introduced_peer an (snd connection) s) as Hpeer.
  cbn zeta in Hpeer. destruct Hpeer as (pa & Hpa & _).
  rewrite <- (introduced_now an (snd connection) s) in Hnow.
  set (s1 := introduced an (snd connection) s) in *.
  set (ts := getPacketTimestampMs (base_of an)).
  assert (in_width 63 ts) as Hts.
  { destruct Hok as [[[[_ [_ [Ht _]]] _] _] _]. unfold ts, getPacketTimestampMs.
    cbn [base_of Announce_is_packet]. unfold in_width in *. div_lia. }
  destruct (synchronised_run ts s1 Hwf1 Hts Hnow) as (Hrun2 & Hwf2 & He2).
  rewrite (M_bind_ok _ _ _ _ _ Hrun2). set (s2 := synchronised ts s1) in *.
  assert (extends s s2) as He by (by etrans). unfold mbind at 1, M_bind at 1. rewrite storePacket_run.
  destruct (packets s2 !! hash_of (an_pass an)) eqn:Hp; [by split_and!|].
  destruct (wf_new_packet (hash_of (an_pass an)) (an_pass an) s2 Hp Hwf2) as [Hwf3 He3].
  rewrite (M_bind_ok _ _ _ _ _ (checkSender_run _ _)). fold (announce_sender an).
  set (s3 := upd_packets _ s2) in *.
  assert (peers s3 !! announce_sender an = peers s1 !! announce_sender an) as Hps by done.
  assert (add_peer (announce_sender an) s3 = s3) as ->.
  { unfold add_peer. by rewrite Hps, Hpa. }
  assert (addr_of s3 (OPacket (hash_of (an_pass an))) = Some (alloc (used s2))) as Ha.
  { cbn. by rewrite lookup_insert_eq. }
  destruct (enqueueFrom_run (alloc (used s2)) (fst connection) (peer_addr (announce_sender an) s3)
    (PPassAlong (an_pass an)) s3 Hwf3) as (Hrun3 & Hwf4 & He4).
  - by exists (OPacket (hash_of (an_pass an))).
  - apply (live_connection_extends s); [by etrans|done].
  - exists (announce_sender an). unfold peer_addr. cbn [addr_of]. by rewrite Hps, Hpa.
  - rewrite (packet_at_object _ (wf_separate _ Hwf3) (OPacket (hash_of (an_pass an)))) by done.
    cbn. by rewrite lookup_insert_eq.
  - rewrite Hrun3. split_and!; [done|exact Hwf4|]. etrans; [exact He|]. by etrans.
Qed.
End announcement.

(** * Lemmas: anything arrives *)

Section arrival.
Context {env : Env} `{!AllocFresh env}.

Lemma process_run connection r s :
  wf s → live_connection s (fst connection) → received_ok r → now_of s < 2 ^ 63 →
  ∃ s', process connection r s = Ok (tt, s') ∧ wf s' ∧ extends s s' ∧ (r = ROther → s' = s).
Proof.
  intros Hwf Hc Hok Hnow. destruct r as [m|an|]; cbn [process].
  - destruct (decide (messages s !! message_id m = None)) as [Hm|Hm].
    + destruct (process_message_new connection m s Hwf Hc Hm) as (-> & ? & ?).
      eexists. by split_and!.
    + rewrite process_message_known by done. exists s. by split_and!.
  - destruct (process_announce_run connection an s) as (-> & ? & ?); [done|done|apply Hok|done|].
    eexists. by split_and!.
  - exists s. by split_and!.
Qed.

Lemma wfp_processWrite connection offset buffer size s :
  wf s → live_connection s (fst connection) → value_ok offset buffer size → now_of s < 2 ^ 63 →
  wfp (processWrite connection offset buffer size) any s.
Proof.
  intros Hwf Hc Hv Hnow. destruct (parse_ok offset buffer size Hv) as (r & Hr & Hok).
  destruct (process_run connection r s Hwf Hc Hok Hnow) as (s' & Hrun & Hwf' & He & _).
  unfold wfp, wp. by rewrite processWrite_parse, Hr, Hrun.
Qed.
End arrival.

(** * Lemmas: from repeater to repeater *)

(** Version and type in front of a packet. *)
Lemma read_header type rest :
  in_width 8 type → Z.of_nat (length (1 :: type :: rest)) < 2 ^ 16 →
  read_uint8 (reader_of (1 :: type :: rest)) = Ok (1, reader_at 0 [1] (type :: rest)) ∧
  read_uint8 (reader_at 0 [1] (type :: rest)) = Ok (type, reader_at 0 [1; type] rest).
Proof.
  intros Ht Hl. split.
  - exact (reads_uint8 1 ltac:(done) 0 [] _ ltac:(apply in_width_nat; exact Hl)).
  - exact (reads_uint8 type Ht 0 [1] rest ltac:(apply in_width_nat; exact Hl)).
Qed.

(** [parse] and the constructors agree on a buffer of version 1. *)
Lemma parse_received rest :
  (∀ m r, Z.of_nat (length (1 :: type_message :: rest)) < 2 ^ 16 →
     receive Message_read (reader_of (1 :: type_message :: rest)) = Ok (m, r) →
     parse 0 (1 :: type_message :: rest) (Z.of_nat (length (1 :: type_message :: rest)))
     = Ok (RMessage m)) ∧
  (∀ an r, Z.of_nat (length (1 :: type_announce :: rest)) < 2 ^ 16 →
     receive Announce_read (reader_of (1 :: type_announce :: rest)) = Ok (an, r) →
     parse 0 (1 :: type_announce :: rest) (Z.of_nat (length (1 :: type_announce :: rest)))
     = Ok (RAnnounce an)).
Proof.
  split; intros v r Hl Hr; unfold receive in Hr; unfold parse.
  - destruct (read_header type_message rest ltac:(done) Hl) as [H1 H2].
    rewrite (M_bind_ok _ _ _ _ _ H1), (M_bind_ok _ _ _ _ _ H2) in Hr.
    unfold reader_of in H1. rewrite H1. cbn [mbind result_bind]. rewrite decide_False by lia.
    rewrite H2. cbn [mbind result_bind]. rewrite decide_False, decide_True by done. by rewrite Hr.
  - destruct (read_header type_announce rest ltac:(done) Hl) as [H1 H2].
    rewrite (M_bind_ok _ _ _ _ _ H1), (M_bind_ok _ _ _ _ _ H2) in Hr.
    unfold reader_of in H1. rewrite H1. cbn [mbind result_bind]. rewrite decide_False by lia.
    rewrite H2. cbn [mbind result_bind]. rewrite decide_True by done. by rewrite Hr.
Qed.

(** What a repeater queues for a stored message is parsed as that message. *)
Lemma parse_encoding m :
  Message_ok m → normal_message m = m → packet_type (base_of m) = type_message →
  Z.of_nat (length (encoding (PMessage m))) < 2 ^ 16 →
  parse 0 (encoding (PMessage m)) (Z.of_nat (length (encoding (PMessage m)))) = Ok (RMessage m).
Proof.
  intros Hok Hn Ht Hlen. unfold encoding, packet_enc in *. cbn [app] in *. rewrite Ht in *.
  eapply parse_received; [done|]. rewrite <- Hn at 3.
  pose proof (receive_ok Message_read (base_of m) (Message_enc m) (normal_message m) []
    (proj1 (proj1 Hok))) as Hr. rewrite app_nil_r in Hr. unfold packet_enc in Hr. rewrite Ht in Hr.
  apply Hr; [done|]. rewrite <- Ht. by apply reads_Message.
Qed.

Section flooding.
Context {env : Env} `{!AllocFresh env}.

Lemma relayed_handle con m s x : handle_at (relayed con m s) x = handle_at s x.
Proof.
  destruct (relayed_fields con m s) as (_ & _ & _ & _ & _ & Hc & Hn & _).
  unfold handle_at, connection_at. by rewrite Hc, Hn.
Qed.

(** Who needs a message that has just arrived over [con]. *)
Definition needs_new (s : Tracker) (con : Addr) (h : Z) : Prop :=
  (∃ a c, connections s !! h = Some (a, c) ∧ available c = true) ∧
  handle_at s con ≠ Some h ∧
  ∀ r, r ∈ packets_connections_sent_list s → alloc (used s) < fst r → handle_at s (snd r) ≠ Some h.

Lemma relayed_sends con m s h :
  wf s → wf (relayed con m s) →
  broadcast_sends (relayed con m s) (alloc (used s)) h ↔ needs_new s con h.
Proof.
  intros Hwf Hwf'. pose proof (relayed_fields con m s) as Hf. cbn zeta in Hf.
  destruct Hf as (_ & _ & Hl & _ & _ & Hc & _).
  rewrite broadcast_sends_recorded; [|done|].
  2: { left. exists con. rewrite Hl. apply elem_of_emplace. by left. }
  rewrite Hc, Hl. setoid_rewrite relayed_handle. setoid_rewrite elem_of_emplace. split.
  - intros (a & c & Hn & Hav & Hall). destruct (available_handle s h a c) as [Hh _]; [done..|].
    rewrite Hh in Hall. split_and!; [eauto| |].
    + apply (Hall (alloc (used s), con)); [by left|done].
    + intros r Hr Hlt. apply Hall; [by right|lia].
  - intros ((a & c & Hn & Hav) & Hcon & Hall). exists a, c.
    destruct (available_handle s h a c) as [Hh _]; [done..|]. rewrite Hh.
    split_and!; [done|done|]. intros r [->|Hr] Hle; [done|]. apply Hall; [done|].
    destruct (po_sent s (wf_pointers s Hwf) r Hr) as [(o & _ & Ho%addr_of_used) _].
    pose proof (alloc_fresh (used s)). assert (fst r ≠ alloc (used s)) by congruence. lia.
Qed.

Lemma relayed_packet con m s :
  wf (relayed con m s) → packet_at (relayed con m s) (alloc (used s)) = Some (PMessage m).
Proof.
  intros Hwf'. pose proof (relayed_fields con m s) as Hf. cbn zeta in Hf. destruct Hf as (Hm & _).
  rewrite (packet_at_object _ (wf_separate _ Hwf') (OMessage (message_id m)));
    cbn [packet_of addr_of is_packet]; rewrite ?Hm, ?lookup_insert_eq; done.
Qed.

(** The state after [sendPackets] agrees with the one before, but for what was sent. *)
Definition after_round (a : Addr) (s s' : Tracker) : Prop :=
  ∃ s1 sent removed, sending s s1 sent ∧ (∀ e, e ∈ sent → fst e = a) ∧
    send_broadcast [a] s = Ok (removed, s1) ∧
    s' = upd_broadcast_packets_to_send_list (λ l, if decide (sent = []) then l else []) s1.

(** A round with one message to broadcast: who gets it. *)
Lemma flood_round s a m :
  wf s → can_send s → targeted_packets_to_send_list s = [] → broadcast_packets_to_send_list s = [a] →
  looked_at s a → packet_at s a = Some (PMessage m) →
  ∃ s' handles, sendPackets s = Ok (tt, s') ∧ wf s' ∧
    outbox s' ≡ₚ ((λ h, (h, encoding (PMessage m))) <$> handles) ++ outbox s ∧ NoDup handles ∧
    (∀ h, h ∈ handles ↔ broadcast_sends s a h) ∧ after_round a s s' ∧
    (∀ h, broadcast_sends s a h → ∃ c, (a, c) ∈ packets_connections_sent_list s' ∧ handle_at s c = Some h).
Proof.
  intros Hwf Hcan Ht Hb Hrec Hpk.
  destruct (sendPackets_single s a Hwf Hcan Ht Hb Hrec) as (s1 & sent & Hrun & Hwf' & Hs & Hsb & Hin).
  set (s' := upd_broadcast_packets_to_send_list _ s1) in *.
  assert (∀ e, e ∈ sent → ∃ h, handle_at s (snd e) = Some h ∧ broadcast_sends s a h) as Hne.
  { intros e (_ & h & Hh & c & Hce)%Hin. exists h. split; [|done].
    destruct Hh as (a' & c' & Hc' & Hav & _). rewrite Hce in Hc'. injection Hc' as <- <-.
    by apply (available_handle s h _ c Hwf Hce). }
  exists s', ((λ e, default 0 (handle_at s (snd e))) <$> sent).
  split_and!; [done|done| | | | |].
  - change (outbox s') with (outbox s1). rewrite (se_outbox _ _ _ Hs), <- list_fmap_compose.
    erewrite list_fmap_ext; [done|].
    intros i e He%list_elem_of_lookup_2. unfold delivery. cbn. apply Hin in He as [-> _]. by rewrite Hpk.
  - assert (((λ e, default 0 (handle_at s (snd e))) <$> sent)
      = (λ k : Addr * option Z, default 0 (snd k)) <$> (pair_key s <$> sent)) as ->
      by (by rewrite <- list_fmap_compose).
    apply NoDup_fmap_2_strong; [|apply Hs]. intros x y (e & -> & He)%list_elem_of_fmap
      (e' & -> & He')%list_elem_of_fmap. unfold pair_key. cbn.
    destruct (Hne e He) as (h & -> & _), (Hne e' He') as (h' & -> & _). cbn. intros ->.
    apply Hin in He as [-> _]. by apply Hin in He' as [-> _].
  - intros h. rewrite list_elem_of_fmap. split; [intros (e & -> & He); by destruct (Hne e He) as (h & -> & ?)|].
    intros Hh. pose proof Hh as (a' & c & Hc' & Hav & _). exists (a, a'). cbn.
    destruct (available_handle s h a' c) as [_ ->]; [done..|]. split; [done|]. apply Hin. eauto 10.
  - eexists s1, sent, _. split_and!; [done| |done|done]. by intros e [He _]%Hin.
  - intros h Hh. pose proof Hh as (a' & c & Hc' & Hav & _). exists a'.
    destruct (available_handle s h a' c) as [_ ->]; [done..|]. split; [|done].
    change (packets_connections_sent_list s') with (packets_connections_sent_list s1).
    rewrite (se_list _ _ _ Hs). apply elem_of_app. left. apply Hin. eauto 10.
Qed.

(** A message arrives and is flooded. *)
Lemma message_floods (s : Tracker) connection offset buffer size m :
  wf s → can_send s → live_connection s (fst connection) → value_ok offset buffer size →
  parse offset buffer size = Ok (RMessage m) → hasSenderPeerID m = false →
  messages s !! message_id m = None → packet_ttl (base_of m) > 0 →
  broadcast_packets_to_send_list s = [] → targeted_packets_to_send_list s = [] →
  ∃ s' s'' handles, processWrite connection offset buffer size s = Ok (tt, s') ∧
    sendPackets s' = Ok (tt, s'') ∧ wf s'' ∧ NoDup handles ∧
    outbox s'' ≡ₚ ((λ h, (h, encoding (PMessage m))) <$> handles) ++ outbox s ∧
    ∀ h, h ∈ handles ↔ needs_new s (fst connection) h.
Proof.
  intros Hwf [Hnd Hfwd] Hc Hv Hp Hflag Hm Httl Hbc Htg.
  destruct (parse_received_ok _ _ _ _ Hv Hp) as (Hok & _ & _).
  rewrite processWrite_parse, Hp. cbn [process].
  destruct (process_message_new connection m s Hwf Hc Hm) as (-> & Hwf1 & _).
  pose proof (relayed_forwardable (fst connection) m s Hwf Hwf1 Hfwd (conj Hok Hflag)) as Hfwd1.
  pose proof (relayed_fields (fst connection) m s) as Hf. cbn zeta in Hf.
  destruct Hf as (_ & _ & Hsl & Hbl & Htl & Hcon & _ & _ & _ & Hout).
  pose proof (relayed_packet (fst connection) m s Hwf1) as Hpk.
  pose proof (λ h, relayed_sends (fst connection) m s h Hwf Hwf1) as Hsends.
  pose proof (relayed_handle (fst connection) m s) as Hha.
  set (s1 := relayed (fst connection) m s) in *. set (a := alloc (used s)) in *.
  rewrite decide_True, Hbc in Hbl by done.
  destruct (flood_round s1 a m Hwf1 (conj Hnd Hfwd1)) as (s2 & handles & Hrun & Hwf2 & Hout2 & Hdup & Hin & _);
    [congruence|done|left; exists (fst connection); rewrite Hsl; apply elem_of_emplace; by left|done|].
  exists s1, s2, handles. split_and!; [done|done|done|done|by rewrite Hout2, Hout|].
  intros h. by rewrite Hin, Hsends.
Qed.
End flooding.

(** * Properties *)

(** whatever bytes a peer writes, [processWrite] terminates without undefined
    behaviour, keeps the tracker well formed and moves none of its objects; a value
    that is no packet of a known version and type changes nothing. *)
Theorem processWrite_safe {env : Env} `{!AllocFresh env} (s : Tracker) connection offset buffer size :
  wf s → live_connection s (fst connection) → value_ok offset buffer size → now_of s < 2 ^ 63 →
  ∃ r s', parse offset buffer size = Ok r ∧ processWrite connection offset buffer size s = Ok (tt, s') ∧
    wf s' ∧ extends s s' ∧ (r = ROther → s' = s).
Proof.
  intros Hwf Hc Hv Hnow.
  destruct (parse_ok offset buffer size Hv) as (r & Hr & Hok). exists r.
  setoid_rewrite processWrite_parse. rewrite Hr.
  destruct (process_run connection r s Hwf Hc Hok Hnow) as (s' & Hrest). eauto.
Qed.

(** C27: a message that is not known yet is stored under its id in a fresh node with
    the fields it arrived with, its connection and its sender are recorded as having it, and
    it is queued for broadcast exactly when its ttl is not zero.  Its sender is the peer
    there is with that id, or a new one with only the id set.  Nothing is sent yet and every
    other part of the tracker is as it was: the state is given in full. *)
Theorem new_message_relayed {env : Env} `{!AllocFresh env} (s : Tracker) connection offset buffer size m :
  wf s → live_connection s (fst connection) → parse offset buffer size = Ok (RMessage m) →
  messages s !! message_id m = None →
  ∃ s' a peer ps, processWrite connection offset buffer size s = Ok (tt, s') ∧ wf s' ∧ a ∉ used s ∧
    match peers s !! packet_sender_id (msg_base m) with
    | Some (p, _) => peer = p ∧ ps = peers s
    | None => (peer ∉ used s ∧ peer ≠ a) ∧
        ps = <[packet_sender_id (msg_base m) := (peer, setId (packet_sender_id (msg_base m)) Peer_new)]> (peers s)
    end ∧
    s' = mkTracker ps (<[message_id m := (a, m)]> (messages s)) (packets s) (announce_at s) (announce s)
      (connections s) (available_neighbours s) (raw_packet_to_notify s) (raw_packet_to_write s)
      (timestamp_offset_ms s) (handle_peer_map s)
      (emplace a (fst connection) (packets_connections_sent_list s))
      (emplace a peer (packets_peers_sent_list s))
      (broadcast_packets_to_send_list s ++ (if decide (packet_ttl (base_of m) > 0) then [a] else []))
      (targeted_packets_to_send_list s) (notify_context s) (write_context s) (rssi_iterator s) (calls s).
Proof.
  intros Hwf Hc Hp Hm. rewrite processWrite_parse, Hp. cbn [process].
  destruct (process_message_new connection m s Hwf Hc Hm) as (Hrun & Hwf' & _).
  destruct (relayed_eq (fst connection) m s Hm) as (peer & ps & Heq & Hps). rewrite Heq in Hrun, Hwf'.
  eexists _, (alloc (used s)), peer, ps. split_and!; [exact Hrun|done|apply alloc_fresh|done|done].
Qed.

(** The arrivals of values: connection, offset, buffer and size. *)
Definition arrival : Type := (Addr * BleConnection) * Z * list Z * Z.

Definition arrive {env : Env} (r : arrival) : M Tracker unit :=
  let '(connection, offset, buffer, size) := r in processWrite connection offset buffer size.

(** The value holds a message with the id. *)
Definition carries (id : list Z) (r : arrival) : Prop :=
  let '(_, offset, buffer, size) := r in
  ∃ m, parse offset buffer size = Ok (RMessage m) ∧ message_id m = id.

(** C10: a message is taken once: after its first arrival, copies with the same id
    leave the whole state as it is, whatever connections they come from and whatever
    their ttl, so that flooding through loops of repeaters ends. *)
Theorem message_taken_once {env : Env} `{!AllocFresh env} (s : Tracker) id r rs :
  wf s → live_connection s (fst (fst (fst (fst r)))) → carries id r → Forall (carries id) rs →
  ∃ s', arrive r s = Ok (tt, s') ∧ for_each (r :: rs) arrive s = Ok (tt, s') ∧
    is_Some (messages s' !! id).
Proof.
  destruct r as [[[connection offset] buffer] size]. cbn. intros Hwf Hc (m & Hp & Hid) Hrs.
  assert (∃ s', processWrite connection offset buffer size s = Ok (tt, s') ∧
    is_Some (messages s' !! id)) as (s' & Hrun & Hstored).
  { rewrite processWrite_parse, Hp. cbn [process].
    destruct (decide (messages s !! message_id m = None)) as [Hm|Hm].
    - destruct (process_message_new connection m s Hwf Hc Hm) as (-> & _). eexists. split; [done|].
      destruct (relayed_fields (fst connection) m s) as (-> & _). rewrite <- Hid, lookup_insert_eq. eauto.
    - rewrite process_message_known by done. exists s. split; [done|]. rewrite <- Hid.
      destruct (messages s !! message_id m); [eauto|done]. }
  exists s'. split_and!; [done| |done]. rewrite (M_bind_ok _ _ _ _ _ Hrun).
  induction Hrs as [|[[[c2 o2] b2] n2] rs (m2 & Hp2 & Hid2) _ IH]; [done|]. cbn [for_each arrive].
  assert (processWrite c2 o2 b2 n2 s' = Ok (tt, s')) as Hrun2.
  { rewrite processWrite_parse, Hp2. apply process_message_known. rewrite Hid2.
    by destruct Hstored as [? ->]. }
  by rewrite (M_bind_ok _ _ _ _ _ Hrun2).
Qed.

(** C9: a message that arrives with a ttl while nothing else is queued is flooded:
    the next [sendPackets] queues its encoding once for each of exactly the available
    connections that need it: not for the one it came from, and not for those that
    are recorded to have a packet stored at a greater address. *)
Theorem message_flooded {env : Env} `{!AllocFresh env} (s : Tracker) connection offset buffer size m :
  wf s → can_send s → live_connection s (fst connection) → value_ok offset buffer size →
  parse offset buffer size = Ok (RMessage m) → hasSenderPeerID m = false →
  messages s !! message_id m = None → packet_ttl (base_of m) > 0 →
  broadcast_packets_to_send_list s = [] → targeted_packets_to_send_list s = [] →
  ∃ s' s'' handles, processWrite connection offset buffer size s = Ok (tt, s') ∧
    sendPackets s' = Ok (tt, s'') ∧ wf s'' ∧ NoDup handles ∧
    outbox s'' ≡ₚ ((λ h, (h, encoding (PMessage m))) <$> handles) ++ outbox s ∧
    ∀ h, h ∈ handles ↔ needs_new s (fst connection) h.
Proof. apply message_floods. Qed.

(** C28: a message that floods a repeater reaches the next ones: the values that
    [sendPackets] queues for it, one for each connection that needs it, are each taken by any
    repeater at the other end that does not have it as the very message that arrived at the
    first, ttl included: the ttl is not counted down on the way. *)
Theorem message_reaches_next {env : Env} `{!AllocFresh env} (s : Tracker) connection offset buffer size m :
  wf s → can_send s → live_connection s (fst connection) → value_ok offset buffer size →
  parse offset buffer size = Ok (RMessage m) → hasSenderPeerID m = false →
  messages s !! message_id m = None → packet_ttl (base_of m) > 0 →
  broadcast_packets_to_send_list s = [] → targeted_packets_to_send_list s = [] →
  Z.of_nat (length (encoding (PMessage m))) < 2 ^ 16 →
  ∃ s' s'' new, processWrite connection offset buffer size s = Ok (tt, s') ∧
    sendPackets s' = Ok (tt, s'') ∧ outbox s'' ≡ₚ new ++ outbox s ∧
    NoDup new.*1 ∧ (∀ h, h ∈ new.*1 ↔ needs_new s (fst connection) h) ∧
    ∀ (env' : Env) (fresh : AllocFresh env') (t : Tracker) (from : Addr * BleConnection) h value,
      (h, value) ∈ new → wf t → live_connection t (fst from) → messages t !! message_id m = None →
      ∃ t' a, @processWrite env' from 0 value (Z.of_nat (length value)) t = Ok (tt, t') ∧
        wf t' ∧ messages t' = <[message_id m := (a, m)]> (messages t).
Proof.
  intros Hwf Hcan Hc Hv Hp Hflag Hm Httl Hbc Htg Hlen.
  destruct (message_floods s connection offset buffer size m)
    as (s' & s'' & handles & Hrun & Hsend & _ & Hdup & Hout & Hin); [done..|].
  assert (((λ h, (h, encoding (PMessage m))) <$> handles).*1 = handles) as Hfst.
  { rewrite <- list_fmap_compose. apply list_fmap_id. }
  exists s', s'', ((λ h, (h, encoding (PMessage m))) <$> handles). rewrite Hfst.
  split_and!; [done|done|done|done|done|].
  intros env' fresh t from h value (h' & [-> ->]%pair_eq & _)%list_elem_of_fmap Hwft Hct Hmt.
  destruct (parse_received_ok _ _ _ _ Hv Hp) as (Hok & Hn & Ht).
  rewrite processWrite_parse, parse_encoding by done. cbn [process].
  destruct (process_message_new from m t Hwft Hct Hmt) as (Hnew & Hwf' & _).
  eexists _, _. split_and!; [exact Hnew|done|by apply relayed_fields].
Qed.

(** C36: a peer can bring a repeater down: a message with the sender-peer flag is
    taken and queued, and the next [sendPackets] calls through a null pointer as
    soon as some other connection needs the message. *)
Theorem sender_peer_flag_crashes {env : Env} `{!AllocFresh env} (s : Tracker) connection offset buffer size m h :
  wf s → live_connection s (fst connection) → value_ok offset buffer size →
  parse offset buffer size = Ok (RMessage m) → hasSenderPeerID m = true →
  messages s !! message_id m = None → packet_ttl (base_of m) > 0 →
  broadcast_packets_to_send_list s = [] → targeted_packets_to_send_list s = [] →
  needs_new s (fst connection) h →
  (processWrite connection offset buffer size;; sendPackets) s = Err NullDeref.
Proof.
  intros Hwf Hc Hv Hp Hflag Hm Httl Hbc Htg Hneed.
  destruct (parse_received_ok _ _ _ _ Hv Hp) as (Hok & Hn & _).
  unfold mbind, M_bind. rewrite processWrite_parse, Hp. cbn [process].
  destruct (process_message_new connection m s Hwf Hc Hm) as (-> & Hwf1 & _).
  pose proof (relayed_fields (fst connection) m s) as Hf. cbn zeta in Hf.
  destruct Hf as (_ & _ & _ & Hbl & Htl & _).
  apply (relayed_sends _ m) in Hneed; [|done..].
  pose proof (relayed_packet (fst connection) m s Hwf1) as Hpk.
  rewrite decide_True, Hbc in Hbl by done.
  apply (sendPackets_fails _ (alloc (used s))); [done|congruence|done| |eauto].
  intros x k c _. unfold SendPacketToConnection. rewrite (M_bind_ok get _ _ _ _ eq_refl).
  erewrite M_bind_ok by (by apply deref_ok). rewrite lift_bind.
  change (packet_bytes ?g (PMessage m)) with (packet_bytes g m).
  rewrite Message_write_null; [done|done|done|]. by rewrite <- Hn.
Qed.

(** C31: an announcement gives its sender's peer the announced name, raises the
    largest ttl seen, and makes the handle it came over the peer's handle unless a
    larger ttl was seen before; the clock follows its timestamp when that is ahead or
    more than five minutes off.  The packet is stored, recorded and queued exactly
    when no packet with its hash is stored. *)
Theorem announcement_heard {env : Env} `{!AllocFresh env} (s : Tracker) connection offset buffer size an :
  wf s → live_connection s (fst connection) → value_ok offset buffer size → now_of s < 2 ^ 63 →
  parse offset buffer size = Ok (RAnnounce an) →
  let ttl := packet_ttl (base_of an) in
  let ts := getPacketTimestampMs (base_of an) in
  let p := known_peer (announce_sender an) s in
  ∃ s' a, processWrite connection offset buffer size s = Ok (tt, s') ∧ wf s' ∧
    peers s' !! announce_sender an
      = Some (a, updateName (an_name an) (setAnnounceTtl (Z.max (max_ttl p) ttl) p)) ∧
    handle_peer_map s' = (if decide (max_ttl p ≤ ttl)
                          then <[connection_handle (snd connection) := a]> (handle_peer_map s)
                          else handle_peer_map s) ∧
    timestamp_offset_ms s' = (if decide (time_differs ts (now_of s))
                              then u64 (timestamp_offset_ms s + (ts - now_of s))
                              else timestamp_offset_ms s) ∧
    match packets s !! hash_of (an_pass an) with
    | Some _ => packets s' = packets s ∧
        packets_connections_sent_list s' = packets_connections_sent_list s ∧
        broadcast_packets_to_send_list s' = broadcast_packets_to_send_list s
    | None => ∃ x, packets s' = <[hash_of (an_pass an) := (x, an_pass an)]> (packets s) ∧
        packets_connections_sent_list s' = emplace x (fst connection) (packets_connections_sent_list s) ∧
        broadcast_packets_to_send_list s'
          = (if decide (ttl > 0) then broadcast_packets_to_send_list s ++ [x]
             else broadcast_packets_to_send_list s)
    end.
Proof.
  intros Hwf Hc Hv Hnow Hp. cbn zeta. destruct (parse_received_ok _ _ _ _ Hv Hp) as (Hok & _).
  rewrite processWrite_parse, Hp. cbn [process].
  destruct (process_announce_run connection an s Hwf Hc Hok Hnow) as (-> & Hwf' & _).
  pose proof (introduced_peer an (snd connection) s) as Hpeer. cbn zeta in Hpeer.
  destruct Hpeer as (a & Hpa & Hmap).
  pose proof (introduced_same an (snd connection) s) as Hsame. cbn zeta in Hsame.
  destruct Hsame as (_ & Hps & _ & _ & _ & Hsl & _ & Hbl & _ & Hoff).
  pose proof (introduced_now an (snd connection) s) as Hn.
  exists (heard connection an s), a. split; [done|]. split; [done|]. unfold heard. cbn zeta.
  set (s1 := introduced an (snd connection) s) in *. set (s2 := synchronised _ s1) in *.
  assert (packets s2 = packets s) as Hps2 by exact Hps.
  assert (timestamp_offset_ms s2 = if decide (time_differs (getPacketTimestampMs (base_of an)) (now_of s))
    then u64 (timestamp_offset_ms s + (getPacketTimestampMs (base_of an) - now_of s))
    else timestamp_offset_ms s) as Hoff2 by (unfold s2; cbn; by rewrite Hn, Hoff).
  rewrite Hps2. destruct (packets s !! hash_of (an_pass an)).
  - by split_and!.
  - split_and!; [exact Hpa|exact Hmap|exact Hoff2|]. exists (alloc (used s2)). split_and!.
    + cbn. by rewrite Hps.
    + by rewrite <- Hsl.
    + by rewrite <- Hbl.
Qed.

(** the name of an announcement is lost on the way: the stored announcement was
    sliced to its base class, so what is queued for the other repeaters has no name,
    and a repeater that receives it erases the name it may already have. *)
Theorem announced_name_erased {env : Env} `{!AllocFresh env} (t : Tracker) connection offset buffer size an :
  value_ok offset buffer size → parse offset buffer size = Ok (RAnnounce an) →
  wf t → live_connection t (fst connection) → now_of t < 2 ^ 63 →
  let enc := encoding (PPassAlong (an_pass an)) in
  ∃ t' a p, processWrite connection 0 enc (Z.of_nat (length enc)) t = Ok (tt, t') ∧
    peers t' !! announce_sender an = Some (a, p) ∧ peer_name p = [].
Proof.
  intros Hv Hp Hwf Hc Hnow. cbn zeta. set (enc := encoding _).
  destruct (parse_received_ok _ _ _ _ Hv Hp) as ([Hok _] & Hno & Hpl & Hn & Ht).
  destruct (receive_sliced_announce (λ _, Ok 0) (an_pass an) Hok Hno Hpl) as (e & He & Hl & Hr).
  assert (e = enc) as ->.
  { pose proof (packet_bytes_encoding (λ _, Ok 0) (PPassAlong (an_pass an))) as Hb.
    change (packet_bytes ?g (PPassAlong ?q)) with (packet_bytes g q) in Hb. rewrite He in Hb.
    injection Hb; [done|]. split; [done|]. by rewrite Hpl. }
  set (an' := normal_announce (mkAnnounce (an_pass an) [])) in *.
  assert (parse 0 enc (Z.of_nat (length enc)) = Ok (RAnnounce an')) as Hparse.
  { unfold enc, encoding, packet_enc in *.
    assert (packet_type (base_of (an_pass an)) = type_announce) as Ht' by exact Ht.
    rewrite Ht' in *. cbn [app] in *. by eapply parse_received. }
  assert (announce_sender an' = announce_sender an) as Hs by (by rewrite <- Hn).
  assert (Announce_ok an') as Hok'.
  { split; [|constructor]. split; [|constructor]. destruct Hok as [(? & ? & Hr') _].
    split_and!; [done|done|]. cbn. by case_match. }
  rewrite processWrite_parse, Hparse. cbn [process].
  destruct (process_announce_run connection an' t Hwf Hc Hok' Hnow) as (-> & _ & _).
  pose proof (introduced_peer an' (snd connection) t) as Hpeer. cbn zeta in Hpeer.
  destruct Hpeer as (a & Hpa & _). eexists _, a, _. split; [done|]. rewrite <- Hs. split.
  - unfold heard. cbn zeta. case_match; exact Hpa.
  - done.
Qed.

(** ** Witnesses *)

(** A message and an announcement as they arrive over the first of the two
    connections of [sending_example]. *)
Definition message_buffer : list Z := encoding (PMessage (message_to_send "c")).
Definition announce_buffer : list Z := encoding (PAnnounce example_announce).
Definition flagged_message : Message := setMessageFlags 0x10 (message_to_send "c").
Definition flagged_buffer : list Z := encoding (PMessage flagged_message).

Definition example_connection : Addr * BleConnection := (10, connection_to 1).

Definition size_of (buffer : list Z) : Z := Z.of_nat (length buffer).

Lemma example_state :
  wf (sending_example [] []) ∧ @can_send example_env (sending_example [] []).
Proof. apply sending_example_ok. vm_compute. reflexivity. Qed.

Lemma example_live : live_connection (sending_example [] []) 10.
Proof. by exists 1. Qed.

Lemma example_needs : @needs_new example_env (sending_example [] []) 10 2.
Proof.
  split_and!; [exists 20, (connection_to 2); by split|decide_concrete|].
  refine (proj1 (Forall_forall _ _) _). decide_concrete.
Qed.

Lemma processWrite_safe_witness :
  ∃ r s', parse 0 announce_buffer (size_of announce_buffer) = Ok r ∧
    @processWrite example_env example_connection 0 announce_buffer (size_of announce_buffer)
      (sending_example [] []) = Ok (tt, s') ∧
    wf s' ∧ extends (sending_example [] []) s' ∧ (r = ROther → s' = sending_example [] []).
Proof.
  apply processWrite_safe; [apply example_state|apply example_live|decide_concrete|].
  vm_compute. reflexivity.
Defined.

Lemma new_message_relayed_witness :
  let s := sending_example [] [] in
  let m := message_to_send "c" in
  ∃ s' a peer ps, @processWrite example_env example_connection 0 message_buffer (size_of message_buffer) s
      = Ok (tt, s') ∧ wf s' ∧ a ∉ used s ∧
    ((peer ∉ used s ∧ peer ≠ a) ∧
       ps = <[packet_sender_id (msg_base m) := (peer, setId (packet_sender_id (msg_base m)) Peer_new)]> ∅) ∧
    s' = with_message a peer 10 m ps s.
Proof.
  apply (new_message_relayed (sending_example [] []) example_connection 0 message_buffer);
    [apply example_state|apply example_live|vm_compute; reflexivity|vm_compute; reflexivity].
Defined.

Lemma message_taken_once_witness :
  let r := (example_connection, 0, message_buffer, size_of message_buffer) in
  let r2 := ((20, connection_to 2), 0, flagged_buffer, size_of flagged_buffer) in
  ∃ s', @arrive example_env r (sending_example [] []) = Ok (tt, s') ∧
    for_each [r; r2; r] (@arrive example_env) (sending_example [] []) = Ok (tt, s') ∧
    is_Some (messages s' !! str "c").
Proof.
  apply message_taken_once; [apply example_state|apply example_live|..].
  - eexists. split; [vm_compute; reflexivity|reflexivity].
  - repeat constructor; eexists; (split; [vm_compute; reflexivity|reflexivity]).
Defined.

Lemma message_flooded_witness :
  let s := sending_example [] [] in
  ∃ s' s'' handles,
    @processWrite example_env example_connection 0 message_buffer (size_of message_buffer) s = Ok (tt, s') ∧
    @sendPackets example_env s' = Ok (tt, s'') ∧ wf s'' ∧ NoDup handles ∧
    outbox s'' ≡ₚ ((λ h, (h, encoding (PMessage (message_to_send "c")))) <$> handles) ++ outbox s ∧
    ∀ h, h ∈ handles ↔ @needs_new example_env s 10 h.
Proof.
  apply (message_flooded (sending_example [] []) example_connection 0 message_buffer);
    [apply example_state|apply example_state|apply example_live|decide_concrete
    |vm_compute; reflexivity|vm_compute; reflexivity|vm_compute; reflexivity|vm_compute; reflexivity
    |reflexivity|reflexivity].
Defined.

(** It floods the first repeater to the second connection, and reaches a fresh one. *)
Lemma message_reaches_next_witness :
  let s := sending_example [] [] in
  let m := message_to_send "c" in
  ∃ s' s'' new, @processWrite example_env example_connection 0 message_buffer (size_of message_buffer) s = Ok (tt, s') ∧
    @sendPackets example_env s' = Ok (tt, s'') ∧ outbox s'' ≡ₚ new ++ outbox s ∧
    2 ∈ new.*1 ∧ NoDup new.*1 ∧
    ∀ h value, (h, value) ∈ new → ∃ t' a,
      @processWrite example_env (20, connection_to 2) 0 value (Z.of_nat (length value)) s = Ok (tt, t') ∧
      wf t' ∧ messages t' = <[message_id m := (a, m)]> (messages s).
Proof.
  destruct (@message_reaches_next example_env _ (sending_example [] []) example_connection 0 message_buffer
    (size_of message_buffer) (message_to_send "c")) as (s' & s'' & new & Hrun & Hsend & Hout & Hdup & Hin & Hnext);
    [apply example_state|apply example_state|apply example_live|decide_concrete
    |vm_compute; reflexivity|vm_compute; reflexivity|vm_compute; reflexivity|vm_compute; reflexivity
    |reflexivity|reflexivity|vm_compute; reflexivity|].
  exists s', s'', new. split_and!; [exact Hrun|exact Hsend|exact Hout| |exact Hdup|].
  - apply Hin. exact example_needs.
  - intros h value Hhv.
    apply (Hnext example_env _ (sending_example [] []) (20, connection_to 2) h value Hhv);
      [apply example_state|by exists 2|vm_compute; reflexivity].
Defined.

Lemma sender_peer_flag_crashes_witness :
  (@processWrite example_env example_connection 0 flagged_buffer (size_of flagged_buffer);;
   @sendPackets example_env) (sending_example [] []) = Err NullDeref.
Proof.
  apply (sender_peer_flag_crashes (sending_example [] []) example_connection 0 flagged_buffer
    (size_of flagged_buffer) flagged_message 2);
    [apply example_state|apply example_live|decide_concrete|vm_compute; reflexivity
    |reflexivity|vm_compute; reflexivity|vm_compute; reflexivity|reflexivity|reflexivity
    |apply example_needs].
Defined.

Lemma announcement_heard_witness :
  let s := sending_example [] [] in
  let an := example_announce in
  let ttl := packet_ttl (base_of an) in
  let ts := getPacketTimestampMs (base_of an) in
  let p := known_peer (announce_sender an) s in
  let h := @hash_of example_env (an_pass an) in
  ∃ s' a, @processWrite example_env example_connection 0 announce_buffer (size_of announce_buffer) s
      = Ok (tt, s') ∧ wf s' ∧
    peers s' !! announce_sender an
      = Some (a, updateName (an_name an) (setAnnounceTtl (Z.max (max_ttl p) ttl) p)) ∧
    handle_peer_map s' = (if decide (max_ttl p ≤ ttl) then <[1 := a]> (handle_peer_map s)
                          else handle_peer_map s) ∧
    timestamp_offset_ms s' = (if decide (time_differs ts (@now_of example_env s))
                              then u64 (timestamp_offset_ms s + (ts - @now_of example_env s))
                              else timestamp_offset_ms s) ∧
    match packets s !! h with
    | Some _ => packets s' = packets s ∧
        packets_connections_sent_list s' = packets_connections_sent_list s ∧
        broadcast_packets_to_send_list s' = broadcast_packets_to_send_list s
    | None => ∃ x, packets s' = <[h := (x, an_pass an)]> (packets s) ∧
        packets_connections_sent_list s' = emplace x 10 (packets_connections_sent_list s) ∧
        broadcast_packets_to_send_list s'
          = (if decide (ttl > 0) then broadcast_packets_to_send_list s ++ [x]
             else broadcast_packets_to_send_list s)
    end.
Proof.
  apply (announcement_heard (sending_example [] []) example_connection 0 announce_buffer
    (size_of announce_buffer) example_announce);
    [apply example_state|apply example_live|decide_concrete|vm_compute; reflexivity
    |vm_compute; reflexivity].
Defined.

Lemma announced_name_erased_witness :
  let enc := encoding (PPassAlong (an_pass example_announce)) in
  ∃ t' a p, @processWrite example_env example_connection 0 enc (size_of enc) (sending_example [] [])
      = Ok (tt, t') ∧
    peers t' !! announce_sender example_announce = Some (a, p) ∧ peer_name p = [].
Proof.
  apply (announced_name_erased (sending_example [] []) example_connection 0 announce_buffer
    (size_of announce_buffer) example_announce);
    [decide_concrete|vm_compute; reflexivity|apply example_state|apply example_live
    |vm_compute; reflexivity].
Defined.
