(* ===== verification/Clock.v ===== *)
(** The clock of the tracker and the queries that depend on it:
    [possiblyUpdateTimeOffset], [getTimeMs], [getConnectableNeighbours] and
    [printStats] of src/BLE/BleConnectionTracker.cpp. *)

From S2P Require Import Prelude BinaryIO Packets StdContainers BleConnection Tracker TrackerWf TrackerSafety.

(** The time that the tracker would give for the clock reading [t]. *)
Definition time_at (s : Tracker) (t : Z) : Z := u64 (timestamp_offset_ms s + t / 1000).

(** * Lemmas *)

Lemma time_at_now {env : Env} s : now_of s = time_at s (clock s).
Proof. done. Qed.

Lemma time_at_shift o d t : u64 (u64 (o + d) + t) = u64 (u64 (o + t) + d).
Proof.
  unfold u64, wrap. rewrite Zplus_mod_idemp_l, Zplus_mod_idemp_l. f_equal. lia.
Qed.

Lemma elem_of_connectable (s : Tracker) a :
  a ∈ omap (λ kn : list Z * (Addr * BleConnection),
      let '(_, (a, c)) := kn in
      if (bool_decide (build_time_ms ≤ timestamp_offset_ms s) || isRepeater c)
         && negb (connected c) && negb (isRandom c)
      then Some a else None) (items (available_neighbours s)) ↔
  ∃ k c, available_neighbours s !! k = Some (a, c) ∧ connected c = false ∧ isRandom c = false ∧
    (build_time_ms ≤ timestamp_offset_ms s ∨ isRepeater c = true).
Proof.
  rewrite list_elem_of_omap. split.
  - intros ([k [x c]] & Hin%elem_of_items & Hx).
    destruct (_ && _) eqn:Hb; [|done]. injection Hx as ->. exists k, c.
    apply andb_prop in Hb as [[Hs Hn]%andb_prop Hr]. apply orb_prop in Hs.
    rewrite negb_true_iff in Hn, Hr. split_and!; try done.
    destruct Hs as [Hs%bool_decide_eq_true|]; auto.
  - intros (k & c & Hin & Hn & Hr & Hs). exists (k, (a, c)). split; [by apply elem_of_items|].
    rewrite Hn, Hr. assert (bool_decide (build_time_ms ≤ timestamp_offset_ms s) || isRepeater c = true) as ->; [|done].
    destruct Hs as [Hs|Hs]; [by rewrite bool_decide_eq_true_2|]. by rewrite Hs, orb_true_r.
Qed.

(** * Properties *)

(** C34: after [possiblyUpdateTimeOffset] the tracker's time is never behind the
    announced timestamp and less than or equal to five minutes ahead of it; a time
    that was so already is left alone, and otherwise it becomes the timestamp. *)
Theorem time_follows_announcements {env : Env} (s : Tracker) (ts : Z) :
  in_width 63 ts → now_of s < 2 ^ 63 →
  ∃ s', possiblyUpdateTimeOffset ts s = Ok (tt, s') ∧
    ts ≤ time_at s' (clock s) ≤ ts + MESSAGE_TIMEOUT ∧
    (ts ≤ now_of s ≤ ts + MESSAGE_TIMEOUT → timestamp_offset_ms s' = timestamp_offset_ms s) ∧
    (¬ ts ≤ now_of s ≤ ts + MESSAGE_TIMEOUT → time_at s' (clock s) = ts).
Proof.
  intros Hts Hnow. eexists. split; [by apply possiblyUpdate_run|]. unfold time_at. cbn.
  rewrite time_at_now in *. unfold time_at in *. set (now := u64 (timestamp_offset_ms s + _)) in *.
  unfold time_differs, MESSAGE_TIMEOUT. case_decide as Hd.
  - assert (u64 (u64 (timestamp_offset_ms s + (ts - now)) + clock s / 1000) = ts) as ->; [|lia].
    rewrite time_at_shift. fold now. replace (now + (ts - now)) with ts by lia.
    apply wrap_small. by eapply in_width_weaken; [|exact Hts].
  - fold now. lia.
Qed.

(** the announcement of a repeater sets back the clock of another: it carries the
    sender's time as it is, but the receiver divides it by a thousand.  A receiver that
    was synchronised falls below [build_time_ms], at which it no longer announces
    itself, if it has not been running for longer than that quotient. *)
Theorem repeater_announcement_desynchronises {env : Env} (b : Base) (t : Tracker) :
  build_time_ms ≤ packet_timestamp b < 10 ^ 12 →
  build_time_ms ≤ now_of t < 2 ^ 63 → clock t / 1000 ≤ getPacketTimestampMs b →
  ∃ t', possiblyUpdateTimeOffset (getPacketTimestampMs b) t = Ok (tt, t') ∧
    timestamp_offset_ms t' < build_time_ms.
Proof.
  unfold build_time_ms, getPacketTimestampMs. intros Hb Hnow Hclock.
  set (ts := packet_timestamp b / 1000) in *. assert (0 ≤ ts < 10 ^ 9) by (unfold ts; div_lia).
  eexists. split; [apply possiblyUpdate_run; [unfold in_width; lia|lia]|].
  cbn. unfold time_differs, MESSAGE_TIMEOUT. rewrite decide_True by lia.
  assert (0 ≤ clock t / 1000) by (apply Z.div_pos; [apply (wrap_in_width 64)|]; lia).
  assert (u64 (timestamp_offset_ms t + (ts - now_of t)) = ts - clock t / 1000) as ->; [|lia].
  unfold now_of, u64, wrap. rewrite <- (Z.mod_small (ts - clock t / 1000) (2 ^ 64)) by lia.
  rewrite Z.add_sub_assoc, Zminus_mod_idemp_r. f_equal. lia.
Qed.

(** exactly the neighbours that are not connected and have no random address are
    offered, and before the first synchronisation only those that are repeaters. *)
Theorem connectable_neighbours_spec {env : Env} `{!AllocFresh env} (s : Tracker) :
  wf s →
  ∃ l s', getConnectableNeighbours s = Ok (l, s') ∧ wf s' ∧
    ∀ a, a ∈ l ↔ ∃ k c, available_neighbours s !! k = Some (a, c) ∧ isRandom c = false ∧
      (build_time_ms ≤ timestamp_offset_ms s ∨ isRepeater c = true).
Proof.
  intros Hwf. pose proof (wfp_getConnectableNeighbours s Hwf) as Hw.
  apply wp_ok in Hw as (l & s' & Hrun & Hwf' & _). exists l, s'. split; [done|]. split; [done|].
  unfold getConnectableNeighbours in Hrun.
  rewrite (M_bind_ok time_us_64 _ s _ _ eq_refl) in Hrun. injection Hrun as <- _. intros a. etrans; [apply (elem_of_connectable (ticked s))|].
  split; intros (k & c & Hk & Hrest); exists k, c.
  - destruct Hrest as (_ & Hr & Hs). by split_and!.
  - destruct Hrest as (Hr & Hs). split_and!; try done. by eapply (wf_neighbours s Hwf).
Qed.

(** the up time that [printStats] shows decomposes the clock's milliseconds,
    which are cut to 32 bits and so start again after 49 days. *)
Theorem uptime_decomposes (t : Z) :
  in_width 64 t →
  let '(hours, minutes, seconds, ms) := uptime t in
  ((hours * 60 + minutes) * 60 + seconds) * 1000 + ms = (t / 1000) mod 2 ^ 32 ∧
  0 ≤ minutes < 60 ∧ 0 ≤ seconds < 60 ∧ 0 ≤ ms < 1000 ∧ 0 ≤ hours.
Proof.
  intros Ht. unfold uptime, u32, u16, wrap. set (x := (t / 1000) mod 2 ^ 32).
  assert (0 ≤ x < 2 ^ 32) by (apply Z.mod_pos_bound; lia).
  set (sec := x / 1000). set (min := sec / 60). set (hr := min / 60).
  assert (x = 1000 * sec + x mod 1000 ∧ 0 ≤ x mod 1000 < 1000) as [Hx ?]
    by (split; [apply Z.div_mod; lia|apply Z.mod_pos_bound; lia]).
  assert (sec = 60 * min + sec mod 60 ∧ 0 ≤ sec mod 60 < 60) as [Hsec ?]
    by (split; [apply Z.div_mod; lia|apply Z.mod_pos_bound; lia]).
  assert (min = 60 * hr + min mod 60 ∧ 0 ≤ min mod 60 < 60) as [Hmin ?]
    by (split; [apply Z.div_mod; lia|apply Z.mod_pos_bound; lia]).
  assert (0 ≤ hr) by (unfold hr, min, sec; repeat apply Z.div_pos; lia).
  rewrite (Z.mod_small (hr * 60) (2 ^ 32)), (Z.mod_small (min * 60) (2 ^ 32)),
    (Z.mod_small (sec * 1000) (2 ^ 32)) by lia.
  rewrite !Z.mod_small by lia. lia.
Qed.

(** ** Witnesses *)

Definition clock_example : Tracker :=
  upd_available_neighbours (λ _, {[ [1] := (2, BleConnection_new);
    [2] := (3, setServices ServiceUUIDAndNameFound BleConnection_new) ]}) (Tracker_new 1).

Lemma time_follows_announcements_witness :
  ∃ s', @possiblyUpdateTimeOffset example_env 1755685519 (Tracker_new 1) = Ok (tt, s') ∧
    1755685519 ≤ time_at s' (@clock example_env (Tracker_new 1)) ≤ 1755685519 + MESSAGE_TIMEOUT ∧
    (1755685519 ≤ @now_of example_env (Tracker_new 1) ≤ 1755685519 + MESSAGE_TIMEOUT →
       timestamp_offset_ms s' = timestamp_offset_ms (Tracker_new 1)) ∧
    (¬ 1755685519 ≤ @now_of example_env (Tracker_new 1) ≤ 1755685519 + MESSAGE_TIMEOUT →
       time_at s' (@clock example_env (Tracker_new 1)) = 1755685519).
Proof. apply time_follows_announcements; vm_compute; [by split|reflexivity]. Defined.

(** A repeater that was synchronised a minute after it started. *)
Lemma repeater_announcement_desynchronises_witness :
  let t := upd_timestamp_offset_ms (λ _, 1755700000) (Tracker_new 1) in
  ∃ t', @possiblyUpdateTimeOffset example_env
      (getPacketTimestampMs (mkBase type_announce 3 1755800000 0)) t = Ok (tt, t') ∧
    timestamp_offset_ms t' < build_time_ms.
Proof. apply repeater_announcement_desynchronises; decide_concrete. Defined.

Lemma connectable_neighbours_spec_witness :
  ∃ l s', @getConnectableNeighbours example_env clock_example = Ok (l, s') ∧ wf s' ∧
    ∀ a, a ∈ l ↔ ∃ k c, available_neighbours clock_example !! k = Some (a, c) ∧ isRandom c = false ∧
      (build_time_ms ≤ timestamp_offset_ms clock_example ∨ isRepeater c = true).
Proof. apply connectable_neighbours_spec, wf_check_sound. vm_compute. reflexivity. Defined.

Lemma uptime_decomposes_witness :
  let '(hours, minutes, seconds, ms) := uptime 3723004000 in
  ((hours * 60 + minutes) * 60 + seconds) * 1000 + ms = (3723004000 / 1000) mod 2 ^ 32 ∧
  0 ≤ minutes < 60 ∧ 0 ≤ seconds < 60 ∧ 0 ≤ ms < 1000 ∧ 0 ≤ hours.
Proof. apply (uptime_decomposes 3723004000). by split. Defined.
