(* ===== verification/Connections.v ===== *)
(** Connections as they come and go: what [connectionForConnHandle],
    [reportConnection] and [reportDisconnection] of
    src/BLE/BleConnectionTracker.cpp do to the map of connections, in one
    update each. *)

From S2P Require Import Prelude BinaryIO Packets StdContainers BleConnection Tracker TrackerWf TrackerSafety Sending.

(** * Lemmas: connections *)

Section connections.
Context {env : Env} `{!AllocFresh env}.

Definition connection_node (h : Z) (s : Tracker) : Addr * BleConnection :=
  node_or connections BleConnection_new h s.

Definition set_connection (h : Z) (n : Addr * BleConnection) : Tracker → Tracker :=
  upd_connections (λ m, <[h := n]> m).

Lemma connection_do_run f h s :
  connection_do f h s
  = Ok (tt, set_connection h (fst (connection_node h s), f (snd (connection_node h s))) s).
Proof.
  unfold connection_do. rewrite (M_bind_ok _ _ _ _ _ (connection_ref_run h s)). unfold modify.
  do 2 f_equal. unfold set_connection, connection_node, node_or, ensure_connection, ensure.
  destruct (connections s !! h) as [[a c]|] eqn:Hc; unfold upd_connections; cbn; f_equal;
    unfold node_update.
  - apply map_eq. intros k. rewrite lookup_alter, lookup_insert.
    case_decide; [subst k; by rewrite Hc|done].
  - by rewrite alter_insert_eq.
Qed.

Lemma connection_node_set h n s : connection_node h (set_connection h n s) = n.
Proof. unfold connection_node, node_or. cbn. by rewrite lookup_insert_eq. Qed.

Lemma set_connection_twice h n n' s :
  set_connection h n (set_connection h n' s) = set_connection h n s.
Proof. unfold set_connection, upd_connections. cbn. f_equal. apply insert_insert_eq. Qed.

(** The next call on the same connection. *)
Lemma connection_do_again f h n s :
  connection_do f h (set_connection h n s) = Ok (tt, set_connection h (fst n, f (snd n)) s).
Proof. by rewrite connection_do_run, connection_node_set, set_connection_twice. Qed.

(** The connection that [reportConnection] starts from: the neighbour with the
    address, or else what is known under the handle. *)
Definition reported_from (h : Z) (addr : list Z) (s : Tracker) : BleConnection :=
  match available_neighbours s !! addr with
  | Some (_, c) => c
  | None => snd (connection_node h s)
  end.

Definition reported (h : Z) (addr : list Z) (type : Z) (s : Tracker) : BleConnection :=
  setTimestamp (clock s) (setBleAddress addr type (setConnected true
    (setConnectionHandle h (reported_from h addr s)))).

Lemma reportConnection_run h addr type s :
  reportConnection h addr type s
  = Ok (tt, upd_available_neighbours (delete addr) (upd_calls (λ l, l ++ [time_us_64_call])
      (set_connection h (fst (connection_node h s), reported h addr type s) s))).
Proof.
  unfold reportConnection, reported, reported_from. rewrite (M_bind_ok get _ _ _ _ eq_refl).
  destruct (available_neighbours s !! addr) as [[a c]|] eqn:Hn.
  - rewrite M_bind_assoc, (M_bind_ok _ _ _ _ _ (connection_do_run _ h s)).
    set (x := fst (connection_node h s)). set (d := upd_available_neighbours (delete addr)).
    rewrite (M_bind_ok (modify d) _ _ _ _ eq_refl).
    change (d (set_connection h ?n s)) with (set_connection h n (d s)).
    do 3 rewrite (M_bind_ok _ _ _ _ _ (connection_do_again _ h _ _)).
    rewrite (M_bind_ok time_us_64 _ _ _ _ eq_refl).
    change (upd_calls ?f (set_connection h ?n ?z)) with (set_connection h n (upd_calls f z)).
    rewrite (M_bind_ok _ _ _ _ _ (connection_do_again _ h _ _)). unfold modify, d.
    do 2 f_equal. unfold upd_available_neighbours, set_connection, upd_connections, upd_calls. cbn.
    by rewrite delete_delete_eq.
  - rewrite (M_bind_ok (mret tt) _ _ _ _ eq_refl), (M_bind_ok _ _ _ _ _ (connection_do_run _ h s)).
    do 2 rewrite (M_bind_ok _ _ _ _ _ (connection_do_again _ h _ _)).
    rewrite (M_bind_ok time_us_64 _ _ _ _ eq_refl).
    change (upd_calls ?f (set_connection h ?n ?z)) with (set_connection h n (upd_calls f z)).
    by rewrite (M_bind_ok _ _ _ _ _ (connection_do_again _ h _ _)).
Qed.

(** The address that the lambda of [reportDisconnection] compares with is that of
    no connection that is recorded, so it removes nothing. *)
Lemma filter_captured s :
  wf s →
  filter (λ e, ¬ (fst e = announce_at s ∧ snd e = alloc (used s))) (packets_connections_sent_list s)
  = packets_connections_sent_list s.
Proof.
  intros Hwf. apply filter_true. intros e He [_ Hx].
  destruct (po_sent s (wf_pointers s Hwf) e He) as [_ [h Ha%addr_of_used]].
  apply (alloc_fresh (used s)). congruence.
Qed.

Definition disconnected (c : BleConnection) : BleConnection :=
  setConnected false (setNotificationEnabled false c).

Lemma ensure_connection_set h s : ensure_connection h s = set_connection h (connection_node h s) s.
Proof.
  unfold ensure_connection, ensure, set_connection, connection_node, node_or.
  destruct (connections s !! h) as [n|] eqn:Hn; [|done]. destruct s. cbn in *.
  unfold upd_connections. cbn. f_equal. symmetry. by apply insert_id.
Qed.

Lemma wf_set_connection h c s :
  wf s → (connected c = true → connection_handle c = h) →
  wf (set_connection h (fst (connection_node h s), c) s) ∧
  extends s (set_connection h (fst (connection_node h s), c) s).
Proof.
  intros Hwf Hc. assert (wfp (connection_do (λ _, c) h) any s) as Hw.
  { eapply wfp_mono; [by apply wfp_connection_do_from|done]. }
  unfold wfp, wp in Hw. rewrite connection_do_run in Hw. naive_solver.
Qed.

(** The state after [reportDisconnection]. *)
Definition after_disconnection (h : Z) (s : Tracker) : Tracker :=
  let '(a, c) := connection_node h s in
  upd_handle_peer_map (delete h)
    (upd_calls (λ l, if decide (role c = HCI_ROLE_MASTER)
                     then l ++ [gatt_client_stop_listening_for_characteristic_value_updates a] else l)
      (set_connection h (a, disconnected c) s)).

Lemma reportDisconnection_run h s :
  wf s → reportDisconnection h s = Ok (tt, after_disconnection h s) ∧
    wf (after_disconnection h s) ∧ extends s (after_disconnection h s).
Proof.
  intros Hwf. unfold after_disconnection. destruct (connection_node h s) as [a c] eqn:Hn.
  set (s1 := set_connection h (a, disconnected c) s).
  set (f := λ l : list Call, _). set (s2 := upd_handle_peer_map _ _).
  assert (wf s2 ∧ extends s s2) as [Hwf2 He2].
  { destruct (wf_set_connection h (disconnected c) s Hwf) as [Hw1 He1]; [done|].
    rewrite Hn in Hw1, He1. destruct (wf_calls _ f Hw1) as [Hw2 He2].
    destruct (wf_unset_peer _ h Hw2) as [Hw3 He3].
    split; [done|]. etrans; [exact He1|]. by etrans. }
  split_and!; [|done|done]. unfold reportDisconnection.
  rewrite (M_bind_ok _ _ _ _ _ (connection_ref_run h s)), ensure_connection_set, Hn.
  do 2 rewrite (M_bind_ok _ _ _ _ _ (connection_do_again _ h _ _)).
  change (set_connection h _ s) with s1.
  rewrite (M_bind_ok _ _ _ _ _ (connection_ref_run h s1)), ensure_connection_set.
  unfold s1 at 1. fold (connection_node h (set_connection h (a, disconnected c) s)).
  rewrite connection_node_set. unfold s1 at 1 2. rewrite connection_node_set, set_connection_twice.
  fold s1. assert ((if decide (role (disconnected c) = HCI_ROLE_MASTER)
    then ext (gatt_client_stop_listening_for_characteristic_value_updates a);; mret tt
    else mret tt) s1 = Ok (tt, upd_calls f s1)) as Hcall.
  { unfold f. change (role (disconnected c)) with (role c). case_decide; [done|].
    unfold upd_calls. by destruct s1. }
  rewrite (M_bind_ok _ _ _ _ _ Hcall). rewrite (M_bind_ok (modify _) _ _ _ _ eq_refl).
  rewrite (M_bind_ok get _ _ _ _ eq_refl). fold s2. cbn zeta. unfold modify. do 2 f_equal.
  transitivity (upd_packets_connections_sent_list (λ _, packets_connections_sent_list s2) s2).
  - unfold upd_packets_connections_sent_list. f_equal. by apply filter_captured.
  - by destruct s2.
Qed.

(** ** Connections by handle *)

(** What [connectionForConnHandle] finds or makes. *)
Definition handle_node (h : Z) (s : Tracker) : Addr * BleConnection :=
  match connections s !! h with
  | Some n => n
  | None => (alloc (used s), setConnectionHandle h BleConnection_new)
  end.

Definition with_handle (h : Z) (s : Tracker) : Tracker := set_connection h (handle_node h s) s.

Lemma set_connection_lookup h n s : connections (set_connection h n s) !! h = Some n.
Proof. apply lookup_insert_eq. Qed.

Lemma set_connection_id h n s : connections s !! h = Some n → set_connection h n s = s.
Proof.
  intros Hn. destruct s. cbn in *. unfold set_connection, upd_connections. cbn. f_equal.
  by apply insert_id.
Qed.

Lemma connection_ref_set h n s :
  connection_ref h (set_connection h n s) = Ok (n, set_connection h n s).
Proof.
  rewrite connection_ref_run, ensure_connection_set. fold (connection_node h (set_connection h n s)).
  by rewrite connection_node_set, set_connection_twice.
Qed.

Lemma connectionForConnHandle_run h s :
  connectionForConnHandle h s = Ok (handle_node h s, with_handle h s).
Proof.
  unfold connectionForConnHandle, with_handle, handle_node. rewrite (M_bind_ok get _ _ _ _ eq_refl).
  destruct (connections s !! h) as [n|] eqn:Hn; [by rewrite set_connection_id|].
  rewrite (M_bind_ok _ _ _ _ _ (connection_do_run _ h s)), connection_ref_set.
  unfold connection_node, node_or. by rewrite Hn.
Qed.

Lemma wf_with_handle h s : wf s → wf (with_handle h s) ∧ extends s (with_handle h s).
Proof.
  intros Hwf. pose proof (wfp_connectionForConnHandle h s Hwf) as Hw. unfold wfp, wp in Hw.
  rewrite connectionForConnHandle_run in Hw. naive_solver.
Qed.

(** A method of the connection with a handle, through its address. *)
Lemma connection_ptr_do_run f h a c s :
  wf s → connections s !! h = Some (a, c) →
  connection_ptr_do f a s = Ok (tt, set_connection h (a, f c) s).
Proof.
  intros Hwf Hc. unfold connection_ptr_do. rewrite (M_bind_ok get _ _ _ _ eq_refl).
  destruct (connection_at_object s (wf_separate s Hwf) h a c Hc) as [-> _]. unfold modify.
  do 2 f_equal. unfold set_connection, upd_connections. f_equal. unfold node_update.
  apply map_eq. intros k. rewrite lookup_alter, lookup_insert. case_decide; [subst k; by rewrite Hc|done].
Qed.

Lemma connection_deref_run h a c s :
  wf s → connections s !! h = Some (a, c) → deref connection_at a s = Ok (c, s).
Proof.
  intros Hwf Hc. unfold deref. rewrite (M_bind_ok get _ _ _ _ eq_refl).
  by destruct (connection_at_object s (wf_separate s Hwf) h a c Hc) as [_ ->].
Qed.

Lemma wf_connection_update h a c c' s :
  wf s → connections s !! h = Some (a, c) → (connected c' = true → connection_handle c' = h) →
  wf (set_connection h (a, c') s) ∧ extends s (set_connection h (a, c') s).
Proof.
  intros Hwf Hc Hc'. pose proof (wf_set_connection h c' s Hwf Hc') as Hw.
  unfold connection_node, node_or in Hw. by rewrite Hc in Hw.
Qed.
End connections.
