(* ===== verification/Reports.v ===== *)
(** Connections as they come and go, announcements, and the hand-over of raw packets:
    [reportConnection], [reportDisconnection], [announceToConnections],
    [notifyRawPacket] and [requestNextRssi] of src/BLE/BleConnectionTracker.cpp. *)

From S2P Require Import Prelude BinaryIO Packets StdContainers BleConnection Tracker TrackerWf TrackerSafety Sending Connections.

(** * Lemmas: announcing *)

Section reports.
Context {env : Env} `{!AllocFresh env}.

Definition announce_id (a : Announce) : Z := packet_sender_id (pa_base (an_pass a)).

(** Whether the connection with key [h] is to be announced to. *)
Definition unannounced (s : Tracker) (h : Z) : Prop :=
  build_time_ms ≤ timestamp_offset_ms s ∧
  ∀ e, e ∈ packets_connections_sent_list s → fst e = announce_at s → handle_at s (snd e) ≠ Some h.

(** A run of the loop: who was added to the queue. *)
Record announcing (s s' : Tracker) (added : list Addr) : Prop := {
  an_wf : wf s';
  an_extends : extends s s';
  an_connections : connections s' = connections s;
  an_neighbours : available_neighbours s' = available_neighbours s;
  an_offset : timestamp_offset_ms s' = timestamp_offset_ms s;
  an_at : announce_at s' = announce_at s;
  an_sent : packets_connections_sent_list s' = packets_connections_sent_list s;
  an_ttl : packet_ttl (base_of (announce s')) = packet_ttl (base_of (announce s));
  an_pname : an_name (announce s') = an_name (announce s);
  an_sender : announce_id (announce s') = announce_id (announce s);
  an_targeted : targeted_packets_to_send_list s'
    ≡ₚ (pair (announce_at s) <$> added) ++ targeted_packets_to_send_list s;
}.

Lemma announcing_refl s : wf s → announcing s s [].
Proof. by constructor. Qed.

Lemma announcing_trans s1 s2 s3 l1 l2 :
  announcing s1 s2 l1 → announcing s2 s3 l2 → announcing s1 s3 (l2 ++ l1).
Proof.
  intros [] []. constructor; try congruence; [by etrans|].
  rewrite an_targeted1, an_targeted0, fmap_app, <- app_assoc. by rewrite an_at0.
Qed.

Lemma unannounced_same s s' l h : announcing s s' l → unannounced s' h ↔ unannounced s h.
Proof.
  intros []. unfold unannounced. rewrite an_offset0, an_at0, an_sent0.
  assert (∀ x, handle_at s' x = handle_at s x) as Hh.
  { intros x. unfold handle_at, connection_at. by rewrite an_connections0, an_neighbours0. }
  by setoid_rewrite Hh.
Qed.

(** One connection. *)
Lemma announce_to_run range h s :
  wf s → packet_ttl (base_of (announce s)) > 0 →
  (∀ e, e ∈ range ↔ e ∈ packets_connections_sent_list s ∧ fst e = announce_at s) →
  ∃ s' added, announce_to range h s = Ok (tt, s') ∧ announcing s s' added ∧ NoDup added ∧
    ∀ a, a ∈ added ↔ ∃ c, connections s !! h = Some (a, c) ∧ available c = true ∧ unannounced s h.
Proof.
  intros Hwf Httl Hrange. unfold announce_to. rewrite (M_bind_ok get _ _ _ _ eq_refl).
  destruct (connections s !! h) as [[a c]|] eqn:Hc.
  2: { exists s, []. split_and!; [done|by apply announcing_refl|constructor|]. set_solver. }
  destruct (available c && bool_decide (build_time_ms ≤ timestamp_offset_ms s)) eqn:Hav.
  2: { exists s, []. split_and!; [done|by apply announcing_refl|constructor|]. intros x. split; [set_solver|].
       intros (c' & Hc' & Hav' & Hoff & _). injection Hc' as <- <-.
       rewrite Hav' in Hav. by rewrite bool_decide_eq_true_2 in Hav. }
  apply andb_prop in Hav as [Hav Hoff%bool_decide_eq_true].
  destruct (available_handle s h a c Hwf Hc Hav) as [Hh _].
  pose proof (wfp_sent_to_handle range (mret (connection_handle c)) (connection_handle c) s Hwf) as Hw.
  apply wp_ok in Hw as (found & s1 & Hrun & _ & _ & -> & Hfound).
  2: { intros e [He _]%Hrange. by apply (wf_pointers s Hwf). }
  2: { intros _. by apply wfp_ret. }
  rewrite (M_bind_ok _ _ _ _ _ Hrun). rewrite Hh in Hfound. setoid_rewrite Hrange in Hfound.
  destruct found.
  { exists s, []. split_and!; [done|by apply announcing_refl|constructor|]. intros x. split; [set_solver|].
    intros (c' & _ & _ & _ & Hno). exfalso.
    destruct (proj1 Hfound eq_refl) as (e & (He & Hk) & Hx). by apply (Hno e). }
  rewrite (M_bind_ok _ _ _ _ _ (getTimeMs_run s)), (M_bind_ok (modify _) _ _ _ _ eq_refl).
  set (s2 := upd_announce _ (ticked s)).
  destruct (wf_announce (ticked s) (set_announce_base (setPacketTimestamp (now_of s))))
    as [Hwf2 He2]; [by apply wf_calls|].
  assert (extends s s2) as He by (etrans; [by apply wf_calls|exact He2]).
  assert (enqueueTargetedPacket (announce_at s) c s2
    = Ok (tt, upd_targeted_packets_to_send_list (emplace (announce_at s) a) s2)) as Hrun2.
  { unfold enqueueTargetedPacket. erewrite M_bind_ok; cycle 1.
    { apply deref_ok. unfold packet_at. by rewrite decide_True. }
    rewrite decide_True by exact Httl. rewrite Hh. unfold connectionForConnHandle.
    rewrite M_bind_assoc, (M_bind_ok get _ _ _ _ eq_refl).
    change (connections s2) with (connections s). by rewrite Hc. }
  rewrite Hrun2. eexists _, [a]. split; [done|].
  destruct (wf_emplace_targeted s2 (announce_at s) a Hwf2) as [Hwf3 He3].
  { apply (live_announce s2). } { exists h. cbn. by rewrite Hc. }
  split_and!.
  - constructor; try done. cbn. apply emplace_permutation.
  - apply NoDup_singleton.
  - intros x. rewrite list_elem_of_singleton. split.
    + intros ->. exists c. split_and!; [done|done|]. split; [done|]. intros e He' Hk Hx.
      assert (false = true); [|done]. apply Hfound. eauto.
    + by intros (c' & Hc' & _); injection Hc'.
Qed.

Lemma announce_loop_run range keys : ∀ s,
  wf s → packet_ttl (base_of (announce s)) > 0 → NoDup keys →
  (∀ e, e ∈ range ↔ e ∈ packets_connections_sent_list s ∧ fst e = announce_at s) →
  ∃ s' added, for_each keys (announce_to range) s = Ok (tt, s') ∧ announcing s s' added ∧
    NoDup added ∧ ∀ a, a ∈ added ↔ ∃ h c, h ∈ keys ∧ connections s !! h = Some (a, c) ∧ available c = true ∧
      unannounced s h.
Proof.
  induction keys as [|h keys IH]; intros s Hwf Httl Hnd Hrange.
  { exists s, []. split_and!; [done|by apply announcing_refl|constructor|]. set_solver. }
  apply NoDup_cons in Hnd as [Hh Hnd].
  destruct (announce_to_run range h s Hwf Httl Hrange) as (s1 & l1 & Hrun1 & Hs1 & Hd1 & Hl1).
  destruct (IH s1 (an_wf _ _ _ Hs1)) as (s2 & l2 & Hrun2 & Hs2 & Hd2 & Hl2); [|done|..].
  { by rewrite (an_ttl _ _ _ Hs1). }
  { intros e. by rewrite (an_sent _ _ _ Hs1), (an_at _ _ _ Hs1). }
  exists s2, (l2 ++ l1). cbn [for_each]. rewrite (M_bind_ok _ _ _ _ _ Hrun1).
  split_and!; [done|by eapply announcing_trans| |].
  { apply NoDup_app. split_and!; [done| |done]. intros a (h' & c' & Hh' & Hc' & _)%Hl2 (c & Hc & _)%Hl1.
    rewrite (an_connections _ _ _ Hs1) in Hc'. assert (OConnection h = OConnection h') as [= ->]; [|done].
    apply (wf_separate s Hwf _ _ a); cbn; [by rewrite Hc|by rewrite Hc']. }
  intros a. rewrite elem_of_app, Hl1, Hl2.
  setoid_rewrite elem_of_cons. rewrite (an_connections _ _ _ Hs1).
  setoid_rewrite (unannounced_same s s1 l1); [|done]. naive_solver.
Qed.

(** The announcement after [setupAnnounceIfNeeded]. *)
Definition prepared (a : Announce) : Announce :=
  if decide (packet_ttl (base_of a) = 3) then a
  else setName (repeater_name local_bd_addr) (set_announce_sender (address_word local_bd_addr)
         (set_announce_base (setPacketFlags 0) (set_announce_base (setPacketTtl 3) a))).

Lemma prepared_ttl a : packet_ttl (base_of (prepared a)) = 3.
Proof. unfold prepared. by case_decide. Qed.

Lemma setupAnnounce_run s :
  length local_bd_addr = 6%nat →
  setupAnnounceIfNeeded s = Ok (tt, upd_announce prepared s).
Proof.
  intros Hl. unfold setupAnnounceIfNeeded, prepared. rewrite (M_bind_ok get _ _ _ _ eq_refl).
  unfold upd_announce. case_decide; [by destruct s|]. rewrite !(M_bind_ok (modify _) _ _ _ _ eq_refl).
  by rewrite announced_name_ok, lift_result_ok.
Qed.

(** ** Raw packets *)

(** What is left of a queue once its packet was handed over. *)
Definition handed_over (ret : Z) (h : Z) (l : multimap (list Z)) : multimap (list Z) :=
  if decide (u8 ret = ERROR_CODE_SUCCESS ∨ u8 ret = ERROR_CODE_UNKNOWN_CONNECTION_IDENTIFIER)
  then erase_lower_bound h l else l.

Lemma notifyRawPacket_run h s a c k data rest :
  ndebug = true → connections s !! h = Some (a, c) →
  lower_bound h (raw_packet_to_notify s) = (k, data) :: rest →
  let call := att_server_notify h (packet_characteristic_value_handle c) data in
  let l := handed_over (answer (calls s) call) h (raw_packet_to_notify s) in
  notifyRawPacket h s
  = Ok (tt, match lower_bound h l with
            | [] => upd_raw_packet_to_notify (λ _, l) (upd_calls (λ t, t ++ [call]) s)
            | _ => upd_calls (λ t, t ++ [att_server_request_to_send_notification h])
                     (upd_notify_context (λ _, Some h)
                        (upd_raw_packet_to_notify (λ _, l) (upd_calls (λ t, t ++ [call]) s)))
            end).
Proof.
  intros Hnd Hc Hl. cbn zeta. set (call := att_server_notify _ _ _).
  set (l := handed_over _ h _). set (s1 := upd_calls (λ t, t ++ [call]) s).
  set (s2 := upd_raw_packet_to_notify (λ _, l) s1).
  assert (∀ x, connections x = connections s → connection_ref h x = Ok ((a, c), x)) as Href.
  { intros x Hx. rewrite connection_ref_run. unfold node_or, ensure_connection, ensure.
    by rewrite Hx, Hc. }
  unfold notifyRawPacket. rewrite (M_bind_ok get _ _ _ _ eq_refl), Hl.
  rewrite M_bind_assoc, (M_bind_ok _ _ _ _ _ (Href s eq_refl)).
  rewrite decide_False by (rewrite Hnd; by intros [_ ?]).
  rewrite M_bind_assoc, (M_bind_ok (mret tt) _ _ _ _ eq_refl).
  rewrite M_bind_assoc, (M_bind_ok _ _ _ _ _ (ext_run call s)).
  assert ((if decide (u8 (answer (calls s) call) = ERROR_CODE_SUCCESS ∨
      u8 (answer (calls s) call) = ERROR_CODE_UNKNOWN_CONNECTION_IDENTIFIER)
    then modify (upd_raw_packet_to_notify (erase_lower_bound h)) else mret tt) s1 = Ok (tt, s2)) as Hmod.
  { unfold s2, l, handed_over. case_decide; [done|]. by destruct s. }
  rewrite (M_bind_ok _ _ _ _ _ Hmod), (M_bind_ok get _ _ _ _ eq_refl).
  change (raw_packet_to_notify s2) with l. destruct (lower_bound h l); [|done].
  by rewrite (M_bind_ok _ _ _ _ _ (Href s2 eq_refl)).
Qed.

Lemma writeRawPacket_run h s a c k data rest :
  ndebug = true → connections s !! h = Some (a, c) →
  lower_bound h (raw_packet_to_write s) = (k, data) :: rest →
  let call := gatt_client_write_value_of_characteristic_without_response h
                (packet_characteristic_value_handle c) data in
  let l := handed_over (answer (calls s) call) h (raw_packet_to_write s) in
  writeRawPacket h s
  = Ok (tt, match lower_bound h l with
            | [] => upd_raw_packet_to_write (λ _, l) (upd_calls (λ t, t ++ [call]) s)
            | _ => upd_calls (λ t, t ++ [gatt_client_request_to_write_without_response h])
                     (upd_write_context (λ _, Some h)
                        (upd_raw_packet_to_write (λ _, l) (upd_calls (λ t, t ++ [call]) s)))
            end).
Proof.
  intros Hnd Hc Hl. cbn zeta.
  set (call := gatt_client_write_value_of_characteristic_without_response _ _ _).
  set (l := handed_over _ h _). set (s1 := upd_calls (λ t, t ++ [call]) s).
  set (s2 := upd_raw_packet_to_write (λ _, l) s1).
  assert (∀ x, connections x = connections s → connection_ref h x = Ok ((a, c), x)) as Href.
  { intros x Hx. rewrite connection_ref_run. unfold node_or, ensure_connection, ensure.
    by rewrite Hx, Hc. }
  unfold writeRawPacket. rewrite (M_bind_ok get _ _ _ _ eq_refl), Hl.
  rewrite M_bind_assoc, (M_bind_ok _ _ _ _ _ (Href s eq_refl)).
  rewrite decide_False by (rewrite Hnd; by intros [_ ?]).
  rewrite M_bind_assoc, (M_bind_ok (mret tt) _ _ _ _ eq_refl).
  rewrite M_bind_assoc, (M_bind_ok _ _ _ _ _ (ext_run call s)).
  assert ((if decide (u8 (answer (calls s) call) = ERROR_CODE_SUCCESS ∨
      u8 (answer (calls s) call) = ERROR_CODE_UNKNOWN_CONNECTION_IDENTIFIER)
    then modify (upd_raw_packet_to_write (erase_lower_bound h)) else mret tt) s1 = Ok (tt, s2)) as Hmod.
  { unfold s2, l, handed_over. case_decide; [done|]. by destruct s. }
  rewrite (M_bind_ok _ _ _ _ _ Hmod), (M_bind_ok get _ _ _ _ eq_refl).
  change (raw_packet_to_write s2) with l. destruct (lower_bound h l); [|done].
  by rewrite (M_bind_ok _ _ _ _ _ (Href s2 eq_refl)).
Qed.

(** ** Signal strengths *)

Definition node_addr (kn : Z * (Addr * BleConnection)) : Addr := fst (snd kn).

(** The state after the request for a node, [post] being the nodes behind it. *)
Definition rssi_requested (k : Z) (post : list (Z * (Addr * BleConnection))) (s : Tracker) : Tracker :=
  upd_rssi_iterator (λ _, Some (node_addr <$> head post)) (upd_calls (λ t, t ++ [gap_read_rssi k]) s).

Lemma find_next pre k n post :
  StronglySorted Z.lt (fst <$> pre ++ (k, n) :: post) →
  find (λ kn : Z * (Addr * BleConnection), Z.ltb k (fst kn)) (pre ++ (k, n) :: post) = head post.
Proof.
  induction pre as [|[k' n'] pre IH]; cbn [app fmap list_fmap fst find].
  - intros [Hs Hall]%StronglySorted_inv. rewrite Z.ltb_irrefl.
    destruct post as [|[k2 n2] post]; [done|]. cbn in *. inversion_clear Hall.
    by rewrite (proj2 (Z.ltb_lt k k2)).
  - intros [Hs Hall]%StronglySorted_inv. rewrite (proj2 (Z.ltb_ge k k')); [by apply IH|].
    eapply Forall_forall in Hall; [|apply list_elem_of_fmap; exists (k, n); split; [done|]];
      [cbn in Hall; lia|apply elem_of_app; right; apply elem_of_cons; by left].
Qed.

Lemma requestNextRssi_run (restart : bool) pre k a c post s :
  wf s → items (connections s) = pre ++ (k, (a, c)) :: post →
  (if restart then pre = [] else rssi_iterator s = Some (Some a)) →
  requestNextRssi restart s = Ok (bool_decide (post ≠ []), rssi_requested k post s).
Proof.
  intros Hwf Hi Hit. unfold requestNextRssi. rewrite (M_bind_ok get _ _ _ _ eq_refl).
  assert (connections s !! k = Some (a, c)) as Hk.
  { apply elem_of_items. rewrite Hi. apply elem_of_app. right. apply elem_of_cons. by left. }
  destruct (connection_at_object s (wf_separate s Hwf) k a c Hk) as [Hn _].
  assert (match default (connections_begin s) (rssi_iterator s) with
          | Some a' => if restart then connections_begin s else Some a'
          | None => connections_begin s
          end = Some a) as ->.
  { destruct restart.
    - subst pre. assert (connections_begin s = Some a) as -> by (unfold connections_begin; by rewrite Hi).
      by destruct (default (Some a) (rssi_iterator s)).
    - by rewrite Hit. }
  cbn [mbind option_bind]. rewrite Hn, (M_bind_ok _ _ _ _ _ (ext_run (gap_read_rssi k) s)). cbn zeta.
  assert (connections_next s k = node_addr <$> head post) as Hnext.
  { unfold connections_next. rewrite Hi, find_next; [done|]. rewrite <- Hi. apply items_sorted. }
  rewrite Hnext, (M_bind_ok (modify _) _ _ _ _ eq_refl). unfold mret, M_ret. do 2 f_equal.
  by destruct post.
Qed.

(** The main loop: requests follow each other until one returns false. *)
Fixpoint continue_rssi (fuel : nat) : M Tracker bool :=
  match fuel with
  | O => mret true
  | S fuel' => more ← requestNextRssi false;
               if more : bool then continue_rssi fuel' else mret false
  end.

Definition rssi_round (fuel : nat) : M Tracker bool :=
  more ← requestNextRssi true;
  if more : bool then continue_rssi fuel else mret false.

Lemma rssi_requested_wf k post s : wf s → wf (rssi_requested k post s).
Proof. intros Hwf. by apply wf_rssi_iterator, wf_calls. Qed.

Lemma continue_rssi_run fuel post : ∀ pre s,
  wf s → items (connections s) = pre ++ post → post ≠ [] → (length post ≤ fuel)%nat →
  rssi_iterator s = Some (node_addr <$> head post) →
  ∃ s', continue_rssi fuel s = Ok (false, s') ∧ wf s' ∧
    calls s' = calls s ++ (gap_read_rssi <$> (fst <$> post)) ∧ connections s' = connections s.
Proof.
  revert fuel. induction post as [|[k [a c]] post IH]; intros [|fuel] pre s Hwf Hi Hne Hf Hit;
    try done; [cbn in Hf; lia|]. cbn [continue_rssi].
  rewrite (M_bind_ok _ _ _ _ _ (requestNextRssi_run false pre k a c post s Hwf Hi Hit)).
  pose proof (rssi_requested_wf k post s Hwf) as Hwf'. destruct post as [|n post].
  - rewrite bool_decide_false by (by intros []). by exists (rssi_requested k [] s).
  - rewrite bool_decide_true by done.
    destruct (IH fuel (pre ++ [(k, (a, c))]) (rssi_requested k (n :: post) s))
      as (s' & Hrun & Hw & Hcalls & Hcon); try done.
    + by rewrite <- app_assoc.
    + cbn in Hf |- *. lia.
    + exists s'. split_and!; [done|done| |done]. rewrite Hcalls. cbn. by rewrite <- app_assoc.
Qed.
End reports.

(** * Properties *)

(** a reported connection is stored under its handle: connected, with its
    handle, address and the clock's reading, and otherwise as the neighbour with that
    address was known (or as the handle was, if there was no such neighbour); the
    neighbour is removed, and no other connection or neighbour is touched. *)
Theorem connection_reported {env : Env} `{!AllocFresh env} (s : Tracker) h addr type :
  wf s →
  ∃ s' a c, reportConnection h addr type s = Ok (tt, s') ∧ wf s' ∧
    connections s' = <[h := (a, c)]> (connections s) ∧
    available_neighbours s' = delete addr (available_neighbours s) ∧
    (connected c, connection_handle c, bt_address c, bt_address_type c, last_seen_time c)
      = (true, h, addr, type, clock s) ∧
    let from := reported_from h addr s in
    (services_found c, rssi c, role c, bt_mtu c, packet_characteristic_value_handle c)
      = (services_found from, rssi from, role from, bt_mtu from, packet_characteristic_value_handle from).
Proof.
  intros Hwf. pose proof (wfp_reportConnection h addr type s Hwf) as Hw. unfold wfp, wp in Hw.
  rewrite reportConnection_run in Hw. destruct Hw as [Hwf' _].
  eexists _, (fst (connection_node h s)), (reported h addr type s).
  split; [apply reportConnection_run|]. by split_and!.
Qed.

(** a disconnection leaves the connection in the map, not connected and without
    notifications, and drops the handle's peer; the records of what was sent stay as
    they are, the announcement's too, although the code sets out to remove those. *)
Theorem disconnection_reported {env : Env} `{!AllocFresh env} (s : Tracker) h :
  wf s →
  ∃ s' a c, reportDisconnection h s = Ok (tt, s') ∧ wf s' ∧
    connections s' = <[h := (a, c)]> (connections s) ∧
    connected c = false ∧ notification_enabled c = false ∧
    packet_characteristic_value_handle c
      = packet_characteristic_value_handle (snd (connection_node h s)) ∧
    handle_peer_map s' = delete h (handle_peer_map s) ∧
    packets_connections_sent_list s' = packets_connections_sent_list s.
Proof.
  intros Hwf. destruct (reportDisconnection_run h s Hwf) as (Hrun & Hwf' & _).
  unfold after_disconnection in *. destruct (connection_node h s) as [a c].
  eexists _, a, (disconnected c). split; [exact Hrun|]. by split_and!.
Qed.

(** C32: [announceToConnections] prepares the announcement (ttl 3, the local address
    and the name with its last two bytes) and queues it for exactly the available
    connections that are not recorded to have it, each once, and for none before the
    clock is synchronised. *)
Theorem announcements_queued {env : Env} `{!AllocFresh env} (s : Tracker) :
  wf s → length local_bd_addr = 6%nat →
  ∃ s' added, announceToConnections s = Ok (tt, s') ∧ wf s' ∧
    packet_ttl (base_of (announce s')) = 3 ∧
    (packet_ttl (base_of (announce s)) ≠ 3 →
       an_name (announce s') = repeater_name local_bd_addr ∧
       announce_id (announce s') = address_word local_bd_addr) ∧
    targeted_packets_to_send_list s'
      ≡ₚ (pair (announce_at s) <$> added) ++ targeted_packets_to_send_list s ∧
    NoDup added ∧
    ∀ a, a ∈ added ↔ ∃ h c, connections s !! h = Some (a, c) ∧ available c = true ∧ unannounced s h.
Proof.
  intros Hwf Hl. unfold announceToConnections.
  rewrite (M_bind_ok _ _ _ _ _ (setupAnnounce_run s Hl)), (M_bind_ok get _ _ _ _ eq_refl).
  set (s0 := upd_announce prepared s). destruct (wf_announce s prepared Hwf) as [Hwf0 _].
  pose proof (prepared_ttl (announce s)) as Httl.
  destruct (announce_loop_run (equal_range (announce_at s0) (packets_connections_sent_list s0))
    (fst <$> items (connections s0)) s0 Hwf0) as (s' & added & Hrun & Hs & Hd & Hadded).
  { change (announce s0) with (prepared (announce s)). by rewrite Httl. }
  { apply NoDup_items. }
  { intros e. apply elem_of_equal_range. }
  exists s', added. split; [exact Hrun|]. split_and!.
  - apply Hs.
  - rewrite (an_ttl _ _ _ Hs). exact Httl.
  - intros Hne. rewrite (an_pname _ _ _ Hs), (an_sender _ _ _ Hs).
    change (announce s0) with (prepared (announce s)). unfold prepared. by rewrite decide_False.
  - apply Hs.
  - done.
  - intros a. rewrite Hadded. change (unannounced s0) with (unannounced s). split.
    + intros (h & c & _ & Hrest). by exists h, c.
    + intros (h & c & Hc & Hrest). exists h, c. split; [|done]. apply list_elem_of_fmap.
      exists (h, (a, c)). split; [done|]. by apply elem_of_items.
Qed.

(** because the records stay, a connection that was announced to once is never
    announced to again: not after it went away and came back under the same handle. *)
Theorem reconnected_not_announced {env : Env} `{!AllocFresh env} (s : Tracker) h a c addr type :
  wf s → length local_bd_addr = 6%nat → connections s !! h = Some (a, c) →
  (announce_at s, a) ∈ packets_connections_sent_list s →
  ∃ s', (reportDisconnection h;; reportConnection h addr type;; announceToConnections) s = Ok (tt, s') ∧
    ∀ x, handle_at s' x = Some h → (announce_at s, x) ∈ targeted_packets_to_send_list s' →
         (announce_at s, x) ∈ targeted_packets_to_send_list s.
Proof.
  intros Hwf Hl Hc Hsent. destruct (reportDisconnection_run h s Hwf) as (Hrun1 & Hwf1 & _).
  rewrite (M_bind_ok _ _ _ _ _ Hrun1). unfold after_disconnection in *.
  assert (connection_node h s = (a, c)) as Hn by (unfold connection_node, node_or; by rewrite Hc).
  rewrite Hn in *. set (s1 := upd_handle_peer_map _ _) in *.
  pose proof (wfp_reportConnection h addr type s1 Hwf1) as Hw. unfold wfp, wp in Hw.
  rewrite reportConnection_run in Hw. destruct Hw as (Hwf2 & _ & _).
  rewrite (M_bind_ok _ _ _ _ _ (reportConnection_run h addr type s1)).
  assert (fst (connection_node h s1) = a) as Ha.
  { unfold connection_node, node_or. cbn. by rewrite lookup_insert_eq. }
  rewrite Ha in *. set (s2 := upd_available_neighbours _ _) in *.
  assert (connections s2 !! h = Some (a, reported h addr type s1)) as Hc2.
  { cbn. by rewrite lookup_insert_eq. }
  unfold announceToConnections.
  rewrite (M_bind_ok _ _ _ _ _ (setupAnnounce_run s2 Hl)), (M_bind_ok get _ _ _ _ eq_refl).
  set (s3 := upd_announce prepared s2). destruct (wf_announce s2 prepared Hwf2) as [Hwf3 _].
  destruct (announce_loop_run (equal_range (announce_at s3) (packets_connections_sent_list s3))
    (fst <$> items (connections s3)) s3 Hwf3) as (s' & added & Hrun & Hs & _ & Hadded).
  { change (announce s3) with (prepared (announce s2)). by rewrite prepared_ttl. }
  { apply NoDup_items. }
  { intros e. apply elem_of_equal_range. }
  exists s'. split; [exact Hrun|]. intros x Hx. rewrite (an_targeted _ _ _ Hs), elem_of_app.
  intros [Hin|Hin]; [|exact Hin]. exfalso.
  apply list_elem_of_fmap in Hin as (y & [= <-] & (k & c' & _ & Hc' & Hav & Hun)%Hadded).
  destruct (available_handle s3 k x c' Hwf3 Hc' Hav) as [_ Hk].
  assert (handle_at s' x = handle_at s3 x) as Hsame.
  { unfold handle_at, connection_at. by rewrite (an_connections _ _ _ Hs), (an_neighbours _ _ _ Hs). }
  rewrite Hsame, Hk in Hx. injection Hx as ->.
  destruct Hun as [_ Hun]. apply (Hun (announce_at s, a) Hsent eq_refl). cbn [snd].
  unfold handle_at. destruct (connection_at_object s3 (wf_separate s3 Hwf3) h a _ Hc2) as [_ ->]. done.
Qed.

(** when BTstack can send for a handle, the first raw packet queued for the
    handle is given to it with the connection's characteristic; the packet leaves the
    queue exactly when BTstack took it or does not know the connection, all others
    stay in their order, and sending is requested again while there may be more. *)
Theorem notify_hands_over {env : Env} (s : Tracker) h a c pre data post :
  ndebug = true → connections s !! h = Some (a, c) →
  raw_packet_to_notify s = pre ++ (h, data) :: post → Forall (λ e, fst e < h) pre →
  let call := att_server_notify h (packet_characteristic_value_handle c) data in
  let taken := u8 (answer (calls s) call) = ERROR_CODE_SUCCESS ∨
               u8 (answer (calls s) call) = ERROR_CODE_UNKNOWN_CONNECTION_IDENTIFIER in
  ∃ s', notifyRawPacket h s = Ok (tt, s') ∧
    raw_packet_to_notify s' = (if decide taken then pre ++ post else raw_packet_to_notify s) ∧
    connections s' = connections s ∧
    (calls s' = calls s ++ [call; att_server_request_to_send_notification h] ∨
     calls s' = calls s ++ [call] ∧ taken ∧ lower_bound h (pre ++ post) = []).
Proof.
  intros Hnd Hc Hq Hpre. cbn zeta. set (call := att_server_notify _ _ _).
  assert (lower_bound h (raw_packet_to_notify s) = (h, data) :: post) as Hl.
  { rewrite Hq, lower_bound_app by done. cbn. by rewrite decide_False by lia. }
  rewrite (notifyRawPacket_run h s a c h data post Hnd Hc Hl). eexists. split; [done|]. fold call.
  assert (handed_over (answer (calls s) call) h (raw_packet_to_notify s)
    = if decide (u8 (answer (calls s) call) = ERROR_CODE_SUCCESS ∨
        u8 (answer (calls s) call) = ERROR_CODE_UNKNOWN_CONNECTION_IDENTIFIER)
      then pre ++ post else raw_packet_to_notify s) as ->.
  { unfold handed_over. case_decide; [|done]. rewrite Hq, erase_lower_bound_app by done. cbn.
    by rewrite decide_False by lia. }
  case_decide as Ht.
  - destruct (lower_bound h (pre ++ post)) eqn:Hlb; (split; [done|]; split; [done|]); [by right|left].
    cbn. by rewrite <- app_assoc.
  - rewrite Hl. split; [done|]. split; [done|]. left. cbn. by rewrite <- app_assoc.
Qed.

(** when nothing is queued for the handle but something for a greater one, that
    packet is given to the wrong connection and leaves the queue, so that the one it
    was meant for never gets it. *)
Theorem notify_misdelivers {env : Env} (s : Tracker) h a c pre k data post :
  ndebug = true → connections s !! h = Some (a, c) →
  raw_packet_to_notify s = pre ++ (k, data) :: post → Forall (λ e, fst e < h) pre → h < k →
  u8 (answer (calls s) (att_server_notify h (packet_characteristic_value_handle c) data))
    = ERROR_CODE_SUCCESS →
  ∃ s', notifyRawPacket h s = Ok (tt, s') ∧ raw_packet_to_notify s' = pre ++ post ∧
    att_server_notify h (packet_characteristic_value_handle c) data ∈ calls s'.
Proof.
  intros Hnd Hc Hq Hpre Hk Ht.
  assert (lower_bound h (raw_packet_to_notify s) = (k, data) :: post) as Hl.
  { rewrite Hq, lower_bound_app by done. cbn. by rewrite decide_False by lia. }
  rewrite (notifyRawPacket_run h s a c k data post Hnd Hc Hl). eexists. split; [done|].
  assert (∀ ret, u8 ret = ERROR_CODE_SUCCESS →
    handed_over ret h (raw_packet_to_notify s) = pre ++ post) as Hh.
  { intros ret Hret. unfold handed_over. rewrite decide_True by auto.
    rewrite Hq, erase_lower_bound_app by done. cbn. by rewrite decide_False by lia. }
  rewrite Hh by done. destruct (lower_bound h (pre ++ post)); (split; [done|]); cbn;
    rewrite !elem_of_app, ?list_elem_of_singleton; auto.
Qed.

(** a round of signal strength requests ends after one request per connection,
    in the order of the handles. *)
Theorem rssi_round_covers {env : Env} `{!AllocFresh env} (s : Tracker) :
  wf s → connections s ≠ ∅ →
  ∃ s', rssi_round (size (connections s)) s = Ok (false, s') ∧ wf s' ∧
    calls s' = calls s ++ (gap_read_rssi <$> (fst <$> items (connections s))).
Proof.
  intros Hwf Hne. assert (length (items (connections s)) = size (connections s)) as Hlen.
  { by rewrite items_permutation, length_map_to_list. }
  destruct (items (connections s)) as [|[k [a c]] post] eqn:Hi; [by apply items_nonempty in Hne|].
  unfold rssi_round.
  rewrite (M_bind_ok _ _ _ _ _ (requestNextRssi_run true [] k a c post s Hwf Hi eq_refl)).
  pose proof (rssi_requested_wf k post s Hwf) as Hwf'. destruct post as [|n post].
  - rewrite bool_decide_false by (by intros []). by exists (rssi_requested k [] s).
  - rewrite bool_decide_true by done.
    destruct (continue_rssi_run (size (connections s)) (n :: post) [(k, (a, c))]
      (rssi_requested k (n :: post) s)) as (s' & Hrun & Hw & Hcalls & _); try done.
    + cbn in Hlen |- *. lia.
    + exists s'. split_and!; [done|done|]. rewrite Hcalls. cbn. by rewrite <- app_assoc.
Qed.

(** asking for signal strengths while there is no connection dereferences the
    end iterator; the main loop does so whenever five minutes pass without one. *)
Theorem rssi_without_connections {env : Env} (s : Tracker) (restart : bool) :
  connections s = ∅ → restart = true ∨ default None (rssi_iterator s) = None →
  requestNextRssi restart s = Err InvalidIterator.
Proof.
  intros Hc Hit. unfold requestNextRssi. rewrite (M_bind_ok get _ _ _ _ eq_refl).
  assert (connections_begin s = None) as -> by (unfold connections_begin; by rewrite Hc).
  destruct (rssi_iterator s) as [[x|]|]; cbn in *; try done.
  destruct Hit as [->|]; done.
Qed.

(** ** Witnesses *)

(** [sending_example] with the clock synchronised, and a record that the announcement
    went to the first connection. *)
Definition synced_example (sent : multimap Addr) : Tracker :=
  upd_timestamp_offset_ms (λ _, build_time_ms)
    (upd_packets_connections_sent_list (λ _, sent) (sending_example [] [])).

(** Raw packets for the handles 1 and 2. *)
Definition raw_example (queue : multimap (list Z)) : Tracker :=
  upd_raw_packet_to_notify (λ _, queue) (sending_example [] []).

Lemma synced_example_ok : wf (synced_example [(1, 10)]).
Proof. apply wf_check_sound. vm_compute. reflexivity. Qed.

Lemma connection_reported_witness :
  let s := sending_example [] [] in
  ∃ s' a c, @reportConnection example_env 3 [1; 2; 3; 4; 5; 6] 0 s = Ok (tt, s') ∧ wf s' ∧
    connections s' = <[3 := (a, c)]> (connections s) ∧
    available_neighbours s' = delete [1; 2; 3; 4; 5; 6] (available_neighbours s) ∧
    (connected c, connection_handle c, bt_address c, bt_address_type c, last_seen_time c)
      = (true, 3, [1; 2; 3; 4; 5; 6], 0, @clock example_env s) ∧
    let from := @reported_from example_env 3 [1; 2; 3; 4; 5; 6] s in
    (services_found c, rssi c, role c, bt_mtu c, packet_characteristic_value_handle c)
      = (services_found from, rssi from, role from, bt_mtu from, packet_characteristic_value_handle from).
Proof. apply connection_reported, sending_example_ok. vm_compute. reflexivity. Defined.

Lemma disconnection_reported_witness :
  let s := synced_example [(1, 10)] in
  ∃ s' a c, @reportDisconnection example_env 1 s = Ok (tt, s') ∧ wf s' ∧
    connections s' = <[1 := (a, c)]> (connections s) ∧
    connected c = false ∧ notification_enabled c = false ∧
    packet_characteristic_value_handle c
      = packet_characteristic_value_handle (snd (@connection_node example_env 1 s)) ∧
    handle_peer_map s' = delete 1 (handle_peer_map s) ∧
    packets_connections_sent_list s' = packets_connections_sent_list s.
Proof. apply disconnection_reported, synced_example_ok. Defined.

Lemma announcements_queued_witness :
  let s := synced_example [(1, 10)] in
  ∃ s' added, @announceToConnections example_env s = Ok (tt, s') ∧ wf s' ∧
    packet_ttl (base_of (announce s')) = 3 ∧
    (packet_ttl (base_of (announce s)) ≠ 3 →
       an_name (announce s') = repeater_name (@local_bd_addr example_env) ∧
       announce_id (announce s') = address_word (@local_bd_addr example_env)) ∧
    targeted_packets_to_send_list s' ≡ₚ (pair (announce_at s) <$> added) ++ targeted_packets_to_send_list s ∧
    NoDup added ∧
    ∀ a, a ∈ added ↔ ∃ h c, connections s !! h = Some (a, c) ∧ available c = true ∧ unannounced s h.
Proof. apply announcements_queued; [apply synced_example_ok|reflexivity]. Defined.

Lemma reconnected_not_announced_witness :
  let s := synced_example [(1, 10)] in
  ∃ s', (@reportDisconnection example_env 1;; @reportConnection example_env 1 [1; 2; 3; 4; 5; 6] 0;;
         @announceToConnections example_env) s = Ok (tt, s') ∧
    ∀ x, handle_at s' x = Some 1 → (announce_at s, x) ∈ targeted_packets_to_send_list s' →
         (announce_at s, x) ∈ targeted_packets_to_send_list s.
Proof.
  apply (reconnected_not_announced (synced_example [(1, 10)]) 1 10 (connection_to 1));
    [apply synced_example_ok|reflexivity|reflexivity|decide_concrete].
Defined.

Lemma notify_hands_over_witness :
  let s := raw_example [(1, [7]); (2, [8; 9])] in
  let call := att_server_notify 2 9 [8; 9] in
  let taken := u8 (@answer example_env (calls s) call) = ERROR_CODE_SUCCESS ∨
               u8 (@answer example_env (calls s) call) = ERROR_CODE_UNKNOWN_CONNECTION_IDENTIFIER in
  ∃ s', @notifyRawPacket example_env 2 s = Ok (tt, s') ∧
    raw_packet_to_notify s' = (if decide taken then [(1, [7])] else raw_packet_to_notify s) ∧
    connections s' = connections s ∧
    (calls s' = calls s ++ [call; att_server_request_to_send_notification 2] ∨
     calls s' = calls s ++ [call] ∧ taken ∧ lower_bound 2 [(1, [7])] = []).
Proof.
  apply (notify_hands_over (raw_example [(1, [7]); (2, [8; 9])]) 2 20 (connection_to 2) [(1, [7])] [8; 9] []);
    [reflexivity|reflexivity|reflexivity|decide_concrete].
Defined.

Lemma notify_misdelivers_witness :
  ∃ s', @notifyRawPacket example_env 1 (raw_example [(2, [8; 9])]) = Ok (tt, s') ∧
    raw_packet_to_notify s' = [] ∧ att_server_notify 1 9 [8; 9] ∈ calls s'.
Proof.
  apply (notify_misdelivers (raw_example [(2, [8; 9])]) 1 10 (connection_to 1) [] 2 [8; 9] []);
    [reflexivity|reflexivity|reflexivity|decide_concrete|lia|reflexivity].
Defined.

Lemma rssi_round_covers_witness :
  let s := sending_example [] [] in
  ∃ s', @rssi_round example_env (size (connections s)) s = Ok (false, s') ∧ wf s' ∧
    calls s' = calls s ++ (gap_read_rssi <$> (fst <$> items (connections s))).
Proof. apply rssi_round_covers; [apply sending_example_ok; vm_compute; reflexivity|decide_concrete]. Defined.

Lemma rssi_without_connections_witness :
  @requestNextRssi example_env true (Tracker_new 1) = Err InvalidIterator.
Proof. apply rssi_without_connections; [reflexivity|by left]. Defined.
