(* ===== verification/Stored.v ===== *)
(** What the operations of the tracker leave alone: the stores, whose packets stay
    fit to be sent, and the iterator over the connections.

    Each operation keeps every property of the state that does not look at the
    members it writes, and that the few operations which add packets keep; there is
    one lemma per operation, for all such properties at once. *)

From S2P Require Import Prelude BinaryIO Packets StdContainers BleConnection Tracker TrackerWf TrackerSafety Sending Protocol Connections Reports.

(** * Properties of the tracker's state *)

(** [I] does not look at the connections, the peers and the records, ... *)
Class Linked (I : Tracker → Prop) : Prop := {
  fr_peers : ∀ f s, I s → I (upd_peers f s);
  fr_connections : ∀ f s, I s → I (upd_connections f s);
  fr_neighbours : ∀ f s, I s → I (upd_available_neighbours f s);
  fr_notify : ∀ f s, I s → I (upd_raw_packet_to_notify f s);
  fr_write : ∀ f s, I s → I (upd_raw_packet_to_write f s);
  fr_offset : ∀ f s, I s → I (upd_timestamp_offset_ms f s);
  fr_handles : ∀ f s, I s → I (upd_handle_peer_map f s);
  fr_sent : ∀ f s, I s → I (upd_packets_connections_sent_list f s);
  fr_peers_sent : ∀ f s, I s → I (upd_packets_peers_sent_list f s);
  fr_notify_context : ∀ f s, I s → I (upd_notify_context f s);
  fr_write_context : ∀ f s, I s → I (upd_write_context f s);
  fr_calls : ∀ f s, I s → I (upd_calls f s);
}.

(** ... nor at the queues of packets to be sent, ... *)
Class Framed (I : Tracker → Prop) : Prop := {
  fr_linked :: Linked I;
  fr_broadcast : ∀ f s, I s → I (upd_broadcast_packets_to_send_list f s);
  fr_targeted : ∀ f s, I s → I (upd_targeted_packets_to_send_list f s);
}.

(** ... and packets fit to be sent may be added to the stores. *)
Class Stores {env : Env} (I : Tracker → Prop) : Prop := {
  st_framed :: Framed I;
  st_message : ∀ a m s, forwardable (PMessage m) → I s →
    I (upd_messages (λ ms, <[message_id m := (a, m)]> ms) s);
  st_packet : ∀ a p s, forwardable (PPassAlong p) → I s →
    I (upd_packets (λ ps, <[hash_of p := (a, p)]> ps) s);
  st_prepared : ∀ s, bytes_ok local_bd_addr → I s → I (upd_announce prepared s);
  st_stamped : ∀ t s, in_width 64 t → I s →
    I (upd_announce (set_announce_base (setPacketTimestamp t)) s);
}.

(** The update of a framed member. *)
Ltac framed :=
  first [apply fr_peers | apply fr_connections | apply fr_neighbours | apply fr_notify
    | apply fr_write | apply fr_offset | apply fr_handles | apply fr_sent | apply fr_peers_sent
    | apply fr_broadcast | apply fr_targeted | apply fr_notify_context | apply fr_write_context
    | apply fr_calls]; assumption.

Create HintDb keeps.
#[export] Hint Resolve keeps_ret keeps_get keeps_gets keeps_fail keeps_lift : keeps.
#[export] Hint Extern 0 (Framed _) => (apply _) : keeps.
#[export] Hint Extern 0 (Linked _) => (apply _) : keeps.
#[export] Hint Extern 1 (keeps _ (modify _)) => (apply keeps_modify; intros; framed) : keeps.

(** Goes through a body. *)
Ltac keep_step :=
  match goal with
  | |- keeps _ (mbind _ _) => apply keeps_bind; [|intros]
  | |- keeps _ (let _ := _ in _) => cbv zeta
  | |- keeps _ (if decide ?P then _ else _) => destruct (decide P)
  | |- keeps _ (if ?b then _ else _) => destruct b
  | |- keeps _ (match ?x with _ => _ end) => destruct x
  | |- keeps _ _ => solve [eauto with keeps]
  end.
Ltac keep := repeat keep_step.

Section linked.
Context {env : Env} (I : Tracker → Prop) `{!Linked I}.

Lemma keeps_deref {A} (at_addr : Tracker → Addr → option A) a : keeps I (deref at_addr a).
Proof. unfold deref. keep. Qed.
Lemma keeps_ext c : keeps I (ext c).
Proof. unfold ext. keep. Qed.
Hint Resolve keeps_deref keeps_ext : keeps.

Lemma keeps_handle_of a : keeps I (handle_of a).
Proof. unfold handle_of. keep. Qed.
Lemma keeps_time_us_64 : keeps I time_us_64.
Proof. unfold time_us_64. keep. Qed.
Hint Resolve keeps_handle_of keeps_time_us_64 : keeps.

Lemma keeps_getTimeMs : keeps I getTimeMs.
Proof. unfold getTimeMs. keep. Qed.
Lemma keeps_connection_ref h : keeps I (connection_ref h).
Proof. unfold connection_ref, subscript. keep. Qed.
Hint Resolve keeps_getTimeMs keeps_connection_ref : keeps.

Lemma keeps_connection_do f h : keeps I (connection_do f h).
Proof. unfold connection_do. keep. Qed.
Lemma keeps_neighbour_do f k : keeps I (neighbour_do f k).
Proof. unfold neighbour_do, subscript. keep. Qed.
Lemma keeps_connection_ptr_do f a : keeps I (connection_ptr_do f a).
Proof. unfold connection_ptr_do. keep. Qed.
Lemma keeps_checkSender id : keeps I (checkSenderInPeers id).
Proof. unfold checkSenderInPeers, subscript. keep. Qed.
Lemma keeps_peer_ptr_do f a : keeps I (peer_ptr_do f a).
Proof. unfold peer_ptr_do. keep. Qed.
Hint Resolve keeps_connection_do keeps_neighbour_do keeps_connection_ptr_do keeps_checkSender
  keeps_peer_ptr_do : keeps.

Lemma keeps_connectionForConnHandle h : keeps I (connectionForConnHandle h).
Proof. unfold connectionForConnHandle. keep. Qed.
Hint Resolve keeps_connectionForConnHandle : keeps.

(** *** Neighbours, connections and the clock *)

Lemma keeps_addAvailablePeer a t sv r : keeps I (addAvailablePeer a t sv r).
Proof. unfold addAvailablePeer. keep. Qed.
Lemma keeps_reportConnection h a t : keeps I (reportConnection h a t).
Proof. unfold reportConnection. keep. Qed.
Hint Resolve keeps_reportConnection : keeps.
Lemma keeps_reportConnectionWithRole h a t r : keeps I (reportConnectionWithRole h a t r).
Proof. unfold reportConnectionWithRole. keep. Qed.
Lemma keeps_reportDisconnection h : keeps I (reportDisconnection h).
Proof. unfold reportDisconnection. keep. Qed.
Lemma keeps_getConnectableNeighbours : keeps I getConnectableNeighbours.
Proof. unfold getConnectableNeighbours. keep. Qed.
Lemma keeps_possiblyUpdate t : keeps I (possiblyUpdateTimeOffset t).
Proof. unfold possiblyUpdateTimeOffset. keep. Qed.
Lemma keeps_setConnectionStarted a : keeps I (setConnectionStarted a).
Proof. unfold setConnectionStarted. keep. Qed.
Lemma keeps_getConnectionForAddress a : keeps I (getConnectionForAddress a).
Proof. unfold getConnectionForAddress. keep. Qed.
Lemma keeps_setConnectionHandleForPeer h p : keeps I (setConnectionHandleForPeer h p).
Proof. unfold setConnectionHandleForPeer. keep. Qed.
Lemma keeps_printStats : keeps I printStats.
Proof. unfold printStats. keep. Qed.

(** *** Sending *)

Lemma keeps_SendPacket p c : keeps I (SendPacketToConnection p c).
Proof. unfold SendPacketToConnection, peerWithConnectionHandle. keep. Qed.
Lemma keeps_sent_to_handle range h : keeps I h → keeps I (sent_to_handle range h).
Proof. intros Hh. induction range as [|[p c] range IH]; cbn [sent_to_handle]; keep. Qed.
Hint Resolve keeps_SendPacket keeps_sent_to_handle : keeps.
Lemma keeps_send_targeted todo : keeps I (send_targeted todo).
Proof. induction todo as [|[p c] todo IH]; cbn [send_targeted]; unfold packet_needed; keep. Qed.
Lemma keeps_search_sendable entries h b : keeps I (search_sendable entries h b).
Proof. revert b. induction entries as [|[p c] entries IH]; intros b; cbn [search_sendable]; keep. Qed.
Hint Resolve keeps_send_targeted keeps_search_sendable : keeps.
Lemma keeps_broadcast_packet p keys : keeps I (broadcast_packet p keys).
Proof. induction keys as [|k keys IH]; cbn [broadcast_packet]; unfold broadcast_to; keep. Qed.
Hint Resolve keeps_broadcast_packet : keeps.
Lemma keeps_send_broadcast todo : keeps I (send_broadcast todo).
Proof. induction todo as [|p todo IH]; cbn [send_broadcast]; keep. Qed.
Hint Resolve keeps_send_broadcast : keeps.
Lemma keeps_notifyRawPacket h : keeps I (notifyRawPacket h).
Proof. unfold notifyRawPacket. keep. Qed.
Lemma keeps_writeRawPacket h : keeps I (writeRawPacket h).
Proof. unfold writeRawPacket. keep. Qed.
Lemma keeps_can_send_notification c : keeps I (packet_can_send_notification_handler c).
Proof. apply keeps_notifyRawPacket. Qed.
Lemma keeps_can_write c : keeps I (packet_can_write_without_response_handler c).
Proof. apply keeps_writeRawPacket. Qed.
End linked.

#[export] Hint Resolve keeps_deref keeps_ext keeps_getTimeMs keeps_connection_ref keeps_connection_do
  keeps_connection_ptr_do keeps_neighbour_do keeps_handle_of
  keeps_checkSender keeps_peer_ptr_do keeps_connectionForConnHandle keeps_sent_to_handle keeps_addAvailablePeer
  keeps_reportConnection keeps_reportConnectionWithRole keeps_reportDisconnection
  keeps_getConnectableNeighbours keeps_possiblyUpdate keeps_setConnectionStarted
  keeps_getConnectionForAddress keeps_setConnectionHandleForPeer keeps_printStats
  keeps_SendPacket keeps_send_targeted keeps_search_sendable keeps_send_broadcast
  keeps_notifyRawPacket keeps_writeRawPacket keeps_can_send_notification keeps_can_write : keeps.

Section framed.
Context {env : Env} (I : Tracker → Prop) `{!Framed I}.

Lemma keeps_enqueueTargeted p c : keeps I (enqueueTargetedPacket p c).
Proof. unfold enqueueTargetedPacket. keep. Qed.
Lemma keeps_enqueueBroadcast p : keeps I (enqueueBroadcastPacket p).
Proof. unfold enqueueBroadcastPacket. keep. Qed.
Hint Resolve keeps_enqueueTargeted keeps_enqueueBroadcast : keeps.
Lemma keeps_enqueueBroadcastFrom p c peer : keeps I (enqueueBroadcastPacketFrom p c peer).
Proof. unfold enqueueBroadcastPacketFrom. keep. Qed.
Lemma keeps_sendPackets : keeps I sendPackets.
Proof. unfold sendPackets. keep. Qed.
End framed.

#[export] Hint Resolve keeps_enqueueTargeted keeps_enqueueBroadcast keeps_enqueueBroadcastFrom
  keeps_sendPackets : keeps.

Section stores.
Context {env : Env} (I : Tracker → Prop) `{!Stores I}.

Lemma keeps_storeMessage m : forwardable (PMessage m) → keeps I (storeMessageAndReturnIfNew m).
Proof.
  intros Hm s Hs. unfold after. destruct (messages s !! message_id m) eqn:Hk.
  - unfold storeMessageAndReturnIfNew. rewrite (M_bind_ok get _ _ _ _ eq_refl). cbn zeta. by rewrite Hk.
  - rewrite storeMessage_new by done. by apply st_message.
Qed.

Lemma keeps_storePacket p : forwardable (PPassAlong p) → keeps I (storePacketAndReturnIfNew p).
Proof.
  intros Hp s Hs. unfold after. rewrite storePacket_run. destruct (packets s !! hash_of p); [done|].
  by apply st_packet.
Qed.

(** A received packet without the sender-peer flag keeps the stores fit. *)
Definition unflagged (r : Received) : Prop :=
  match r with RMessage m => hasSenderPeerID m = false | _ => True end.

Lemma keeps_process connection r : received_ok r → unflagged r → keeps I (process connection r).
Proof.
  intros Hok Hfl. destruct r as [m|an|]; cbn [process received_ok unflagged] in *; [| |apply keeps_ret].
  - pose proof (keeps_storeMessage m (conj (proj1 Hok) Hfl)). unfold process_message. keep.
  - destruct Hok as (Ha & Hno & Hpl & _).
    assert (forwardable (PPassAlong (an_pass an))) as Hf by (split; [apply Ha|by rewrite Hpl]).
    pose proof (keeps_storePacket _ Hf). unfold process_announce, updateOrStorePeerNameFromAnnouncement. keep.
Qed.

Lemma keeps_processWrite connection offset buffer size :
  value_ok offset buffer size → (∀ r, parse offset buffer size = Ok r → unflagged r) →
  keeps I (processWrite connection offset buffer size).
Proof.
  intros Hv Hfl s Hs. unfold after. rewrite processWrite_parse.
  destruct (parse_ok _ _ _ Hv) as (r & Hr & Hok). rewrite Hr. by apply keeps_process; auto.
Qed.

Lemma keeps_announce_to range h : keeps I (announce_to range h).
Proof.
  unfold announce_to. apply keeps_bind; [eauto with keeps|]. intros s.
  destruct (connections s !! h) as [[a c]|]; [|eauto with keeps].
  destruct (_ && _); [|eauto with keeps]. apply keeps_bind; [eauto with keeps|].
  intros found. destruct found; [eauto with keeps|].
  intros s1 Hs1. unfold after, mbind, M_bind. rewrite getTimeMs_run. cbv beta iota.
  apply (keeps_enqueueTargeted I).
  apply st_stamped; [by apply wrap_in_width|]. by apply fr_calls.
Qed.

Lemma keeps_announceToConnections :
  length local_bd_addr = 6%nat → bytes_ok local_bd_addr → keeps I announceToConnections.
Proof.
  intros Hl Hb. unfold announceToConnections. apply keeps_bind.
  - intros s Hs. unfold after. rewrite setupAnnounce_run by done. by apply st_prepared.
  - intros []. apply keeps_bind; [eauto with keeps|]. intros s. apply keeps_for_each.
    intros h. apply keeps_announce_to.
Qed.
End stores.

(** * The stores *)

(** Whatever is stored can be sent. *)
Record stored_ok (s : Tracker) : Prop := {
  so_announce : forwardable (PAnnounce (announce s));
  so_messages : ∀ k a m, messages s !! k = Some (a, m) → forwardable (PMessage m);
  so_packets : ∀ k a p, packets s !! k = Some (a, p) → forwardable (PPassAlong p);
}.

Lemma stored_forwardable s : wf s → stored_ok s → packets_forwardable s.
Proof. intros Hwf []. by apply packets_forwardable_alt. Qed.

#[export] Instance stored_framed : Framed stored_ok.
Proof. constructor; [constructor|..]; intros f s [H1 H2 H3]; by constructor. Qed.

Lemma forwardable_prepared {env : Env} a :
  bytes_ok local_bd_addr → forwardable (PAnnounce a) → forwardable (PAnnounce (prepared a)).
Proof.
  intros Hb Ha. unfold prepared. case_decide; [done|].
  destruct Ha as [[[[(H1 & H2 & H3 & H4) [H5 H6]] H7] H8] H9]. split; [|exact H9].
  assert (in_width 64 (address_word local_bd_addr)) as Hw by (by apply address_word_width).
  assert (bytes_ok (repeater_name local_bd_addr)) as Hn by apply repeater_name_bytes.
  split; [|exact Hn]. split; [|exact H7]. by split_and!.
Qed.

#[export] Instance stored_stores {env : Env} : Stores stored_ok.
Proof.
  constructor; [apply _|..].
  - intros a m s Hm [H1 H2 H3]. constructor; [done| |done]. intros k a' m'. cbn.
    rewrite lookup_insert_Some. intros [[<- [= <- <-]]|[_ Hk]]; [done|by eapply H2].
  - intros a p s Hp [H1 H2 H3]. constructor; [done|done|]. intros k a' p'. cbn.
    rewrite lookup_insert_Some. intros [[<- [= <- <-]]|[_ Hk]]; [done|by eapply H3].
  - intros s Hb [H1 H2 H3]. constructor; [by apply forwardable_prepared|done..].
  - intros t s Ht [H1 H2 H3]. constructor; [|done..].
    destruct H1 as [[[[(? & ? & ? & ?) ?] ?] ?] ?]. by split_and!.
Qed.
