(* ===== verification/Typed.v ===== *)
(** The types of the tracker's data: every number in the state fits the C++ type of
    its member, strings and buffers hold bytes, and peers, messages, packets and neighbours are
    stored under their own keys.  A connection is under its handle while it is connected
    ([handles_ok] of TrackerWf); one that was never connected has the handle 0.

    [event_typed] says the same of the arguments of an operation.  The proofs are in
    terms of [returns]: what an operation keeps, and what is known of its result. *)

From S2P Require Import Prelude BinaryIO Packets StdContainers BleConnection Tracker TrackerWf TrackerSafety Sending Events Protocol Connections Reports Stored.

(** * Types *)

(** [bd_addr_t] *)
Definition address_typed (addr : list Z) : Prop := length addr = 6%nat ∧ bytes_ok addr.

Definition in_int8 (z : Z) : Prop := - 2 ^ 7 ≤ z < 2 ^ 7.

Record conn_typed (c : BleConnection) : Prop := {
  ct_handle : in_width 16 (connection_handle c);
  ct_address : address_typed (bt_address c);
  ct_mtu : in_width 16 (bt_mtu c);
  ct_start : in_width 16 (packet_service_start_group_handle c);
  ct_end : in_width 16 (packet_service_end_group_handle c);
  ct_value : in_width 16 (packet_characteristic_value_handle c);
  ct_rssi : in_int8 (rssi c);
  ct_role : in_width 8 (role c);
  ct_seen : in_width 64 (last_seen_time c);
}.

Record peer_typed (id : Z) (p : Peer) : Prop := {
  pt_id : peer_id p = id;
  pt_width : in_width 64 id;
  pt_name : bytes_ok (peer_name p);
  pt_ttl : in_width 8 (max_ttl p);
}.

(** A raw packet under its handle. *)
Definition raw_typed (e : Z * list Z) : Prop := in_width 16 (fst e) ∧ bytes_ok (snd e).

Record typed {env : Env} (s : Tracker) : Prop := {
  ty_stored : stored_ok s;
  ty_peers : ∀ id a p, peers s !! id = Some (a, p) → peer_typed id p;
  ty_messages : ∀ id a m, messages s !! id = Some (a, m) → message_id m = id;
  ty_packets : ∀ id a p, packets s !! id = Some (a, p) → hash_of p = id;
  ty_connections : ∀ h a c, connections s !! h = Some (a, c) → in_width 16 h ∧ conn_typed c;
  ty_neighbours : ∀ k a c, available_neighbours s !! k = Some (a, c) → bt_address c = k ∧ conn_typed c;
  ty_notify : Forall raw_typed (raw_packet_to_notify s);
  ty_write : Forall raw_typed (raw_packet_to_write s);
  ty_offset : in_width 64 (timestamp_offset_ms s);
  ty_handles : ∀ h a, handle_peer_map s !! h = Some a → in_width 16 h;
}.

(** * What operations return *)

(** [m] keeps [I], and its result satisfies [P]. *)
Definition returns {S A} (I : S → Prop) (m : M S A) (P : A → Prop) : Prop :=
  ∀ s, I s → after m (λ a s', I s' ∧ P a) s.

Section returns.
Context {S : Type} (I : S → Prop).

Lemma returns_bind {A B} (m : M S A) (k : A → M S B) P Q :
  returns I m P → (∀ a, P a → returns I (k a) Q) → returns I (m ≫= k) Q.
Proof.
  intros Hm Hk s Hs. apply after_bind. eapply after_mono; [by apply Hm|]. intros a s' [Hs' Ha]. by apply Hk.
Qed.
Lemma returns_ret {A} (a : A) (P : A → Prop) : P a → returns I (mret a) P.
Proof. by intros Ha s Hs. Qed.
Lemma returns_fail {A} e (P : A → Prop) : returns I (fail e) P.
Proof. by intros s Hs. Qed.
Lemma returns_get : returns I get I.
Proof. by intros s Hs. Qed.
Lemma returns_gets {A} (f : S → A) (P : A → Prop) : (∀ s, I s → P (f s)) → returns I (gets f) P.
Proof. intros Hf s Hs. split; [done|by apply Hf]. Qed.
Lemma returns_lift {A} (r : result A) (P : A → Prop) :
  (∀ a, r = Ok a → P a) → returns I (lift_result r) P.
Proof. intros Hr s Hs. destruct r as [a|]; [|done]. split; [done|by apply Hr]. Qed.
Lemma returns_modify f (P : unit → Prop) : (∀ s, I s → I (f s)) → P tt → returns I (modify f) P.
Proof. intros Hf HP s Hs. by split; [apply Hf|]. Qed.
Lemma returns_mono {A} (m : M S A) (P Q : A → Prop) :
  returns I m P → (∀ a, P a → Q a) → returns I m Q.
Proof. intros Hm HPQ s Hs. eapply after_mono; [by apply Hm|]. intros a s' [? ?]. auto. Qed.
Lemma returns_for_each {A} (xs : list A) (f : A → M S unit) :
  (∀ x, x ∈ xs → returns I (f x) (λ _, True)) → returns I (for_each xs f) (λ _, True).
Proof.
  induction xs as [|x xs IH]; intros Hf; [by apply returns_ret|].
  eapply returns_bind; [apply Hf; set_solver|]. intros [] _. apply IH. intros; apply Hf; set_solver.
Qed.
Lemma returns_keeps {A} (m : M S A) : keeps I m → returns I m (λ _, True).
Proof. intros Hm s Hs. eapply after_mono; [by apply Hm|]. done. Qed.
End returns.

(** * Lemmas: encodings are bytes *)

Lemma bytes_app l1 l2 : bytes_ok l1 → bytes_ok l2 → bytes_ok (l1 ++ l2).
Proof. intros. by apply Forall_app. Qed.
Lemma bytes_cons b l : in_width 8 b → bytes_ok l → bytes_ok (b :: l).
Proof. intros. by apply Forall_cons. Qed.
Lemma bytes_nil : bytes_ok [].
Proof. by apply Forall_nil. Qed.

Create HintDb bytes.
#[export] Hint Resolve bytes_app bytes_cons bytes_nil be_bytes_ok limit_bytes_ok clip8_in_width : bytes.

Lemma PacketBase_enc_bytes p : bytes_ok (PacketBase_enc p).
Proof. unfold PacketBase_enc, recipient_enc. destruct (hasPacketRecipient _); auto with bytes. Qed.
Lemma PassAlong_enc_bytes p : bytes_ok (payload p) → bytes_ok (PassAlong_enc p).
Proof.
  intros Hp. pose proof (PacketBase_enc_bytes (pa_base p)). unfold PassAlong_enc.
  destruct (hasPayload p); auto with bytes.
Qed.
Lemma str8_enc_bytes s : bytes_ok s → bytes_ok (str8_enc s).
Proof. intros. unfold str8_enc. auto with bytes. Qed.
Lemma packet_enc_bytes b body : Base_ok b → bytes_ok body → bytes_ok (packet_enc b body).
Proof.
  intros (? & ? & ? & ?) ?. unfold packet_enc, Base_enc.
  apply bytes_app; [apply bytes_cons; [done|]; auto with bytes|].
  apply bytes_app; [|done]. auto 10 with bytes.
Qed.
#[export] Hint Resolve PacketBase_enc_bytes PassAlong_enc_bytes str8_enc_bytes : bytes.

Lemma encoding_bytes p : forwardable p → bytes_ok (encoding p).
Proof.
  destruct p as [m|p|a]; cbn [forwardable encoding].
  - intros [(Hb & Hf & Ht & Hid & Hn & Hc) _]. apply packet_enc_bytes; [apply Hb|].
    unfold Message_enc, str16_enc. auto 10 with bytes.
  - intros [[Hb Hp] _]. apply packet_enc_bytes; [apply Hb|]. auto with bytes.
  - intros [[[Hb Hp] Hn] _]. apply packet_enc_bytes; [apply Hb|]. unfold Announce_enc. auto with bytes.
Qed.

(** * Lemmas: the members *)

Lemma in_width_0 w : 0 ≤ w → in_width w 0.
Proof. intros. unfold in_width. split; [done|]. by apply Z.pow_pos_nonneg. Qed.

Lemma conn_typed_new : conn_typed BleConnection_new.
Proof. constructor; cbn; try decide_concrete; split; decide_concrete. Qed.
Lemma conn_typed_setConnectionHandle v c : in_width 16 v → conn_typed c → conn_typed (setConnectionHandle v c).
Proof. intros ? []. by constructor. Qed.
Lemma conn_typed_setNotificationEnabled v c : conn_typed c → conn_typed (setNotificationEnabled v c).
Proof. intros []. by constructor. Qed.
Lemma conn_typed_setConnected v c : conn_typed c → conn_typed (setConnected v c).
Proof. intros []. by constructor. Qed.
Lemma conn_typed_setBleAddress a t c : address_typed a → conn_typed c → conn_typed (setBleAddress a t c).
Proof. intros ? []. by constructor. Qed.
Lemma conn_typed_setHasData v c : conn_typed c → conn_typed (setHasData v c).
Proof. intros []. by constructor. Qed.
Lemma conn_typed_setServices v c : conn_typed c → conn_typed (setServices v c).
Proof. intros []. by constructor. Qed.
Lemma conn_typed_setRssi v c : in_int8 v → conn_typed c → conn_typed (setRssi v c).
Proof. intros ? []. by constructor. Qed.
Lemma conn_typed_setTimestamp v c : in_width 64 v → conn_typed c → conn_typed (setTimestamp v c).
Proof. intros ? []. by constructor. Qed.
Lemma conn_typed_setRole v c : in_width 8 v → conn_typed c → conn_typed (setRole v c).
Proof. intros ? []. by constructor. Qed.

Create HintDb typed.
#[export] Hint Resolve conn_typed_new conn_typed_setConnectionHandle conn_typed_setNotificationEnabled
  conn_typed_setConnected conn_typed_setBleAddress conn_typed_setHasData conn_typed_setServices
  conn_typed_setRssi conn_typed_setTimestamp conn_typed_setRole ct_handle : typed.
#[export] Hint Resolve returns_get returns_fail : typed.
#[export] Hint Extern 1 (True) => exact Logic.I : typed.

Section members.
Context {env : Env}.

(** Members that hold pointers only, and the calls. *)
Lemma typed_pointers s s' :
  announce s' = announce s → messages s' = messages s → packets s' = packets s → peers s' = peers s →
  connections s' = connections s → available_neighbours s' = available_neighbours s →
  raw_packet_to_notify s' = raw_packet_to_notify s → raw_packet_to_write s' = raw_packet_to_write s →
  timestamp_offset_ms s' = timestamp_offset_ms s → handle_peer_map s' = handle_peer_map s →
  typed s → typed s'.
Proof.
  intros H1 H2 H3 H4 H5 H6 H7 H8 H9 H10 [[] ? ? ? ? ? ? ? ? ?].
  constructor; [constructor|..]; rewrite ?H1, ?H2, ?H3, ?H4, ?H5, ?H6, ?H7, ?H8, ?H9, ?H10; done.
Qed.

Lemma typed_connections f s :
  typed s → (∀ h a c, f (connections s) !! h = Some (a, c) → in_width 16 h ∧ conn_typed c) →
  typed (upd_connections f s).
Proof. intros [[]] Hf. by constructor; [constructor|..]. Qed.
Lemma typed_neighbours f s :
  typed s → (∀ k a c, f (available_neighbours s) !! k = Some (a, c) → bt_address c = k ∧ conn_typed c) →
  typed (upd_available_neighbours f s).
Proof. intros [[]] Hf. by constructor; [constructor|..]. Qed.
Lemma typed_peers f s :
  typed s → (∀ id a p, f (peers s) !! id = Some (a, p) → peer_typed id p) → typed (upd_peers f s).
Proof. intros [[]] Hf. by constructor; [constructor|..]. Qed.
Lemma typed_notify f s :
  typed s → Forall raw_typed (f (raw_packet_to_notify s)) → typed (upd_raw_packet_to_notify f s).
Proof. intros [[]] Hf. by constructor; [constructor|..]. Qed.
Lemma typed_write f s :
  typed s → Forall raw_typed (f (raw_packet_to_write s)) → typed (upd_raw_packet_to_write f s).
Proof. intros [[]] Hf. by constructor; [constructor|..]. Qed.
Lemma typed_offset f s :
  typed s → in_width 64 (f (timestamp_offset_ms s)) → typed (upd_timestamp_offset_ms f s).
Proof. intros [[]] Hf. by constructor; [constructor|..]. Qed.
Lemma typed_handles f s :
  typed s → (∀ h a, f (handle_peer_map s) !! h = Some a → in_width 16 h) → typed (upd_handle_peer_map f s).
Proof. intros [[]] Hf. by constructor; [constructor|..]. Qed.
Lemma typed_message m a s :
  typed s → forwardable (PMessage m) → typed (upd_messages (λ ms, <[message_id m := (a, m)]> ms) s).
Proof.
  intros Hs Hm. pose proof (st_message a m s Hm (ty_stored s Hs)). destruct Hs. constructor; try done.
  intros id b m'. cbn. rewrite lookup_insert_Some. intros [[<- [= <- <-]]|[_ Hk]]; [done|eauto].
Qed.
Lemma typed_packet p a s :
  typed s → forwardable (PPassAlong p) → typed (upd_packets (λ ps, <[hash_of p := (a, p)]> ps) s).
Proof.
  intros Hs Hp. pose proof (st_packet a p s Hp (ty_stored s Hs)). destruct Hs. constructor; try done.
  intros id b p'. cbn. rewrite lookup_insert_Some. intros [[<- [= <- <-]]|[_ Hk]]; [done|eauto].
Qed.
Lemma typed_announce f s : typed s → stored_ok (upd_announce f s) → typed (upd_announce f s).
Proof. intros [] Hf. by constructor. Qed.

Lemma typed_set_connection h n s :
  typed s → in_width 16 h → conn_typed (snd n) → typed (set_connection h n s).
Proof.
  intros Hs Hh Hn. apply typed_connections; [done|]. intros h' a c.
  rewrite lookup_insert_Some. intros [[<- ->]|[_ Hk]]; [done|by eapply ty_connections].
Qed.

Lemma typed_node h s : typed s → conn_typed (snd (connection_node h s)).
Proof.
  intros Hs. unfold connection_node, node_or. destruct (connections s !! h) as [[a c]|] eqn:Hc;
    [by eapply ty_connections|apply conn_typed_new].
Qed.

(** What pointers refer to. *)
Lemma typed_packet_at s a p : typed s → packet_at s a = Some p → forwardable p.
Proof.
  intros [[H1 H2 H3]] Hp. apply packet_at_all in Hp. unfold all_packets in Hp.
  apply elem_of_cons in Hp as [->|[Hp|Hp]%elem_of_app]; [done|..];
    apply list_elem_of_fmap in Hp as ([k [a' q]] & -> & Hin%elem_of_map_to_list); eauto.
Qed.
Lemma typed_connection_at s a c : typed s → connection_at s a = Some c → conn_typed c.
Proof.
  intros Hs. unfold connection_at. destruct (node_at (connections s) a) as [[h c']|] eqn:Hn.
  - intros [= ->]. apply node_at_sound in Hn. by eapply ty_connections.
  - intros Hc. apply fmap_Some in Hc as ([k c'] & Hn' & ->). apply node_at_sound in Hn'.
    by eapply ty_neighbours.
Qed.
End members.

(** The update of a member that holds pointers. *)
Ltac ty_modify := apply returns_modify; [intros ?; apply typed_pointers; reflexivity|exact Logic.I].
#[export] Hint Extern 1 (returns _ _ _) => ty_modify : typed.

(** Goes through a body: binds with what is known of a result. *)
Ltac ty_bind lem := eapply returns_bind; [eapply lem|].
Ltac ty_get := eapply returns_bind; [apply returns_get|].

(** * Lemmas: the operations *)

(** Nothing is known of the result. *)
Abbreviation nothing := (λ _, True).

Section operations.
Context {env : Env} `{!AllocFresh env}.

Lemma returns_typed {A} (m : M Tracker A) P s :
  typed s → (∃ a s', m s = Ok (a, s') ∧ typed s' ∧ P a) → after m (λ a s', typed s' ∧ P a) s.
Proof. intros _ (a & s' & Hrun & Hs'). unfold after. by rewrite Hrun. Qed.

Lemma ty_ext c : returns typed (ext c) nothing.
Proof.
  unfold ext. ty_get. intros s _. eapply returns_bind with (P := nothing); [eauto with typed|].
  intros [] _. by apply returns_ret.
Qed.

Lemma ty_time_us_64 : returns typed time_us_64 (in_width 64).
Proof. unfold time_us_64. ty_bind ty_ext. intros t _. apply returns_ret, wrap_in_width. lia. Qed.

Lemma ty_getTimeMs : returns typed getTimeMs (in_width 64).
Proof.
  unfold getTimeMs. ty_bind ty_time_us_64. intros t _. ty_get. intros s _.
  apply returns_ret, wrap_in_width. lia.
Qed.

Lemma ty_connection_ref h : in_width 16 h → returns typed (connection_ref h) (λ n, conn_typed (snd n)).
Proof.
  intros Hh s Hs. apply returns_typed; [done|]. eexists _, _. rewrite connection_ref_run.
  split_and!; [done| |by apply typed_node]. unfold ensure_connection, ensure.
  destruct (connections s !! h); [done|]. apply typed_set_connection; eauto with typed.
Qed.

Lemma ty_connection_do f h :
  in_width 16 h → (∀ c, conn_typed c → conn_typed (f c)) → returns typed (connection_do f h) nothing.
Proof.
  intros Hh Hf s Hs. apply returns_typed; [done|]. eexists _, _. rewrite connection_do_run.
  split_and!; [done| |done]. apply typed_set_connection; [done|done|]. by apply Hf, typed_node.
Qed.

Lemma ty_connectionForConnHandle h :
  in_width 16 h → returns typed (connectionForConnHandle h) (λ n, conn_typed (snd n)).
Proof.
  intros Hh. unfold connectionForConnHandle. ty_get. intros s Hs.
  destruct (connections s !! h) as [[a c]|] eqn:Hc.
  - apply returns_ret. by eapply ty_connections.
  - ty_bind ty_connection_do; [done|eauto with typed|]. intros [] _. by apply ty_connection_ref.
Qed.

Lemma ty_deref_packet a : returns typed (deref packet_at a) forwardable.
Proof.
  unfold deref. ty_get. intros s Hs. destruct (packet_at s a) eqn:Hp; [|apply returns_fail].
  apply returns_ret. by eapply typed_packet_at.
Qed.
Lemma ty_deref_connection a : returns typed (deref connection_at a) conn_typed.
Proof.
  unfold deref. ty_get. intros s Hs. destruct (connection_at s a) eqn:Hc; [|apply returns_fail].
  apply returns_ret. by eapply typed_connection_at.
Qed.
Lemma ty_deref_peer a : returns typed (deref peer_at a) nothing.
Proof.
  unfold deref. ty_get. intros s Hs. destruct (peer_at s a); [by apply returns_ret|apply returns_fail].
Qed.

Lemma ty_connection_ptr_do f a :
  (∀ c, conn_typed c → conn_typed (f c) ∧ bt_address (f c) = bt_address c) →
  returns typed (connection_ptr_do f a) nothing.
Proof.
  intros Hf. unfold connection_ptr_do. ty_get. intros s _.
  assert (∀ (K : Type) `{Countable K} (P : K → BleConnection → Prop) (m : nodes K BleConnection) k,
    (∀ k a c, m !! k = Some (a, c) → P k c) → (∀ k c, P k c → P k (f c)) →
    ∀ k' b c', node_update f k m !! k' = Some (b, c') → P k' c') as Hupd.
  { intros K ?? P m k Hm HP k' b c'. rewrite lookup_node_update. case_decide; [|apply Hm].
    intros Hk. apply fmap_Some in Hk as ([b0 c0] & Hk & [= -> ->]). by eapply HP, Hm. }
  destruct (node_at (connections s) a) as [[h c]|]; [|destruct (node_at (available_neighbours s) a) as [[k c]|];
    [|apply returns_fail]]; (apply returns_modify; [|done]); intros t Ht.
  - apply typed_connections; [done|]. apply (Hupd Z _ _ (λ h c, in_width 16 h ∧ conn_typed c)).
    + by apply ty_connections.
    + intros h' c' [? Hc]. split; [done|]. by apply Hf.
  - apply typed_neighbours; [done|]. apply (Hupd (list Z) _ _ (λ k c, bt_address c = k ∧ conn_typed c)).
    + by apply ty_neighbours.
    + intros k' c' [? Hc]. destruct (Hf c' Hc). by split; [congruence|].
Qed.

(** *** Stores *)

Lemma ty_storeMessage m : forwardable (PMessage m) → returns typed (storeMessageAndReturnIfNew m) nothing.
Proof.
  intros Hm s Hs. apply returns_typed; [done|]. destruct (messages s !! message_id m) eqn:Hk.
  - exists None, s. split; [|done]. unfold storeMessageAndReturnIfNew.
    rewrite (M_bind_ok get _ _ _ _ eq_refl). cbn zeta. by rewrite Hk.
  - eexists _, _. rewrite storeMessage_new by done. split_and!; [done|by apply typed_message|done].
Qed.

Lemma ty_storePacket p : forwardable (PPassAlong p) → returns typed (storePacketAndReturnIfNew p) nothing.
Proof.
  intros Hp s Hs. apply returns_typed; [done|]. rewrite storePacket_run.
  destruct (packets s !! hash_of p); (eexists _, _; split; [done|]); [done|].
  split; [by apply typed_packet|done].
Qed.

Lemma ty_checkSender id : in_width 64 id → returns typed (checkSenderInPeers id) nothing.
Proof.
  intros Hid s Hs. apply returns_typed; [done|]. eexists _, _. rewrite checkSender_run.
  split_and!; [done| |done]. unfold add_peer. destruct (peers s !! id) eqn:Hp; [done|].
  apply typed_peers; [done|]. intros id' a p. rewrite lookup_insert_Some.
  intros [[<- [= <- <-]]|[_ Hk]]; [|by eapply ty_peers].
  constructor; [done|done|apply bytes_nil|by apply in_width_0].
Qed.

(** *** Queues *)

Lemma ty_enqueueTargeted p c : conn_typed c → returns typed (enqueueTargetedPacket p c) nothing.
Proof.
  intros Hc. unfold enqueueTargetedPacket. ty_bind ty_deref_packet. intros pk _.
  case_decide; [|by apply returns_ret]. ty_bind ty_connectionForConnHandle; [by apply ct_handle|].
  intros [a c'] _. eauto with typed.
Qed.
Lemma ty_enqueueBroadcast p : returns typed (enqueueBroadcastPacket p) nothing.
Proof.
  unfold enqueueBroadcastPacket. ty_bind ty_deref_packet. intros pk _.
  case_decide; [|by apply returns_ret]. eauto with typed.
Qed.
Lemma ty_enqueueBroadcastFrom p c peer : returns typed (enqueueBroadcastPacketFrom p c peer) nothing.
Proof.
  unfold enqueueBroadcastPacketFrom.
  do 2 (eapply returns_bind with (P := nothing); [eauto with typed|]; intros [] _). apply ty_enqueueBroadcast.
Qed.

(** *** Neighbours *)

Definition set_neighbour (k : list Z) (n : Addr * BleConnection) : Tracker → Tracker :=
  upd_available_neighbours (λ m, <[k := n]> m).

Definition neighbour_node (k : list Z) (s : Tracker) : Addr * BleConnection :=
  node_or available_neighbours BleConnection_new k s.

Lemma neighbour_do_run f k s :
  neighbour_do f k s = Ok (tt, set_neighbour k (fst (neighbour_node k s), f (snd (neighbour_node k s))) s).
Proof.
  unfold neighbour_do. rewrite (M_bind_ok _ _ _ _ _ (subscript_run _ _ _ k s)). unfold modify.
  do 2 f_equal. unfold set_neighbour, neighbour_node, node_or, ensure.
  destruct (available_neighbours s !! k) as [[a c]|] eqn:Hc; unfold upd_available_neighbours; cbn; f_equal;
    unfold node_update.
  - apply map_eq. intros j. rewrite lookup_alter, lookup_insert.
    case_decide; [subst j; by rewrite Hc|done].
  - by rewrite alter_insert_eq.
Qed.

Lemma neighbour_do_again f k n s :
  neighbour_do f k (set_neighbour k n s) = Ok (tt, set_neighbour k (fst n, f (snd n)) s).
Proof.
  rewrite neighbour_do_run. do 2 f_equal. unfold set_neighbour, neighbour_node, node_or, upd_available_neighbours.
  cbn. rewrite lookup_insert_eq. f_equal. apply insert_insert_eq.
Qed.

(** The entry of a neighbour that is heard. *)
Definition heard_neighbour (addr : list Z) (type : Z) (services : service_uuid_check_status) (rssi : Z)
    (s : Tracker) : BleConnection :=
  setTimestamp (clock s) (setRssi rssi (setServices services
    (setBleAddress addr type (snd (neighbour_node addr s))))).

Lemma addAvailablePeer_run addr type services rssi s :
  addAvailablePeer addr type services rssi s
  = Ok (tt, set_neighbour addr (fst (neighbour_node addr s), heard_neighbour addr type services rssi s)
              (ticked s)).
Proof.
  unfold addAvailablePeer. rewrite (M_bind_ok _ _ _ _ _ (neighbour_do_run _ _ _)).
  do 2 rewrite (M_bind_ok _ _ _ _ _ (neighbour_do_again _ _ _ _)).
  rewrite (M_bind_ok time_us_64 _ _ _ _ eq_refl).
  exact (neighbour_do_again _ addr (fst (neighbour_node addr s), _) (ticked s)).
Qed.

Lemma ty_addAvailablePeer addr type services rssi :
  address_typed addr → in_int8 rssi → returns typed (addAvailablePeer addr type services rssi) nothing.
Proof.
  intros Ha Hr s Hs. apply returns_typed; [done|]. eexists _, _. rewrite addAvailablePeer_run.
  split_and!; [done| |done]. apply typed_neighbours; [by eapply typed_pointers, Hs|].
  intros k a c. rewrite lookup_insert_Some. intros [[<- [= <- <-]]|[_ Hk]]; [|by eapply ty_neighbours].
  split; [done|]. unfold heard_neighbour. assert (in_width 64 (clock s)) by (by apply wrap_in_width).
  assert (conn_typed (snd (neighbour_node addr s))).
  { unfold neighbour_node, node_or. destruct (available_neighbours s !! addr) as [[a' c']|] eqn:Hc;
      [by eapply ty_neighbours|apply conn_typed_new]. }
  auto 10 with typed.
Qed.

Lemma typed_delete_neighbour k s : typed s → typed (upd_available_neighbours (delete k) s).
Proof.
  intros Hs. apply typed_neighbours; [done|]. intros k' a c. rewrite lookup_delete_Some.
  intros [_ Hk]. by eapply ty_neighbours.
Qed.

(** *** Connections *)

Lemma ty_reportConnection h addr type :
  in_width 16 h → address_typed addr → returns typed (reportConnection h addr type) nothing.
Proof.
  intros Hh Ha s Hs. apply returns_typed; [done|]. eexists _, _. rewrite reportConnection_run.
  split_and!; [done| |done]. apply typed_delete_neighbour. apply (typed_pointers (set_connection h (fst (connection_node h s), reported h addr type s) s)); [reflexivity..|].
  apply typed_set_connection; [done|done|]. cbn [snd]. unfold reported.
  assert (in_width 64 (clock s)) by (by apply wrap_in_width). assert (conn_typed (reported_from h addr s)).
  { unfold reported_from. destruct (available_neighbours s !! addr) as [[a c]|] eqn:Hc;
      [by eapply ty_neighbours|by apply typed_node]. }
  auto 10 with typed.
Qed.

Lemma ty_reportConnectionWithRole h addr type role :
  in_width 16 h → address_typed addr → in_width 8 role →
  returns typed (reportConnectionWithRole h addr type role) nothing.
Proof.
  intros Hh Ha Hr. unfold reportConnectionWithRole. ty_bind ty_reportConnection; [done|done|]. intros [] _.
  ty_bind ty_connection_ref; [done|]. intros _ _. ty_bind ty_connection_do; [done|auto with typed|]. intros [] _.
  ty_bind ty_connection_ref; [done|]. intros [a c] _. case_decide; [|by apply returns_ret].
  ty_bind ty_ext. intros _ _. by apply returns_ret.
Qed.

Lemma ty_reportDisconnection h : in_width 16 h → returns typed (reportDisconnection h) nothing.
Proof.
  intros Hh. unfold reportDisconnection. ty_bind ty_connection_ref; [done|]. intros _ _.
  do 2 (ty_bind ty_connection_do; [done|auto with typed|]; intros [] _).
  ty_bind ty_connection_ref; [done|]. intros [a c] _. eapply returns_bind with (P := nothing).
  { case_decide; [|by apply returns_ret]. ty_bind ty_ext. intros _ _. by apply returns_ret. }
  intros [] _. eapply returns_bind with (P := nothing).
  { apply returns_modify; [|done]. intros s Hs. apply typed_handles; [done|].
    intros h' a'. rewrite lookup_delete_Some. intros [_ Hk]. by eapply ty_handles. }
  intros [] _. ty_get. intros s _. eauto with typed.
Qed.

Lemma ty_setConnectionStarted a : returns typed (setConnectionStarted a) nothing.
Proof.
  unfold setConnectionStarted. ty_bind ty_deref_connection. intros c _.
  apply returns_modify; [apply typed_delete_neighbour|done].
Qed.

Lemma ty_requestNextRssi restart : returns typed (requestNextRssi restart) nothing.
Proof.
  unfold requestNextRssi. ty_get. intros s _. cbn zeta.
  destruct (_ ≫= _) as [[h c]|]; [|apply returns_fail]. ty_bind ty_ext. intros _ _.
  eapply returns_bind with (P := nothing); [eauto with typed|]. intros [] _. by apply returns_ret.
Qed.

Lemma ty_possiblyUpdate t : returns typed (possiblyUpdateTimeOffset t) nothing.
Proof.
  unfold possiblyUpdateTimeOffset. ty_bind ty_getTimeMs. intros now _.
  eapply returns_bind with (P := nothing); [by apply returns_lift|]. intros diff _. cbn zeta.
  case_decide; [|by apply returns_ret]. apply returns_modify; [|done]. intros s Hs.
  apply typed_offset; [done|]. by apply wrap_in_width.
Qed.

Lemma ty_setConnectionHandleForPeer h p :
  in_width 16 h → returns typed (setConnectionHandleForPeer h p) nothing.
Proof.
  intros Hh. apply returns_modify; [|done]. intros s Hs. apply typed_handles; [done|].
  intros h' a. rewrite lookup_insert_Some. intros [[<- _]|[_ Hk]]; [done|by eapply ty_handles].
Qed.

(** Both handles that are compared are keys of the map. *)
Lemma ty_find_duplicate todo : ∀ reversed : gmap Z Z,
  (∀ e, e ∈ todo → in_width 16 (fst e)) → (∀ p h, reversed !! p = Some h → in_width 16 h) →
  returns typed (find_duplicate todo reversed) nothing.
Proof.
  induction todo as [|[h p] todo IH]; intros reversed Htodo Hrev; cbn [find_duplicate]; [by apply returns_ret|].
  assert (in_width 16 h) as Hh by (apply (Htodo (h, p)); set_solver). cbn zeta. case_decide.
  - assert (in_width 16 (default 0 (reversed !! p))).
    { destruct (reversed !! p) eqn:Hp; [by eapply Hrev|by apply in_width_0]. }
    do 2 (ty_bind ty_connection_ref; [done|]; intros [] _). by apply returns_ret.
  - apply IH; [intros; apply Htodo; set_solver|]. intros p' h'. rewrite lookup_insert_Some.
    intros [[_ <-]|[_ Hk]]; [done|by eapply Hrev].
Qed.

Lemma ty_getAnyDuplicateHandle : returns typed getAnyDuplicateHandle nothing.
Proof.
  unfold getAnyDuplicateHandle. ty_get. intros s Hs. apply ty_find_duplicate.
  - intros [h p] He. rewrite merge_sort_Permutation in He. apply elem_of_map_to_list in He.
    by eapply ty_handles.
  - intros p h. by rewrite lookup_empty.
Qed.

(** *** Sending *)

Lemma raw_typed_emplace h data l :
  in_width 16 h → bytes_ok data → Forall raw_typed l → Forall raw_typed (emplace h data l).
Proof. intros Hh Hd Hl. rewrite emplace_permutation. by constructor. Qed.

Lemma raw_typed_erase h l : Forall raw_typed l → Forall raw_typed (erase_lower_bound h l).
Proof.
  induction 1 as [|[k d] l Hk Hl IH]; [done|]. cbn [erase_lower_bound]. case_decide; [|done]. by constructor.
Qed.

Lemma ty_handle_of a : returns typed (handle_of a) nothing.
Proof. unfold handle_of. ty_bind ty_deref_connection. intros c _. by apply returns_ret. Qed.

Lemma ty_SendPacket p a : returns typed (SendPacketToConnection p a) nothing.
Proof.
  unfold SendPacketToConnection. ty_get. intros s0 _. ty_bind ty_deref_packet. intros pk Hpk.
  eapply returns_bind with (P := bytes_ok).
  { apply returns_lift. intros data. rewrite packet_bytes_encoding by done. intros [= <-]. by apply encoding_bytes. }
  intros data Hdata. ty_bind ty_deref_connection. intros c Hc. eapply returns_bind with (P := nothing).
  { case_decide; [apply returns_fail|by apply returns_ret]. }
  intros [] _. cbn zeta. pose proof (ct_handle c Hc) as Hh.
  eapply returns_bind with (P := nothing); [by apply returns_gets|]. intros peer _.
  eapply returns_bind with (P := nothing).
  { destruct peer; [|by apply returns_ret]. ty_bind ty_deref_peer. intros _ _. by apply returns_ret. }
  intros [] _. ty_bind ty_ext. intros _ _.
  ty_bind ty_connection_ptr_do; [intros c' Hc'; split; [by apply conn_typed_setHasData|done]|]. intros [] _.
  ty_bind ty_deref_connection. intros c2 _. eapply returns_bind with (P := nothing).
  - case_decide; (eapply returns_bind with (P := nothing);
      [apply returns_modify; [intros s Hs; first [apply typed_notify | apply typed_write];
         [done|apply raw_typed_emplace; [done|done|apply Hs]]|done]|]);
      intros [] _; (eapply returns_bind with (P := nothing); [eauto with typed|]); intros [] _; apply ty_ext.
  - intros status _. ty_bind ty_ext. intros _ _. by apply returns_ret.
Qed.

Lemma ty_sent_to_handle range h : returns typed h nothing → returns typed (sent_to_handle range h) nothing.
Proof.
  intros Hh. induction range as [|[p c] range IH]; cbn [sent_to_handle]; [by apply returns_ret|].
  ty_bind ty_handle_of. intros h1 _. eapply returns_bind; [exact Hh|]. intros h2 _.
  case_decide; [by apply returns_ret|done].
Qed.

Lemma ty_send_targeted todo : returns typed (send_targeted todo) nothing.
Proof.
  induction todo as [|[p c] todo IH]; cbn [send_targeted]; [by apply returns_ret|].
  eapply returns_bind with (P := nothing).
  { unfold packet_needed. ty_get. intros s _. ty_bind ty_sent_to_handle; [apply ty_handle_of|].
    intros found _. by apply returns_ret. }
  intros needed _. destruct needed; [|done]. ty_bind ty_SendPacket. intros _ _.
  eapply returns_bind with (P := nothing); [eauto with typed|]. intros [] _.
  eapply returns_bind; [exact IH|]. intros rest _. by apply returns_ret.
Qed.

Lemma ty_search_sendable entries h : ∀ b, returns typed (search_sendable entries h b) nothing.
Proof.
  induction entries as [|[p c] entries IH]; intros b; cbn [search_sendable]; [by apply returns_ret|].
  ty_bind ty_handle_of. intros h1 _. apply IH.
Qed.

Lemma ty_broadcast_to p k : returns typed (broadcast_to p k) nothing.
Proof.
  unfold broadcast_to. ty_get. intros s _. destruct (connections s !! k) as [[a c]|]; [|by apply returns_ret].
  destruct (available c); [|by apply returns_ret]. ty_bind ty_search_sendable. intros b _.
  destruct b; [|by apply returns_ret]. ty_bind ty_SendPacket. intros _ _.
  eapply returns_bind with (P := nothing); [eauto with typed|]. intros [] _. by apply returns_ret.
Qed.

Lemma ty_broadcast_packet p keys : returns typed (broadcast_packet p keys) nothing.
Proof.
  induction keys as [|k keys IH]; cbn [broadcast_packet]; [by apply returns_ret|].
  ty_bind ty_broadcast_to. intros sent _. eapply returns_bind; [exact IH|]. intros rest _. by apply returns_ret.
Qed.

Lemma ty_send_broadcast todo : returns typed (send_broadcast todo) nothing.
Proof.
  induction todo as [|p todo IH]; cbn [send_broadcast]; [by apply returns_ret|]. ty_get. intros s _.
  ty_bind ty_broadcast_packet. intros sent _. eapply returns_bind; [exact IH|]. intros rest _. by apply returns_ret.
Qed.

Lemma ty_sendPackets : returns typed sendPackets nothing.
Proof.
  unfold sendPackets. ty_get. intros s _. case_decide; [by apply returns_ret|].
  ty_bind ty_send_targeted. intros targeted _. eapply returns_bind with (P := nothing); [eauto with typed|].
  intros [] _. ty_bind ty_send_broadcast. intros broadcast _. eauto with typed.
Qed.

(** *** Raw packets *)

Lemma ty_notifyRawPacket h : in_width 16 h → returns typed (notifyRawPacket h) nothing.
Proof.
  intros Hh. unfold notifyRawPacket. ty_get. intros s _. eapply returns_bind with (P := nothing).
  - destruct (lower_bound _ _) as [|[k data] l]; [by apply returns_ret|].
    ty_bind ty_connection_ref; [done|]. intros [a c] _. eapply returns_bind with (P := nothing).
    { case_decide; [apply returns_fail|by apply returns_ret]. }
    intros [] _. ty_bind ty_ext. intros ret _. case_decide; [|by apply returns_ret].
    apply returns_modify; [|done]. intros t Ht. apply typed_notify; [done|]. apply raw_typed_erase, Ht.
  - intros [] _. ty_get. intros s' _. destruct (lower_bound _ _).
    + ty_bind ty_connection_ref; [done|]. intros _ _. by apply returns_ret.
    + eapply returns_bind with (P := nothing); [eauto with typed|]. intros [] _.
      ty_bind ty_ext. intros _ _. by apply returns_ret.
Qed.

Lemma ty_writeRawPacket h : in_width 16 h → returns typed (writeRawPacket h) nothing.
Proof.
  intros Hh. unfold writeRawPacket. ty_get. intros s _. eapply returns_bind with (P := nothing).
  - destruct (lower_bound _ _) as [|[k data] l]; [by apply returns_ret|].
    ty_bind ty_connection_ref; [done|]. intros [a c] _. eapply returns_bind with (P := nothing).
    { case_decide; [apply returns_fail|by apply returns_ret]. }
    intros [] _. ty_bind ty_ext. intros ret _. case_decide; [|by apply returns_ret].
    apply returns_modify; [|done]. intros t Ht. apply typed_write; [done|]. apply raw_typed_erase, Ht.
  - intros [] _. ty_get. intros s' _. destruct (lower_bound _ _).
    + ty_bind ty_connection_ref; [done|]. intros _ _. by apply returns_ret.
    + eapply returns_bind with (P := nothing); [eauto with typed|]. intros [] _.
      ty_bind ty_ext. intros _ _. by apply returns_ret.
Qed.

(** *** Announcing *)

Lemma ty_announce_to range h : returns typed (announce_to range h) nothing.
Proof.
  unfold announce_to. ty_get. intros s Hs. destruct (connections s !! h) as [[a c]|] eqn:Hc; [|by apply returns_ret].
  destruct (_ && _); [|by apply returns_ret].
  ty_bind ty_sent_to_handle; [by apply returns_ret|]. intros found _. destruct found; [by apply returns_ret|].
  ty_bind ty_getTimeMs. intros now Hnow. eapply returns_bind with (P := nothing).
  - apply returns_modify; [|done]. intros t Ht. apply typed_announce; [done|]. apply st_stamped; [done|apply Ht].
  - intros [] _. apply ty_enqueueTargeted. by eapply ty_connections.
Qed.

Lemma ty_announceToConnections :
  length local_bd_addr = 6%nat → bytes_ok local_bd_addr → returns typed announceToConnections nothing.
Proof.
  intros Hl Hb. unfold announceToConnections. eapply returns_bind with (P := nothing).
  - intros s Hs. apply returns_typed; [done|]. eexists _, _. rewrite setupAnnounce_run by done.
    split_and!; [done| |done]. apply typed_announce; [done|]. apply st_prepared; [done|apply Hs].
  - intros [] _. ty_get. intros s _. apply returns_for_each. intros h _. apply ty_announce_to.
Qed.
End operations.

(** * Events *)

(** The arguments of an operation have their types. *)
Definition event_typed (e : Event) : Prop :=
  match e with
  | EvConnectionForHandle h | EvNotifyRawPacket h | EvWriteRawPacket h | EvReportDisconnection h
  | EvSetConnectionHandleForPeer h _ => in_width 16 h
  | EvStoreMessage m => forwardable (PMessage m)
  | EvStorePacket p => forwardable (PPassAlong p)
  | EvCheckSender sender => in_width 64 sender
  | EvAddAvailablePeer addr _ _ rssi => address_typed addr ∧ in_int8 rssi
  | EvReportConnection h addr _ => in_width 16 h ∧ address_typed addr
  | EvReportConnectionWithRole h addr _ role => in_width 16 h ∧ address_typed addr ∧ in_width 8 role
  | EvEnqueueTargeted _ c => conn_typed c
  | _ => True
  end.

Lemma ty_event {env : Env} `{!AllocFresh env} e :
  length local_bd_addr = 6%nat → bytes_ok local_bd_addr → event_typed e → returns typed (run_event e) nothing.
Proof.
  intros Hl Hb He. assert (∀ A (m : M Tracker A) P, returns typed m P → returns typed (discard m) nothing) as Hd.
  { intros A m P Hm. eapply returns_bind; [exact Hm|]. intros a _. by apply returns_ret. }
  destruct e; cbn [run_event event_typed] in *.
  - by eapply Hd, ty_connectionForConnHandle.
  - by eapply Hd, ty_storeMessage.
  - by eapply Hd, ty_storePacket.
  - by eapply Hd, ty_checkSender.
  - destruct He. by apply ty_addAvailablePeer.
  - destruct He. by apply ty_reportConnection.
  - destruct He as (? & ? & ?). by apply ty_reportConnectionWithRole.
  - by apply ty_reportDisconnection.
  - apply (Hd _ _ nothing). unfold getConnectableNeighbours. ty_bind ty_time_us_64. intros _ _. by apply returns_gets.
  - eapply Hd, ty_requestNextRssi.
  - apply ty_possiblyUpdate.
  - apply ty_setConnectionStarted.
  - apply ty_enqueueBroadcast.
  - apply ty_enqueueBroadcastFrom.
  - by apply ty_enqueueTargeted.
  - by apply ty_announceToConnections.
  - apply ty_sendPackets.
  - by apply ty_notifyRawPacket.
  - by apply ty_writeRawPacket.
  - by apply ty_setConnectionHandleForPeer.
  - eapply Hd, ty_getAnyDuplicateHandle.
Qed.

(** * Properties *)

(** every operation keeps the types of the data: whatever sequence of operations
    is called as it must be, with arguments of their types, all of them
    run, and afterwards every number in the state fits its C++ type, all strings
    and buffers hold bytes, whatever is stored can be sent, and
    messages, packets, peers and neighbours are stored under their own
    id, hash, id and address. *)
Theorem tracker_typed {env : Env} `{!AllocFresh env} (s : Tracker) (es : list Event) :
  length local_bd_addr = 6%nat → bytes_ok local_bd_addr →
  wf s → typed s → events_ok s es → Forall event_typed es →
  wp (for_each es run_event) (λ _, typed) s.
Proof.
  intros Hl Hb. revert s. induction es as [|e es IH]; intros s Hwf Hty Hok Hes; [done|].
  destruct Hok as [He Hrest]. apply Forall_cons in Hes as [Het Hes]. cbn [for_each]. apply wp_bind.
  pose proof (wfp_run_event e s Hwf He) as Hw. pose proof (ty_event e Hl Hb Het s Hty) as Ht.
  unfold wfp, wp, after in *. destruct (run_event e s) as [[u s']|]; [|done].
  apply IH; [apply Hw|apply Ht|done|done].
Qed.

(** ** Witness *)

Lemma typed_new {env : Env} a : typed (Tracker_new a).
Proof.
  constructor; cbn; try done; try (intros *; by rewrite lookup_empty); try decide_concrete.
  constructor; [cbn; decide_concrete|..]; intros *; cbn; by rewrite lookup_empty.
Qed.

#[global] Instance address_typed_dec a : Decision (address_typed a).
Proof. unfold address_typed. apply _. Defined.

Lemma tracker_typed_witness :
  wp (for_each example_events (@run_event example_env)) (λ _, @typed example_env) (Tracker_new 1).
Proof.
  apply (@tracker_typed example_env _); [reflexivity|decide_concrete|apply wf_Tracker_new|apply typed_new
    |apply events_check_sound; vm_compute; reflexivity|].
  repeat (apply Forall_cons; split; [cbn [event_typed]; unfold in_int8; try done; decide_concrete|]). by apply Forall_nil.
Defined.
