(* ===== verification/Cleanup.v ===== *)
(** The clean-up: [cleanupStaleItems] of src/BLE/BleConnectionTracker.cpp.

    [cleaned] is the state after it.  The criteria for the lists and for the maps
    differ, so that the clean-up does not keep the invariant of TrackerWf: records
    outlive the packets they refer to. *)

From S2P Require Import Prelude BinaryIO Packets StdContainers BleConnection Tracker TrackerWf TrackerSafety Sending.

(** * The state after the clean-up *)

(** The criteria of the lambdas, for pointers that are live. *)
Definition stale_at (time : Base → Z) (now : Z) (s : Tracker) (a : Addr) : bool :=
  match packet_at s a with Some p => stale now (time (base_of p)) | None => false end.

Definition stale_connection_at (now : Z) (s : Tracker) (c : Addr) : bool :=
  match connection_at s c with Some c => connection_stale now c | None => false end.

Definition stale_pair (now : Z) (s : Tracker) (e : Addr * Addr) : bool :=
  stale_at packet_timestamp now s (fst e) || stale_connection_at now s (snd e).

Definition kept {A} (p : A → bool) : list A → list A := filter (λ x, p x = false).

Definition cleaned_lists (now : Z) (s : Tracker) : Tracker :=
  upd_targeted_packets_to_send_list (kept (stale_pair now s))
    (upd_broadcast_packets_to_send_list (kept (stale_at getPacketTimestampMs now s))
      (upd_packets_peers_sent_list (kept (λ e, stale_at getPacketTimestampMs now s (fst e)))
        (upd_packets_connections_sent_list (kept (stale_pair now s)) s))).

Definition cleaned (now : Z) (s : Tracker) : Tracker :=
  upd_packets (erase_if (λ p, stale now (getPacketTimestampMs (base_of p))))
    (upd_messages (erase_if (λ m, stale now (getPacketTimestampMs (base_of m))))
      (upd_available_neighbours (erase_if (connection_stale now))
        (upd_connections (erase_if (connection_stale now)) (cleaned_lists now s)))).

(** * Lemmas *)

(** Filtering with a predicate that reads the state. *)
Lemma filterM_run {S A} (p : A → M S bool) (b : A → bool) (xs : list A) s :
  (∀ x, x ∈ xs → p x s = Ok (negb (b x), s)) → filterM p xs s = Ok (kept b xs, s).
Proof.
  induction xs as [|x xs IH]; intros Hp; [done|]. cbn [filterM].
  rewrite (M_bind_ok _ _ _ _ _ (Hp x ltac:(set_solver))).
  rewrite (M_bind_ok _ _ _ _ _ (IH ltac:(intros; apply Hp; set_solver))).
  unfold kept. rewrite filter_cons. by destruct (b x).
Qed.

(** ... which fails if the predicate fails on some element. *)
Lemma filterM_fails {S A} (p : A → M S bool) (xs : list A) s e :
  (∀ x, x ∈ xs → p x s = Err e ∨ ∃ b, p x s = Ok (b, s)) → (∃ x, x ∈ xs ∧ p x s = Err e) →
  filterM p xs s = Err e.
Proof.
  induction xs as [|x xs IH]; intros Hp (y & Hy & He); [by apply elem_of_nil in Hy|].
  cbn [filterM]. unfold mbind at 1, M_bind at 1.
  destruct (Hp x ltac:(set_solver)) as [->|[b Hb]]; [done|]. rewrite Hb. unfold mbind, M_bind.
  rewrite IH; [done|intros; apply Hp; set_solver|]. apply elem_of_cons in Hy as [->|Hy]; [congruence|eauto].
Qed.

Section cleanup.
Context {env : Env}.

Lemma packet_stale_run now a s p :
  packet_at s a = Some p →
  not_stale (packet_stale now) a s = Ok (negb (stale_at getPacketTimestampMs now s a), s).
Proof.
  intros Hp. unfold not_stale, packet_stale, stale_at. rewrite M_bind_assoc.
  rewrite (M_bind_ok _ _ _ _ _ (deref_ok packet_at a p s Hp)). by rewrite Hp.
Qed.

Lemma packet_connection_stale_run now e s p c :
  packet_at s (fst e) = Some p → connection_at s (snd e) = Some c →
  not_stale (packet_connection_stale now) e s = Ok (negb (stale_pair now s e), s).
Proof.
  intros Hp Hc. unfold not_stale, packet_connection_stale, stale_pair, stale_at, stale_connection_at.
  rewrite M_bind_assoc, (M_bind_ok _ _ _ _ _ (deref_ok packet_at (fst e) p s Hp)), Hp, Hc.
  destruct (stale now _); [done|].
  by rewrite M_bind_assoc, (M_bind_ok _ _ _ _ _ (deref_ok connection_at (snd e) c s Hc)).
Qed.

Lemma deref_none {A} (at_addr : Tracker → Addr → option A) {B} (f : A → M Tracker B) a s :
  at_addr s a = None → (deref at_addr a ≫= f) s = Err DanglingPtr.
Proof.
  intros Ha. unfold deref. rewrite M_bind_assoc, (M_bind_ok get _ _ _ _ eq_refl). by rewrite Ha.
Qed.

(** The predicate on records either answers or reads through a dangling pointer. *)
Lemma packet_connection_stale_cases now e s :
  (not_stale (packet_connection_stale now) e s = Err DanglingPtr ∨
   ∃ b, not_stale (packet_connection_stale now) e s = Ok (b, s)) ∧
  (packet_at s (fst e) = None → not_stale (packet_connection_stale now) e s = Err DanglingPtr).
Proof.
  unfold not_stale, packet_connection_stale. rewrite M_bind_assoc.
  destruct (packet_at s (fst e)) as [p|] eqn:Hp.
  - split; [|done]. rewrite (M_bind_ok _ _ _ _ _ (deref_ok packet_at (fst e) p s Hp)).
    destruct (stale now _); [right; by exists false|]. rewrite M_bind_assoc.
    destruct (connection_at s (snd e)) as [c|] eqn:Hc.
    + right. rewrite (M_bind_ok _ _ _ _ _ (deref_ok connection_at (snd e) c s Hc)). by eexists.
    + left. by apply deref_none.
  - rewrite deref_none by done. auto.
Qed.

Lemma packet_at_wf s a : wf s → live_packet s a → ∃ p, packet_at s a = Some p.
Proof.
  intros Hwf Ha. destruct (packet_at_live s (wf_separate s Hwf) a Ha) as (_ & p & _ & _ & _ & ?). eauto.
Qed.

Lemma connection_at_wf s a : wf s → live_connection s a → ∃ c, connection_at s a = Some c.
Proof.
  intros Hwf Ha. destruct (connection_at_live s (wf_separate s Hwf) a Ha) as (_ & c & _ & _ & ?). eauto.
Qed.

(** The predicates look only at what the lists do not hold. *)
Lemma cleanup_run s :
  wf s → cleanupStaleItems s = Ok (tt, cleaned (now_of s) (ticked s)).
Proof.
  intros Hwf0. unfold cleanupStaleItems. rewrite (M_bind_ok _ _ _ _ _ (getTimeMs_run s)).
  set (now := now_of s). destruct (wf_calls s (λ l, l ++ [time_us_64_call]) Hwf0) as [Hwf _].
  fold (ticked s) in Hwf. set (t := ticked s) in *. clearbody t now. clear Hwf0 s.
  pose proof (wf_pointers t Hwf) as [Hsent Hpeers Hbroad Htarg _].
  rewrite (M_bind_ok get _ _ _ _ eq_refl).
  rewrite (M_bind_ok _ _ _ _ _ (filterM_run (not_stale (packet_connection_stale now))
    (stale_pair now t) (packets_connections_sent_list t) t
    ltac:(intros e He; destruct (Hsent e He) as [Hp Hc];
          destruct (packet_at_wf t _ Hwf Hp) as [p ?], (connection_at_wf t _ Hwf Hc) as [c ?];
          by eapply packet_connection_stale_run))).
  rewrite (M_bind_ok (modify _) _ _ _ _ eq_refl). set (t1 := upd_packets_connections_sent_list _ t).
  rewrite (M_bind_ok _ _ _ _ _ (filterM_run (not_stale (λ e, packet_stale now (fst e)))
    (λ e, stale_at getPacketTimestampMs now t1 (fst e)) (packets_peers_sent_list t) t1
    ltac:(intros e He; destruct (Hpeers e He) as [Hp _];
          destruct (packet_at_wf t _ Hwf Hp) as [p ?]; by eapply (packet_stale_run now (fst e) t1)))).
  rewrite (M_bind_ok (modify _) _ _ _ _ eq_refl). set (t2 := upd_packets_peers_sent_list _ t1).
  rewrite (M_bind_ok _ _ _ _ _ (filterM_run (not_stale (packet_stale now))
    (stale_at getPacketTimestampMs now t2) (broadcast_packets_to_send_list t) t2
    ltac:(intros a Ha; destruct (packet_at_wf t _ Hwf (Hbroad a Ha)) as [p ?];
          by eapply (packet_stale_run now a t2)))).
  rewrite (M_bind_ok (modify _) _ _ _ _ eq_refl). set (t3 := upd_broadcast_packets_to_send_list _ t2).
  rewrite (M_bind_ok _ _ _ _ _ (filterM_run (not_stale (packet_connection_stale now))
    (stale_pair now t3) (targeted_packets_to_send_list t) t3
    ltac:(intros e He; destruct (Htarg e He) as [Hp Hc];
          destruct (packet_at_wf t _ Hwf Hp) as [p ?], (connection_at_wf t _ Hwf Hc) as [c ?];
          by eapply (packet_connection_stale_run now e t3)))).
  by rewrite !(M_bind_ok (modify _) _ _ _ _ eq_refl).
Qed.
End cleanup.

(** * Lemmas: what is left *)

Lemma elem_of_kept {A} (p : A → bool) l x : x ∈ kept p l ↔ x ∈ l ∧ p x = false.
Proof. unfold kept. rewrite list_elem_of_filter. tauto. Qed.

Section left.
Context (now : Z) (s : Tracker) (Hwf : wf s).

(** A live packet is kept exactly when its timestamp, divided, is not stale. *)
Lemma cleaned_live a :
  live_packet s a → stale_at getPacketTimestampMs now s a = false → live_packet (cleaned now s) a.
Proof.
  intros (o & Hp & Ha) Hst. exists o. split; [done|].
  unfold stale_at in Hst. rewrite (packet_at_object s (wf_separate s Hwf) o) in Hst by done.
  destruct o as [|id|hash| | |]; try done; cbn [addr_of packet_of] in Ha, Hst |- *;
    apply fmap_Some in Ha as ([a' x] & Hx & ->); rewrite Hx in Hst; cbn in Hst.
  - assert (messages (cleaned now s) !! id = Some (a', x)) as -> by (by apply lookup_erase_if). done.
  - assert (packets (cleaned now s) !! hash = Some (a', x)) as -> by (by apply lookup_erase_if). done.
Qed.

(** The node of an erased message is not behind any pointer. *)
Lemma cleaned_gone id a m :
  messages s !! id = Some (a, m) → stale now (getPacketTimestampMs (base_of m)) = true →
  packet_at (cleaned now s) a = None.
Proof.
  intros Hm Hst. pose proof (wf_separate s Hwf) as Hs.
  assert (addr_of s (OMessage id) = Some a) as Ha by (cbn; by rewrite Hm).
  assert (∀ o, o ≠ OMessage id → addr_of s o ≠ Some a) as Hother.
  { intros o Hne Ho. apply Hne. by apply (Hs _ _ a). }
  unfold packet_at. cbn [announce_at cleaned cleaned_lists upd_packets upd_messages
    upd_available_neighbours upd_connections upd_targeted_packets_to_send_list
    upd_broadcast_packets_to_send_list upd_packets_peers_sent_list upd_packets_connections_sent_list
    messages packets].
  rewrite decide_False by (intros ->; by apply (Hother OAnnounce)).
  rewrite node_at_None.
  - rewrite node_at_None; [done|]. intros k Hk. apply fmap_Some in Hk as ([a' p] & Hk & ->).
    destruct (proj1 (lookup_erase_if _ _ _ _ _) Hk) as [Hk' _].
    apply (Hother (OPacket k)); [done|]. cbn. by rewrite Hk'.
  - intros k Hk. apply fmap_Some in Hk as ([a' m'] & Hk & ->).
    destruct (proj1 (lookup_erase_if _ _ _ _ _) Hk) as [Hk' Hns]. destruct (decide (k = id)) as [->|Hne].
    + rewrite Hm in Hk'. injection Hk' as <-. congruence.
    + apply (Hother (OMessage k)); [congruence|]. cbn. by rewrite Hk'.
Qed.
End left.

(** *** When the invariant is kept *)

(** No record or targeted entry that stays is about a packet that goes. *)
Definition cleanup_clean (now : Z) (s : Tracker) : Prop :=
  Forall (λ e, stale_pair now s e = false → stale_at getPacketTimestampMs now s (fst e) = false)
    (packets_connections_sent_list s ++ targeted_packets_to_send_list s).

(** A live connection stays unless it is stale. *)
Lemma cleaned_connection now s a :
  wf s → live_connection s a → stale_connection_at now s a = false → live_connection (cleaned now s) a.
Proof.
  intros Hwf [h Ha] Hst. exists h. cbn in Ha |- *.
  apply fmap_Some in Ha as ([a' c] & Hc & ->). cbn [fst] in *.
  destruct (connection_at_object s (wf_separate s Hwf) h a' c Hc) as [_ Hat].
  unfold stale_connection_at in Hst. rewrite Hat in Hst.
  by rewrite (proj2 (lookup_erase_if (connection_stale now) (connections s) h a' c) (conj Hc Hst)).
Qed.

(** Nothing is created. *)
Lemma cleaned_addr_of now s o a : addr_of (cleaned now s) o = Some a → addr_of s o = Some a.
Proof.
  destruct o; cbn; try done; intros Ha; apply fmap_Some in Ha as ([a' x] & Hx & ->);
    apply lookup_erase_if in Hx as [Hx _]; by rewrite Hx.
Qed.

Lemma cleaned_pair now s e :
  wf s → live_packet s (fst e) ∧ live_connection s (snd e) →
  (stale_pair now s e = false → stale_at getPacketTimestampMs now s (fst e) = false) →
  stale_pair now s e = false → live_packet (cleaned now s) (fst e) ∧ live_connection (cleaned now s) (snd e).
Proof.
  intros Hwf [Hp Hc] Hcl Hst. split; [by apply cleaned_live; auto|]. apply cleaned_connection; [done|done|].
  by apply orb_false_elim in Hst as [_ ?].
Qed.

Lemma wf_cleaned now s : wf s → cleanup_clean now s → wf (cleaned now s).
Proof.
  intros Hwf Hcl. unfold cleanup_clean in Hcl. rewrite Forall_forall in Hcl.
  pose proof (wf_pointers s Hwf) as [Hsent Hpeers Hbroad Htarg Hhand]. constructor.
  - eapply separate_shrink, Hwf. apply cleaned_addr_of.
  - constructor.
    + intros e [He Hst]%elem_of_kept. apply cleaned_pair; [done|by apply Hsent| |done].
      apply Hcl, elem_of_app. by left.
    + intros e [He Hst]%elem_of_kept. destruct (Hpeers e He) as [Hp Hpe].
      split; [by apply cleaned_live|exact Hpe].
    + intros a [Ha Hst]%elem_of_kept. apply cleaned_live; auto.
    + intros e [He Hst]%elem_of_kept. apply cleaned_pair; [done|by apply Htarg| |done].
      apply Hcl, elem_of_app. by right.
    + exact Hhand.
  - destruct (wf_ordered s Hwf). constructor; by apply sorted_filter.
  - intros h a c [Hc _]%lookup_erase_if. exact (wf_handles s Hwf h a c Hc).
  - intros k a c [Hc _]%lookup_erase_if. exact (wf_neighbours s Hwf k a c Hc).
Qed.

(** A record of a packet that is no longer there stops the clean-up. *)
Lemma cleanup_fails {env : Env} s p c0 :
  (p, c0) ∈ packets_connections_sent_list s → packet_at s p = None →
  cleanupStaleItems s = Err DanglingPtr.
Proof.
  intros Hin Hgone. unfold cleanupStaleItems.
  rewrite (M_bind_ok _ _ _ _ _ (getTimeMs_run s)), (M_bind_ok get _ _ _ _ eq_refl).
  unfold mbind at 1, M_bind at 1.
  assert (packet_at (ticked s) p = None) as Hgone' by exact Hgone.
  rewrite (filterM_fails _ _ _ DanglingPtr); [done|..].
  - intros e _. apply (packet_connection_stale_cases (now_of s) e (ticked s)).
  - exists (p, c0). split; [exact Hin|].
    exact (proj2 (packet_connection_stale_cases (now_of s) (p, c0) (ticked s)) Hgone').
Qed.

(** A record is kept with its packet's timestamp as it is and its connection. *)
Lemma cleaned_record now s id p m c0 :
  wf s → messages s !! id = Some (p, m) → (p, c0) ∈ packets_connections_sent_list s →
  stale now (packet_timestamp (base_of m)) = false → stale_connection_at now s c0 = false →
  (p, c0) ∈ packets_connections_sent_list (cleaned now s).
Proof.
  intros Hwf Hm Hrec Hnot Hcon. apply elem_of_kept. split; [exact Hrec|].
  unfold stale_pair, stale_at. cbn [fst snd].
  rewrite (packet_at_object s (wf_separate _ Hwf) (OMessage id)); [|done|cbn; by rewrite Hm].
  cbn [packet_of]. rewrite Hm. cbn [fmap option_fmap option_map compose snd].
  change (base_of (PMessage m)) with (base_of m). rewrite Hnot. exact Hcon.
Qed.

(** * Properties *)

(** The packet behind a pointer has a time of the last ten minutes. *)
Definition recent (time : Base → Z) (now : Z) (s : Tracker) (a : Addr) : Prop :=
  match packet_at s a with
  | Some p => now ≤ u64 (time (base_of p) + ten_minutes_in_ms)
  | None => True
  end.

(** The connection behind a pointer is connected, or the time it was last seen, divided by
    a thousand, is within ten minutes of the clock. *)
Definition active (now : Z) (s : Tracker) (c : Addr) : Prop :=
  match connection_at s c with
  | Some c => connected c = true ∨ now ≤ u64 (last_seen_time c / 1000 + ten_minutes_in_ms)
  | None => True
  end.

#[global] Instance recent_dec time now s a : Decision (recent time now s a).
Proof. unfold recent. destruct (packet_at s a); apply _. Defined.
#[global] Instance active_dec now s c : Decision (active now s c).
Proof. unfold active. destruct (connection_at s c); apply _. Defined.

Lemma stale_false now x : stale now x = false ↔ now ≤ u64 (x + ten_minutes_in_ms).
Proof. unfold stale. rewrite bool_decide_eq_false. lia. Qed.
Lemma connection_stale_false now c :
  connection_stale now c = false ↔ connected c = true ∨ now ≤ u64 (last_seen_time c / 1000 + ten_minutes_in_ms).
Proof. unfold connection_stale. rewrite andb_false_iff, negb_false_iff, stale_false. done. Qed.
Lemma stale_at_false time now s a : stale_at time now s a = false ↔ recent time now s a.
Proof. unfold stale_at, recent. destruct (packet_at s a); [apply stale_false|tauto]. Qed.
Lemma stale_pair_false now s e :
  stale_pair now s e = false ↔ recent packet_timestamp now s (fst e) ∧ active now s (snd e).
Proof.
  unfold stale_pair, stale_connection_at, active. rewrite orb_false_iff, stale_at_false.
  destruct (connection_at s (snd e)); [by rewrite connection_stale_false|tauto].
Qed.

(** * Properties *)

(** C33: the clean-up runs without undefined behaviour on a well-formed tracker and
    changes nothing but its maps and lists, from which it erases exactly this.  A connection or
    neighbour stays when it is connected, or when the time it was last seen, divided
    by a thousand, is within ten minutes of the clock; a message or packet when its
    timestamp, divided by a thousand, is, and with it its place in the broadcast queue and the records of the peers that have it,
    which so refer to live objects afterwards.  The records of connections and the targeted
    packets stay when the undivided timestamp is and the connection stays. *)
Theorem cleanup_keeps {env : Env} (s : Tracker) :
  wf s → let now := now_of s in
  ∃ s', cleanupStaleItems s = Ok (tt, s') ∧
    (∀ h a c, connections s' !! h = Some (a, c) ↔ connections s !! h = Some (a, c) ∧
       (connected c = true ∨ now ≤ u64 (last_seen_time c / 1000 + ten_minutes_in_ms))) ∧
    (∀ k a c, available_neighbours s' !! k = Some (a, c) ↔ available_neighbours s !! k = Some (a, c) ∧
       (connected c = true ∨ now ≤ u64 (last_seen_time c / 1000 + ten_minutes_in_ms))) ∧
    (∀ id a m, messages s' !! id = Some (a, m) ↔ messages s !! id = Some (a, m) ∧
       now ≤ u64 (packet_timestamp (base_of m) / 1000 + ten_minutes_in_ms)) ∧
    (∀ id a p, packets s' !! id = Some (a, p) ↔ packets s !! id = Some (a, p) ∧
       now ≤ u64 (packet_timestamp (base_of p) / 1000 + ten_minutes_in_ms)) ∧
    broadcast_packets_to_send_list s'
      = filter (recent getPacketTimestampMs now s) (broadcast_packets_to_send_list s) ∧
    packets_peers_sent_list s'
      = filter (λ e, recent getPacketTimestampMs now s (fst e)) (packets_peers_sent_list s) ∧
    packets_connections_sent_list s'
      = filter (λ e, recent packet_timestamp now s (fst e) ∧ active now s (snd e)) (packets_connections_sent_list s) ∧
    targeted_packets_to_send_list s'
      = filter (λ e, recent packet_timestamp now s (fst e) ∧ active now s (snd e)) (targeted_packets_to_send_list s) ∧
    (∀ a, a ∈ broadcast_packets_to_send_list s' → live_packet s' a) ∧
    (∀ e, e ∈ packets_peers_sent_list s' → live_packet s' (fst e) ∧ live_peer s' (snd e)) ∧
    s' = mkTracker (peers s) (messages s') (packets s') (announce_at s) (announce s) (connections s')
      (available_neighbours s') (raw_packet_to_notify s) (raw_packet_to_write s)
      (timestamp_offset_ms s) (handle_peer_map s) (packets_connections_sent_list s')
      (packets_peers_sent_list s') (broadcast_packets_to_send_list s')
      (targeted_packets_to_send_list s') (notify_context s) (write_context s) (rssi_iterator s)
      (calls s ++ [time_us_64_call]).
Proof.
  intros Hwf now. exists (cleaned now (ticked s)). split; [by apply cleanup_run|].
  destruct (wf_calls s (λ l, l ++ [time_us_64_call]) Hwf) as [Hwf1 _]. fold (ticked s) in Hwf1.
  pose proof (wf_pointers _ Hwf1) as [_ Hpeers Hbroad _ _].
  split_and!.
  - intros h a c. rewrite <- connection_stale_false. apply lookup_erase_if.
  - intros k a c. rewrite <- connection_stale_false. apply lookup_erase_if.
  - intros id a m. rewrite <- stale_false.
    apply (lookup_erase_if (λ m, stale now (getPacketTimestampMs (base_of m)))).
  - intros id a p. rewrite <- stale_false.
    apply (lookup_erase_if (λ p, stale now (getPacketTimestampMs (base_of p)))).
  - apply list_filter_iff. intros a. apply (stale_at_false _ now (ticked s)).
  - apply list_filter_iff. intros e. apply (stale_at_false _ now (ticked s)).
  - apply list_filter_iff. intros e. apply (stale_pair_false now (ticked s)).
  - apply list_filter_iff. intros e. apply (stale_pair_false now (ticked s)).
  - intros a [Ha Hfr]%elem_of_kept. apply cleaned_live; [done|by apply Hbroad|exact Hfr].
  - intros e [He Hfr]%elem_of_kept. destruct (Hpeers e He) as [Hp Hpe].
    split; [by apply cleaned_live|exact Hpe].
  - done.
Qed.

(** once the tracker's clock is past ten minutes and a bit, each clean-up
    forgets every message stamped up to that moment, since their timestamps are
    divided by a thousand: copies that arrive later are taken as new. *)
Theorem cleanup_forgets_all {env : Env} (s : Tracker) :
  wf s → 601000 ≤ now_of s < 2 ^ 63 →
  ∃ s', cleanupStaleItems s = Ok (tt, s') ∧
    ∀ id a m, messages s !! id = Some (a, m) → 0 ≤ packet_timestamp (base_of m) ≤ now_of s →
      messages s' !! id = None.
Proof.
  intros Hwf Hnow. exists (cleaned (now_of s) (ticked s)). split; [by apply cleanup_run|].
  intros id a m Hm Ht. destruct (messages (cleaned (now_of s) (ticked s)) !! id) as [[a' m']|] eqn:Hm'; [|done].
  destruct (proj1 (lookup_erase_if _ _ _ _ _) Hm') as [Hk Hst]. change (messages s !! id = Some (a', m')) in Hk.
  rewrite Hm in Hk. injection Hk as <- <-. exfalso. unfold stale in Hst.
  apply bool_decide_eq_false in Hst. apply Hst. unfold u64, getPacketTimestampMs, ten_minutes_in_ms.
  rewrite wrap_small; [div_lia|]. unfold in_width. div_lia.
Qed.

(** C37: a record of a recent message outlives the message, because the records are
    judged by the undivided timestamp; the next clean-up reads through the dangling
    pointer, whatever the clock then shows. *)
Theorem cleanup_dangles {env : Env} (s : Tracker) id p m c0 :
  wf s → messages s !! id = Some (p, m) → (p, c0) ∈ packets_connections_sent_list s →
  stale (now_of s) (getPacketTimestampMs (base_of m)) = true →
  stale (now_of s) (packet_timestamp (base_of m)) = false →
  stale_connection_at (now_of s) s c0 = false →
  (cleanupStaleItems;; cleanupStaleItems) s = Err DanglingPtr.
Proof.
  intros Hwf Hm Hrec Hdiv Hnot Hcon. rewrite (M_bind_ok _ _ _ _ _ (cleanup_run s Hwf)).
  destruct (wf_calls s (λ l, l ++ [time_us_64_call]) Hwf) as [Hwf1 _]. fold (ticked s) in Hwf1.
  apply (cleanup_fails _ p c0).
  - by apply (cleaned_record (now_of s) (ticked s) id p m).
  - by apply (cleaned_gone (now_of s) (ticked s) Hwf1 id p m).
Qed.

(** ** Witnesses *)

(** The state of [sending_example], with the clock at twenty minutes and two messages
    that have just been sent. *)
Definition twenty_minutes : Z := 1200000.

Definition cleanup_example : Tracker :=
  upd_timestamp_offset_ms (λ _, twenty_minutes)
    (upd_messages (λ _, {[ str "a" := (30, Message_make 7 twenty_minutes 0 5);
                           str "b" := (40, Message_make 7 1190000 0 6) ]})
      (sending_example [] [])).

Lemma cleanup_example_ok : wf cleanup_example.
Proof. apply wf_check_sound. vm_compute. reflexivity. Qed.

(** ... the second stamped a thousand times later, and both queued. *)
Definition queued_example : Tracker :=
  upd_timestamp_offset_ms (λ _, twenty_minutes)
    (upd_messages (λ _, {[ str "a" := (30, Message_make 7 twenty_minutes 0 5);
                           str "b" := (40, Message_make 7 (1000 * twenty_minutes) 0 6) ]})
      (sending_example [30; 40] [])).

Lemma cleanup_keeps_witness :
  let s := queued_example in
  ∃ s', @cleanupStaleItems example_env s = Ok (tt, s') ∧
    (∀ id a m, messages s' !! id = Some (a, m) ↔ messages s !! id = Some (a, m) ∧
       @now_of example_env s ≤ u64 (packet_timestamp (base_of m) / 1000 + ten_minutes_in_ms)) ∧
    broadcast_packets_to_send_list s' = [40] ∧
    packets_connections_sent_list s' = [(30, 10); (40, 20)] ∧ live_packet s' 40.
Proof.
  destruct (@cleanup_keeps example_env queued_example) as (s' & Hrun & _ & _ & Hm & _ & Hb & _ & Hc & _ & Hlive & _).
  { apply wf_check_sound. vm_compute. reflexivity. }
  exists s'. split; [exact Hrun|]. split; [exact Hm|]. rewrite Hb in Hlive |- *. rewrite Hc.
  split; [vm_compute; reflexivity|]. split; [vm_compute; reflexivity|]. apply Hlive. decide_concrete.
Defined.

Lemma cleanup_forgets_all_witness :
  let s := cleanup_example in
  ∃ s', @cleanupStaleItems example_env s = Ok (tt, s') ∧
    ∀ id a m, messages s !! id = Some (a, m) →
      0 ≤ packet_timestamp (base_of m) ≤ @now_of example_env s → messages s' !! id = None.
Proof. apply cleanup_forgets_all; [apply cleanup_example_ok|decide_concrete]. Defined.

Lemma cleanup_dangles_witness :
  (@cleanupStaleItems example_env;; @cleanupStaleItems example_env) cleanup_example = Err DanglingPtr.
Proof.
  apply (cleanup_dangles cleanup_example (str "a") 30 (Message_make 7 twenty_minutes 0 5) 10);
    [apply cleanup_example_ok|reflexivity|decide_concrete|vm_compute; reflexivity
    |vm_compute; reflexivity|vm_compute; reflexivity].
Defined.
