(* ===== verification/Application.v ===== *)
(** Component: the application (src/main.cpp): its globals and its callbacks.

    [App] is the tracker with the globals of main.cpp.  BTstack's event packets
    are represented by what the accessors used on them return; the attribute
    handles that the build generates from ble_repeater.gatt and the two functions
    of BTstack whose results are computed on are parameters. *)

From S2P Require Import Prelude BinaryIO Packets StdContainers BleConnection Advertising Tracker Protocol.

(** * Parameters *)

(** ATT_CHARACTERISTIC_a8d99167_e58c_4a0c_9565_e2f1a7fbc05d_01_..._HANDLE of the
    generated header. *)
Class AttDb := {
  CLIENT_CONFIGURATION_HANDLE : Z;
  VALUE_HANDLE : Z;
  USER_DESCRIPTION_HANDLE : Z;
}.

(** Labels of one [switch] are distinct, attribute handles are positive 16-bit
    numbers. *)
Class AttDbOk (db : AttDb) : Prop := {
  handles_distinct : NoDup [CLIENT_CONFIGURATION_HANDLE; VALUE_HANDLE; USER_DESCRIPTION_HANDLE];
  VALUE_HANDLE_range : 0 < VALUE_HANDLE < 2 ^ 16;
}.

(** [little_endian_read_16(buffer, position)] *)
Class LittleEndian := little_endian_read_16 : list Z → Z → result Z.

Class LittleEndianSpec (le : LittleEndian) : Prop :=
  little_endian_read_16_spec : ∀ lo hi rest, in_width 8 lo → in_width 8 hi →
    little_endian_read_16 (lo :: hi :: rest) 0 = Ok (lo + 256 * hi).

(** Constants of BTstack and of the Pico SDK. *)
Definition ATT_TRANSACTION_MODE_NONE : Z := 0.
Definition GATT_CLIENT_CHARACTERISTICS_CONFIGURATION_NOTIFICATION : Z := 1.
Definition HCI_EVENT_PACKET : Z := 4.
Definition GPIO_IRQ_EDGE_FALL : Z := 4.

(** Constants of main.cpp. *)
Definition EXIT_GPIO_PIN : Z := 28.
Definition SMOKE_SEEN_PIN : Z := 17.
Definition LIFE_CHECK_PIN : Z := 18.
Definition BLE_SCAN_PERIOD_MS : Z := 2000.

(** * State *)

Record App := mkApp {
  connection_tracker : Tracker;
  advertisement : Adv;                        (* adv_data, adv_data_len *)
  keep_running : bool;
  smoke_seen : bool;
  life_check : bool;
  global_activity : Z;                        (* uint16_t *)
  scanning : bool;
  connection_in_progress : bool;
  disconnection_started_at : Z;               (* uint32_t *)
  discover_primary_services : bool;
  discover_characteristics_for_service : bool;
}.

Definition App_new (t : Tracker) : App :=
  mkApp t Adv_new true false false 0 false false 0 false false.

Definition set_tracker (t : Tracker) (s : App) : App :=
  mkApp t (advertisement s) (keep_running s) (smoke_seen s) (life_check s) (global_activity s)
    (scanning s) (connection_in_progress s) (disconnection_started_at s)
    (discover_primary_services s) (discover_characteristics_for_service s).
Definition set_advertisement (a : Adv) (s : App) : App :=
  mkApp (connection_tracker s) a (keep_running s) (smoke_seen s) (life_check s)
    (global_activity s) (scanning s) (connection_in_progress s) (disconnection_started_at s)
    (discover_primary_services s) (discover_characteristics_for_service s).
Definition set_keep_running (b : bool) (s : App) : App :=
  mkApp (connection_tracker s) (advertisement s) b (smoke_seen s) (life_check s)
    (global_activity s) (scanning s) (connection_in_progress s) (disconnection_started_at s)
    (discover_primary_services s) (discover_characteristics_for_service s).
Definition set_smoke_seen (b : bool) (s : App) : App :=
  mkApp (connection_tracker s) (advertisement s) (keep_running s) b (life_check s)
    (global_activity s) (scanning s) (connection_in_progress s) (disconnection_started_at s)
    (discover_primary_services s) (discover_characteristics_for_service s).
Definition set_life_check (b : bool) (s : App) : App :=
  mkApp (connection_tracker s) (advertisement s) (keep_running s) (smoke_seen s) b
    (global_activity s) (scanning s) (connection_in_progress s) (disconnection_started_at s)
    (discover_primary_services s) (discover_characteristics_for_service s).
Definition set_global_activity (v : Z) (s : App) : App :=
  mkApp (connection_tracker s) (advertisement s) (keep_running s) (smoke_seen s) (life_check s)
    v (scanning s) (connection_in_progress s) (disconnection_started_at s)
    (discover_primary_services s) (discover_characteristics_for_service s).
Definition set_scanning (b : bool) (s : App) : App :=
  mkApp (connection_tracker s) (advertisement s) (keep_running s) (smoke_seen s) (life_check s)
    (global_activity s) b (connection_in_progress s) (disconnection_started_at s)
    (discover_primary_services s) (discover_characteristics_for_service s).
Definition set_connection_in_progress (b : bool) (s : App) : App :=
  mkApp (connection_tracker s) (advertisement s) (keep_running s) (smoke_seen s) (life_check s)
    (global_activity s) (scanning s) b (disconnection_started_at s)
    (discover_primary_services s) (discover_characteristics_for_service s).
Definition set_discover_primary_services (b : bool) (s : App) : App :=
  mkApp (connection_tracker s) (advertisement s) (keep_running s) (smoke_seen s) (life_check s)
    (global_activity s) (scanning s) (connection_in_progress s) (disconnection_started_at s)
    b (discover_characteristics_for_service s).
Definition set_discover_characteristics (b : bool) (s : App) : App :=
  mkApp (connection_tracker s) (advertisement s) (keep_running s) (smoke_seen s) (life_check s)
    (global_activity s) (scanning s) (connection_in_progress s) (disconnection_started_at s)
    (discover_primary_services s) b.

(** An operation of the tracker, or on the advertisement, inside the application. *)
Definition on_tracker {A} (m : M Tracker A) : M App A := λ s,
  match m (connection_tracker s) with Ok (a, t) => Ok (a, set_tracker t s) | Err e => Err e end.

Definition on_advertisement {A} (m : M Adv A) : M App A := λ s,
  match m (advertisement s) with Ok (a, v) => Ok (a, set_advertisement v s) | Err e => Err e end.

(** [global_activity++] *)
Definition count_activity : M App unit :=
  modify (λ s, set_global_activity (u16 (global_activity s + 1)) s).

(** * Callbacks *)

(** [memset(&buffer[offset], 0, n)] *)
Definition memset_zero (buffer : list Z) (offset n : Z) : result (list Z) :=
  if decide (0 ≤ offset ∧ 0 ≤ n ∧ offset + n ≤ Z.of_nat (length buffer))
  then Ok (take (Z.to_nat offset) buffer ++ replicate (Z.to_nat n) 0 ++
           drop (Z.to_nat (offset + n)) buffer)
  else Err OutOfBounds.

(** What [gatt_event_*], [hci_event_*] and the like return for an event. *)
Inductive GattEvent :=
| GATT_EVENT_MTU (handle mtu : Z)
| GATT_EVENT_SERVICE_QUERY_RESULT (handle : Z) (service : gatt_client_service)
| GATT_EVENT_CHARACTERISTIC_QUERY_RESULT (handle : Z) (ch : gatt_client_characteristic)
| GATT_EVENT_QUERY_COMPLETE (handle : Z)
| GATT_EVENT_other.

Inductive ValueEvent :=
| GATT_EVENT_NOTIFICATION (handle : Z) (value : list Z) (value_length : Z)
| GATT_EVENT_INDICATION
| GATT_VALUE_other.

Inductive HciEvent :=
| BTSTACK_EVENT_STATE (working : bool)
| HCI_EVENT_DISCONNECTION_COMPLETE (handle : Z)
| GAP_EVENT_RSSI_MEASUREMENT (handle rssi : Z)
| HCI_SUBEVENT_LE_CONNECTION_COMPLETE (handle : Z) (address : list Z) (address_type role : Z)
| GAP_EVENT_ADVERTISING_REPORT (address : list Z) (address_type rssi : Z) (data : list Z) (length : Z)
| GAP_SUBEVENT_LE_CONNECTION_COMPLETE (handle : Z) (address : list Z) (address_type role : Z)
| GATT_EVENT_CAN_WRITE_WITHOUT_RESPONSE (handle : Z)
| HCI_EVENT_other.

Inductive AttEvent :=
| ATT_EVENT_CONNECTED (handle : Z) (address : list Z) (address_type : Z)
| ATT_EVENT_DISCONNECTED (handle : Z)
| ATT_EVENT_other.

Section application.
Context {env : Env} `{!AdIterator} {db : AttDb} `{!LittleEndian}.

Definition app_ext (c : Call) : M App Z := on_tracker (ext c).

(** [connection_tracker.connectionForConnHandle(handle).f()] *)
Definition at_connection (f : BleConnection → BleConnection) (handle : Z) : M Tracker unit :=
  '(a, _) ← connectionForConnHandle handle;
  connection_ptr_do f a.

(** ** The attribute server *)

(** Returns the size and the buffer afterwards. *)
Definition att_read_callback (att_handle offset : Z) (buffer : list Z) (buffer_size : Z) :
    M App (Z * list Z) :=
  count_activity;;
  let cleared := memset_zero buffer offset (wrap size_t_bits (buffer_size - offset)) in
  if decide (att_handle = CLIENT_CONFIGURATION_HANDLE) then
    buffer ← lift_result cleared; mret (2, buffer)
  else if decide (att_handle = VALUE_HANDLE) then
    buffer ← lift_result cleared; mret (0, buffer)
  else if decide (att_handle = USER_DESCRIPTION_HANDLE) then
    buffer ← lift_result cleared; mret (0, buffer)
  else mret (0, buffer).

Definition att_write_callback (connection_handle att_handle transaction_mode offset : Z)
    (buffer : list Z) (buffer_size : Z) : M App Z :=
  count_activity;;
  if decide (transaction_mode ≠ ATT_TRANSACTION_MODE_NONE) then mret 0 else
  '(context, c) ← on_tracker (connectionForConnHandle connection_handle);
  (if decide (att_handle = CLIENT_CONFIGURATION_HANDLE) then
     value ← lift_result (little_endian_read_16 buffer 0);
     let enabled := bool_decide (value = GATT_CLIENT_CHARACTERISTICS_CONFIGURATION_NOTIFICATION) in
     on_tracker (connection_ptr_do (setNotificationEnabled enabled) context);;
     c ← on_tracker (deref connection_at context);
     if notification_enabled c
     then on_tracker (connection_ptr_do (setPacketCharacteristicValueHandle VALUE_HANDLE) context)
     else mret tt
   else if decide (att_handle = VALUE_HANDLE) then
     on_tracker (processWrite (context, c) offset buffer buffer_size)
   else mret tt);;
  mret 0.

(** ** The client *)

(** [service] is the local variable, not yet initialised. *)
Definition handle_gatt_client_event (service : gatt_client_service) (e : GattEvent) : M App unit :=
  count_activity;;
  match e with
  | GATT_EVENT_MTU handle mtu => on_tracker (at_connection (setMtu mtu) handle)
  | GATT_EVENT_SERVICE_QUERY_RESULT handle service =>
      '(a, _) ← on_tracker (connectionForConnHandle handle);
      if decide (service_uuid16 service = 0)
      then on_tracker (connection_ptr_do (storeHandlesIfServiceMatches service) a)
      else mret tt
  | GATT_EVENT_CHARACTERISTIC_QUERY_RESULT handle ch =>
      '(a, _) ← on_tracker (connectionForConnHandle handle);
      if decide (characteristic_uuid16 ch = 0)
      then on_tracker (connection_ptr_do (storeHandlesIfCharacteristicMatches ch) a)
      else mret tt
  | GATT_EVENT_QUERY_COMPLETE handle =>
      '(a, _) ← on_tracker (connectionForConnHandle handle);
      app_ext (hci_connection_for_handle handle);;
      modify (set_discover_primary_services false);;
      modify (set_discover_characteristics false);;
      c ← on_tracker (deref connection_at a);
      let '(needed, service) := canAndNeedToDiscoverPacketCharacteristicsQuery service c in
      if needed : bool then
        modify (set_discover_characteristics true);;
        app_ext (gatt_client_discover_characteristics_for_service_by_uuid128
                   handle service packet_characteristic_uuid);;
        mret tt
      else mret tt
  | GATT_EVENT_other => mret tt
  end.

(** The variable [connection] is a copy of the tracker's connection, at the
    address [frame]. *)
Definition handle_gatt_client_value_update_event (frame : Addr) (e : ValueEvent) : M App unit :=
  count_activity;;
  match e with
  | GATT_EVENT_NOTIFICATION handle value value_length =>
      '(_, connection) ← on_tracker (connectionForConnHandle handle);
      on_tracker (processWrite (frame, connection) 0 value value_length)
  | GATT_EVENT_INDICATION => mret tt
  | GATT_VALUE_other => mret tt
  end.

(** ** Advertising and scanning *)

Definition setup_advertisements : M App unit :=
  on_advertisement populate_advertising_data;;
  app_ext (gap_advertisements_set_params (30000 / 625) (40000 / 625) 0 0 [0; 0; 0; 0; 0; 0] 0x07 0x00);;
  s ← get;
  app_ext (gap_advertisements_set_data
    (take (Z.to_nat (adv_data_len (advertisement s))) (adv_data (advertisement s))));;
  app_ext (gap_advertisements_enable 1);;
  mret tt.

Definition start_scanning_for_local_nodes : M App unit :=
  app_ext gap_start_scan;;
  modify (set_scanning true);;
  app_ext (btstack_run_loop_set_timer BLE_SCAN_PERIOD_MS);;
  app_ext btstack_run_loop_add_timer;;
  mret tt.

Definition setup_scanning : M App unit :=
  app_ext (gap_set_scan_params 0 0x0030 0x0030 0);;
  app_ext (gap_set_scan_duplicate_filter true);;
  start_scanning_for_local_nodes.

Definition stop_scan_handler : M App unit :=
  count_activity;;
  app_ext gap_stop_scan;;
  modify (set_scanning false).

(** ** Events of the stack *)

(** The case [HCI_EVENT_META_GAP] of [hci_packet_handler]. *)
Definition gap_connection_complete (handle : Z) (address : list Z) (address_type role : Z) : M App unit :=
  app_ext (gap_advertisements_enable 1);;
  app_ext (hci_connection_for_handle handle);;
  on_tracker (reportConnectionWithRole handle address address_type role);;
  modify (set_connection_in_progress false);;
  modify (set_discover_primary_services true);;
  app_ext (gatt_client_discover_primary_services_by_uuid128 handle packet_service_uuid);;
  mret tt.

(** The case [GATT_EVENT_CAN_WRITE_WITHOUT_RESPONSE]. *)
Definition can_write_without_response (handle : Z) : M App unit :=
  app_ext (hci_connection_for_handle handle);; mret tt.

Definition hci_packet_handler (packet_type : Z) (e : HciEvent) : M App unit :=
  count_activity;;
  if decide (packet_type ≠ HCI_EVENT_PACKET) then mret tt else
  match e with
  | BTSTACK_EVENT_STATE working =>
      if working : bool then
        app_ext (gap_set_max_number_peripheral_connections 4);;
        setup_advertisements;;
        setup_scanning
      else mret tt
  | HCI_EVENT_DISCONNECTION_COMPLETE handle =>
      app_ext (hci_connection_for_handle handle);;
      on_tracker (reportDisconnection handle)
  | GAP_EVENT_RSSI_MEASUREMENT handle rssi =>
      app_ext (gap_get_role handle);;
      on_tracker (connectionForConnHandle handle);;    (* setRssi on a copy *)
      mret tt
  | HCI_SUBEVENT_LE_CONNECTION_COMPLETE handle address address_type role =>
      app_ext (hci_connection_for_handle handle);;
      on_tracker (reportConnectionWithRole handle address address_type role)
  | GAP_EVENT_ADVERTISING_REPORT address address_type rssi data length =>
      services ← lift_result (check_for_uuid data length);
      if decide (Z.land (status_value services) (status_value ServiceUUIDFound) ≠ 0)
      then on_tracker (addAvailablePeer address address_type services rssi)
      else mret tt
  | GAP_SUBEVENT_LE_CONNECTION_COMPLETE handle address address_type role =>
      gap_connection_complete handle address address_type role
  | GATT_EVENT_CAN_WRITE_WITHOUT_RESPONSE handle => can_write_without_response handle
  | HCI_EVENT_other => mret tt
  end.

Definition att_packet_handler (packet_type : Z) (e : AttEvent) : M App unit :=
  count_activity;;
  if decide (packet_type ≠ HCI_EVENT_PACKET) then mret tt else
  match e with
  | ATT_EVENT_CONNECTED handle address address_type =>
      app_ext (hci_connection_for_handle handle);;
      on_tracker (reportConnection handle address address_type)
  | ATT_EVENT_DISCONNECTED handle =>
      app_ext (hci_connection_for_handle handle);;
      on_tracker (reportDisconnection handle)
  | ATT_EVENT_other => mret tt
  end.

Definition sm_packet_handler : M App unit := count_activity.

(** ** Pins *)

Definition gpio_callback (gpio events : Z) : M App unit :=
  count_activity;;
  let falling := bool_decide (Z.land events GPIO_IRQ_EDGE_FALL ≠ 0) in
  (if bool_decide (gpio = EXIT_GPIO_PIN) && falling then modify (set_keep_running false) else mret tt);;
  (if bool_decide (gpio = SMOKE_SEEN_PIN) && falling then modify (set_smoke_seen true) else mret tt);;
  (if bool_decide (gpio = LIFE_CHECK_PIN) && falling then modify (set_life_check true) else mret tt).
End application.

(** * An instance of the reader *)

Definition example_le : LittleEndian := λ buffer i,
  lo ← load buffer i; hi ← load buffer (i + 1); mret (lo + 256 * hi).

#[global] Instance example_le_spec : LittleEndianSpec example_le.
Proof. by intros lo hi rest. Qed.
