(* ===== verification/Callbacks.v ===== *)
(** The callbacks of main.cpp as one type, and what they do: the safety of any
    sequence of them, the discovery of a new connection's service, subscriptions,
    and what becomes of a notified message. *)

From S2P Require Import Prelude BinaryIO Packets StdContainers BleConnection Advertising Tracker TrackerWf TrackerSafety Sending Connections Protocol Application.

(** * Callbacks *)

Inductive Callback :=
| CbAttRead (att_handle offset : Z) (buffer : list Z) (buffer_size : Z)
| CbAttWrite (handle att_handle transaction_mode offset : Z) (buffer : list Z) (buffer_size : Z)
| CbGattClient (service : gatt_client_service) (e : GattEvent)
| CbValueUpdate (frame : Addr) (e : ValueEvent)
| CbHci (packet_type : Z) (e : HciEvent)
| CbAtt (packet_type : Z) (e : AttEvent)
| CbSm
| CbStopScan
| CbGpio (gpio events : Z)
| CbCanNotify (context : Z)
| CbCanWrite (context : Z).

Section callbacks.
Context {env : Env} {iterator : AdIterator} {db : AttDb} {le : LittleEndian}.

Definition ignore {S A} (m : M S A) : M S unit := m;; mret tt.

Definition run_callback (cb : Callback) : M App unit :=
  match cb with
  | CbAttRead a o b n => ignore (att_read_callback a o b n)
  | CbAttWrite h a t o b n => ignore (att_write_callback h a t o b n)
  | CbGattClient service e => handle_gatt_client_event service e
  | CbValueUpdate frame e => handle_gatt_client_value_update_event frame e
  | CbHci t e => hci_packet_handler t e
  | CbAtt t e => att_packet_handler t e
  | CbSm => sm_packet_handler
  | CbStopScan => stop_scan_handler
  | CbGpio gpio events => gpio_callback gpio events
  | CbCanNotify context => on_tracker (packet_can_send_notification_handler context)
  | CbCanWrite context => on_tracker (packet_can_write_without_response_handler context)
  end.

(** What BTstack guarantees when it calls: buffers are as large as their sizes
    say, an advertisement is well formed; and what the handlers need beyond
    that: the stack comes up once, a read asks for an offset within its buffer, a
    value notified is not a packet to be stored, assertions are compiled out and
    the clock has not run for 2^63 ms. *)
Definition advertisement_ok (data : list Z) (size : Z) : Prop :=
  0 ≤ size < 256 ∧ size ≤ Z.of_nat (length data) ∧
  match ad_structures (length data) (take (Z.to_nat size) data) with
  | Some es => Forall comparable es
  | None => False
  end.

Definition harmless (t : Tracker) (value : list Z) (size : Z) : Prop :=
  value_ok 0 value size ∧
  match parse 0 value size with
  | Ok ROther => True
  | Ok (RMessage m) => is_Some (messages t !! message_id m)
  | _ => False
  end.

Definition callback_ok (s : App) (cb : Callback) : Prop :=
  match cb with
  | CbAttRead a o b n => in_width 16 o ∧ in_width 16 n ∧ o ≤ n ∧ n ≤ Z.of_nat (length b) ∧
      16 ≤ size_t_bits
  | CbAttWrite _ a _ o b n => value_ok o b n ∧ (a = CLIENT_CONFIGURATION_HANDLE → 2 ≤ n) ∧
      (a = VALUE_HANDLE → now_of (connection_tracker s) < 2 ^ 63)
  | CbValueUpdate _ (GATT_EVENT_NOTIFICATION _ v n) => harmless (connection_tracker s) v n
  | CbHci _ (BTSTACK_EVENT_STATE _) =>
      length (adv_data (advertisement s)) = 31%nat ∧ adv_data_len (advertisement s) = 0
  | CbHci _ (GAP_EVENT_ADVERTISING_REPORT _ _ _ data n) => advertisement_ok data n
  | CbCanNotify _ | CbCanWrite _ => ndebug = true
  | _ => True
  end.
End callbacks.

(** * Lemmas *)

Section callback_safety.
Context {env : Env} `{!AllocFresh env} {iterator : AdIterator} `{!AdIteratorSpec iterator}.
Context {db : AttDb} {le : LittleEndian} `{!LittleEndianSpec le}.

(** [m] runs from [s], keeps the tracker's invariant and lets no object of it die. *)
Definition wfa {A} (m : M App A) (Q : A → App → Prop) (s : App) : Prop :=
  wp m (λ a s', wf (connection_tracker s') ∧
                extends (connection_tracker s) (connection_tracker s') ∧ Q a s') s.

Definition anya {A} : A → App → Prop := λ _ _, True.

Lemma wfa_ret {A} (a : A) (Q : A → App → Prop) s :
  wf (connection_tracker s) → Q a s → wfa (mret a) Q s.
Proof. by intros. Qed.

Lemma wfa_bind {A B} (m : M App A) (k : A → M App B) R Q s :
  wfa m R s → (∀ a s', wf (connection_tracker s') → R a s' → wfa (k a) Q s') → wfa (m ≫= k) Q s.
Proof.
  intros Hm Hk. apply wp_bind. eapply wp_mono; [exact Hm|]. intros a s' (Hwf & He & HR).
  eapply wp_mono; [by apply Hk|]. intros b s'' (Hwf' & He' & HQ). split_and!; [done| |done].
  by etrans.
Qed.

Lemma wfa_tracker {A} (m : M Tracker A) R (Q : A → App → Prop) s :
  wfp m R (connection_tracker s) →
  (∀ a t, extends (connection_tracker s) t → R a t → Q a (set_tracker t s)) →
  wfa (on_tracker m) Q s.
Proof.
  intros Hm HQ. apply wp_ok in Hm as (a & t & Hrun & Hwf & He & HR).
  unfold wfa, wp, on_tracker. rewrite Hrun. split_and!; [done|done|by apply HQ].
Qed.

Lemma wfa_tracker_any {A} (m : M Tracker A) R s :
  wfp m R (connection_tracker s) → wfa (on_tracker m) anya s.
Proof. intros Hm. by eapply wfa_tracker. Qed.

Lemma wfa_any {A} (m : M App A) R s : wfa m R s → wfa m anya s.
Proof. intros Hm. eapply wp_mono; [exact Hm|]. by intros a s' (? & ? & _). Qed.

Lemma wfa_modify f s :
  wf (connection_tracker s) → connection_tracker (f s) = connection_tracker s →
  wfa (modify f) (λ _ s', s' = f s) s.
Proof. intros Hwf Hf. unfold wfa, wp, modify. by rewrite Hf. Qed.

Lemma wfa_lift {A B} (r : result A) a (k : A → M App B) Q s :
  r = Ok a → wfa (k a) Q s → wfa (lift_result r ≫= k) Q s.
Proof. by intros ->. Qed.

Lemma wfa_app_ext c s :
  wf (connection_tracker s) →
  wfa (app_ext c) (λ _ s', s' = set_tracker (upd_calls (λ l, l ++ [c]) (connection_tracker s)) s) s.
Proof.
  intros Hwf. eapply wfa_tracker.
  - by apply wfp_ext with (Q := λ _ t, t = upd_calls (λ l, l ++ [c]) (connection_tracker s)).
  - by intros _ t _ ->.
Qed.

(** Runs the next step, of which only the invariant matters. *)
Ltac wfa_call lem := eapply wfa_bind; [eapply lem|].
Ltac wfa_ext := wfa_call wfa_app_ext; [done|]; intros ? ? ? ->.
Ltac wfa_set := wfa_call wfa_modify; [done|done|]; intros [] ? ? ->.

Lemma wfa_connection h s :
  wf (connection_tracker s) →
  wfa (on_tracker (connectionForConnHandle h))
    (λ n s', s' = set_tracker (with_handle h (connection_tracker s)) s ∧
             connections (connection_tracker s') !! h = Some n) s.
Proof.
  intros Hwf. destruct (wf_with_handle h _ Hwf) as [Hwf' He].
  unfold wfa, wp, on_tracker. rewrite connectionForConnHandle_run. split_and!; [done|done|done|].
  apply set_connection_lookup.
Qed.

(** A method of a connection that leaves handle and state alone. *)
Lemma wfa_connection_do f h a c s :
  wf (connection_tracker s) → connections (connection_tracker s) !! h = Some (a, c) →
  (∀ c, connected (f c) = connected c ∧ connection_handle (f c) = connection_handle c) →
  wfa (on_tracker (connection_ptr_do f a))
    (λ _ s', s' = set_tracker (set_connection h (a, f c) (connection_tracker s)) s) s.
Proof.
  intros Hwf Hc Hf. destruct (Hf c) as [H1 H2].
  destruct (wf_connection_update h a c (f c) _ Hwf Hc) as [Hwf' He].
  { rewrite H1, H2. by apply (wf_handles _ Hwf) in Hc. }
  unfold wfa, wp, on_tracker. by rewrite (connection_ptr_do_run f h a c).
Qed.

Lemma wfa_value_read s a o b n :
  callback_ok s (CbAttRead a o b n) → wf (connection_tracker s) →
  wfa (att_read_callback a o b n) anya s.
Proof.
  intros (Ho & Hn & Hle & Hlen & Hbits) Hwf. unfold att_read_callback. wfa_set.
  assert (∃ b', memset_zero b o (wrap size_t_bits (n - o)) = Ok b') as [b' ->].
  { unfold in_width in *. rewrite wrap_small.
    - unfold memset_zero. rewrite decide_True by lia. eauto.
    - apply (in_width_weaken 16); [done|]. unfold in_width. lia. }
  repeat case_decide; by apply wfa_ret || (eapply wfa_lift; [done|]; by apply wfa_ret).
Qed.

Lemma le16_read n b :
  2 ≤ n ≤ Z.of_nat (length b) → bytes_ok b → ∃ v, little_endian_read_16 b 0 = Ok v.
Proof.
  intros Hn Hb. destruct b as [|lo [|hi rest]]; [cbn in *; lia..|].
  apply Forall_cons in Hb as [Hlo [Hhi _]%Forall_cons]. eexists. by apply little_endian_read_16_spec.
Qed.

Lemma wfa_att_write s h a t o b n :
  callback_ok s (CbAttWrite h a t o b n) → wf (connection_tracker s) →
  wfa (att_write_callback h a t o b n) anya s.
Proof.
  intros (Hv & Hlen & Hnow) Hwf. unfold att_write_callback. wfa_set.
  case_decide; [by apply wfa_ret|]. wfa_call wfa_connection; [done|].
  intros [ctx c] s1 Hwf1 [-> Hc]. set (s1 := set_tracker _ _) in *.
  eapply wfa_bind with (R := anya); [|by intros; apply wfa_ret].
  case_decide as Ha; [|case_decide as Hvalue; [|by apply wfa_ret]].
  - destruct (le16_read n b) as [v Hread]; [split; [auto|apply Hv]|apply Hv|].
    eapply wfa_lift; [exact Hread|]. cbn zeta. wfa_call wfa_connection_do; [done|exact Hc|done|].
    intros [] s2 Hwf2 ->. set (c2 := setNotificationEnabled _ c) in *.
    eapply wfa_bind with (R := λ c' s', s' = _ ∧ c' = c2).
    + unfold wfa, wp, on_tracker. rewrite (connection_deref_run h ctx c2); [|done|by apply set_connection_lookup].
      by split_and!.
    + intros ? ? Hwf3 [-> ->]. destruct (notification_enabled c2); [|by apply wfa_ret].
      eapply wfa_any, (wfa_connection_do _ h ctx c2); [done|by apply set_connection_lookup|done].
  - eapply wfa_tracker_any, wfp_processWrite; [done| |done|by apply Hnow].
    exists h. exact (f_equal (fmap fst) Hc).
Qed.

Lemma wfa_client_event s service e :
  wf (connection_tracker s) → wfa (handle_gatt_client_event service e) anya s.
Proof.
  intros Hwf. unfold handle_gatt_client_event. wfa_set.
  assert (∀ f h s, wf (connection_tracker s) →
    (∀ c, connected (f c) = connected c ∧ connection_handle (f c) = connection_handle c) →
    wfa ('(a, _) ← on_tracker (connectionForConnHandle h); on_tracker (connection_ptr_do f a)) anya s)
    as Hdo.
  { intros f h s' Hwf' Hf. wfa_call wfa_connection; [done|]. intros [a c] s1 Hwf1 [-> Hc].
    by eapply wfa_any, wfa_connection_do. }
  destruct e as [h mtu|h sv|h ch|h|]; [| | | |by apply wfa_ret].
  - eapply wfa_tracker_any with (R := any).
    unfold at_connection. wfp_call wfp_connectionForConnHandle; [done|]. intros [a c] t Hwf1 _ Hc.
    destruct (wf_connection_update h a c (setMtu mtu c) _ Hwf1 Hc) as [Hwf2 He2]; [exact (wf_handles _ Hwf1 _ _ _ Hc)|].
    unfold wfp, wp. by rewrite (connection_ptr_do_run _ h a c).
  - case_decide.
    + apply (Hdo (storeHandlesIfServiceMatches sv)); [done|]. intros c.
      unfold storeHandlesIfServiceMatches. by case_decide.
    + wfa_call wfa_connection; [done|]. intros [] ? ? _. by apply wfa_ret.
  - case_decide.
    + apply (Hdo (storeHandlesIfCharacteristicMatches ch)); [done|]. intros c.
      unfold storeHandlesIfCharacteristicMatches. by case_decide.
    + wfa_call wfa_connection; [done|]. intros [] ? ? _. by apply wfa_ret.
  - wfa_call wfa_connection; [done|]. intros [a c] s1 Hwf1 [-> Hc]. wfa_ext. do 2 wfa_set.
    eapply wfa_bind with (R := anya).
    + unfold wfa, wp, on_tracker. by rewrite (connection_deref_run h a c).
    + intros c' s2 Hwf2 _. destruct (canAndNeedToDiscoverPacketCharacteristicsQuery service c') as [[] sv];
        [|by apply wfa_ret]. wfa_set. wfa_ext. by apply wfa_ret.
Qed.

Lemma wfa_value_update s frame e :
  callback_ok s (CbValueUpdate frame e) → wf (connection_tracker s) →
  wfa (handle_gatt_client_value_update_event frame e) anya s.
Proof.
  intros Hok Hwf. unfold handle_gatt_client_value_update_event. wfa_set.
  destruct e as [h v n| |]; [|by apply wfa_ret..]. wfa_call wfa_connection; [done|].
  intros [a c] s1 Hwf1 [-> _]. destruct Hok as [Hv Hp]. set (t := with_handle h _) in *.
  unfold wfa, wp, on_tracker. cbn [connection_tracker set_tracker set_global_activity].
  rewrite processWrite_parse. destruct (parse 0 v n) as [[m|an|]|] eqn:Hr; try done. cbn [process].
  rewrite process_message_known; [done|]. by apply not_eq_None_Some.
Qed.

Lemma wfa_start_scanning s : wf (connection_tracker s) → wfa start_scanning_for_local_nodes anya s.
Proof.
  intros Hwf. unfold start_scanning_for_local_nodes. wfa_ext. wfa_set. do 2 wfa_ext. by apply wfa_ret.
Qed.

Lemma advertisement_ok_bytes data size :
  advertisement_ok data size → ∃ es tail, data = ad_bytes es ++ tail ∧
    size = Z.of_nat (length (ad_bytes es)) ∧ Z.of_nat (length (ad_bytes es)) < 256 ∧ Forall comparable es.
Proof.
  intros (Hs & Hl & Hes). destruct (ad_structures _ _) as [es|] eqn:Hst; [|done].
  apply ad_structures_bytes in Hst. exists es, (drop (Z.to_nat size) data).
  rewrite Hst, take_drop, length_take. split_and!; [done|lia|lia|done].
Qed.

Lemma populate_run data :
  length data = 31%nat →
  populate_advertising_data (mkAdv data 0) = Ok (tt, mkAdv (ad_bytes repeater_structures) 31).
Proof. intros Hl. do 32 (destruct data as [|? data]; try discriminate Hl). reflexivity. Qed.

Lemma wfa_hci s type e :
  callback_ok s (CbHci type e) → wf (connection_tracker s) → wfa (hci_packet_handler type e) anya s.
Proof.
  intros Hok Hwf. unfold hci_packet_handler, gap_connection_complete, can_write_without_response. wfa_set. case_decide; [by apply wfa_ret|].
  destruct e as [w|h|h r|h addr ty role|addr ty r data n|h addr ty role|h|]; [| | | | | | |by apply wfa_ret].
  - destruct w; [|by apply wfa_ret]. wfa_ext. unfold setup_advertisements.
    destruct Hok as [Hl Hz].
    eapply wfa_bind with (R := anya).
    + eapply wfa_bind with (R := anya).
      { unfold wfa, wp, on_advertisement. cbn [advertisement set_tracker set_global_activity].
        destruct (advertisement s) as [data n]. cbn in Hl, Hz. subst n. by rewrite populate_run. }
      intros [] s1 Hwf1 _. wfa_ext. eapply wfa_bind with (R := λ a s', a = s'); [done|].
      intros ? s2 Hwf2 _. do 2 wfa_ext. by apply wfa_ret.
    + intros [] s1 Hwf1 _. unfold setup_scanning. do 2 wfa_ext. by apply wfa_start_scanning.
  - wfa_ext. by eapply wfa_tracker_any, wfp_reportDisconnection.
  - wfa_ext. wfa_call wfa_connection; [done|]. intros ? ? ? _. by apply wfa_ret.
  - wfa_ext. by eapply wfa_tracker_any, wfp_reportConnectionWithRole.
  - destruct (advertisement_ok_bytes _ _ Hok) as (es & tail & -> & -> & Hlt & Hes).
    eapply wfa_lift; [by apply check_for_uuid_run|]. case_decide; [|by apply wfa_ret].
    by eapply wfa_tracker_any, wfp_addAvailablePeer.
  - do 2 wfa_ext. eapply wfa_bind; [by eapply wfa_tracker_any, wfp_reportConnectionWithRole|].
    intros [] s1 Hwf1 _. do 2 wfa_set. wfa_ext. by apply wfa_ret.
  - wfa_ext. by apply wfa_ret.
Qed.

Lemma wfa_att s type e : wf (connection_tracker s) → wfa (att_packet_handler type e) anya s.
Proof.
  intros Hwf. unfold att_packet_handler. wfa_set. case_decide; [by apply wfa_ret|].
  destruct e; [| |by apply wfa_ret]; wfa_ext.
  - by eapply wfa_tracker_any, wfp_reportConnection.
  - by eapply wfa_tracker_any, wfp_reportDisconnection.
Qed.

Lemma wfa_gpio s gpio events : wf (connection_tracker s) → wfa (gpio_callback gpio events) anya s.
Proof.
  intros Hwf. unfold gpio_callback. wfa_set. cbn zeta.
  do 2 (eapply wfa_bind with (R := anya); [by case_match|]; intros [] ? ? _). by case_match.
Qed.

Lemma wfa_callback s cb :
  callback_ok s cb → wf (connection_tracker s) → wfa (run_callback cb) anya s.
Proof.
  intros Hok Hwf. destruct cb; cbn [run_callback].
  - eapply wfa_bind; [by apply wfa_value_read|]. intros. by apply wfa_ret.
  - eapply wfa_bind; [by apply wfa_att_write|]. intros. by apply wfa_ret.
  - by apply wfa_client_event.
  - by apply wfa_value_update.
  - by apply wfa_hci.
  - by apply wfa_att.
  - done.
  - unfold stop_scan_handler. wfa_set. wfa_ext. done.
  - by apply wfa_gpio.
  - by eapply wfa_tracker_any, wfp_notifyRawPacket.
  - by eapply wfa_tracker_any, wfp_writeRawPacket.
Qed.
End callback_safety.

(** Every callback is called as [callback_ok] says, in the state it finds. *)
Fixpoint callbacks_ok {env : Env} {iterator : AdIterator} {db : AttDb} {le : LittleEndian}
    (s : App) (cbs : list Callback) : Prop :=
  match cbs with
  | [] => True
  | cb :: cbs' => callback_ok s cb ∧
      match run_callback cb s with Ok (_, s') => callbacks_ok s' cbs' | Err _ => True end
  end.

(** * Properties *)


(** an attribute of the repeater is read without leaving the buffer exactly when
    the offset is within it; BTstack asks for the size with an empty buffer, so
    with any other offset than 0 there too the difference of the sizes, converted
    to [size_t], is a length far beyond it. *)
Theorem att_read_in_bounds {env : Env} {db : AttDb} (s : App) (handle offset : Z) (buffer : list Z) (size : Z) :
  handle ∈ [CLIENT_CONFIGURATION_HANDLE; VALUE_HANDLE; USER_DESCRIPTION_HANDLE] →
  in_width 16 offset → in_width 16 size → size = Z.of_nat (length buffer) → 32 ≤ size_t_bits →
  (is_ok (att_read_callback handle offset buffer size s) ↔ offset ≤ size) ∧
  ∀ n b s', att_read_callback handle offset buffer size s = Ok ((n, b), s') →
    n = (if decide (handle = CLIENT_CONFIGURATION_HANDLE) then 2 else 0) ∧
    b = take (Z.to_nat offset) buffer ++ replicate (Z.to_nat (size - offset)) 0.
Proof.
  intros Hh Ho Hs -> Hbits. set (size := Z.of_nat (length buffer)) in *.
  assert (memset_zero buffer offset (wrap size_t_bits (size - offset))
    = if decide (offset ≤ size)
      then Ok (take (Z.to_nat offset) buffer ++ replicate (Z.to_nat (size - offset)) 0)
      else Err OutOfBounds) as Hm.
  { unfold in_width in *. unfold memset_zero. destruct (decide (offset ≤ size)) as [Hle|Hle].
    - rewrite wrap_small by (apply (in_width_weaken 16); [lia|unfold in_width; lia]).
      rewrite decide_True by lia. rewrite drop_ge by lia. by rewrite app_nil_r.
    - assert (2 ^ 32 ≤ 2 ^ size_t_bits) by (apply Z.pow_le_mono_r; lia).
      unfold wrap. rewrite <- (Z_mod_plus_full (size - offset) 1 (2 ^ size_t_bits)), Z.mod_small by lia.
      rewrite decide_False; [done|]. fold size. lia. }
  assert (∃ s', att_read_callback handle offset buffer size s
    = if decide (offset ≤ size)
      then Ok ((if decide (handle = CLIENT_CONFIGURATION_HANDLE) then 2 else 0,
                take (Z.to_nat offset) buffer ++ replicate (Z.to_nat (size - offset)) 0), s')
      else Err OutOfBounds) as [s' ->].
  { eexists. unfold att_read_callback. rewrite Hm, (M_bind_ok count_activity _ _ _ _ eq_refl).
    repeat rewrite elem_of_cons in Hh. rewrite elem_of_nil in Hh.
    destruct (decide (offset ≤ size)); repeat case_decide; done || naive_solver. }
  destruct (decide (offset ≤ size)) as [Hle|Hle].
  - split; [split; [done|by eexists]|]. by intros n b s'' [= <- <- _].
  - split; [split; [by intros []|done]|done].
Qed.

(** ** Witnesses *)

#[global] Instance advertisement_ok_dec data size : Decision (advertisement_ok data size).
Proof. unfold advertisement_ok. destruct (ad_structures _ _); apply _. Defined.

#[global] Instance harmless_dec t value size : Decision (harmless t value size).
Proof. unfold harmless. destruct (parse _ _ _) as [[]|]; apply _. Defined.

#[global] Instance callback_ok_dec {env : Env} {db : AttDb} s cb : Decision (callback_ok s cb).
Proof. destruct cb as [| | |? []| ? []| | | | | |]; cbn; apply _. Defined.

#[global] Instance callbacks_ok_dec {env : Env} {iterator : AdIterator} {db : AttDb} {le : LittleEndian} s cbs :
  Decision (callbacks_ok s cbs).
Proof.
  revert s. induction cbs as [|cb cbs IH]; intros s; cbn; [apply _|].
  apply and_dec; [apply _|]. destruct (run_callback cb s) as [[u s']|]; [apply IH|apply _].
Defined.

#[local] Instance example_db : AttDb := {
  VALUE_HANDLE := 12;
  CLIENT_CONFIGURATION_HANDLE := 13;
  USER_DESCRIPTION_HANDLE := 14;
}.

#[global] Instance example_db_ok : AttDbOk example_db.
Proof. constructor; [decide_concrete|done]. Qed.

(** The stack comes up, a repeater is heard, connected and discovered, it writes a
    message, and the connection goes away. *)
Definition example_callbacks : list Callback :=
  [CbHci 4 (BTSTACK_EVENT_STATE true);
   CbHci 4 (GAP_EVENT_ADVERTISING_REPORT [1; 2; 3; 4; 5; 6] 0 (-40) (ad_bytes repeater_structures) 31);
   CbStopScan;
   CbHci 4 (GAP_SUBEVENT_LE_CONNECTION_COMPLETE 64 [1; 2; 3; 4; 5; 6] 0 HCI_ROLE_MASTER);
   CbGattClient example_service (GATT_EVENT_MTU 64 200);
   CbGattClient example_service (GATT_EVENT_SERVICE_QUERY_RESULT 64 example_service);
   CbGattClient example_service (GATT_EVENT_QUERY_COMPLETE 64);
   CbAttWrite 64 13 0 0 [1; 0] 2;
   CbAttWrite 64 12 0 0 message_buffer (Z.of_nat (length message_buffer));
   CbValueUpdate (-1) (GATT_EVENT_NOTIFICATION 64 message_buffer (Z.of_nat (length message_buffer)));
   CbAttRead 12 1 [1; 2; 3; 4] 4;
   CbGpio 17 4;
   CbCanWrite 64;
   CbAtt 4 (ATT_EVENT_DISCONNECTED 64)].


Lemma att_read_in_bounds_witness :
  (is_ok (@att_read_callback example_env example_db 12 1 [7; 7] 2 (App_new (Tracker_new 1))) ↔ 1 ≤ 2) ∧
  ∀ n b s', @att_read_callback example_env example_db 12 1 [7; 7] 2 (App_new (Tracker_new 1))
      = Ok ((n, b), s') →
    n = (if decide (12 = @CLIENT_CONFIGURATION_HANDLE example_db) then 2 else 0) ∧
    b = take (Z.to_nat 1) [7; 7] ++ replicate (Z.to_nat (2 - 1)) 0.
Proof. apply att_read_in_bounds; [set_solver|decide_concrete|decide_concrete|reflexivity|done]. Defined.
