(* ===== verification/Dumps.v ===== *)
(** Component: what the program logs of advertisements, services and characteristics
    (the dump functions of src/main.cpp).

    The state is the log buffer.  The texts that printf's conversions make are
    written out; the functions of BTstack that turn UUIDs and addresses into text or
    read little-endian words are parameters.  The reference is the text of a list of
    structures ([advertisement_text]), without offsets or memory. *)

From S2P Require Import Prelude BinaryIO CircularBuffer Debugging BleConnection Advertising Application.

(** * Parameters *)

Class BtstackUtil := {
  uuid128_to_str : list Z → list Z;
  bd_addr_to_str : list Z → list Z;
  little_endian_read_32 : list Z → Z → result Z;
}.

(** A text that the log takes in one call. *)
Definition loggable (t : list Z) : Prop := t ≠ [] ∧ text_wf t ∧ Z.of_nat (length t) < 500.

(** What BTstack documents: the texts are short and readable, and a word is
    read from its bytes, wherever they are. *)
Class BtstackUtilSpec (le : LittleEndian) (util : BtstackUtil) : Prop := {
  uuid_text : ∀ u, length u = 16%nat → loggable (uuid128_to_str u);
  addr_text : ∀ a, length a = 6%nat → loggable (bd_addr_to_str a);
  read_16_at : ∀ pre lo hi rest, bytes_ok [lo; hi] →
    little_endian_read_16 (pre ++ lo :: hi :: rest) (Z.of_nat (length pre)) = Ok (lo + 256 * hi);
  read_32_at : ∀ pre b0 b1 b2 b3 rest, bytes_ok [b0; b1; b2; b3] →
    little_endian_read_32 (pre ++ b0 :: b1 :: b2 :: b3 :: rest) (Z.of_nat (length pre))
    = Ok (b0 + 256 * b1 + 65536 * b2 + 16777216 * b3);
}.

(** * printf *)

(** A digit of [%x] or [%X]. *)
Definition digit (upper : bool) (d : Z) : Z :=
  if decide (d < 10) then char "0" + d else char (if upper then "A" else "a") + (d - 10).

Fixpoint digits_loop (fuel : nat) (base : Z) (upper : bool) (v : Z) (acc : list Z) : list Z :=
  match fuel with
  | O => acc
  | S fuel' =>
      let acc := digit upper (v mod base) :: acc in
      if decide (v < base) then acc else digits_loop fuel' base upper (v / base) acc
  end.

(** The digits of an unsigned number; the fuel is the number of its bits, or more. *)
Definition digits (base : Z) (upper : bool) (v : Z) : list Z :=
  digits_loop (S (Z.to_nat (Z.log2 v))) base upper v [].

(** The minimal width of a conversion, filled with [fill] from the left. *)
Definition padded (fill : Z) (width : nat) (text : list Z) : list Z :=
  replicate (width - length text) fill ++ text.

Definition format_x (width : nat) (v : Z) : list Z := padded (char "0") width (digits 16 false v).
Definition format_X (width : nat) (v : Z) : list Z := padded (char "0") width (digits 16 true v).
Definition format_u (v : Z) : list Z := digits 10 false v.
Definition format_d (v : Z) : list Z :=
  if decide (v < 0) then char "-" :: digits 10 false (- v) else digits 10 false v.

(** * Constants *)

Definition BLUETOOTH_DATA_TYPE_TX_POWER_LEVEL : Z := 0x0A.
Definition BLUETOOTH_DATA_TYPE_SLAVE_CONNECTION_INTERVAL_RANGE : Z := 0x12.
Definition BLUETOOTH_DATA_TYPE_SERVICE_DATA : Z := 0x16.
Definition BLUETOOTH_DATA_TYPE_PUBLIC_TARGET_ADDRESS : Z := 0x17.
Definition BLUETOOTH_DATA_TYPE_RANDOM_TARGET_ADDRESS : Z := 0x18.
Definition BLUETOOTH_DATA_TYPE_APPEARANCE : Z := 0x19.
Definition BLUETOOTH_DATA_TYPE_ADVERTISING_INTERVAL : Z := 0x1A.
Definition BLUETOOTH_DATA_TYPE_3D_INFORMATION_DATA : Z := 0x3D.

(** Incomplete and complete lists, and solicitations, of 16- and 32-bit UUIDs. *)
Definition lists_16_bit_uuids (data_type : Z) : bool := bool_decide (data_type ∈ [0x02; 0x03; 0x14]).
Definition lists_32_bit_uuids (data_type : Z) : bool := bool_decide (data_type ∈ [0x04; 0x05; 0x1F]).

Definition is_target_address (data_type : Z) : bool :=
  bool_decide (data_type ∈
    [BLUETOOTH_DATA_TYPE_PUBLIC_TARGET_ADDRESS; BLUETOOTH_DATA_TYPE_RANDOM_TARGET_ADDRESS]).

Definition shows_every_other_byte (data_type : Z) : bool :=
  bool_decide (data_type ∈ [BLUETOOTH_DATA_TYPE_SERVICE_DATA; BLUETOOTH_DATA_TYPE_3D_INFORMATION_DATA]).

Definition ad_types : list (list Z) := str <$>
  [""; "Flags";
   "Incomplete List of 16-bit Service Class UUIDs"; "Complete List of 16-bit Service Class UUIDs";
   "Incomplete List of 32-bit Service Class UUIDs"; "Complete List of 32-bit Service Class UUIDs";
   "Incomplete List of 128-bit Service Class UUIDs"; "Complete List of 128-bit Service Class UUIDs";
   "Shortened Local Name"; "Complete Local Name"; "Tx Power Level"; ""; ""; "Class of Device";
   "Simple Pairing Hash C"; "Simple Pairing Randomizer R"; "Device ID";
   "Security Manager TK Value"; "Slave Connection Interval Range"; "";
   "List of 16-bit Service Solicitation UUIDs"; "List of 128-bit Service Solicitation UUIDs";
   "Service Data"; "Public Target Address"; "Random Target Address"; "Appearance";
   "Advertising Interval"]%string.

Definition flags : list (list Z) := str <$>
  ["LE Limited Discoverable Mode"; "LE General Discoverable Mode"; "BR/EDR Not Supported";
   "Simultaneous LE and BR/EDR to Same Device Capable (Controller)";
   "Simultaneous LE and BR/EDR to Same Device Capable (Host)";
   "Reserved"; "Reserved"; "Reserved"]%string.

(** * Operations *)

(** [for (i = 0; i < size; i += step)] *)
Definition indices (step size : Z) : list Z :=
  (λ k, step * Z.of_nat k) <$> seq 0 (Z.to_nat ((size + step - 1) / step)).

(** The value of a byte as [int8_t]. *)
Definition s8 (v : Z) : Z := (v + 128) mod 256 - 128.

Section dumps.
Context {le : LittleEndian} {util : BtstackUtil} (ndebug : bool).

Definition LOG_DEBUG (text : list Z) : M CircularBuffer unit := writeF ndebug text.

Definition printUUID (uuid128 : list Z) (uuid16 : Z) : M CircularBuffer unit :=
  if decide (uuid16 ≠ 0) then LOG_DEBUG (format_x 4 uuid16) else LOG_DEBUG (uuid128_to_str uuid128).

Definition dump_service (service : gatt_client_service) : M CircularBuffer unit :=
  LOG_DEBUG (str "    * service: [0x" ++ format_x 4 (start_group_handle service) ++ str "-0x" ++
    format_x 4 (end_group_handle service) ++ str "], uuid ");;
  printUUID (service_uuid128 service) (service_uuid16 service);;
  LOG_DEBUG [newline].

Definition dump_characteristic (characteristic : gatt_client_characteristic) : M CircularBuffer unit :=
  LOG_DEBUG (str "    * characteristic: [0x" ++ format_x 4 (start_handle characteristic) ++ str "-0x" ++
    format_x 4 (value_handle characteristic) ++ str "-0x" ++ format_x 4 (end_handle characteristic) ++
    str "], properties 0x" ++ format_x 2 (properties characteristic) ++ str ", uuid ");;
  printUUID (characteristic_uuid128 characteristic) (characteristic_uuid16 characteristic);;
  LOG_DEBUG [newline].

(** The cases of the [switch]: [data] is the memory from the structure's data on. *)
Definition dump_structure (data_type size : Z) (data : list Z) : M CircularBuffer unit :=
  let loop step f := for_each (indices step size) f in
  if decide (data_type = BLUETOOTH_DATA_TYPE_FLAGS) then
    for_each (seqZ 0 8) (λ i,
      octet ← lift_result (load data 0);
      if decide (Z.land octet (Z.shiftl 1 i) ≠ 0) then
        name ← lift_result (load flags i); LOG_DEBUG (name ++ str "; ")
      else mret tt)
  else if lists_16_bit_uuids data_type then
    loop 2 (λ i, uuid ← lift_result (little_endian_read_16 data i); LOG_DEBUG (format_X 4 uuid ++ str " "))
  else if lists_32_bit_uuids data_type then
    loop 4 (λ i, uuid ← lift_result (little_endian_read_32 data i); LOG_DEBUG (format_x 4 uuid))
  else if lists_128_bit_uuids data_type then
    bytes ← lift_result (slice data 0 16);
    LOG_DEBUG (uuid128_to_str (rev bytes))
  else if is_local_name data_type then
    loop 1 (λ i, c ← lift_result (load data i); LOG_DEBUG [c])
  else if decide (data_type = BLUETOOTH_DATA_TYPE_TX_POWER_LEVEL) then
    level ← lift_result (load data 0);
    LOG_DEBUG (format_d (s8 level) ++ str " dBm")
  else if decide (data_type = BLUETOOTH_DATA_TYPE_SLAVE_CONNECTION_INTERVAL_RANGE) then
    lo ← lift_result (little_endian_read_16 data 0);
    hi ← lift_result (little_endian_read_16 data 2);
    LOG_DEBUG (str "Connection Interval Min = " ++ format_u (lo * 5 / 4) ++ str " ms, Max = " ++
      format_u (hi * 5 / 4) ++ str " ms")
  else if shows_every_other_byte data_type then
    loop 2 (λ i, b ← lift_result (load data i); LOG_DEBUG (format_X 2 b ++ str " "))
  else if is_target_address data_type then
    bytes ← lift_result (slice data 0 6);
    LOG_DEBUG (bd_addr_to_str (rev bytes))
  else if decide (data_type = BLUETOOTH_DATA_TYPE_APPEARANCE) then
    v ← lift_result (little_endian_read_16 data 0);
    LOG_DEBUG (format_X 2 v)
  else if decide (data_type = BLUETOOTH_DATA_TYPE_ADVERTISING_INTERVAL) then
    v ← lift_result (little_endian_read_16 data 0);
    LOG_DEBUG (format_u (v * 5 / 8) ++ str " ms")
  else
    LOG_DEBUG (str "    Advertising Data Type 0x" ++ padded (char " ") 2 (digits 16 false data_type) ++
      str " not handled yet").

(** One round of the loop. *)
Definition dump_element (memory : list Z) (e : AdElement) : M CircularBuffer unit :=
  let data_type := ad_data_type e in
  let size := ad_data_len e in
  let data := drop (Z.to_nat (ad_data_offset e)) memory in
  (if decide (data_type > 0 ∧ data_type < 0x1B) then
     name ← lift_result (load ad_types data_type); LOG_DEBUG (str "    " ++ name ++ str ": ")
   else mret tt);;
  dump_structure data_type size data;;
  LOG_DEBUG [newline].

Definition dump_advertisement_data `{!AdIterator} (advertisement_data : list Z) (adv_size : Z) :
    M CircularBuffer unit :=
  for_each (ad_elements adv_size advertisement_data) (dump_element advertisement_data);;
  LOG_DEBUG [newline].
End dumps.

(** * The texts *)

Fixpoint words_16 (l : list Z) : list Z :=
  match l with lo :: hi :: l' => (lo + 256 * hi) :: words_16 l' | _ => [] end.

Fixpoint words_32 (l : list Z) : list Z :=
  match l with
  | b0 :: b1 :: b2 :: b3 :: l' => (b0 + 256 * b1 + 65536 * b2 + 16777216 * b3) :: words_32 l'
  | _ => []
  end.

Fixpoint every_other (l : list Z) : list Z :=
  match l with [] => [] | b :: l' => b :: match l' with [] => [] | _ :: l'' => every_other l'' end end.

Section texts.
Context {util : BtstackUtil}.

Definition uuid_text_of (uuid128 : list Z) (uuid16 : Z) : list Z :=
  if decide (uuid16 = 0) then uuid128_to_str uuid128 else format_x 4 uuid16.

Definition service_text (service : gatt_client_service) : list Z :=
  str "    * service: [0x" ++ format_x 4 (start_group_handle service) ++ str "-0x" ++
  format_x 4 (end_group_handle service) ++ str "], uuid " ++
  uuid_text_of (service_uuid128 service) (service_uuid16 service) ++ [newline].

Definition characteristic_text (c : gatt_client_characteristic) : list Z :=
  str "    * characteristic: [0x" ++ format_x 4 (start_handle c) ++ str "-0x" ++
  format_x 4 (value_handle c) ++ str "-0x" ++ format_x 4 (end_handle c) ++
  str "], properties 0x" ++ format_x 2 (properties c) ++ str ", uuid " ++
  uuid_text_of (characteristic_uuid128 c) (characteristic_uuid16 c) ++ [newline].

(** The heading of a structure. *)
Definition heading (type : Z) : list Z :=
  match ad_types !! Z.to_nat type with
  | Some name => if decide (0 < type) then str "    " ++ name ++ str ": " else []
  | None => []
  end.

Definition body_text (type : Z) (data : list Z) : list Z :=
  if decide (type = BLUETOOTH_DATA_TYPE_FLAGS) then
    concat (imap (λ i name, if Z.testbit (default 0 (head data)) (Z.of_nat i) then name ++ str "; " else []) flags)
  else if lists_16_bit_uuids type then concat ((λ w, format_X 4 w ++ str " ") <$> words_16 data)
  else if lists_32_bit_uuids type then concat (format_x 4 <$> words_32 data)
  else if lists_128_bit_uuids type then uuid128_to_str (rev (take 16 data))
  else if is_local_name type then data
  else if decide (type = BLUETOOTH_DATA_TYPE_TX_POWER_LEVEL) then
    format_d (s8 (default 0 (head data))) ++ str " dBm"
  else if decide (type = BLUETOOTH_DATA_TYPE_SLAVE_CONNECTION_INTERVAL_RANGE) then
    match words_16 data with
    | lo :: hi :: _ => str "Connection Interval Min = " ++ format_u (lo * 5 / 4) ++ str " ms, Max = " ++
        format_u (hi * 5 / 4) ++ str " ms"
    | _ => []
    end
  else if shows_every_other_byte type then concat ((λ b, format_X 2 b ++ str " ") <$> every_other data)
  else if is_target_address type then bd_addr_to_str (rev (take 6 data))
  else if decide (type = BLUETOOTH_DATA_TYPE_APPEARANCE) then
    concat (format_X 2 <$> take 1 (words_16 data))
  else if decide (type = BLUETOOTH_DATA_TYPE_ADVERTISING_INTERVAL) then
    concat ((λ v, format_u (v * 5 / 8) ++ str " ms") <$> take 1 (words_16 data))
  else str "    Advertising Data Type 0x" ++ padded (char " ") 2 (digits 16 false type) ++
    str " not handled yet".

Definition structure_text (e : structure) : list Z :=
  heading (fst e) ++ body_text (fst e) (snd e) ++ [newline].

Definition advertisement_text (es : list structure) : list Z :=
  concat (structure_text <$> es) ++ [newline].
End texts.

(** What the data of a structure must be for its bytes to be all that is read: as
    long as the fixed fields, a whole number of UUIDs, and a name without NUL. *)
Definition least_length (type : Z) : nat :=
  if lists_128_bit_uuids type then 16
  else if decide (type = BLUETOOTH_DATA_TYPE_FLAGS ∨ type = BLUETOOTH_DATA_TYPE_TX_POWER_LEVEL) then 1
  else if decide (type = BLUETOOTH_DATA_TYPE_SLAVE_CONNECTION_INTERVAL_RANGE) then 4
  else if is_target_address type then 6
  else if decide (type = BLUETOOTH_DATA_TYPE_APPEARANCE ∨ type = BLUETOOTH_DATA_TYPE_ADVERTISING_INTERVAL)
  then 2 else 0.

Definition unit_length (type : Z) : nat :=
  if lists_16_bit_uuids type then 2 else if lists_32_bit_uuids type then 4 else 1.

Definition dumpable (e : structure) : Prop :=
  in_width 8 (fst e) ∧ bytes_ok (snd e) ∧
  (least_length (fst e) ≤ length (snd e))%nat ∧ (length (snd e) mod unit_length (fst e) = 0)%nat ∧
  (is_local_name (fst e) = true → text_wf (snd e)).

#[global] Instance dumpable_dec e : Decision (dumpable e).
Proof. unfold dumpable, text_wf. apply _. Defined.

(** * Lemmas: texts *)

Lemma digit_range upper d : 0 ≤ d < 16 → digit upper d ≠ 0.
Proof.
  intros Hd. unfold digit. change (char "0") with 48.
  destruct upper; [change (char _) with 65|change (char _) with 97]; case_decide; lia.
Qed.

Lemma digits_loop_text fuel base upper v acc :
  0 ≤ v → 1 < base ≤ 16 → text_wf acc →
  text_wf (digits_loop fuel base upper v acc) ∧
  (length (digits_loop fuel base upper v acc) ≤ fuel + length acc)%nat ∧
  (fuel ≠ 0%nat → digits_loop fuel base upper v acc ≠ []).
Proof.
  revert v acc. induction fuel as [|fuel IH]; intros v acc Hv Hb Hacc; cbn [digits_loop]; [done|].
  assert (text_wf (digit upper (v mod base) :: acc)) as Hacc'.
  { constructor; [|done]. apply digit_range. pose proof (Z.mod_pos_bound v base ltac:(lia)). lia. }
  case_decide; [split_and!; [done|cbn [length]; lia|done]|].
  destruct (IH (v / base) _ ltac:(apply Z.div_pos; lia) Hb Hacc') as (Ht & Hl & Hn).
  split_and!; [done|cbn [length] in Hl; lia|]. intros _. destruct fuel; [done|by apply Hn].
Qed.

(** [t] is a text of at most [n] characters, and not empty. *)
Definition short (n : nat) (t : list Z) : Prop := text_wf t ∧ (length t ≤ n)%nat ∧ t ≠ [].

Lemma short_digits base upper v :
  in_width 32 v → 1 < base ≤ 16 → short 32 (digits base upper v).
Proof.
  intros [Hv Hw] Hb. unfold digits.
  destruct (digits_loop_text (S (Z.to_nat (Z.log2 v))) base upper v [] Hv Hb ltac:(constructor)) as (Ht & Hl & Hn).
  split_and!; [done| |by apply Hn]. cbn [length] in Hl.
  assert (Z.log2 v < 32) by (destruct (Z.eq_dec v 0) as [->|]; [done|apply Z.log2_lt_pow2; lia]).
  pose proof (Z.log2_nonneg v). lia.
Qed.

Lemma short_padded fill w t n : fill ≠ 0 → short n t → short (w + n) (padded fill w t).
Proof.
  intros Hf (Ht & Hl & Hn). unfold padded. split_and!.
  - apply Forall_app_2; [|done]. apply Forall_forall. intros x [-> _]%elem_of_replicate. done.
  - rewrite length_app, length_replicate. lia.
  - destruct (replicate _ _); [by destruct t|done].
Qed.

Lemma short_x w v : in_width 32 v → short (w + 32) (format_x w v).
Proof. intros Hv. apply short_padded; [done|]. by apply short_digits. Qed.
Lemma short_X w v : in_width 32 v → short (w + 32) (format_X w v).
Proof. intros Hv. apply short_padded; [done|]. by apply short_digits. Qed.
Lemma short_u v : in_width 32 v → short 32 (format_u v).
Proof. intros. by apply short_digits. Qed.
Lemma short_d v : -128 ≤ v < 128 → short 33 (format_d v).
Proof.
  intros Hv. unfold format_d. case_decide.
  - destruct (short_digits 10 false (- v)) as (Ht & Hl & _); [unfold in_width; lia|done|].
    split_and!; [by constructor|cbn [length]; lia|done].
  - destruct (short_digits 10 false v) as (Ht & Hl & Hn); [unfold in_width; lia|done|].
    split_and!; [done|lia|done].
Qed.

Lemma short_app n k t1 t2 : short n t1 → short k t2 → short (n + k) (t1 ++ t2).
Proof.
  intros (Ht1 & Hl1 & Hn1) (Ht2 & Hl2 & _). split_and!; [by apply Forall_app_2| |by destruct t1].
  rewrite length_app. lia.
Qed.

Lemma short_const t : text_wf t → t ≠ [] → short (length t) t.
Proof. done. Qed.

(** A constant text. *)
Ltac readable := apply short_const; [unfold text_wf; decide_concrete|done].

Lemma short_loggable t : loggable t → short 500 t.
Proof. intros (Hn & Ht & Hl). split_and!; [done|lia|done]. Qed.

Lemma short_le n k t : short n t → (n ≤ k)%nat → short k t.
Proof. intros (Ht & Hl & Hn) Hk. split_and!; [done|lia|done]. Qed.

(** * Lemmas: logging *)

Section logging.
Context (ndebug : bool).

Lemma logs_LOG_DEBUG s t : cb_text s → short 599 t → logs s t (LOG_DEBUG ndebug t s).
Proof.
  intros Hs (Ht & Hl & Hn). apply logs_writeF; [done|done|done|]. unfold print_buf_size. lia.
Qed.

Lemma logs_ret s : cb_text s → logs s [] ((mret tt : M CircularBuffer unit) s).
Proof.
  intros Hs. exists s. split_and!; try done. rewrite app_nil_r, lastn_all; [done|].
  pose proof (cb_len_range s (cbt_wf s Hs)). rewrite length_contents by apply Hs. lia.
Qed.

(** A loop over the elements [cs], each logging its text. *)
Lemma logs_list {A B} (xs : list A) (cs : list B) (f : A → M CircularBuffer unit) (g : B → list Z) :
  Forall2 (λ x c, ∀ s, cb_text s → logs s (g c) (f x s)) xs cs →
  ∀ s, cb_text s → logs s (concat (g <$> cs)) (for_each xs f s).
Proof.
  induction 1 as [|x c xs cs Hf _ IH]; intros s Hs; [by apply logs_ret|].
  cbn [for_each fmap list_fmap concat]. by apply logs_bind; [apply Hf|].
Qed.

Lemma logs_indices {B} step (cs : list B) size (f : Z → M CircularBuffer unit) (g : B → list Z) s :
  cb_text s → Z.to_nat ((size + step - 1) / step) = length cs →
  (∀ k c s, cs !! k = Some c → cb_text s → logs s (g c) (f (step * Z.of_nat k) s)) →
  logs s (concat (g <$> cs)) (for_each (indices step size) f s).
Proof.
  intros Hs Hn Hf. apply logs_list; [|done]. unfold indices. rewrite Hn. apply Forall2_fmap_l.
  apply Forall2_same_length_lookup_2; [by rewrite length_seq|].
  intros k i c [-> _]%lookup_seq Hc s' Hs'. by apply Hf.
Qed.
End logging.

Lemma load_mem {A} (l rest : list A) (k : nat) x :
  l !! k = Some x → load (l ++ rest) (Z.of_nat k) = Ok x.
Proof.
  intros Hk. unfold load. rewrite decide_True, Nat2Z.id by lia.
  by rewrite (lookup_app_l_Some _ _ _ _ Hk).
Qed.

Lemma every_other_lookup : ∀ l k b, every_other l !! k = Some b → l !! (2 * k)%nat = Some b.
Proof.
  fix IH 1. intros [|x [|y l]] [|k] b; try done. cbn. intros Hk%IH.
  by replace (k + S (k + 0))%nat with (S (2 * k)) by lia.
Qed.

Lemma every_other_length : ∀ l, length (every_other l) = ((length l + 1) / 2)%nat.
Proof.
  fix IH 1. intros [|x [|y l]]; [done..|]. cbn [every_other length]. rewrite IH.
  replace (S (S (length l)) + 1)%nat with (length l + 1 + 1 * 2)%nat by lia.
  rewrite Nat.div_add by done. lia.
Qed.

(** The [k]-th word and where its bytes are. *)
Lemma words_16_lookup : ∀ l k w, words_16 l !! k = Some w →
  ∃ pre lo hi post, l = pre ++ lo :: hi :: post ∧ length pre = (2 * k)%nat ∧ w = lo + 256 * hi.
Proof.
  fix IH 1. intros [|x [|y l]] [|k] w; try done.
  - intros [= <-]. by exists [], x, y, l.
  - cbn. intros (pre & lo & hi & post & -> & Hl & ->)%IH. exists (x :: y :: pre), lo, hi, post.
    split_and!; [done|cbn; lia|done].
Qed.

Lemma words_32_lookup : ∀ l k w, words_32 l !! k = Some w →
  ∃ pre b0 b1 b2 b3 post, l = pre ++ b0 :: b1 :: b2 :: b3 :: post ∧ length pre = (4 * k)%nat ∧
    w = b0 + 256 * b1 + 65536 * b2 + 16777216 * b3.
Proof.
  fix IH 1. intros [|x0 [|x1 [|x2 [|x3 l]]]] [|k] w; try done.
  - intros [= <-]. by exists [], x0, x1, x2, x3, l.
  - cbn. intros (pre & b0 & b1 & b2 & b3 & post & -> & Hl & ->)%IH.
    exists (x0 :: x1 :: x2 :: x3 :: pre), b0, b1, b2, b3, post. split_and!; [done|cbn; lia|done].
Qed.

Lemma words_16_length : ∀ l, length (words_16 l) = (length l / 2)%nat.
Proof.
  fix IH 1. intros [|x [|y l]]; [done..|]. cbn [words_16 length]. rewrite IH.
  replace (S (S (length l))) with (length l + 1 * 2)%nat by lia. rewrite Nat.div_add by done. lia.
Qed.

Lemma words_32_length : ∀ l, length (words_32 l) = (length l / 4)%nat.
Proof.
  fix IH 1. intros [|x0 [|x1 [|x2 [|x3 l]]]]; [done..|]. cbn [words_32 length]. rewrite IH.
  replace (S (S (S (S (length l))))) with (length l + 1 * 4)%nat by lia.
  rewrite Nat.div_add by done. lia.
Qed.

(** The number of rounds of a loop over whole units. *)
Lemma rounds_exact (n step : nat) :
  (0 < step)%nat → (n mod step = 0)%nat →
  Z.to_nat ((Z.of_nat n + Z.of_nat step - 1) / Z.of_nat step) = (n / step)%nat.
Proof.
  intros Hs Hm. pose proof (Nat.div_mod n step ltac:(lia)) as Hn. rewrite Hm in Hn.
  set (q := (n / step)%nat) in *. rewrite Hn.
  replace (Z.of_nat (step * q + 0) + Z.of_nat step - 1) with (Z.of_nat step - 1 + Z.of_nat q * Z.of_nat step) by lia.
  rewrite Z.div_add, Z.div_small by lia. lia.
Qed.

Lemma rounds_up (n : nat) :
  Z.to_nat ((Z.of_nat n + 2 - 1) / 2) = ((n + 1) / 2)%nat.
Proof.
  replace (Z.of_nat n + 2 - 1) with (Z.of_nat (n + 1)) by lia.
  change 2 with (Z.of_nat 2). by rewrite <- Nat2Z.inj_div, Nat2Z.id.
Qed.

Lemma flag_bit a i : 0 ≤ i → Z.land a (Z.shiftl 1 i) ≠ 0 ↔ Z.testbit a i = true.
Proof.
  intros Hi. rewrite Z.shiftl_1_l. split.
  - intros Hne. destruct (Z.testbit a i) eqn:Hb; [done|]. exfalso. apply Hne.
    apply Z.bits_inj'. intros j Hj. rewrite Z.land_spec, Z.pow2_bits_eqb, Z.bits_0 by done.
    destruct (Z.eqb_spec i j) as [<-|]; [by rewrite Hb|by rewrite andb_false_r].
  - intros Hb H0. apply (f_equal (λ z, Z.testbit z i)) in H0.
    by rewrite Z.land_spec, Z.pow2_bits_true, Hb, Z.bits_0 in H0.
Qed.

Lemma bytes_ok_word_16 pre lo hi post :
  bytes_ok (pre ++ lo :: hi :: post) → bytes_ok [lo; hi] ∧ in_width 16 (lo + 256 * hi).
Proof.
  unfold bytes_ok. rewrite Forall_app, !Forall_cons. intros (_ & Hlo & Hhi & _).
  split; [done|]. unfold in_width in *. lia.
Qed.

Lemma bytes_ok_word_32 pre b0 b1 b2 b3 post :
  bytes_ok (pre ++ b0 :: b1 :: b2 :: b3 :: post) →
  bytes_ok [b0; b1; b2; b3] ∧ in_width 32 (b0 + 256 * b1 + 65536 * b2 + 16777216 * b3).
Proof.
  unfold bytes_ok. rewrite Forall_app, !Forall_cons. intros (_ & H0 & H1 & H2 & H3 & _).
  split; [done|]. unfold in_width in *. lia.
Qed.

Section bodies.
Context {le : LittleEndian} {util : BtstackUtil} `{!BtstackUtilSpec le util} (ndebug : bool).

Lemma logs_load (l rest : list Z) i x (k : Z → M CircularBuffer unit) t s :
  l !! Z.to_nat i = Some x → 0 ≤ i → logs s t (k x s) →
  logs s t ((lift_result (load (l ++ rest) i) ≫= k) s).
Proof.
  intros Hl Hi Hk. replace i with (Z.of_nat (Z.to_nat i)) by lia. by rewrite (load_mem _ _ _ _ Hl).
Qed.

(** A word of the data, at its place in the memory. *)
Lemma logs_word_16 data tail k w (f : Z → M CircularBuffer unit) t s :
  bytes_ok data → words_16 data !! k = Some w → (in_width 16 w → logs s t (f w s)) →
  logs s t ((lift_result (little_endian_read_16 (data ++ tail) (2 * Z.of_nat k)) ≫= f) s).
Proof.
  intros Hb Hw Hf. apply words_16_lookup in Hw as (pre & lo & hi & post & -> & Hl & ->).
  destruct (bytes_ok_word_16 _ _ _ _ Hb) as [Hb' Hw].
  replace (2 * Z.of_nat k) with (Z.of_nat (length pre)) by lia. rewrite <- app_assoc. cbn [app].
  rewrite read_16_at by done. by apply Hf.
Qed.

Lemma logs_word_32 data tail k w (f : Z → M CircularBuffer unit) t s :
  bytes_ok data → words_32 data !! k = Some w → (in_width 32 w → logs s t (f w s)) →
  logs s t ((lift_result (little_endian_read_32 (data ++ tail) (4 * Z.of_nat k)) ≫= f) s).
Proof.
  intros Hb Hw Hf. apply words_32_lookup in Hw as (pre & b0 & b1 & b2 & b3 & post & -> & Hl & ->).
  destruct (bytes_ok_word_32 _ _ _ _ _ _ Hb) as [Hb' Hw].
  replace (4 * Z.of_nat k) with (Z.of_nat (length pre)) by lia. rewrite <- app_assoc. cbn [app].
  rewrite read_32_at by done. by apply Hf.
Qed.

Lemma words_16_some data n :
  (n < length data / 2)%nat → ∃ w, words_16 data !! n = Some w.
Proof. intros Hn. apply lookup_lt_is_Some_2. by rewrite words_16_length. Qed.

Lemma logs_flags data tail s :
  cb_text s → data ≠ [] →
  logs s (body_text BLUETOOTH_DATA_TYPE_FLAGS data)
    (dump_structure ndebug BLUETOOTH_DATA_TYPE_FLAGS (Z.of_nat (length data)) (data ++ tail) s).
Proof.
  intros Hs Hd. unfold body_text, dump_structure. rewrite !decide_True by done.
  destruct data as [|octet data]; [done|]. cbn [head default].
  rewrite <- (list_fmap_id (imap _ flags)). apply logs_list; [|done].
  apply Forall2_same_length_lookup_2; [by vm_compute|]. intros n i t Hi Ht s' Hs'.
  apply lookup_seqZ in Hi as [-> Hi]. rewrite list_lookup_imap in Ht.
  destruct (flags !! n) as [name|] eqn:Hn; [|done]. injection Ht as <-.
  apply (logs_load (octet :: data) tail 0 octet); [done|done|]. cbn beta. rewrite Z.add_0_l.
  destruct (Z.testbit octet (Z.of_nat n)) eqn:Hb.
  - rewrite decide_True by (apply flag_bit; [lia|done]).
    rewrite <- (app_nil_r flags), (load_mem flags [] n name Hn), lift_result_ok.
    apply logs_LOG_DEBUG; [done|]. clear -Hn.
    assert (Forall (short 590) flags) as Hf by (unfold short, text_wf; decide_concrete).
    eapply Forall_lookup_1 in Hf; [|exact Hn].
    eapply short_le; [apply short_app; [exact Hf|readable]|]. cbn. lia.
  - rewrite decide_False by (rewrite flag_bit by lia; by rewrite Hb). by apply logs_ret.
Qed.

(** Goes through the pieces of a text. *)
Ltac pieces :=
  lazymatch goal with
  | |- short _ (format_x _ _) => apply short_x; assumption
  | |- short _ (format_X _ _) => apply short_X; assumption
  | |- short _ (format_u _) => apply short_u; assumption
  | |- short _ (_ ++ _) => apply short_app; pieces
  | |- short _ _ => readable
  end.
Ltac log_pieces := apply logs_LOG_DEBUG; [done|eapply short_le; [pieces|cbn; lia]].

Lemma in_width_byte b : in_width 8 b → in_width 32 b.
Proof. unfold in_width. lia. Qed.
Lemma in_width_word w : in_width 16 w → in_width 32 w.
Proof. unfold in_width. lia. Qed.

Lemma loop_16 data tail s :
  cb_text s → bytes_ok data → (length data mod 2 = 0)%nat →
  logs s (concat ((λ w, format_X 4 w ++ str " ") <$> words_16 data))
    (for_each (indices 2 (Z.of_nat (length data))) (λ i,
       uuid ← lift_result (little_endian_read_16 (data ++ tail) i);
       LOG_DEBUG ndebug (format_X 4 uuid ++ str " ")) s).
Proof.
  intros Hs Hb Hm. apply logs_indices; [done| |].
  - rewrite words_16_length. by apply (rounds_exact _ 2); [lia|].
  - intros k w s' Hw Hs'. eapply logs_word_16; [done..|]. intros Hw'%in_width_word. log_pieces.
Qed.

Lemma loop_32 data tail s :
  cb_text s → bytes_ok data → (length data mod 4 = 0)%nat →
  logs s (concat (format_x 4 <$> words_32 data))
    (for_each (indices 4 (Z.of_nat (length data))) (λ i,
       uuid ← lift_result (little_endian_read_32 (data ++ tail) i);
       LOG_DEBUG ndebug (format_x 4 uuid)) s).
Proof.
  intros Hs Hb Hm. apply logs_indices; [done| |].
  - rewrite words_32_length. by apply (rounds_exact _ 4); [lia|].
  - intros k w s' Hw Hs'. eapply logs_word_32; [done..|]. intros Hw'. log_pieces.
Qed.

Lemma loop_every_other data tail s :
  cb_text s → bytes_ok data →
  logs s (concat ((λ b, format_X 2 b ++ str " ") <$> every_other data))
    (for_each (indices 2 (Z.of_nat (length data))) (λ i,
       b ← lift_result (load (data ++ tail) i); LOG_DEBUG ndebug (format_X 2 b ++ str " ")) s).
Proof.
  intros Hs Hb. apply logs_indices; [done| |].
  - rewrite every_other_length. apply rounds_up.
  - intros k b s' Hk%every_other_lookup Hs'. apply (logs_load data tail _ b); [|lia|].
    { by replace (Z.to_nat (2 * Z.of_nat k)) with (2 * k)%nat by lia. }
    assert (in_width 32 b) by (apply in_width_byte; by eapply Forall_lookup_1 in Hk). log_pieces.
Qed.

Lemma loop_name data tail s :
  cb_text s → text_wf data →
  logs s data
    (for_each (indices 1 (Z.of_nat (length data))) (λ i,
       c ← lift_result (load (data ++ tail) i); LOG_DEBUG ndebug [c]) s).
Proof.
  intros Hs Hb. assert (data = concat ((λ c : Z, [c]) <$> data)) as Hc.
  { clear. induction data as [|c data IH]; [done|]. cbn. by f_equal. }
  rewrite Hc at 1. apply logs_indices; [done| |].
  - rewrite Z.div_1_r. lia.
  - intros k c s' Hk Hs'. apply (logs_load data tail _ c); [|lia|].
    { by replace (Z.to_nat (1 * Z.of_nat k)) with k by lia. }
    apply logs_LOG_DEBUG; [done|]. split_and!; [|cbn; lia|done].
    constructor; [|constructor]. exact (Forall_lookup_1 _ _ _ _ Hb Hk).
Qed.

(** The fixed fields at the start of the data. *)
Lemma logs_first data tail (f : Z → M CircularBuffer unit) t s :
  bytes_ok data → (1 ≤ length data)%nat →
  (in_width 8 (default 0 (head data)) → logs s t (f (default 0 (head data)) s)) →
  logs s t ((lift_result (load (data ++ tail) 0) ≫= f) s).
Proof.
  intros Hb Hl Hf. destruct data as [|x data]; [cbn in Hl; lia|].
  apply (logs_load (x :: data) tail 0 x); [done|done|]. apply Hf. by inversion_clear Hb.
Qed.

Lemma logs_slice data tail n (f : list Z → M CircularBuffer unit) t s :
  (n ≤ length data)%nat → logs s t (f (take n data) s) →
  logs s t ((lift_result (slice (data ++ tail) 0 (Z.of_nat n)) ≫= f) s).
Proof.
  intros Hl Hf. rewrite slice_ok by (rewrite ?length_app; lia).
  by rewrite lift_result_ok, drop_0, Nat2Z.id, take_app_le.
Qed.

Lemma scaled_word w a b : in_width 16 w → 0 < b → 0 ≤ a ≤ 8 → in_width 32 (w * a / b).
Proof.
  intros Hw Hb Ha. unfold in_width in *. split; [apply Z.div_pos; nia|].
  apply Z.div_lt_upper_bound; nia.
Qed.

Lemma logs_interval data tail s :
  cb_text s → bytes_ok data → (4 ≤ length data)%nat →
  logs s (body_text BLUETOOTH_DATA_TYPE_SLAVE_CONNECTION_INTERVAL_RANGE data)
    (dump_structure ndebug BLUETOOTH_DATA_TYPE_SLAVE_CONNECTION_INTERVAL_RANGE
       (Z.of_nat (length data)) (data ++ tail) s).
Proof.
  intros Hs Hb Hl. destruct (words_16_some data 0) as [lo Hlo].
  { apply Nat.div_str_pos. lia. }
  destruct (words_16_some data 1) as [hi Hhi].
  { apply (Nat.lt_le_trans _ (4 / 2)); [cbn; lia|]. by apply Nat.Div0.div_le_mono. }
  unfold body_text, dump_structure.
  change (little_endian_read_16 (data ++ tail) 0) with (little_endian_read_16 (data ++ tail) (2 * Z.of_nat 0)).
  change (little_endian_read_16 (data ++ tail) 2) with (little_endian_read_16 (data ++ tail) (2 * Z.of_nat 1)).
  apply (logs_word_16 data tail 0 lo); [done|done|]. intros Hlo'.
  apply (logs_word_16 data tail 1 hi); [done|done|]. intros Hhi'.
  destruct (words_16 data) as [|x [|y ws]]; [done|done|]. injection Hlo as ->. injection Hhi as ->.
  pose proof (scaled_word lo 5 4 Hlo' ltac:(lia) ltac:(lia)).
  pose proof (scaled_word hi 5 4 Hhi' ltac:(lia) ltac:(lia)).
  log_pieces.
Qed.

Lemma word_at_start data : (2 ≤ length data)%nat → ∃ w ws, words_16 data = w :: ws.
Proof. intros Hl. destruct data as [|x [|y data]]; cbn in Hl; [lia..|]. cbn. eauto. Qed.

(** A structure whose data starts with one word. *)
Lemma logs_one_word data tail (f : Z → list Z) s :
  cb_text s → bytes_ok data → (2 ≤ length data)%nat →
  (∀ w, in_width 16 w → short 599 (f w)) →
  logs s (concat (f <$> take 1 (words_16 data)))
    ((v ← lift_result (little_endian_read_16 (data ++ tail) 0); LOG_DEBUG ndebug (f v)) s).
Proof.
  intros Hs Hb Hl Hf. destruct (word_at_start data Hl) as (w & ws & Hws).
  rewrite Hws. cbn. rewrite app_nil_r. apply (logs_word_16 data tail 0 w); [done|by rewrite Hws|]. intros Hw'.
  by apply logs_LOG_DEBUG, Hf.
Qed.

Lemma s8_range v : -128 ≤ s8 v < 128.
Proof. unfold s8. pose proof (Z.mod_pos_bound (v + 128) 256 ltac:(lia)). lia. Qed.

Lemma logs_body type data tail s :
  cb_text s → dumpable (type, data) →
  logs s (body_text type data) (dump_structure ndebug type (Z.of_nat (length data)) (data ++ tail) s).
Proof.
  intros Hs (Ht & Hb & Hl & Hu & Hn). cbn [fst snd] in *.
  destruct (decide (type = BLUETOOTH_DATA_TYPE_FLAGS)) as [->|H1].
  { apply logs_flags; [done|]. change (least_length _) with 1%nat in Hl. by destruct data; [cbn in Hl; lia|]. }
  destruct (decide (type = BLUETOOTH_DATA_TYPE_SLAVE_CONNECTION_INTERVAL_RANGE)) as [->|H2].
  { apply logs_interval; [done|done|]. by change (least_length _) with 4%nat in Hl. }
  unfold body_text, dump_structure, least_length, unit_length in *.
  rewrite !(decide_False (P := type = BLUETOOTH_DATA_TYPE_FLAGS)) by done.
  rewrite !(decide_False (P := type = BLUETOOTH_DATA_TYPE_SLAVE_CONNECTION_INTERVAL_RANGE)) in * by done.
  destruct (lists_16_bit_uuids type); [by apply loop_16|].
  destruct (lists_32_bit_uuids type); [by apply loop_32|].
  destruct (lists_128_bit_uuids type).
  { apply (logs_slice data tail 16); [done|]. apply logs_LOG_DEBUG; [done|].
    eapply short_le; [apply short_loggable, uuid_text|lia]. rewrite length_rev, length_take. lia. }
  destruct (is_local_name type); [by apply loop_name; [|apply Hn]|].
  destruct (decide (type = BLUETOOTH_DATA_TYPE_TX_POWER_LEVEL)) as [H3|H3].
  { rewrite decide_True in Hl by auto. apply logs_first; [done|done|]. intros _.
    apply logs_LOG_DEBUG; [done|].
    eapply short_le; [apply short_app; [apply short_d, s8_range|readable]|cbn; lia]. }
  destruct (shows_every_other_byte type); [by apply loop_every_other|].
  rewrite decide_False in Hl by (intros [?|?]; done).
  destruct (is_target_address type).
  { apply (logs_slice data tail 6); [done|]. apply logs_LOG_DEBUG; [done|].
    eapply short_le; [apply short_loggable, addr_text|lia]. rewrite length_rev, length_take. lia. }
  destruct (decide (type = BLUETOOTH_DATA_TYPE_APPEARANCE)) as [H4|H4].
  { apply (logs_one_word _ _ (format_X 2)); [done|done| |].
    - by rewrite decide_True in Hl by auto.
    - intros w Hw%in_width_word. eapply short_le; [pieces|cbn; lia]. }
  destruct (decide (type = BLUETOOTH_DATA_TYPE_ADVERTISING_INTERVAL)) as [H5|H5].
  { apply (logs_one_word _ _ (λ v, format_u (v * 5 / 8) ++ str " ms")); [done|done| |].
    - by rewrite decide_True in Hl by auto.
    - intros w Hw. pose proof (scaled_word w 5 8 Hw ltac:(lia) ltac:(lia)).
      eapply short_le; [pieces|cbn; lia]. }
  apply logs_LOG_DEBUG; [done|].
  assert (short 34 (padded (char " ") 2 (digits 16 false type))).
  { apply (short_padded _ 2 _ 32); [done|]. apply short_digits; [by apply in_width_byte|done]. }
  eapply short_le; [apply short_app; [readable|apply short_app; [eassumption|readable]]|cbn; lia].
Qed.

Lemma logs_heading type s :
  cb_text s → in_width 8 type →
  logs s (heading type)
    ((if decide (type > 0 ∧ type < 0x1B) then
        name ← lift_result (load ad_types type); LOG_DEBUG ndebug (str "    " ++ name ++ str ": ")
      else mret tt : M CircularBuffer unit) s).
Proof.
  intros Hs Ht. unfold heading, in_width in *.
  destruct (decide (type > 0 ∧ type < 0x1B)) as [Hd|Hd].
  - destruct (load_in_range ad_types type) as (name & Hload & Hname).
    { change (length ad_types) with 27%nat. lia. }
    rewrite Hload, Hname, lift_result_ok, decide_True by lia. apply logs_LOG_DEBUG; [done|].
    assert (Forall (λ t, text_wf t ∧ (length t ≤ 100)%nat) ad_types) as Hall by (unfold text_wf; decide_concrete).
    apply (Forall_lookup_1 _ _ _ _ Hall) in Hname as [Hw Hn]. split_and!; [|rewrite !length_app; cbn; lia|done].
    repeat apply Forall_app_2; [..|done|]; unfold text_wf; decide_concrete.
  - destruct (ad_types !! Z.to_nat type) as [name|] eqn:Hname; [|by apply logs_ret].
    apply lookup_lt_Some in Hname. change (length ad_types) with 27%nat in Hname.
    rewrite decide_False by lia. by apply logs_ret.
Qed.

(** One round of the loop over a structure that lies in the memory. *)
Lemma logs_element pre e tail s :
  cb_text s → dumpable e →
  logs s (structure_text e)
    (dump_element ndebug (pre ++ structure_bytes e ++ tail)
       (mkAdElement (fst e) (Z.of_nat (length (snd e))) (Z.of_nat (length pre) + 2)) s).
Proof.
  intros Hs Hd. destruct e as [type data]. pose proof Hd as (Ht & _).
  unfold dump_element, structure_text. cbn [fst snd ad_data_type ad_data_len ad_data_offset].
  assert (drop (Z.to_nat (Z.of_nat (length pre) + 2)) (pre ++ structure_bytes (type, data) ++ tail)
    = data ++ tail) as ->.
  { rewrite drop_app_ge by lia. by replace (Z.to_nat _ - length pre)%nat with 2%nat by lia. }
  apply logs_bind; [by apply logs_heading|]. intros s1 Hs1.
  apply logs_bind; [by apply logs_body|]. intros s2 Hs2. log_pieces.
Qed.

Lemma logs_rounds es : ∀ pre tail s,
  cb_text s → Forall dumpable es →
  logs s (concat (structure_text <$> es))
    (for_each (ad_rounds (Z.of_nat (length pre)) es)
       (dump_element ndebug (pre ++ ad_bytes es ++ tail)) s).
Proof.
  induction es as [|[type data] es IH]; intros pre tail s Hs Hes; [by apply logs_ret|].
  apply Forall_cons in Hes as [He Hes]. cbn [fmap list_fmap concat].
  change (ad_bytes ((type, data) :: es)) with (structure_bytes (type, data) ++ ad_bytes es).
  rewrite <- app_assoc. cbn [ad_rounds for_each]. apply logs_bind.
  { by apply (logs_element pre (type, data) (ad_bytes es ++ tail)). }
  intros s' Hs'. specialize (IH (pre ++ structure_bytes (type, data)) tail s' Hs' Hes).
  rewrite <- app_assoc, length_app in IH. cbn [structure_bytes length fst snd] in IH.
  by replace (Z.of_nat (length pre) + 2 + Z.of_nat (length data))
    with (Z.of_nat (length pre + S (S (length data)))) by lia.
Qed.

Lemma logs_printUUID uuid128 uuid16 s :
  cb_text s → length uuid128 = 16%nat → in_width 16 uuid16 →
  logs s (uuid_text_of uuid128 uuid16) (printUUID ndebug uuid128 uuid16 s).
Proof.
  intros Hs Hl Hw%in_width_word. unfold uuid_text_of, printUUID. destruct (decide (uuid16 = 0)) as [->|].
  - apply logs_LOG_DEBUG; [done|]. eapply short_le; [by apply short_loggable, uuid_text|lia].
  - rewrite decide_True by done. log_pieces.
Qed.

(** A heading with its UUID, on one line. *)
Lemma logs_entry head uuid128 uuid16 text s :
  cb_text s → short 599 head → length uuid128 = 16%nat → in_width 16 uuid16 →
  head ++ uuid_text_of uuid128 uuid16 ++ [newline] = text →
  logs s text ((LOG_DEBUG ndebug head;; printUUID ndebug uuid128 uuid16;; LOG_DEBUG ndebug [newline]) s).
Proof.
  intros Hs Hh Hu Hw <-. apply logs_bind; [by apply logs_LOG_DEBUG|]. intros s1 Hs1.
  apply logs_bind; [by apply logs_printUUID|]. intros s2 Hs2. log_pieces.
Qed.

Lemma logs_dump_service service s :
  cb_text s → Forall (in_width 16) [start_group_handle service; end_group_handle service; service_uuid16 service] →
  length (service_uuid128 service) = 16%nat →
  logs s (service_text service) (dump_service ndebug service s).
Proof.
  intros Hs Hw Hu. rewrite !Forall_cons in Hw. destruct Hw as (H1%in_width_word & H2%in_width_word & H3 & _).
  unfold service_text, dump_service.
  eapply logs_entry; [done|eapply short_le; [pieces|cbn; lia]|done|done|by rewrite <- !app_assoc].
Qed.

Lemma logs_dump_characteristic c s :
  cb_text s → Forall (in_width 16) [start_handle c; value_handle c; end_handle c; properties c; characteristic_uuid16 c] →
  length (characteristic_uuid128 c) = 16%nat →
  logs s (characteristic_text c) (dump_characteristic ndebug c s).
Proof.
  intros Hs Hw Hu. rewrite !Forall_cons in Hw.
  destruct Hw as (H1%in_width_word & H2%in_width_word & H3%in_width_word & H4%in_width_word & H5 & _).
  unfold characteristic_text, dump_characteristic.
  eapply logs_entry; [done|eapply short_le; [pieces|cbn; lia]|done|done|by rewrite <- !app_assoc].
Qed.
End bodies.

(** * Properties *)

(** C39: the dump of an advertisement whose structures are long enough logs exactly their
    texts, in order, and reads nothing beyond them. *)
Theorem advertisement_dumped {le : LittleEndian} {util : BtstackUtil} `{!BtstackUtilSpec le util}
    {iterator : AdIterator} `{!AdIteratorSpec iterator} (ndebug : bool) (s : CircularBuffer) es tail :
  cb_text s → Forall dumpable es → Z.of_nat (length (ad_bytes es)) < 256 →
  ∃ s', dump_advertisement_data ndebug (ad_bytes es ++ tail) (Z.of_nat (length (ad_bytes es))) s = Ok (tt, s') ∧
    cb_text s' ∧
    contents s' = lastn (Z.to_nat (fixed_size s - 1)) (contents s ++ advertisement_text es).
Proof.
  intros Hs Hes Hl. unfold dump_advertisement_data, advertisement_text. rewrite ad_elements_spec by done.
  destruct (logs_bind s (for_each (ad_rounds 0 es) (dump_element ndebug (ad_bytes es ++ tail)))
    (LOG_DEBUG ndebug [newline]) (concat (structure_text <$> es)) [newline]) as (s' & Hrun & Ht & _ & Hc).
  - by apply (logs_rounds ndebug es []).
  - intros s' Hs'. apply logs_LOG_DEBUG; [done|]. eapply short_le; [readable|cbn; lia].
  - by exists s'.
Qed.

(** the dumps of a service and of a characteristic log one line each, with the
    handles as the remote device reported them. *)
Theorem service_dumped {util : BtstackUtil} {le : LittleEndian} `{!BtstackUtilSpec le util} (ndebug : bool)
    (s : CircularBuffer) service c :
  cb_text s →
  Forall (in_width 16) [start_group_handle service; end_group_handle service; service_uuid16 service;
    start_handle c; value_handle c; end_handle c; properties c; characteristic_uuid16 c] →
  length (service_uuid128 service) = 16%nat → length (characteristic_uuid128 c) = 16%nat →
  ∃ s', (dump_service ndebug service;; dump_characteristic ndebug c) s = Ok (tt, s') ∧ cb_text s' ∧
    contents s' = lastn (Z.to_nat (fixed_size s - 1))
      (contents s ++ service_text service ++ characteristic_text c).
Proof.
  intros Hs Hw Hu1 Hu2. apply (Forall_app _ [_; _; _] [_; _; _; _; _]) in Hw as [Hw1 Hw2].
  destruct (logs_bind s (dump_service ndebug service) (dump_characteristic ndebug c)
    (service_text service) (characteristic_text c)) as (s' & Hrun & Ht & _ & Hc); [| |by exists s'].
  - by apply logs_dump_service.
  - intros s1 Hs1. by apply logs_dump_characteristic.
Qed.

(** ** Witnesses *)

#[local] Instance example_util : BtstackUtil := {
  uuid128_to_str u := concat (hex8 <$> take 4 u) ++ str "-" ++ concat (hex8 <$> take 2 (drop 4 u)) ++
    str "-" ++ concat (hex8 <$> take 2 (drop 6 u)) ++ str "-" ++
    concat (hex8 <$> take 2 (drop 8 u)) ++ str "-" ++ concat (hex8 <$> drop 10 u);
  bd_addr_to_str a := concat ((λ b, hex8 b ++ str ":") <$> take 5 a) ++ concat (hex8 <$> drop 5 a);
  little_endian_read_32 buffer i :=
    b0 ← load buffer i; b1 ← load buffer (i + 1); b2 ← load buffer (i + 2); b3 ← load buffer (i + 3);
    mret (b0 + 256 * b1 + 65536 * b2 + 16777216 * b3);
}.

Lemma concat_hex (l : list Z) :
  text_wf (concat (hex8 <$> l)) ∧ length (concat (hex8 <$> l)) = (2 * length l)%nat.
Proof.
  induction l as [|b l [Ht Hl]]; [by split; [constructor|]|]. cbn [fmap list_fmap concat]. split.
  - by apply Forall_app_2; [apply hex8_text|].
  - rewrite length_app, Hl. cbn. lia.
Qed.

Lemma load_at (pre rest : list Z) x (k : nat) i :
  rest !! k = Some x → i = Z.of_nat (length pre) + Z.of_nat k → load (pre ++ rest) i = Ok x.
Proof.
  intros Hk ->. unfold load. rewrite decide_True by lia.
  replace (Z.to_nat _) with (length pre + k)%nat by lia. by rewrite lookup_app_r, Nat.add_comm, Nat.add_sub, Hk by lia.
Qed.

#[local] Instance example_util_spec : BtstackUtilSpec example_le example_util.
Proof.
  constructor.
  - intros u Hu. assert (length (uuid128_to_str u) = 36%nat) as Hl.
    { unfold uuid128_to_str, example_util.
      rewrite !length_app, !(λ l, proj2 (concat_hex l)), !length_take, !length_drop, Hu. done. }
    split_and!; [by intros H0; rewrite H0 in Hl| |by rewrite Hl].
    unfold uuid128_to_str, example_util, text_wf.
    repeat apply Forall_app_2; first [apply concat_hex|unfold text_wf; decide_concrete].
  - intros a Ha. destruct a as [|a0 [|a1 [|a2 [|a3 [|a4 [|a5 [|]]]]]]]; try done.
    unfold loggable, bd_addr_to_str, example_util. cbn [take drop fmap list_fmap concat].
    split_and!; [done| |done]. rewrite app_nil_r, app_nil_r.
    repeat apply Forall_app_2; first [apply hex8_text|unfold text_wf; decide_concrete].
  - intros pre lo hi rest _. unfold little_endian_read_16, example_le.
    set (r := lo :: hi :: rest). set (n := Z.of_nat (length pre)).
    by rewrite (load_at pre r lo 0 n), (load_at pre r hi 1 (n + 1)) by (done || unfold n; lia).
  - intros pre b0 b1 b2 b3 rest _. unfold little_endian_read_32, example_util.
    set (r := b0 :: b1 :: b2 :: b3 :: rest). set (n := Z.of_nat (length pre)).
    by rewrite (load_at pre r b0 0 n), (load_at pre r b1 1 (n + 1)), (load_at pre r b2 2 (n + 2)),
      (load_at pre r b3 3 (n + 3)) by (done || unfold n; lia).
Qed.

(** The advertisement of a repeater, its signal strength and an unknown structure. *)
Definition dumped_structures : list structure :=
  repeater_structures ++ [(BLUETOOTH_DATA_TYPE_TX_POWER_LEVEL, [0xf4]); (0x03, [0x0f; 0x18]); (0xFF, [1])].

Example dumped_text :
  advertisement_text (util := example_util) (take 1 dumped_structures ++ drop 3 dumped_structures) =
  str "    Flags: LE General Discoverable Mode; BR/EDR Not Supported; " ++ [newline] ++
  str "    Tx Power Level: -12 dBm" ++ [newline] ++
  str "    Complete List of 16-bit Service Class UUIDs: 180F " ++ [newline] ++
  str "    Advertising Data Type 0xff not handled yet" ++ [newline; newline].
Proof. vm_compute. reflexivity. Qed.

Lemma advertisement_dumped_witness :
  let es := take 4 dumped_structures in
  ∃ s', @dump_advertisement_data example_le example_util true example_iterator (ad_bytes es ++ [7])
      (Z.of_nat (length (ad_bytes es))) (fresh 300) = Ok (tt, s') ∧
    cb_text s' ∧
    contents s' = lastn (Z.to_nat (fixed_size (fresh 300) - 1))
      (contents (fresh 300) ++ @advertisement_text example_util es).
Proof. apply (advertisement_dumped true (fresh 300)); [decide_concrete|decide_concrete|reflexivity]. Defined.

Lemma service_dumped_witness :
  let service := mkService 9 14 0 packet_service_uuid in
  let c := mkCharacteristic 10 12 14 8 0 packet_characteristic_uuid in
  ∃ s', (@dump_service example_util true service;; @dump_characteristic example_util true c) (fresh 300)
      = Ok (tt, s') ∧ cb_text s' ∧
    contents s' = lastn (Z.to_nat (fixed_size (fresh 300) - 1))
      (contents (fresh 300) ++ @service_text example_util service ++ @characteristic_text example_util c).
Proof.
  apply (@service_dumped example_util example_le _ true (fresh 300));
    [decide_concrete|decide_concrete|reflexivity|reflexivity].
Defined.
