(* ===== verification/Discovery.v ===== *)
(** Conversations between the Bluetooth stack and the callbacks of main.cpp: the
    discovery of the packet service on a new connection, subscriptions from the
    other side, and a message that arrives as a notification. *)

From S2P Require Import Prelude BinaryIO Packets StdContainers BleConnection Advertising Tracker TrackerWf TrackerSafety Sending Connections Protocol Application Callbacks.

(** * Lemmas: single callbacks *)

Section single.
Context {env : Env} `{!AllocFresh env} {iterator : AdIterator} {db : AttDb} {le : LittleEndian}.

Definition busier (s : App) : App := set_global_activity (u16 (global_activity s + 1)) s.

Definition in_tracker (f : Tracker → Tracker) (s : App) : App :=
  set_tracker (f (connection_tracker s)) s.

Definition called (cs : list Call) : Tracker → Tracker := upd_calls (λ l, l ++ cs).

Lemma called_called l1 l2 t : called l2 (called l1 t) = called (l1 ++ l2) t.
Proof. unfold called, upd_calls. cbn. by rewrite app_assoc. Qed.

Lemma on_tracker_ok {A B} (m : M Tracker A) (k : A → M App B) a t s :
  m (connection_tracker s) = Ok (a, t) → (on_tracker m ≫= k) s = k a (set_tracker t s).
Proof. intros Hm. apply M_bind_ok. unfold on_tracker. by rewrite Hm. Qed.

Lemma app_ext_run {B} c (k : Z → M App B) s :
  (app_ext c ≫= k) s = k (answer (calls (connection_tracker s)) c) (in_tracker (called [c]) s).
Proof. done. Qed.

Lemma with_handle_known h n t : connections t !! h = Some n → with_handle h t = t ∧ handle_node h t = n.
Proof.
  intros Hn. unfold with_handle, handle_node. rewrite Hn. split; [by apply set_connection_id|done].
Qed.

Lemma set_tracker_id s : set_tracker (connection_tracker s) s = s.
Proof. by destruct s. Qed.

(** Finding a connection that is known changes nothing. *)
Lemma find_connection {B} h n (k : Addr * BleConnection → M App B) s :
  connections (connection_tracker s) !! h = Some n →
  (on_tracker (connectionForConnHandle h) ≫= k) s = k n s.
Proof.
  intros Hn. rewrite (on_tracker_ok _ _ _ _ s (connectionForConnHandle_run h _)).
  destruct (with_handle_known h _ _ Hn) as [-> ->]. by rewrite set_tracker_id.
Qed.

(** The callback for a value of the message attribute. *)
Lemma att_write_run `{!AttDbOk db} h v n s a c t' :
  connections (connection_tracker s) !! h = Some (a, c) →
  processWrite (a, c) 0 v n (connection_tracker s) = Ok (tt, t') →
  ignore (att_write_callback h VALUE_HANDLE ATT_TRANSACTION_MODE_NONE 0 v n) s
  = Ok (tt, set_tracker t' (busier s)).
Proof.
  intros Hc Hrun. unfold ignore, att_write_callback.
  rewrite M_bind_assoc, (M_bind_ok count_activity _ _ _ _ eq_refl). fold (busier s).
  rewrite decide_False by (intros []; done). rewrite M_bind_assoc.
  erewrite find_connection by exact Hc. cbn beta iota. rewrite decide_False, decide_True; [|done|].
  - by rewrite !M_bind_assoc, (on_tracker_ok _ _ tt t' (busier s) Hrun).
  - intros He. pose proof handles_distinct as Hd. rewrite He in Hd. apply NoDup_cons in Hd as [Hd _].
    apply Hd, elem_of_cons. by left.
Qed.

(** A method of a connection, if there is one to be called. *)
Lemma method_run (f : BleConnection → BleConnection) (P : Prop) `{!Decision P} h a c s :
  wf (connection_tracker s) → connections (connection_tracker s) !! h = Some (a, c) →
  (if decide P then on_tracker (connection_ptr_do f a) else mret tt) s
  = Ok (tt, in_tracker (set_connection h (a, if decide P then f c else c)) s).
Proof.
  intros Hwf Hc. unfold in_tracker. case_decide.
  - unfold on_tracker. by rewrite (connection_ptr_do_run _ h a c).
  - by rewrite (set_connection_id h (a, c)), set_tracker_id.
Qed.

(** A result of the discovery changes the one connection. *)
Definition discovered (h : Z) (a : Addr) (c : BleConnection) (s : App) : App :=
  in_tracker (set_connection h (a, c)) (busier s).

Lemma service_result_run scratch h service a c s :
  wf (connection_tracker s) → connections (connection_tracker s) !! h = Some (a, c) →
  handle_gatt_client_event scratch (GATT_EVENT_SERVICE_QUERY_RESULT h service) s
  = Ok (tt, discovered h a (discover c (ServiceResult service)) s).
Proof.
  intros Hwf Hc. unfold handle_gatt_client_event. rewrite (M_bind_ok count_activity _ _ _ _ eq_refl).
  erewrite find_connection by exact Hc. cbn beta iota. by rewrite (method_run _ _ h a c).
Qed.

Lemma characteristic_result_run scratch h ch a c s :
  wf (connection_tracker s) → connections (connection_tracker s) !! h = Some (a, c) →
  handle_gatt_client_event scratch (GATT_EVENT_CHARACTERISTIC_QUERY_RESULT h ch) s
  = Ok (tt, discovered h a (discover c (CharacteristicResult ch)) s).
Proof.
  intros Hwf Hc. unfold handle_gatt_client_event. rewrite (M_bind_ok count_activity _ _ _ _ eq_refl).
  erewrite find_connection by exact Hc. cbn beta iota. by rewrite (method_run _ _ h a c).
Qed.

Lemma discovered_connection h a c s :
  connections (connection_tracker (discovered h a c s)) !! h = Some (a, c).
Proof. apply set_connection_lookup. Qed.

Lemma discovered_calls h a c s :
  calls (connection_tracker (discovered h a c s)) = calls (connection_tracker s).
Proof. done. Qed.

Lemma wf_discovered h a c e s :
  wf (connection_tracker s) → connections (connection_tracker s) !! h = Some (a, c) →
  wf (connection_tracker (discovered h a (discover c e) s)).
Proof.
  intros Hwf Hc. apply (wf_connection_update h a c); [done|done|].
  destruct (discover_frame c e) as (-> & -> & _). by apply (wf_handles _ Hwf) in Hc.
Qed.

(** The end of a query: the next one is started if it is needed. *)
Definition queried (scratch : gatt_client_service) (h : Z) (c : BleConnection) (s : App) : App :=
  let '(needed, service) := canAndNeedToDiscoverPacketCharacteristicsQuery scratch c in
  set_discover_characteristics needed (set_discover_primary_services false
    (in_tracker (called (hci_connection_for_handle h ::
       if needed then [gatt_client_discover_characteristics_for_service_by_uuid128
                         h service packet_characteristic_uuid] else [])) (busier s))).

Lemma query_complete_run scratch h a c s :
  wf (connection_tracker s) → connections (connection_tracker s) !! h = Some (a, c) →
  handle_gatt_client_event scratch (GATT_EVENT_QUERY_COMPLETE h) s = Ok (tt, queried scratch h c s).
Proof.
  intros Hwf Hc. unfold handle_gatt_client_event. rewrite (M_bind_ok count_activity _ _ _ _ eq_refl).
  erewrite find_connection by exact Hc. cbn beta iota. rewrite app_ext_run. do 2 rewrite (M_bind_ok (modify _) _ _ _ _ eq_refl).
  erewrite on_tracker_ok by (apply (connection_deref_run h a c); [by apply wf_calls|done]).
  unfold queried. destruct (canAndNeedToDiscoverPacketCharacteristicsQuery scratch c) as [[] service]; [|done].
  rewrite (M_bind_ok (modify _) _ _ _ _ eq_refl), app_ext_run. unfold in_tracker, called, upd_calls.
  cbn. by rewrite <- app_assoc.
Qed.

Lemma queried_connections scratch h c s :
  connections (connection_tracker (queried scratch h c s)) = connections (connection_tracker s).
Proof. unfold queried. by destruct (canAndNeedToDiscoverPacketCharacteristicsQuery _ _). Qed.

Lemma wf_queried scratch h c s :
  wf (connection_tracker s) → wf (connection_tracker (queried scratch h c s)).
Proof.
  intros Hwf. unfold queried. destruct (canAndNeedToDiscoverPacketCharacteristicsQuery _ _).
  by apply wf_calls.
Qed.

(** What a query's end leaves of the flags and adds to the calls. *)
Lemma queried_fields scratch h c s needed service :
  canAndNeedToDiscoverPacketCharacteristicsQuery scratch c = (needed, service) →
  let s' := queried scratch h c s in
  (connection_in_progress s', discover_primary_services s', discover_characteristics_for_service s')
    = (connection_in_progress s, false, needed) ∧
  calls (connection_tracker s') = calls (connection_tracker s) ++ hci_connection_for_handle h ::
    if needed then [gatt_client_discover_characteristics_for_service_by_uuid128
                      h service packet_characteristic_uuid] else [].
Proof. intros Hq. unfold queried. by rewrite Hq. Qed.

(** A connection that is reported with its role. *)
Definition reported_with_role (h : Z) (addr : list Z) (type r : Z) (t : Tracker) : Tracker :=
  let a := fst (connection_node h t) in
  let c := setRole r (reported h addr type t) in
  upd_available_neighbours (delete addr)
    (called (time_us_64_call ::
       if decide (r = HCI_ROLE_MASTER)
       then [gatt_client_listen_for_characteristic_value_updates a h
               (packet_characteristic_value_handle c)] else [])
      (set_connection h (a, c) t)).

Lemma reportConnectionWithRole_run h addr type r t :
  reportConnectionWithRole h addr type r t = Ok (tt, reported_with_role h addr type r t).
Proof.
  unfold reportConnectionWithRole. rewrite (M_bind_ok _ _ _ _ _ (reportConnection_run h addr type t)).
  set (a := fst (connection_node h t)). set (t1 := upd_available_neighbours (delete addr)
    (upd_calls (λ l, l ++ [time_us_64_call]) t)).
  assert (∀ n, upd_available_neighbours (delete addr) (upd_calls (λ l, l ++ [time_us_64_call])
    (set_connection h n t)) = set_connection h n t1) as -> by done.
  rewrite (M_bind_ok _ _ _ _ _ (connection_ref_set h _ t1)).
  rewrite (M_bind_ok _ _ _ _ _ (connection_do_again _ h _ t1)).
  rewrite (M_bind_ok _ _ _ _ _ (connection_ref_set h _ t1)).
  unfold reported_with_role. cbn zeta. fold a. case_decide; [|done].
  rewrite (M_bind_ok (ext _) _ _ _ _ eq_refl). unfold mret, M_ret. do 2 f_equal.
  symmetry. exact (f_equal _ (eq_sym (called_called [time_us_64_call] [_] _))).
Qed.

Lemma wf_reported_with_role h addr type r t : wf t → wf (reported_with_role h addr type r t).
Proof.
  intros Hwf. pose proof (wfp_reportConnectionWithRole h addr type r t Hwf) as Hw.
  unfold wfp, wp in Hw. rewrite reportConnectionWithRole_run in Hw. naive_solver.
Qed.

Lemma discover_identity c e : bt_address (discover c e) = bt_address c ∧ role (discover c e) = role c.
Proof.
  destruct e as [service|ch]; cbn; unfold storeHandlesIfServiceMatches,
    storeHandlesIfCharacteristicMatches; repeat case_decide; done.
Qed.

(** When the service was just found, its characteristics are asked for ... *)
Lemma service_found_query scratch service c :
  matching_service (ServiceResult service) = Some service → 0 < start_group_handle service →
  packet_characteristic_value_handle c = 0 →
  canAndNeedToDiscoverPacketCharacteristicsQuery scratch (discover c (ServiceResult service))
  = (true, mkService (start_group_handle service) (end_group_handle service) 0 packet_service_uuid).
Proof.
  intros Hm Hs Hv. cbn in Hm. case_decide as Hd; [|done]. destruct Hd as [H16 Hu].
  cbn. rewrite decide_True by done. unfold storeHandlesIfServiceMatches. rewrite decide_True by done.
  unfold canAndNeedToDiscoverPacketCharacteristicsQuery. cbn. by rewrite decide_True by (split; [lia|done]).
Qed.

(** ... and when the characteristic was, nothing more is. *)
Lemma characteristic_found_query scratch ch c :
  matching_characteristic (CharacteristicResult ch) = Some ch → 0 < u16 (value_handle ch) →
  canAndNeedToDiscoverPacketCharacteristicsQuery scratch (discover c (CharacteristicResult ch))
    = (false, scratch) ∧
  available (discover c (CharacteristicResult ch)) = connected c.
Proof.
  intros Hm Hv. pose proof (discover_value_handle c (CharacteristicResult ch)) as Hh. rewrite Hm in Hh.
  unfold canAndNeedToDiscoverPacketCharacteristicsQuery, available.
  destruct (discover_frame c (CharacteristicResult ch)) as (_ & -> & _).
  rewrite Hh, decide_False, bool_decide_eq_true_2 by lia. by rewrite andb_true_r.
Qed.

(** A new connection: advertising goes on and the packet service is looked for. *)
Definition greeted (h : Z) (addr : list Z) (type r : Z) (s : App) : App :=
  set_discover_primary_services true (set_connection_in_progress false
    (in_tracker (λ t, called [gatt_client_discover_primary_services_by_uuid128 h packet_service_uuid]
      (reported_with_role h addr type r
        (called [gap_advertisements_enable 1; hci_connection_for_handle h] t))) (busier s))).

Lemma greeted_calls h addr type r s :
  let t := connection_tracker s in
  calls (connection_tracker (greeted h addr type r s)) = calls t ++
    [gap_advertisements_enable 1; hci_connection_for_handle h; time_us_64_call] ++
    (if decide (r = HCI_ROLE_MASTER)
     then [gatt_client_listen_for_characteristic_value_updates (fst (connection_node h t)) h
             (packet_characteristic_value_handle (reported_from h addr t))] else []) ++
    [gatt_client_discover_primary_services_by_uuid128 h packet_service_uuid].
Proof. cbn. rewrite <- !app_assoc. cbn. by case_decide. Qed.

Lemma connection_complete_run h addr type r s :
  hci_packet_handler HCI_EVENT_PACKET (GAP_SUBEVENT_LE_CONNECTION_COMPLETE h addr type r) s
  = Ok (tt, greeted h addr type r s).
Proof.
  unfold hci_packet_handler, gap_connection_complete, can_write_without_response. rewrite (M_bind_ok count_activity _ _ _ _ eq_refl).
  rewrite decide_False by (by intros []). do 2 rewrite app_ext_run.
  rewrite (on_tracker_ok _ _ _ _ _ (reportConnectionWithRole_run h addr type r _)).
  do 2 rewrite (M_bind_ok (modify _) _ _ _ _ eq_refl). rewrite app_ext_run.
  unfold greeted, in_tracker, called. do 4 f_equal. cbn. unfold upd_calls. cbn. by rewrite <- app_assoc.
Qed.
End single.

(** * Properties *)

(** The callbacks for a connection on which BTstack finds the packet service and
    its characteristic. *)
Definition conversation (h : Z) (addr : list Z) (type r : Z) (service : gatt_client_service)
    (ch : gatt_client_characteristic) (scratch : gatt_client_service) : list Callback :=
  [CbHci HCI_EVENT_PACKET (GAP_SUBEVENT_LE_CONNECTION_COMPLETE h addr type r);
   CbGattClient scratch (GATT_EVENT_SERVICE_QUERY_RESULT h service);
   CbGattClient scratch (GATT_EVENT_QUERY_COMPLETE h);
   CbGattClient scratch (GATT_EVENT_CHARACTERISTIC_QUERY_RESULT h ch);
   CbGattClient scratch (GATT_EVENT_QUERY_COMPLETE h)].

(** C13: a connection of which the packet characteristic is not known is taken through
    the discovery: the primary services are asked for, then, exactly once,
    the characteristics of the service that was found, with its handles; in the end the
    connection is available under its handle, nothing is in progress any more, so that
    the main loop may connect again, and these are all the calls that were made. *)
Theorem discovery_conversation {env : Env} `{!AllocFresh env} {iterator : AdIterator} {db : AttDb}
    {le : LittleEndian} (s : App) h addr type r service ch scratch :
  let t := connection_tracker s in
  wf t → packet_characteristic_value_handle (reported_from h addr t) = 0 →
  matching_service (ServiceResult service) = Some service → 0 < start_group_handle service →
  matching_characteristic (CharacteristicResult ch) = Some ch → 0 < u16 (value_handle ch) →
  ∃ s' a c, for_each (conversation h addr type r service ch scratch) run_callback s = Ok (tt, s') ∧
    wf (connection_tracker s') ∧
    connections (connection_tracker s') = <[h := (a, c)]> (connections t) ∧ available c = true ∧
    (connection_handle c, bt_address c, role c) = (h, addr, r) ∧
    (connection_in_progress s', discover_primary_services s',
     discover_characteristics_for_service s') = (false, false, false) ∧
    calls (connection_tracker s') = calls t ++
      [gap_advertisements_enable 1; hci_connection_for_handle h; time_us_64_call] ++
      (if decide (r = HCI_ROLE_MASTER)
       then [gatt_client_listen_for_characteristic_value_updates a h 0] else []) ++
      [gatt_client_discover_primary_services_by_uuid128 h packet_service_uuid;
       hci_connection_for_handle h;
       gatt_client_discover_characteristics_for_service_by_uuid128 h
         (mkService (start_group_handle service) (end_group_handle service) 0 packet_service_uuid)
         packet_characteristic_uuid;
       hci_connection_for_handle h].
Proof.
  intros t Hwf Hv0 Hms Hs Hmc Hv. unfold conversation. cbn [for_each run_callback].
  rewrite (M_bind_ok _ _ _ _ _ (connection_complete_run h addr type r s)).
  set (s1 := greeted h addr type r s). set (t0 := called [gap_advertisements_enable 1; hci_connection_for_handle h] t).
  set (a := fst (connection_node h t)). set (c1 := setRole r (reported h addr type t0)).
  assert (wf (connection_tracker s1)) as Hwf1.
  { apply (wf_calls _ _ (wf_reported_with_role h addr type r t0 (proj1 (wf_calls t _ Hwf)))). }
  assert (connections (connection_tracker s1) !! h = Some (a, c1)) as Hc1 by apply lookup_insert_eq.
  rewrite (M_bind_ok _ _ _ _ _ (service_result_run scratch h service a c1 s1 Hwf1 Hc1)).
  set (c2 := discover c1 (ServiceResult service)). set (s2 := discovered h a c2 s1).
  pose proof (discovered_connection h a c2 s1 : connections (connection_tracker s2) !! h = _) as Hc2.
  pose proof (wf_discovered h a c1 (ServiceResult service) s1 Hwf1 Hc1 : wf (connection_tracker s2)) as Hwf2.
  rewrite (M_bind_ok _ _ _ _ _ (query_complete_run scratch h a c2 s2 Hwf2 Hc2)).
  pose proof (service_found_query scratch service c1 Hms Hs Hv0) as Hq. fold c2 in Hq.
  set (s3 := queried scratch h c2 s2). destruct (queried_fields scratch h c2 s2 _ _ Hq) as [Hf3 Hcalls3].
  fold s3 in Hf3, Hcalls3. pose proof (queried_connections scratch h c2 s2) as Hcon3. fold s3 in Hcon3.
  assert (connections (connection_tracker s3) !! h = Some (a, c2)) as Hc3 by (by rewrite Hcon3).
  pose proof (wf_queried scratch h c2 s2 Hwf2) as Hwf3. fold s3 in Hwf3.
  rewrite (M_bind_ok _ _ _ _ _ (characteristic_result_run scratch h ch a c2 s3 Hwf3 Hc3)).
  set (c4 := discover c2 (CharacteristicResult ch)). set (s4 := discovered h a c4 s3).
  pose proof (discovered_connection h a c4 s3 : connections (connection_tracker s4) !! h = _) as Hc4.
  pose proof (wf_discovered h a c2 (CharacteristicResult ch) s3 Hwf3 Hc3 : wf (connection_tracker s4)) as Hwf4.
  rewrite (M_bind_ok _ _ _ _ _ (query_complete_run scratch h a c4 s4 Hwf4 Hc4)).
  destruct (characteristic_found_query scratch ch c2 Hmc Hv) as [Hq' Hav]. fold c4 in Hq', Hav.
  destruct (discover_identity c2 (CharacteristicResult ch)) as [Hb2 Hr2],
    (discover_identity c1 (ServiceResult service)) as [Hb1 Hr1],
    (discover_frame c2 (CharacteristicResult ch)) as (Hh2 & _),
    (discover_frame c1 (ServiceResult service)) as (Hh1 & Hcn & _).
  destruct (queried_fields scratch h c4 s4 _ _ Hq') as [Hf5 Hcalls5].
  eexists _, a, c4. split; [reflexivity|]. split_and!.
  - by apply wf_queried.
  - rewrite queried_connections. unfold s4. cbn. rewrite Hcon3. unfold s2. cbn. by rewrite !insert_insert_eq.
  - rewrite Hav. unfold c2. by rewrite Hcn.
  - unfold c4. rewrite Hh2, Hb2, Hr2. unfold c2. by rewrite Hh1, Hb1, Hr1.
  - rewrite Hf5. do 2 f_equal. exact (f_equal (fst ∘ fst) Hf3).
  - change (connection_tracker s4) with (connection_tracker (discovered h a c4 s3)) in Hcalls5.
    rewrite discovered_calls, Hcalls3 in Hcalls5.
    change (connection_tracker s2) with (connection_tracker (discovered h a c2 s1)) in Hcalls5.
    rewrite discovered_calls in Hcalls5. rewrite Hcalls5.
    pose proof (greeted_calls h addr type r s) as Hg. cbn zeta in Hg. fold s1 t a in Hg.
    rewrite Hg, Hv0. rewrite <- !app_assoc. by case_decide.
Qed.

(** writing the client configuration of the repeater's characteristic sets
    [notification_enabled] to whether the value is 1; a peer that is connected is
    available from its first subscription on, under the handle of the server's
    characteristic, and cancelling the subscription does not take that back. *)
Theorem subscription_makes_available {env : Env} `{!AllocFresh env} {db : AttDb} `{!AttDbOk db}
    {le : LittleEndian} `{!LittleEndianSpec le} (s : App) h offset lo hi rest size a c :
  let t := connection_tracker s in
  wf t → connections t !! h = Some (a, c) → connected c = true → in_width 8 lo → in_width 8 hi →
  ∃ s' c', att_write_callback h CLIENT_CONFIGURATION_HANDLE ATT_TRANSACTION_MODE_NONE offset
      (lo :: hi :: rest) size s = Ok (0, s') ∧ wf (connection_tracker s') ∧
    connections (connection_tracker s') = <[h := (a, c')]> (connections t) ∧
    (notification_enabled c' = true ↔ lo = 1 ∧ hi = 0) ∧
    (available c' = true ↔ (lo = 1 ∧ hi = 0) ∨ available c = true) ∧
    (lo = 1 ∧ hi = 0 → packet_characteristic_value_handle c' = VALUE_HANDLE).
Proof.
  intros t Hwf Hc Hcon Hlo Hhi. unfold att_write_callback.
  rewrite (M_bind_ok count_activity _ _ _ _ eq_refl), decide_False by (by intros []).
  erewrite find_connection by exact Hc. cbn beta iota.
  rewrite decide_True, M_bind_assoc by done. rewrite little_endian_read_16_spec by done.
  rewrite lift_result_ok, M_bind_assoc. set (b := bool_decide _). set (c1 := setNotificationEnabled b c).
  rewrite (on_tracker_ok _ _ _ _ (busier s) (connection_ptr_do_run _ h a c _ Hwf Hc)), M_bind_assoc.
  destruct (wf_connection_update h a c c1 t Hwf Hc) as [Hwf1 _]; [by apply (wf_handles _ Hwf) in Hc|].
  pose proof (set_connection_lookup h (a, c1) t) as Hc1.
  rewrite (on_tracker_ok _ _ _ _ (set_tracker (set_connection h (a, c1) t) (busier s))
    (connection_deref_run h a c1 _ Hwf1 Hc1)).
  assert (b = true ↔ lo = 1 ∧ hi = 0) as Hb.
  { unfold b. rewrite bool_decide_eq_true. unfold in_width, GATT_CLIENT_CHARACTERISTICS_CONFIGURATION_NOTIFICATION in *. lia. }
  pose proof VALUE_HANDLE_range as Hrange. change (notification_enabled c1) with b. destruct b eqn:Heb.
  - set (c2 := setPacketCharacteristicValueHandle VALUE_HANDLE c1).
    rewrite (on_tracker_ok _ _ _ _ (set_tracker (set_connection h (a, c1) t) (busier s))
      (connection_ptr_do_run (setPacketCharacteristicValueHandle VALUE_HANDLE) h a c1 _ Hwf1 Hc1)).
    eexists _, c2. split; [reflexivity|]. fold c2 t.
    assert (packet_characteristic_value_handle c2 = VALUE_HANDLE) as Hh by (cbn; apply wrap_small; unfold in_width; lia).
    destruct (wf_connection_update h a c1 c2 _ Hwf1 Hc1) as [Hwf2 _]; [by apply (wf_handles _ Hwf1) in Hc1|].
    split_and!; [done| |done| |done].
    + cbn. by rewrite insert_insert_eq.
    + unfold available. rewrite Hh. change (connected c2) with (connected c).
      rewrite Hcon, bool_decide_eq_true_2 by lia. naive_solver.
  - eexists _, c1. split; [reflexivity|]. split_and!; [done|done|done| |naive_solver].
    change (available c1) with (available c). naive_solver.
Qed.

(** * A message that arrives as a notification *)

Section notified.
Context {env : Env} `{!AllocFresh env}.

(** Without a record that is live, the search fails. *)
Lemma search_dangles entries h b s frame :
  connection_at s frame = None → (∃ p, (p, frame) ∈ entries) →
  search_sendable entries h b s = Err DanglingPtr.
Proof.
  intros Hf (p & Hp). revert b. induction entries as [|[p' c] entries IH]; intros b; [by apply elem_of_nil in Hp|].
  cbn [search_sendable]. unfold handle_of, deref. rewrite M_bind_assoc, M_bind_assoc, (M_bind_ok get _ _ _ _ eq_refl).
  destruct (connection_at s c) as [x|] eqn:Hx; [|done].
  apply elem_of_cons in Hp as [[= _ ->]|Hp]; [congruence|]. by apply IH.
Qed.

Lemma broadcast_dangles p keys frame s :
  connection_at s frame = None →
  (∃ x, (x, frame) ∈ find_to_end p (packets_connections_sent_list s)) →
  (∃ k a c, k ∈ keys ∧ connections s !! k = Some (a, c) ∧ available c = true) →
  broadcast_packet p keys s = Err DanglingPtr.
Proof.
  intros Hf Hrec (k & a & c & Hk & Hc & Hav). induction keys as [|k' keys IH]; [by apply elem_of_nil in Hk|].
  cbn [broadcast_packet]. unfold broadcast_to. rewrite M_bind_assoc, (M_bind_ok get _ _ _ _ eq_refl).
  assert (∀ h, (search_sendable (find_to_end p (packets_connections_sent_list s)) h true : M Tracker bool) s
    = Err DanglingPtr) as Hsearch by (intros; by eapply search_dangles).
  apply elem_of_cons in Hk as [<-|Hk].
  - rewrite Hc, Hav, M_bind_assoc. unfold mbind at 1, M_bind at 1. by rewrite Hsearch.
  - destruct (connections s !! k') as [[a' c']|]; [destruct (available c')|].
    + rewrite M_bind_assoc. unfold mbind at 1, M_bind at 1. by rewrite Hsearch.
    + rewrite (M_bind_ok (mret false) _ _ _ _ eq_refl). unfold mbind at 1, M_bind at 1. by rewrite IH.
    + rewrite (M_bind_ok (mret false) _ _ _ _ eq_refl). unfold mbind at 1, M_bind at 1. by rewrite IH.
Qed.

(** The message is taken as from a connection at any address. *)
Lemma process_message_from frame c m t :
  wf t → messages t !! message_id m = None →
  process_message (frame, c) m t = Ok (tt, relayed frame m t).
Proof.
  intros Hwf Hm. unfold process_message. rewrite (M_bind_ok _ _ _ _ _ (storeMessage_new m t Hm)).
  rewrite (M_bind_ok _ _ _ _ _ (checkSender_run _ _)). unfold relayed. cbn zeta.
  destruct (wf_new_message (message_id m) m t Hm Hwf) as [Hwf1 _].
  set (s1 := upd_messages _ t) in *. set (sender := packet_sender_id _).
  destruct (wf_add_peer sender s1 Hwf1) as [Hwf2 _].
  destruct (add_peer_same sender s1) as (Hms & _).
  assert (packet_at (add_peer sender s1) (alloc (used t)) = Some (PMessage m)) as Hpk.
  { assert (addr_of (add_peer sender s1) (OMessage (message_id m)) = Some (alloc (used t))) as Ha.
    { cbn. rewrite Hms. cbn. by rewrite lookup_insert_eq. }
    rewrite (packet_at_object _ (wf_separate _ Hwf2) (OMessage (message_id m))) by done.
    cbn. rewrite Hms. cbn. by rewrite lookup_insert_eq. }
  unfold enqueueBroadcastPacketFrom, enqueueBroadcastPacket.
  rewrite !(M_bind_ok (modify _) _ _ _ _ eq_refl).
  erewrite M_bind_ok by (apply deref_ok; exact Hpk).
  unfold enqueued. by case_decide.
Qed.
Lemma connection_at_frame h frame t :
  frame ∉ used t → (∀ X, alloc X ≠ frame) → connection_at (with_handle h t) frame = None.
Proof.
  intros Hu Ha. assert (∀ o, addr_of t o ≠ Some frame) as Hno.
  { intros o Ho%addr_of_used. done. }
  unfold connection_at.
  destruct (node_at (connections (with_handle h t)) frame) as [[k c]|] eqn:Hn.
  - exfalso. apply node_at_sound in Hn. unfold with_handle, set_connection, handle_node in Hn. cbn in Hn.
    rewrite lookup_insert in Hn. case_decide; [subst k|].
    + destruct (connections t !! h) as [n|] eqn:Hh.
      * injection Hn as ->. apply (Hno (OConnection h)). cbn. by rewrite Hh.
      * injection Hn as Hx _. by apply (Ha (used t)).
    + apply (Hno (OConnection k)). cbn. by rewrite Hn.
  - destruct (node_at (available_neighbours (with_handle h t)) frame) as [[k c]|] eqn:Hn'; [|done].
    exfalso. apply node_at_sound in Hn'. apply (Hno (ONeighbour k)). cbn.
    change (available_neighbours (with_handle h t)) with (available_neighbours t) in Hn'. by rewrite Hn'.
Qed.

Lemma sendPackets_dangles p frame s :
  sorted (packets_connections_sent_list s) → connection_at s frame = None →
  (p, frame) ∈ packets_connections_sent_list s →
  targeted_packets_to_send_list s = [] → broadcast_packets_to_send_list s = [p] →
  (∃ k a c, connections s !! k = Some (a, c) ∧ available c = true) →
  sendPackets s = Err DanglingPtr.
Proof.
  intros Hs Hf Hrec Ht Hb (k & a & c & Hc & Hav). unfold sendPackets.
  rewrite (M_bind_ok get _ _ _ _ eq_refl), decide_False by (rewrite Hb; by intros [? _]).
  rewrite Ht, Hb. cbn [send_targeted]. rewrite (M_bind_ok (mret []) _ _ _ _ eq_refl).
  rewrite (M_bind_ok (modify _) _ _ _ _ eq_refl). cbn [foldr].
  assert (upd_targeted_packets_to_send_list (λ l, l) s = s) as -> by (by destruct s).
  cbn [send_broadcast]. rewrite M_bind_assoc, (M_bind_ok get _ _ _ _ eq_refl), M_bind_assoc.
  unfold mbind at 1, M_bind at 1. rewrite (broadcast_dangles p _ frame); [done|done| |].
  - exists p. apply elem_of_find_to_end; [done|]. split_and!; [by eexists|done|cbn; lia].
  - exists k, a, c. split_and!; [|done|done]. apply list_elem_of_fmap. exists (k, (a, c)).
    split; [done|]. by apply elem_of_items.
Qed.
End notified.

(** C14: a new message that arrives as a notification is recorded with the address of
    the handler's local copy of the connection.  The handler returns, and as soon as
    a connection is available the next [sendPackets] reads through that pointer. *)
Theorem notification_dangles {env : Env} `{!AllocFresh env} (s : App) frame h value size m :
  let t := connection_tracker s in
  wf t → frame ∉ used t → (∀ X, alloc X ≠ frame) →
  parse 0 value size = Ok (RMessage m) → messages t !! message_id m = None →
  packet_ttl (base_of m) > 0 →
  broadcast_packets_to_send_list t = [] → targeted_packets_to_send_list t = [] →
  (∃ k a c, connections t !! k = Some (a, c) ∧ available c = true) →
  ∃ s', handle_gatt_client_value_update_event frame (GATT_EVENT_NOTIFICATION h value size) s = Ok (tt, s') ∧
    messages (connection_tracker s') = <[message_id m := (alloc (used (with_handle h t)), m)]> (messages t) ∧
    on_tracker sendPackets s' = Err DanglingPtr.
Proof.
  intros t Hwf Hu Ha Hp Hm Httl Hbc Htg (k & a & c & Hc & Hav).
  set (t1 := with_handle h t). destruct (wf_with_handle h t Hwf) as [Hwf1 _]. fold t1 in Hwf1.
  set (c0 := snd (handle_node h t)).
  exists (set_tracker (relayed frame m t1) (busier s)).
  pose proof (relayed_fields frame m t1) as Hf. cbn zeta in Hf.
  destruct Hf as (Hms & _ & Hsl & Hbl & Htl & Hcon & Hnb & _).
  split_and!; [|exact Hms|].
  - unfold handle_gatt_client_value_update_event. rewrite (M_bind_ok count_activity _ _ _ _ eq_refl).
    rewrite (on_tracker_ok _ _ _ _ (busier s) (connectionForConnHandle_run h _)).
    change (connection_tracker (busier s)) with t. fold t1. destruct (handle_node h t) as [x c'].
    unfold on_tracker. cbn [connection_tracker set_tracker]. rewrite processWrite_parse, Hp. cbn [process].
    by rewrite process_message_from.
  - unfold on_tracker. cbn [connection_tracker set_tracker].
    rewrite (sendPackets_dangles (alloc (used t1)) frame); [done|..].
    + rewrite Hsl. apply emplace_sorted, (wf_ordered _ Hwf1).
    + transitivity (connection_at t1 frame); [|by apply connection_at_frame].
      unfold connection_at. by rewrite Hcon, Hnb.
    + rewrite Hsl. apply elem_of_emplace. by left.
    + by rewrite Htl.
    + rewrite Hbl, decide_True by done. exact (f_equal (λ l, l ++ [alloc (used t1)]) Hbc).
    + rewrite Hcon. unfold t1, with_handle, set_connection, handle_node. cbn. destruct (decide (h = k)) as [->|Hk].
      * exists k, a, c. by rewrite lookup_insert_eq, Hc.
      * exists k, a, c. by rewrite lookup_insert_ne.
Qed.

(** ** Witnesses *)

Definition app_example : App := App_new (sending_example [] []).

Definition example_characteristic : gatt_client_characteristic :=
  mkCharacteristic 10 12 14 0 0 packet_characteristic_uuid.

Lemma discovery_conversation_witness :
  ∃ s' a c, for_each (conversation 64 [1; 2; 3; 4; 5; 6] 0 HCI_ROLE_MASTER example_service
      example_characteristic example_service)
      (@run_callback example_env example_iterator example_db example_le) app_example = Ok (tt, s') ∧
    wf (connection_tracker s') ∧
    connections (connection_tracker s') = <[64 := (a, c)]> (connections (connection_tracker app_example)) ∧
    available c = true ∧
    (connection_handle c, bt_address c, role c) = (64, [1; 2; 3; 4; 5; 6], HCI_ROLE_MASTER) ∧
    (connection_in_progress s', discover_primary_services s',
     discover_characteristics_for_service s') = (false, false, false) ∧
    calls (connection_tracker s') = calls (connection_tracker app_example) ++
      [gap_advertisements_enable 1; hci_connection_for_handle 64; time_us_64_call] ++
      [gatt_client_listen_for_characteristic_value_updates a 64 0] ++
      [gatt_client_discover_primary_services_by_uuid128 64 packet_service_uuid;
       hci_connection_for_handle 64;
       gatt_client_discover_characteristics_for_service_by_uuid128 64
         (mkService 9 14 0 packet_service_uuid) packet_characteristic_uuid;
       hci_connection_for_handle 64].
Proof.
  apply (@discovery_conversation example_env _ example_iterator example_db example_le app_example);
    [apply sending_example_ok; vm_compute; reflexivity|vm_compute; reflexivity..].
Defined.

Lemma subscription_makes_available_witness :
  let c := connection_to 1 in
  ∃ s' c', @att_write_callback example_env example_db example_le 1 13 0 0 [1; 0] 2 app_example = Ok (0, s') ∧
    wf (connection_tracker s') ∧
    connections (connection_tracker s') = <[1 := (10, c')]> (connections (connection_tracker app_example)) ∧
    (notification_enabled c' = true ↔ 1 = 1 ∧ 0 = 0) ∧
    (available c' = true ↔ (1 = 1 ∧ 0 = 0) ∨ available c = true) ∧
    (1 = 1 ∧ 0 = 0 → packet_characteristic_value_handle c' = 12).
Proof.
  apply (@subscription_makes_available example_env _ example_db _ example_le _ app_example 1 0 1 0 [] 2 10);
    [apply sending_example_ok; vm_compute; reflexivity|reflexivity|reflexivity|decide_concrete|decide_concrete].
Defined.

Lemma notification_dangles_witness :
  ∃ s', @handle_gatt_client_value_update_event example_env (-1)
      (GATT_EVENT_NOTIFICATION 1 message_buffer (size_of message_buffer)) app_example = Ok (tt, s') ∧
    messages (connection_tracker s')
      = <[message_id (message_to_send "c") := (@alloc example_env (used (with_handle (env := example_env) 1
           (connection_tracker app_example))), message_to_send "c")]> (messages (connection_tracker app_example)) ∧
    on_tracker (@sendPackets example_env) s' = Err DanglingPtr.
Proof.
  apply (@notification_dangles example_env _ app_example (-1) 1 message_buffer);
    [apply sending_example_ok; vm_compute; reflexivity|decide_concrete
    |intros X; pose proof (foldr_max_nonneg (elements X)); cbn; lia
    |vm_compute; reflexivity|vm_compute; reflexivity|vm_compute; reflexivity|reflexivity|reflexivity|].
  exists 1, 10, (connection_to 1). split; reflexivity.
Defined.
