(* ===== verification/Flood.v ===== *)
(** The flooding of one message through a network, as the repeaters of this program are
    meant to do it: the abstract protocol, without trackers or packets.

    A node that hears the message for the first time remembers over which handle, then
    has it to pass on over all its other links, and passes it on over one after the
    other.  A node that makes the message itself has it to pass on over all its links.  [flood_measure] decreases with every step; [flood_inv] is kept by every step
    and, once nothing is left to do, says that whoever is linked to a node that has
    the message has it too.  The file Network shows that the program does this. *)

From S2P Require Import Prelude.

(** * The protocol *)

Inductive Phase :=
| Unaware
| Waiting (from : option Z)                    (* has the message, over the handle or as its own *)
| Flooding (from : option Z) (todo : list Z).  (* the handles it is still to go out over *)

Record Flood := mkFlood {
  phases : gmap Z Phase;
  flying : list (Z * Z);                  (* for which node, over which handle *)
}.

Definition aware (φ : Phase) : Prop := φ ≠ Unaware.

#[global] Instance Phase_eq_dec : EqDecision Phase.
Proof. solve_decision. Defined.

#[global] Instance aware_dec φ : Decision (aware φ).
Proof. unfold aware. apply _. Defined.

Lemma waiting_or φ : (∃ h, φ = Waiting h) ∨ ∀ h, φ ≠ Waiting h.
Proof. destruct φ; eauto. Qed.

(** The network: the handles over which a node sends, and where a handle leads. *)
Record Topology := mkTopology {
  links : Z → gset Z;
  far_end : Z → Z → option (Z * Z);
}.

Section flood.
Context (G : Topology).

Inductive flood_step (f : Flood) : Flood → Prop :=
| fl_take k j h :
    flying f !! k = Some (j, h) → phases f !! j = Some Unaware →
    flood_step f (mkFlood (<[j := Waiting (Some h)]> (phases f)) (delete k (flying f)))
| fl_known k j h φ :
    flying f !! k = Some (j, h) → phases f !! j = Some φ → aware φ →
    flood_step f (mkFlood (phases f) (delete k (flying f)))
| fl_flood i h todo :
    phases f !! i = Some (Waiting h) → NoDup todo → (∀ x, x ∈ todo ↔ x ∈ links G i ∧ Some x ≠ h) →
    flood_step f (mkFlood (<[i := Flooding h todo]> (phases f)) (flying f))
| fl_transmit i h todo x todo' d :
    phases f !! i = Some (Flooding h todo) → todo ≡ₚ x :: todo' → far_end G i x = Some d →
    flood_step f (mkFlood (<[i := Flooding h todo']> (phases f)) (flying f ++ [d])).

(** Nothing is in the air, and nobody has anything to pass on. *)
Definition idle (i : Z) (φ : Phase) : Prop :=
  match φ with
  | Unaware => True
  | Waiting h => set_Forall (λ x, Some x = h) (links G i)
  | Flooding _ todo => todo = []
  end.

Definition quiescent (f : Flood) : Prop := flying f = [] ∧ map_Forall idle (phases f).

#[global] Instance idle_dec i φ : Decision (idle i φ).
Proof. destruct φ; cbn; apply _. Defined.

(** One node can pass the message on to another. *)
Definition edge (i j : Z) : Prop := ∃ x h, x ∈ links G i ∧ far_end G i x = Some (j, h).

(** ** Termination *)

(** The messages a node may still send. *)
Definition to_send (i : Z) (φ : Phase) : nat :=
  match φ with Flooding _ todo => length todo | _ => size (links G i) end.

(** The steps it may still take until they are in the air and taken from it. *)
Definition to_do (i : Z) (φ : Phase) : nat :=
  match φ with Flooding _ todo => 2 * length todo | _ => 2 * size (links G i) + 1 end.

Definition total (weight : Z → Phase → nat) (ph : gmap Z Phase) : nat :=
  sum_list ((λ kφ : Z * Phase, weight (fst kφ) (snd kφ)) <$> map_to_list ph).

(** The messages still to be delivered, and the steps still to be taken. *)
Definition flood_bound (f : Flood) : nat := total to_send (phases f) + length (flying f).
Definition flood_measure (f : Flood) : nat := total to_do (phases f) + length (flying f).

Lemma sum_list_permutation (l l' : list nat) : l ≡ₚ l' → sum_list l = sum_list l'.
Proof. induction 1; cbn; lia. Qed.

Lemma total_insert weight ph i φ φ' :
  ph !! i = Some φ → (total weight (<[i := φ']> ph) + weight i φ = total weight ph + weight i φ')%nat.
Proof.
  intros Hi. unfold total. rewrite <- insert_delete_eq, (sum_list_permutation (fmap _ (map_to_list (<[i:=φ']> _))) _
    (fmap_Permutation _ _ _ (map_to_list_insert _ i φ' (lookup_delete_eq ph i)))).
  rewrite (sum_list_permutation (fmap _ (map_to_list ph)) _
    (fmap_Permutation _ _ _ (symmetry (map_to_list_delete _ _ _ Hi)))). cbn. lia.
Qed.

Lemma length_delete_lt {A} (l : list A) k x : l !! k = Some x → S (length (delete k l)) = length l.
Proof.
  intros Hk. pose proof (lookup_lt_Some _ _ _ Hk). rewrite length_delete by eauto. lia.
Qed.

(** What is passed on goes out over links other than the one it came from. *)
Lemma length_todo i h todo :
  NoDup todo → (∀ x, x ∈ todo ↔ x ∈ links G i ∧ Some x ≠ h) → (length todo ≤ size (links G i))%nat.
Proof.
  intros Hnd Ht. rewrite <- (size_list_to_set (C := gset Z) todo Hnd). apply subseteq_size.
  intros x Hx%elem_of_list_to_set. by apply Ht.
Qed.

(** Every step takes one off the measure, and every delivery one off the bound. *)
Lemma flood_step_measure f f' : flood_step f f' → (flood_measure f' < flood_measure f)%nat.
Proof.
  intros Hs. destruct Hs as [k j h Hk Hj|k j h φ Hk Hj Ha|i h todo Hi Hnd Ht|i h todo x todo' d Hi Hp Hd];
    unfold flood_measure; cbn [phases flying].
  - pose proof (total_insert to_do _ _ _ (Waiting (Some h)) Hj). pose proof (length_delete_lt _ _ _ Hk). cbn in *. lia.
  - pose proof (length_delete_lt _ _ _ Hk). lia.
  - pose proof (total_insert to_do _ _ _ (Flooding h todo) Hi). pose proof (length_todo i h todo Hnd Ht). cbn in *. lia.
  - pose proof (total_insert to_do _ _ _ (Flooding h todo') Hi). apply Permutation_length in Hp.
    rewrite length_app. cbn in *. lia.
Qed.

Lemma flood_step_bound f f' :
  flood_step f f' →
  (flood_bound f' ≤ flood_bound f)%nat ∧
  ((length (flying f') < length (flying f))%nat → (flood_bound f' < flood_bound f)%nat).
Proof.
  intros Hs. destruct Hs as [k j h Hk Hj|k j h φ Hk Hj Ha|i h todo Hi Hnd Ht|i h todo x todo' d Hi Hp Hd];
    unfold flood_bound; cbn [phases flying].
  - pose proof (total_insert to_send _ _ _ (Waiting (Some h)) Hj). pose proof (length_delete_lt _ _ _ Hk). cbn in *. lia.
  - pose proof (length_delete_lt _ _ _ Hk). lia.
  - pose proof (total_insert to_send _ _ _ (Flooding h todo) Hi). pose proof (length_todo i h todo Hnd Ht). cbn in *. lia.
  - pose proof (total_insert to_send _ _ _ (Flooding h todo') Hi). apply Permutation_length in Hp.
    rewrite length_app. cbn in *. lia.
Qed.

(** ** Coverage *)

Definition aware_at (f : Flood) (i : Z) : Prop := ∃ φ, phases f !! i = Some φ ∧ aware φ.

(** The handle over which a node got the message, if it did. *)
Definition from_of (φ : Phase) : option Z :=
  match φ with Unaware => None | Waiting h | Flooding h _ => h end.

(** Wires are symmetric and lead to nodes of the network. *)
Definition wired (f : Flood) : Prop :=
  (∀ i x j h, far_end G i x = Some (j, h) → far_end G j h = Some (i, x)) ∧
  (∀ i φ x, phases f !! i = Some φ → x ∈ links G i → ∃ j h, far_end G i x = Some (j, h) ∧ is_Some (phases f !! j)).

Record flood_inv (f : Flood) : Prop := {
  fi_wired : wired f;
  (* the messages in the air are for nodes of the network *)
  fi_air : ∀ j h, (j, h) ∈ flying f → is_Some (phases f !! j);
  (* whoever sent a message has it: in the air, ... *)
  fi_sender : ∀ j h i x, (j, h) ∈ flying f → far_end G j h = Some (i, x) → aware_at f i;
  (* ... and after it has arrived *)
  fi_from : ∀ j φ h i x, phases f !! j = Some φ → from_of φ = Some h →
    far_end G j h = Some (i, x) → aware_at f i;
  (* only links are to be passed on over *)
  fi_todo : ∀ i h todo x, phases f !! i = Some (Flooding h todo) → x ∈ todo → x ∈ links G i;
  (* over every other link the message is still to go, on its way, or known *)
  fi_flooding : ∀ i h todo x j h', phases f !! i = Some (Flooding h todo) → x ∈ links G i →
    far_end G i x = Some (j, h') → Some x = h ∨ x ∈ todo ∨ (j, h') ∈ flying f ∨ aware_at f j;
}.

(** Nobody forgets. *)
Lemma aware_insert f i φ fl j :
  aware φ → aware_at f j → aware_at (mkFlood (<[i := φ]> (phases f)) fl) j.
Proof.
  intros Ha (ψ & Hj & Hψ). unfold aware_at. cbn [phases]. setoid_rewrite lookup_insert.
  destruct (decide (i = j)); eauto.
Qed.

Lemma aware_inserted f i φ fl : aware φ → aware_at (mkFlood (<[i := φ]> (phases f)) fl) i.
Proof. intros Ha. exists φ. cbn. by rewrite lookup_insert_eq. Qed.

Lemma elem_of_delete_other {A} `{EqDecision A} (l : list A) k x y :
  l !! k = Some x → y ∈ l → y ∈ delete k l ∨ y = x.
Proof.
  intros Hk Hy. rewrite (delete_Permutation l k x Hk) in Hy. apply elem_of_cons in Hy as [->|Hy]; auto.
Qed.

(** Replacing the phase of a node keeps the wires. *)
Lemma wired_insert f i φ φ' fl :
  phases f !! i = Some φ → wired f → wired (mkFlood (<[i := φ']> (phases f)) fl).
Proof.
  intros Hi [Hs Hw]. split; [done|]. cbn [phases].
  assert (∀ j, is_Some (phases f !! j) → is_Some (<[i := φ']> (phases f) !! j)) as Hdom.
  { intros j Hj. rewrite lookup_insert. case_decide; eauto. }
  intros j ψ x Hj Hx. assert (is_Some (phases f !! j)) as [ψ' Hj'].
  { rewrite lookup_insert in Hj. case_decide; [subst; eauto|eauto]. }
  destruct (Hw j ψ' x Hj' Hx) as (k & h & Hfar & Hk). eauto.
Qed.

(** An aware node that goes on to another phase, with the same messages in the air. *)
Lemma known_some f i : aware_at f i → is_Some (phases f !! i).
Proof. intros (φ & Hi & _). eauto. Qed.

Lemma insert_some f i φ φ' j :
  phases f !! i = Some φ → is_Some (phases f !! j) → is_Some (<[i := φ']> (phases f) !! j).
Proof. intros Hi Hj. rewrite lookup_insert. case_decide; eauto. Qed.

Lemma inv_take f k j h :
  flood_inv f → flying f !! k = Some (j, h) → phases f !! j = Some Unaware →
  flood_inv (mkFlood (<[j := Waiting (Some h)]> (phases f)) (delete k (flying f))).
Proof.
  intros [Hw Hair Hsend Hfrom Htodo Hfl] Hk Hj. assert (aware (Waiting (Some h))) as Ha by done.
  constructor; cbn [phases flying].
  - by eapply wired_insert.
  - intros j' h' Hin%list_elem_of_delete_inv. eapply insert_some; [exact Hj|by eapply Hair].
  - intros j' h' i x Hin%list_elem_of_delete_inv Hfar. apply aware_insert; [done|by eapply Hsend].
  - intros j' φ h' i x Hj' Hφ Hfar. apply aware_insert; [done|]. rewrite lookup_insert in Hj'.
    case_decide; [subst j'; injection Hj' as <-; injection Hφ as <-|by eapply Hfrom].
    eapply Hsend; [by eapply list_elem_of_lookup_2|exact Hfar].
  - intros i h' todo x Hi. rewrite lookup_insert in Hi. case_decide; [done|by eapply Htodo].
  - intros i h' todo x j' h'' Hi Hx Hfar. rewrite lookup_insert in Hi. case_decide; [done|].
    destruct (Hfl i h' todo x j' h'' Hi Hx Hfar) as [?|[?|[Hin|?]]]; auto using aware_insert.
    destruct (elem_of_delete_other _ _ _ _ Hk Hin) as [?|[= -> ->]]; auto using aware_inserted.
Qed.

Lemma inv_known f k j h φ :
  flood_inv f → flying f !! k = Some (j, h) → phases f !! j = Some φ → aware φ →
  flood_inv (mkFlood (phases f) (delete k (flying f))).
Proof.
  intros [Hw Hair Hsend Hfrom Htodo Hfl] Hk Hj Ha. constructor; cbn [phases flying]; try done.
  - intros j' h' Hin%list_elem_of_delete_inv. by eapply Hair.
  - intros j' h' i x Hin%list_elem_of_delete_inv. by eapply Hsend.
  - intros i h' todo x j' h'' Hi Hx Hfar.
    destruct (Hfl i h' todo x j' h'' Hi Hx Hfar) as [?|[?|[Hin|?]]]; auto.
    destruct (elem_of_delete_other _ _ _ _ Hk Hin) as [?|[= -> ->]]; [auto|].
    right. right. right. by exists φ.
Qed.

Lemma inv_flood f i h todo :
  flood_inv f → phases f !! i = Some (Waiting h) → (∀ x, x ∈ todo ↔ x ∈ links G i ∧ Some x ≠ h) →
  flood_inv (mkFlood (<[i := Flooding h todo]> (phases f)) (flying f)).
Proof.
  intros [Hw Hair Hsend Hfrom Htodo Hfl] Hi Ht. assert (aware (Flooding h todo)) as Ha by done.
  constructor; cbn [phases flying].
  - by eapply wired_insert.
  - intros j' h' Hin. eapply insert_some; [exact Hi|by eapply Hair].
  - intros j' h' i' x Hin Hfar. apply aware_insert; [done|by eapply Hsend].
  - intros j' φ h' i' x Hj' Hφ Hfar. apply aware_insert; [done|]. rewrite lookup_insert in Hj'.
    case_decide; [subst j'; injection Hj' as <-; cbn in Hφ; subst h|by eapply Hfrom].
    by eapply Hfrom.
  - intros i' h' todo' x Hi'. rewrite lookup_insert in Hi'. case_decide; [|by eapply Htodo].
    subst i'. injection Hi' as <- <-. intros Hx. by apply Ht.
  - intros i' h' todo' x j' h'' Hi' Hx Hfar. rewrite lookup_insert in Hi'. case_decide.
    + subst i'. injection Hi' as <- <-. destruct (decide (Some x = h)); [by left|]. right. left. by apply Ht.
    + destruct (Hfl i' h' todo' x j' h'' Hi' Hx Hfar) as [?|[?|[?|?]]]; auto using aware_insert.
Qed.

Lemma inv_transmit f i h todo x todo' d :
  flood_inv f → phases f !! i = Some (Flooding h todo) → todo ≡ₚ x :: todo' → far_end G i x = Some d →
  flood_inv (mkFlood (<[i := Flooding h todo']> (phases f)) (flying f ++ [d])).
Proof.
  intros [Hw Hair Hsend Hfrom Htodo Hfl] Hi Hp Hd. assert (aware (Flooding h todo')) as Ha by done.
  assert (x ∈ links G i) as Hx by (eapply Htodo; [exact Hi|rewrite Hp; apply elem_of_cons; by left]).
  constructor; cbn [phases flying].
  - by eapply wired_insert.
  - intros j' h' [Hin| <-%list_elem_of_singleton]%elem_of_app; (eapply insert_some; [exact Hi|]);
      [by eapply Hair|]. destruct (proj2 Hw i _ x Hi Hx) as (j & h'' & Hfar & Hj). congruence.
  - intros j' h' i' x' [Hin| <-%list_elem_of_singleton]%elem_of_app Hfar.
    + apply aware_insert; [done|by eapply Hsend].
    + apply (proj1 Hw) in Hd. rewrite Hd in Hfar. injection Hfar as <- <-. by apply aware_inserted.
  - intros j' φ h' i' x' Hj' Hφ Hfar. apply aware_insert; [done|]. rewrite lookup_insert in Hj'.
    case_decide; [subst j'; injection Hj' as <-; cbn in Hφ; subst h|by eapply Hfrom].
    by eapply Hfrom.
  - intros i' h' todo2 y Hi'. rewrite lookup_insert in Hi'. case_decide; [|by eapply Htodo].
    subst i'. injection Hi' as <- <-. intros Hy. eapply Htodo; [exact Hi|]. rewrite Hp. apply elem_of_cons. by right.
  - intros i' h' todo2 y j' h'' Hi' Hy Hfar. rewrite lookup_insert in Hi'. setoid_rewrite elem_of_app. case_decide.
    + subst i'. injection Hi' as <- <-.
      destruct (Hfl i h todo y j' h'' Hi Hy Hfar) as [?|[Hin|[?|?]]]; auto using aware_insert.
      rewrite Hp in Hin. apply elem_of_cons in Hin as [->|Hin]; [|auto].
      right. right. left. right. rewrite Hfar in Hd. injection Hd as <-. by apply list_elem_of_singleton.
    + destruct (Hfl i' h' todo2 y j' h'' Hi' Hy Hfar) as [?|[?|[?|?]]]; auto using aware_insert.
Qed.

Lemma flood_step_inv f f' : flood_step f f' → flood_inv f → flood_inv f'.
Proof.
  intros [] Hinv; [by apply inv_take|by eapply inv_known|by apply inv_flood|by eapply inv_transmit].
Qed.

(** A node that the message is for stays so until it has it. *)
Definition comes_to (f : Flood) (i : Z) : Prop := aware_at f i ∨ ∃ h, (i, h) ∈ flying f.

Lemma flood_step_comes f f' i : flood_step f f' → comes_to f i → comes_to f' i.
Proof.
  intros Hs Hi. destruct Hs as [k j h Hk Hj|k j h φ Hk Hj Ha|n h todo Hn Hnd Ht|n h todo x todo' d Hn Hp Hd];
    destruct Hi as [Hi|[h' Hi]].
  - left. by apply aware_insert.
  - destruct (elem_of_delete_other _ _ _ _ Hk Hi) as [?|[= -> ->]]; [right; eauto|left; by apply aware_inserted].
  - by left.
  - destruct (elem_of_delete_other _ _ _ _ Hk Hi) as [?|[= -> ->]]; [right; eauto|left; by exists φ].
  - left. by apply aware_insert.
  - right. eauto.
  - left. by apply aware_insert.
  - right. exists h'. apply elem_of_app. by left.
Qed.

Lemma flood_steps_comes f f' i : rtc flood_step f f' → comes_to f i → comes_to f' i.
Proof. induction 1; eauto using flood_step_comes. Qed.

(** Once it is over, whoever can be reached from an aware node is aware. *)
Lemma quiescent_closed f i j : flood_inv f → quiescent f → edge i j → aware_at f i → aware_at f j.
Proof.
  intros [Hw _ _ Hfrom _ Hfl] [Hair Hidle] (x & h & Hx & Hfar) (φ & Hi & Ha).
  specialize (Hidle i φ Hi). destruct φ as [|h0|h0 todo]; [done| |].
  - specialize (Hidle x Hx). cbn in Hidle. subst h0. by eapply Hfrom.
  - cbn in Hidle. subst todo. destruct (Hfl i h0 [] x j h Hi Hx Hfar) as [<-|[Hin|[Hin|?]]]; [|..|done].
    + by eapply Hfrom.
    + by apply elem_of_nil in Hin.
    + rewrite Hair in Hin. by apply elem_of_nil in Hin.
Qed.

Lemma quiescent_covers f i j :
  flood_inv f → quiescent f → rtc edge i j → aware_at f i → aware_at f j.
Proof. intros Hinv Hq. induction 1; eauto using quiescent_closed. Qed.

(** ** The beginning *)

(** The message is on its way to one node, from outside. *)
Definition flood_start (nodes : gmap Z Phase) (o h : Z) : Flood := mkFlood nodes [(o, h)].

Lemma flood_start_inv nodes o h :
  map_Forall (λ _ φ, φ = Unaware) nodes → is_Some (nodes !! o) → far_end G o h = None →
  wired (flood_start nodes o h) → flood_inv (flood_start nodes o h).
Proof.
  intros Hun Ho Hout Hw. constructor; [done|..]; cbn [phases flying flood_start].
  - by intros j h' [= -> ->]%list_elem_of_singleton.
  - intros j h' i x [= -> ->]%list_elem_of_singleton. congruence.
  - intros j φ h' i x Hj. by rewrite (Hun j φ Hj).
  - intros i h' todo x Hi. by apply Hun in Hi.
  - intros i h' todo x j h'' Hi. by apply Hun in Hi.
Qed.

(** A node has made the message, and nobody else knows it. *)
Definition flood_origin (nodes : gmap Z Phase) (o : Z) : Flood := mkFlood (<[o := Waiting None]> nodes) [].

Lemma flood_origin_inv nodes o :
  map_Forall (λ _ φ, φ = Unaware) nodes → wired (flood_origin nodes o) → flood_inv (flood_origin nodes o).
Proof.
  intros Hun Hw. assert (∀ i φ, <[o := Waiting None]> nodes !! i = Some φ → φ = Unaware ∨ φ = Waiting None) as Hall.
  { intros i φ. rewrite lookup_insert_Some. intros [[_ <-]|[_ Hi]]; [by right|left; by apply (Hun i)]. }
  constructor; [done|..]; cbn [phases flying flood_origin].
  - by intros j h ?%elem_of_nil.
  - by intros j h i x ?%elem_of_nil.
  - intros j φ h i x Hj. by destruct (Hall j φ Hj) as [->| ->].
  - intros i h todo x Hi. by destruct (Hall i _ Hi).
  - intros i h todo x j h' Hi. by destruct (Hall i _ Hi).
Qed.

(** As many messages as there are links are sent. *)
Definition link_count (nodes : gmap Z Phase) : nat :=
  sum_list ((λ i, size (links G i)) <$> (fst <$> map_to_list nodes)).

Lemma flood_start_bound nodes o h :
  map_Forall (λ _ φ, φ = Unaware) nodes →
  flood_bound (flood_start nodes o h) = (link_count nodes + 1)%nat ∧
  flood_measure (flood_start nodes o h) = (2 * link_count nodes + size nodes + 1)%nat.
Proof.
  intros Hun. unfold flood_bound, flood_measure, link_count, total. cbn [phases flying flood_start length].
  rewrite <- length_map_to_list. assert (∀ i φ, (i, φ) ∈ map_to_list nodes → φ = Unaware) as Hall.
  { intros i φ Hi%elem_of_map_to_list. by eapply Hun. }
  induction (map_to_list nodes) as [|[i φ] l IH]; [done|].
  assert (φ = Unaware) as -> by (eapply Hall, elem_of_cons; by left).
  destruct IH as [IH1 IH2]; [intros; eapply Hall, elem_of_cons; by right|].
  cbn [fmap list_fmap fst snd to_send to_do] in *. cbn. cbn in IH1, IH2. lia.
Qed.

Lemma flood_origin_bound nodes o :
  map_Forall (λ _ φ, φ = Unaware) nodes → is_Some (nodes !! o) →
  flood_bound (flood_origin nodes o) = link_count nodes ∧
  flood_measure (flood_origin nodes o) = (2 * link_count nodes + size nodes)%nat.
Proof.
  intros Hun [φ Ho]. pose proof Ho as Hou. apply Hun in Hou. cbn in Hou. subst φ.
  destruct (flood_start_bound nodes o 0 Hun) as [Hb Hm]. unfold flood_bound, flood_measure in *.
  cbn [phases flying flood_start flood_origin length] in *.
  pose proof (total_insert to_send nodes o _ (Waiting None) Ho). pose proof (total_insert to_do nodes o _ (Waiting None) Ho).
  cbn in *. lia.
Qed.
End flood.
