(* ===== verification/Nodes.v ===== *)
(** One repeater that floods a message: how its tracker stands to the phases of the
    file Flood, and what [processWrite], [sendPackets] and [writeRawPacket] make of
    that.

    The connections the repeater sends over are those it opened itself, as it writes
    over them.  A value that is sent as a notification would end in the dangling
    pointer of [notification_dangles]. *)

From S2P Require Import Prelude BinaryIO Packets StdContainers BleConnection Tracker TrackerWf TrackerSafety Sending Connections Reports Protocol Application Typed Flood.

(** * Values that are taken *)

(** The values that BTstack took, with their handles, as later calls show. *)
Fixpoint accepted {env : Env} (before new : list Call) : list (Z * Z * list Z) :=
  match new with
  | [] => []
  | c :: new' =>
      match c with
      | gatt_client_write_value_of_characteristic_without_response h attribute v =>
          if decide (u8 (answer before c) = ERROR_CODE_SUCCESS) then [(h, attribute, v)] else []
      | _ => []
      end ++ accepted (before ++ [c]) new'
  end.

(** * A round of a node that writes *)

(** No call of these hands a value to BTstack. *)
Definition no_write (c : Call) : Prop :=
  match c with gatt_client_write_value_of_characteristic_without_response _ _ _ => False | _ => True end.

Lemma accepted_none {env : Env} cs : ∀ before, Forall no_write cs → accepted before cs = [].
Proof.
  induction cs as [|c cs IH]; intros before Hcs; [done|]. apply Forall_cons in Hcs as [Hc Hcs].
  cbn [accepted]. rewrite IH by done. by destruct c.
Qed.

Section rounds.
Context {env : Env} `{!AllocFresh env}.

(** What [sendPackets] keeps in such a node: nothing is targeted or to be notified, and
    since [cs] no value was handed over. *)
Record writes_only (cs : list Call) (t : Tracker) : Prop := {
  wo_targeted : targeted_packets_to_send_list t = [];
  wo_notify : raw_packet_to_notify t = [];
  wo_roles : ∀ h a c, connections t !! h = Some (a, c) → available c = true → role c ≠ HCI_ROLE_SLAVE;
  wo_calls : ∃ new, calls t = cs ++ new ∧ Forall no_write new;
}.

Definition round_inv (cs : list Call) (p : Addr) (t : Tracker) : Prop :=
  wf t ∧ can_send t ∧ live_packet t p ∧ writes_only cs t.

Lemma after_send_writes cs t h a c data :
  connections t !! h = Some (a, c) → available c = true → writes_only cs t →
  writes_only cs (after_send t h c data).
Proof.
  intros Hc Hav [Ht Hn Hr (new & Hcs & Hnew)]. pose proof (Hr h a c Hc Hav) as Hrole.
  unfold after_send. rewrite decide_False by done. constructor; [done|done| |].
  - intros h' a' c'. cbn. rewrite lookup_node_update. case_decide; [|by apply Hr]. subst h'.
    rewrite Hc. intros [= <- <-] _. by destruct c.
  - cbn. rewrite Hcs, <- !app_assoc. eexists. split; [done|]. apply Forall_app_2; [done|]. by repeat constructor.
Qed.

Lemma round_broadcast_to cs p k : keeps (round_inv cs p) (broadcast_to p k).
Proof.
  intros t (Hwf & Hcan & Hp & Hw). unfold after.
  destruct (broadcast_to_run p k t Hwf Hcan Hp) as (b & t' & sent & Hrun & Hs & _ & Hb).
  rewrite Hrun. assert (wf t' ∧ can_send t' ∧ live_packet t' p) as (Hwf' & Hcan' & Hp').
  { split_and!; [apply Hs|apply (can_send_same t); [apply Hs|done]|].
    eapply live_packet_extends; [apply Hs|done]. }
  split_and!; try done. destruct b; [|by destruct Hb as [_ ->]].
  destruct Hb as (a & c & Hc & Hav & ->).
  destruct (broadcast_to_cases p k t Hwf) as [[_ Hrun']|(_ & a' & c' & Hc' & _ & Hrun')]; [congruence|].
  rewrite Hc in Hc'. injection Hc' as <- <-.
  destruct (packet_at_live t (wf_separate t Hwf) p Hp) as (o & pk & _ & _ & _ & Hpk).
  destruct (SendPacket_run t p pk k a c Hwf (proj1 Hcan) Hpk (proj2 Hcan _ _ Hpk) Hc) as [b Hsend].
  rewrite Hrun', (M_bind_ok _ _ _ _ _ Hsend), (M_bind_ok (modify _) _ _ _ _ eq_refl) in Hrun.
  injection Hrun as <-. destruct (after_send_writes cs t k a c (encoding pk) Hc Hav Hw) as [? ? ? ?].
  by constructor.
Qed.

Lemma round_send_broadcast cs p : keeps (round_inv cs p) (send_broadcast [p]).
Proof.
  assert (∀ keys, keeps (round_inv cs p) (broadcast_packet p keys)) as Hkeys.
  { induction keys as [|k keys IH]; cbn [broadcast_packet]; [apply keeps_ret|].
    apply keeps_bind; [apply round_broadcast_to|]. intros sent.
    apply keeps_bind; [done|]. intros rest. apply keeps_ret. }
  cbn [send_broadcast]. apply keeps_bind; [apply keeps_get|]. intros s.
  apply keeps_bind; [apply Hkeys|]. intros sent. apply keeps_bind; [apply keeps_ret|].
  intros rest. apply keeps_ret.
Qed.

(** ** What a round changes *)

Record round_frame (a : Addr) (s s' : Tracker) : Prop := {
  rf_messages : messages s' = messages s;
  rf_connections : ∀ h, quiet <$> connections s' !! h = quiet <$> connections s !! h;
  rf_handle : ∀ x, handle_at s' x = handle_at s x;
  rf_recorded : ∀ e, e ∈ packets_connections_sent_list s → e ∈ packets_connections_sent_list s';
  rf_records : ∀ e, e ∈ packets_connections_sent_list s' → fst e = a ∨ e ∈ packets_connections_sent_list s;
  rf_broadcast : broadcast_packets_to_send_list s' = [] ∨
    broadcast_packets_to_send_list s' = broadcast_packets_to_send_list s;
  rf_can_send : can_send s';
  rf_writes : ∀ cs, writes_only cs s → writes_only cs s';
}.

Lemma after_round_frame a s s' :
  wf s → can_send s → live_packet s a → after_round a s s' → round_frame a s s'.
Proof.
  intros Hwf Hcan Hlive (s1 & sent & removed & Hs & Hkeys & Hsb & ->). pose proof (se_same _ _ _ Hs) as Hsame.
  constructor; [apply Hsame|apply Hsame|..].
  - intros x. exact (handle_at_same s s1 x Hwf (se_wf _ _ _ Hs) Hsame).
  - intros e He. cbn. rewrite (se_list _ _ _ Hs), elem_of_app. by right.
  - intros e. cbn. rewrite (se_list _ _ _ Hs), elem_of_app. intros [He|He]; auto.
  - cbn. case_decide; [right; by apply Hsame|by left].
  - exact (can_send_same s s1 Hsame Hcan).
  - intros cs Hw. pose proof (round_send_broadcast cs a s (conj Hwf (conj Hcan (conj Hlive Hw)))) as Hk.
    unfold after in Hk. rewrite Hsb in Hk. destruct Hk as (_ & _ & _ & [Ht Hn Hr Hc]). by constructor.
Qed.
End rounds.

(** * The phase of a node *)

(** BTstack calls back for a handle that something is queued for. *)
Definition queued_for (h : Z) (t : Tracker) : Prop :=
  match lower_bound h (raw_packet_to_write t) with (k, _) :: _ => k = h | [] => False end.

(** A message that is flooded as it arrived: it can be written and read again. *)
Record floodable (m : Message) : Prop := {
  fl_ok : Message_ok m;
  fl_normal : normal_message m = m;
  fl_type : packet_type (base_of m) = type_message;
  fl_flag : hasSenderPeerID m = false;
  fl_ttl : packet_ttl (base_of m) > 0;
  fl_length : Z.of_nat (length (encoding (PMessage m))) < 2 ^ 16;
}.

#[global] Instance floodable_dec m : Decision (floodable m).
Proof.
  destruct (decide ((Message_ok m ∧ normal_message m = m ∧ packet_type (base_of m) = type_message) ∧
    hasSenderPeerID m = false ∧ packet_ttl (base_of m) > 0 ∧
    Z.of_nat (length (encoding (PMessage m))) < 2 ^ 16)) as [H|H];
    [left; destruct H as ((? & ? & ?) & ? & ? & ?); by constructor|right; intros []; tauto].
Defined.

Lemma floodable_forwardable m : floodable m → forwardable (PMessage m).
Proof. intros []. by split. Qed.

(** What a node sends, another one reads. *)
Lemma floodable_value m :
  floodable m → let enc := encoding (PMessage m) in
  value_ok 0 enc (Z.of_nat (length enc)) ∧ parse 0 enc (Z.of_nat (length enc)) = Ok (RMessage m).
Proof.
  intros Hm. pose proof (floodable_forwardable m Hm) as Hf. destruct Hm as [Hok Hn Ht _ _ Hl]. cbn zeta.
  split; [|by apply parse_encoding]. split_and!; [by apply encoding_bytes|done|by apply in_width_nat|done].
Qed.

Section node.
Context {env : Env} `{!AllocFresh env} {db : AttDb} (out ends : gset Z) (m : Message).

(** A node that writes over exactly the handles [out], and hears over [ends]; the
    attribute of the message packets is the same everywhere. *)
Record node_wf (t : Tracker) : Prop := {
  nw_wf : wf t;
  nw_can_send : can_send t;
  nw_writes : writes_only (calls t) t;
  nw_links : ∀ h, h ∈ out ↔ ∃ a c, connections t !! h = Some (a, c) ∧ available c = true;
  nw_value : ∀ h a c, connections t !! h = Some (a, c) → available c = true →
    packet_characteristic_value_handle c = VALUE_HANDLE;
  nw_ends : ∀ h, h ∈ ends → ∃ a c, connections t !! h = Some (a, c) ∧ connected c = true;
}.

(** The address [a] of the message, and that it is recorded for a handle. *)
Definition stored (t : Tracker) (a : Addr) : Prop := messages t !! message_id m = Some (a, m).

Definition recorded_for (t : Tracker) (a : Addr) (h : Z) : Prop :=
  ∃ con, (a, con) ∈ packets_connections_sent_list t ∧ handle_at t con = Some h.

(** Packets that are recorded to have been sent lie below the message, so that the
    search of [sendPackets] finds only the records of the message. *)
Definition in_phase (t : Tracker) (φ : Phase) : Prop :=
  match φ with
  | Unaware => messages t !! message_id m = None ∧ broadcast_packets_to_send_list t = [] ∧
      raw_packet_to_write t = [] ∧
      ∀ e, e ∈ packets_connections_sent_list t → fst e < alloc (used t)
  | Waiting from => raw_packet_to_write t = [] ∧ ∃ a, stored t a ∧
      (∀ h, from = Some h → recorded_for t a h) ∧
      broadcast_packets_to_send_list t = [a] ∧
      ∀ e, e ∈ packets_connections_sent_list t → a ≤ fst e → handle_at t (snd e) = from
  | Flooding _ todo =>
      raw_packet_to_write t ≡ₚ (λ h, (h, encoding (PMessage m))) <$> todo ∧
      ∃ a, stored t a ∧ (∀ h, h ∈ out → recorded_for t a h) ∧ looked_at t a ∧
        (broadcast_packets_to_send_list t = [] ∨ broadcast_packets_to_send_list t = [a])
  end.

Lemma in_phase_stored t φ : in_phase t φ → aware φ → ∃ a, stored t a.
Proof. destruct φ; [by intros _ []|..]; intros (_ & a & Ha & _); eauto. Qed.

(** ** What the operations keep *)

Lemma connection_quiet t t' h a c' :
  quiet <$> connections t' !! h = quiet <$> connections t !! h → connections t' !! h = Some (a, c') →
  ∃ c, connections t !! h = Some (a, c) ∧ connected c = connected c' ∧ role c = role c' ∧
    packet_characteristic_value_handle c = packet_characteristic_value_handle c'.
Proof.
  intros Hq Hc. rewrite Hc in Hq. destruct (connections t !! h) as [[a0 c]|]; [|done].
  apply (inj Some) in Hq. unfold quiet in Hq. cbn in Hq. injection Hq as <- Hq. exists c. split; [done|].
  by split_and!.
Qed.

Lemma writes_only_rebase cs t : writes_only cs t → writes_only (calls t) t.
Proof. intros []. constructor; [done|done|done|]. exists []. by rewrite app_nil_r. Qed.

Lemma node_wf_same t t' :
  node_wf t → wf t' → can_send t' → targeted_packets_to_send_list t' = [] → raw_packet_to_notify t' = [] →
  (∀ h, quiet <$> connections t' !! h = quiet <$> connections t !! h) → node_wf t'.
Proof.
  intros [Hwf _ [_ _ Hr _] Hl Hv He] Hwf' Hcan' Ht Hn Hq.
  assert (∀ h a c', connections t' !! h = Some (a, c') → ∃ c, connections t !! h = Some (a, c) ∧
    connected c = connected c' ∧ role c = role c' ∧ available c = available c' ∧
    packet_characteristic_value_handle c = packet_characteristic_value_handle c') as Hback.
  { intros h a c' Hc'. destruct (connection_quiet t t' h a c' (Hq h) Hc') as (c & ? & H1 & ? & H2).
    exists c. split_and!; try done. unfold available. by rewrite H1, H2. }
  assert (∀ h a c, connections t !! h = Some (a, c) → ∃ c', connections t' !! h = Some (a, c') ∧
    connected c' = connected c ∧ available c' = available c) as Hforth.
  { intros h a c Hc. destruct (connection_quiet t' t h a c (eq_sym (Hq h)) Hc) as (c' & ? & H1 & _ & H2).
    exists c'. split_and!; try done. unfold available. by rewrite H1, H2. }
  constructor; [done|done|constructor; [done|done| |by exists []; rewrite app_nil_r]|..].
  - intros h a c' (c & Hc & _ & <- & <- & _)%Hback. by eapply Hr.
  - intros h. rewrite Hl. split; intros (a & c & Hc & Hav).
    + destruct (Hforth h a c Hc) as (c' & ? & _ & ?). exists a, c'. split; congruence.
    + destruct (Hback h a c Hc) as (c' & ? & _ & _ & ? & _). exists a, c'. split; congruence.
  - intros h a c' (c & Hc & _ & _ & <- & <-)%Hback. by eapply Hv.
  - intros h (a & c & Hc & Hcon)%He. destruct (Hforth h a c Hc) as (c' & ? & ? & _). exists a, c'. split; congruence.
Qed.

(** ** A value arrives *)

Lemma node_known t φ con offset value size :
  in_phase t φ → aware φ → parse offset value size = Ok (RMessage m) →
  processWrite con offset value size t = Ok (tt, t).
Proof.
  intros Hφ Ha Hp. destruct (in_phase_stored t φ Hφ Ha) as [a Hs]. rewrite processWrite_parse, Hp.
  apply process_message_known. by rewrite Hs.
Qed.

Lemma relayed_calls con t : calls (relayed con m t) = calls t.
Proof. unfold relayed. cbn zeta. unfold enqueued, add_peer. cbn. by destruct (peers t !! _). Qed.

Lemma node_takes t h a c offset value size :
  floodable m → node_wf t → in_phase t Unaware → connections t !! h = Some (a, c) → connected c = true →
  parse offset value size = Ok (RMessage m) →
  ∃ t', processWrite (a, c) offset value size t = Ok (tt, t') ∧ node_wf t' ∧ in_phase t' (Waiting (Some h)) ∧
    calls t' = calls t.
Proof.
  intros Hm Hn (Hnew & Hb & Hw & Hrec) Hc Hcon Hp. pose proof (nw_wf _ Hn) as Hwf.
  pose proof (nw_writes _ Hn) as [Ht Hno _ _]. rewrite processWrite_parse, Hp. cbn [process].
  destruct (process_message_new (a, c) m t Hwf) as (-> & Hwf' & _); [by exists h; cbn; rewrite Hc|done|].
  cbn [fst] in *. pose proof (relayed_fields a m t) as Hf. cbn zeta in Hf.
  destruct Hf as (Hms & _ & Hl & Hbl & Htl & Hcs & _ & _ & _ & Hout).
  pose proof (relayed_handle a m t) as Hha. pose proof (relayed_calls a t) as Hcalls.
  assert (can_send (relayed a m t)) as Hcan.
  { destruct (nw_can_send _ Hn) as [Hnd Hfw]. split; [done|].
    apply relayed_forwardable; [done|done|done|by apply floodable_forwardable]. }
  set (t' := relayed a m t) in *. unfold outbox in Hout. rewrite Hno, Hw in Hout. apply app_nil in Hout as [Hno' Hw'].
  assert (handle_at t a = Some h) as Hh.
  { unfold handle_at. destruct (connection_at_object t (wf_separate t Hwf) h a c Hc) as [_ ->]. cbn.
    by rewrite (wf_handles t Hwf h a c Hc Hcon). }
  exists t'. split_and!; [done| | |done].
  - apply (node_wf_same t); [done|done|done|congruence|done|]. intros x. by rewrite Hcs.
  - split; [done|]. exists (alloc (used t)). split_and!.
    + unfold stored. rewrite Hms. apply lookup_insert_eq.
    + intros x [= <-]. exists a. rewrite Hl, Hha. split; [apply elem_of_emplace; by left|done].
    + rewrite Hbl, Hb, decide_True; [done|]. apply (fl_ttl m Hm).
    + intros e He Hle. rewrite Hl in He. apply elem_of_emplace in He as [->|He]; [by rewrite Hha|].
      apply Hrec in He. lia.
Qed.

(** ** The main loop comes to sendPackets *)

(** The calls that are made hand no value over. *)
Definition silent (t t' : Tracker) : Prop := ∃ new, calls t' = calls t ++ new ∧ Forall no_write new.

Lemma silent_refl t : silent t t.
Proof. exists []. by rewrite app_nil_r. Qed.

Lemma stored_packet t a : wf t → stored t a → packet_at t a = Some (PMessage m) ∧ live_packet t a.
Proof.
  intros Hwf Hs. unfold stored in Hs. assert (addr_of t (OMessage (message_id m)) = Some a) as Ha by (cbn; by rewrite Hs).
  rewrite (packet_at_object _ (wf_separate _ Hwf) (OMessage (message_id m)));
    [|done|done]. cbn. rewrite Hs. split; [done|by exists (OMessage (message_id m))].
Qed.

(** A round with the message in the queue. *)
Lemma node_round t a :
  node_wf t → stored t a → broadcast_packets_to_send_list t = [a] →
  looked_at t a →
  ∃ t' todo, sendPackets t = Ok (tt, t') ∧ node_wf t' ∧ silent t t' ∧ NoDup todo ∧
    (∀ h, h ∈ todo ↔ h ∈ out ∧
       ∀ e, e ∈ packets_connections_sent_list t → a ≤ fst e → handle_at t (snd e) ≠ Some h) ∧
    raw_packet_to_write t' ≡ₚ ((λ h, (h, encoding (PMessage m))) <$> todo) ++ raw_packet_to_write t ∧
    stored t' a ∧ looked_at t' a ∧ (∀ h, h ∈ todo ∨ recorded_for t a h → recorded_for t' a h) ∧
    (broadcast_packets_to_send_list t' = [] ∨ broadcast_packets_to_send_list t' = [a]).
Proof.
  intros Hn Hs Hb Hrec. pose proof (nw_wf _ Hn) as Hwf. destruct (stored_packet t a Hwf Hs) as [Hpk Hlive].
  destruct (nw_writes _ Hn) as [Htg Hno _ _].
  destruct (flood_round t a m Hwf (nw_can_send _ Hn) Htg Hb Hrec Hpk)
    as (t' & todo & Hrun & Hwf' & Hout & Hnd & Hin & Hround & Hserved).
  destruct (after_round_frame a t t' Hwf (nw_can_send _ Hn) Hlive Hround) as [Hms Hcs Hha Hre Hrs Hbr Hcan Hw].
  pose proof (Hw _ (nw_writes _ Hn)) as [Htg' Hno' _ Hcalls].
  unfold outbox in Hout. rewrite Hno, Hno' in Hout.
  assert (∀ h, h ∈ todo ↔ h ∈ out ∧
       ∀ e, e ∈ packets_connections_sent_list t → a ≤ fst e → handle_at t (snd e) ≠ Some h) as Htodo.
  { intros h. rewrite Hin, (broadcast_sends_recorded t a h Hwf Hrec), (nw_links _ Hn). split.
    - intros (b & c & Hc & Hav & Hall). destruct (available_handle t h b c Hwf Hc Hav) as [<- _]. eauto.
    - intros [(b & c & Hc & Hav) Hall]. exists b, c.
      destruct (available_handle t h b c Hwf Hc Hav) as [-> _]. eauto. }
  exists t', todo. split_and!; [done| |done|done|done|done| | | |].
  - by apply (node_wf_same t).
  - unfold stored. by rewrite Hms.
  - destruct Hrec as [[c0 Hc0]|Htop]; [left; eauto|right]. intros e He.
    destruct (Hrs e He) as [->|He']; [lia|by apply Htop].
  - intros h [Hh|(con & Hr & Hx)]; [|exists con; rewrite Hha; auto].
    destruct (Hserved h) as (con & Hr & Hx); [by apply Hin|]. exists con. by rewrite Hha.
  - destruct Hbr as [->| ->]; auto.
Qed.

Lemma waiting_looked_at t a from :
  wf t → (∀ h, from = Some h → recorded_for t a h) →
  (∀ e, e ∈ packets_connections_sent_list t → a ≤ fst e → handle_at t (snd e) = from) → looked_at t a.
Proof.
  intros Hwf Hr Hall. destruct from as [h|].
  - destruct (Hr h eq_refl) as (con & Hcon & _). left. by exists con.
  - right. intros e He. destruct (decide (fst e ≤ a)) as [|Hlt]; [done|]. exfalso.
    specialize (Hall e He ltac:(lia)). destruct (po_sent t (wf_pointers t Hwf) e He) as [_ Hlive].
    apply (connection_at_live t (wf_separate t Hwf)) in Hlive as (h & c & _ & _ & Hc).
    unfold handle_at in Hall. by rewrite Hc in Hall.
Qed.

Lemma node_floods t h :
  node_wf t → in_phase t (Waiting h) →
  ∃ t' todo, sendPackets t = Ok (tt, t') ∧ node_wf t' ∧ silent t t' ∧ in_phase t' (Flooding h todo) ∧
    NoDup todo ∧ ∀ x, x ∈ todo ↔ x ∈ out ∧ Some x ≠ h.
Proof.
  intros Hn (Hw & a & Hs & Hfrom & Hb & Hall).
  pose proof (waiting_looked_at t a h (nw_wf _ Hn) Hfrom Hall) as Hlook.
  destruct (node_round t a Hn Hs Hb Hlook)
    as (t' & todo & Hrun & Hn' & Hsil & Hnd & Htodo & Hraw & Hs' & Hlook' & Hr & Hb').
  rewrite Hw, app_nil_r in Hraw.
  assert (∀ x, x ∈ todo ↔ x ∈ out ∧ Some x ≠ h) as Hiff.
  { intros x. rewrite Htodo. split; intros [Ho Hne]; (split; [done|]).
    - intros Hx. destruct (Hfrom x (eq_sym Hx)) as (con & Hcon & Hc). by apply (Hne (a, con) Hcon).
    - intros e He Hle. rewrite (Hall e He Hle). congruence. }
  exists t', todo. split_and!; [done|done|done| |done|done]. split; [done|]. exists a. split_and!; [done| |done|done].
  intros x Ho. destruct (decide (Some x = h)) as [Hx|]; [|apply Hr; left; by apply Hiff].
  apply Hr. right. by apply Hfrom.
Qed.

(** Afterwards and before, there is nothing more to send. *)
Lemma node_flooded t h todo :
  node_wf t → in_phase t (Flooding h todo) →
  ∃ t', sendPackets t = Ok (tt, t') ∧ node_wf t' ∧ silent t t' ∧ in_phase t' (Flooding h todo).
Proof.
  intros Hn (Hw & a & Hs & Hr & Hlook & Hb). destruct (nw_writes _ Hn) as [Htg _ _ _].
  destruct Hb as [Hb|Hb].
  { exists t. split_and!; [|done|apply silent_refl|split; [done|eauto 10]].
    unfold sendPackets. rewrite (M_bind_ok get _ _ _ _ eq_refl). by rewrite decide_True by done. }
  destruct (node_round t a Hn Hs Hb Hlook)
    as (t' & todo' & Hrun & Hn' & Hsil & _ & Htodo & Hraw & Hs' & Hlook' & Hr' & Hb').
  assert (todo' = []) as ->.
  { destruct todo' as [|x todo']; [done|]. exfalso.
    destruct (proj1 (Htodo x)) as [Ho Hno]; [apply elem_of_cons; by left|].
    destruct (Hr x Ho) as (con & Hc & Hx). by apply (Hno (a, con) Hc). }
  exists t'. split_and!; [done|done|done|]. split; [by rewrite Hraw|]. exists a. split_and!; [done| |done|done].
  intros x Hx. apply Hr'. right. by apply Hr.
Qed.

Lemma node_unaware t : node_wf t → in_phase t Unaware → sendPackets t = Ok (tt, t).
Proof.
  intros Hn (_ & Hb & _). destruct (nw_writes _ Hn) as [Htg _ _ _].
  unfold sendPackets. rewrite (M_bind_ok get _ _ _ _ eq_refl). by rewrite decide_True by done.
Qed.

(** ** BTstack can write *)

(** The call that hands the message over. *)
Definition hand_over (h : Z) : Call :=
  gatt_client_write_value_of_characteristic_without_response h VALUE_HANDLE (encoding (PMessage m)).

(** The state afterwards, with the queue [l]. *)
Lemma node_queue t φ φ' h l new :
  node_wf t → in_phase t φ →
  let t1 := upd_raw_packet_to_write (λ _, l) t in
  let t' := match lower_bound h l with
            | [] => upd_calls (λ cs, cs ++ new) t1
            | _ => upd_calls (λ cs, cs ++ new) (upd_write_context (λ _, Some h) t1)
            end in
  (in_phase t φ → in_phase t1 φ') → node_wf t' ∧ in_phase t' φ'.
Proof.
  intros Hn Hφ t1 t' Hφ'. specialize (Hφ' Hφ). destruct (nw_writes _ Hn) as [Ht Hno _ _].
  assert (wf t1) as Hwf1 by apply wf_write, Hn. split.
  - apply (node_wf_same t); [done| |by unfold t'; case_match; apply (nw_can_send _ Hn)
      |by unfold t'; case_match|by unfold t'; case_match|by unfold t'; case_match].
    unfold t'. case_match; apply wf_calls; [done|]. by apply wf_write_context.
  - unfold t'. case_match; exact Hφ'.
Qed.

(** Taking one off a queue in which every element is the same. *)
Lemma same_queue {A B} (d : B) (l l' : list (A * B)) x todo :
  l ≡ₚ (λ h, (h, d)) <$> todo → l ≡ₚ (x, d) :: l' →
  todo ≡ₚ x :: (fst <$> l') ∧ l' ≡ₚ (λ h, (h, d)) <$> (fst <$> l').
Proof.
  intros Hl Hx. assert (∀ e, e ∈ l → snd e = d) as Hall.
  { intros e He. rewrite Hl in He. by apply list_elem_of_fmap in He as (h & -> & _). }
  split.
  - transitivity (fst <$> l); [|by rewrite Hx]. rewrite Hl, <- list_fmap_compose. cbn.
    by rewrite list_fmap_id.
  - rewrite <- list_fmap_compose. rewrite <- (list_fmap_id l') at 1. apply Permutation_refl', list_fmap_ext.
    intros i [h d'] He%list_elem_of_lookup_2. cbn. f_equal. apply (Hall (h, d')). rewrite Hx.
    apply elem_of_cons. by right.
Qed.

Lemma node_writes t hf todo h :
  node_wf t → in_phase t (Flooding hf todo) → (∀ x, x ∈ todo → x ∈ out) → queued_for h t →
  u8 (answer (calls t) (hand_over h)) ≠ ERROR_CODE_UNKNOWN_CONNECTION_IDENTIFIER →
  ∃ t' new todo', writeRawPacket h t = Ok (tt, t') ∧ node_wf t' ∧ in_phase t' (Flooding hf todo') ∧
    calls t' = calls t ++ new ∧
    if decide (u8 (answer (calls t) (hand_over h)) = ERROR_CODE_SUCCESS)
    then todo ≡ₚ h :: todo' ∧ accepted (calls t) new = [(h, VALUE_HANDLE, encoding (PMessage m))]
    else todo' = todo ∧ accepted (calls t) new = [].
Proof.
  intros Hn Hφ Hsub Hq Hknown. pose proof Hφ as [Hraw _]. unfold queued_for in Hq.
  destruct (lower_bound h (raw_packet_to_write t)) as [|[k data] rest] eqn:Hlb; [done|]. subst k.
  pose proof (erase_lower_bound_permutation _ _ _ _ Hlb) as Her.
  assert ((h, data) ∈ raw_packet_to_write t) as Hin by (rewrite Her; apply elem_of_cons; by left).
  rewrite Hraw in Hin. apply list_elem_of_fmap in Hin as (x & He & Hx).
  assert (h = x ∧ data = encoding (PMessage m)) as [<- ->] by (by injection He).
  destruct (proj1 (nw_links _ Hn h) (Hsub h Hx)) as (a & c & Hc & Hav).
  pose proof (writeRawPacket_run h t a c h _ rest (proj1 (nw_can_send _ Hn)) Hc Hlb) as Hrun.
  cbn zeta in Hrun. rewrite (nw_value _ Hn h a c Hc Hav) in Hrun. fold (hand_over h) in Hrun.
  unfold handed_over in Hrun. set (ret := u8 (answer (calls t) (hand_over h))) in *.
  set (l := if decide (ret = ERROR_CODE_SUCCESS ∨ ret = ERROR_CODE_UNKNOWN_CONNECTION_IDENTIFIER)
            then erase_lower_bound h (raw_packet_to_write t) else raw_packet_to_write t) in *.
  set (new := hand_over h :: match lower_bound h l with [] => [] | _ =>
    [gatt_client_request_to_write_without_response h] end).
  set (t' := match lower_bound h l with
             | [] => upd_calls (λ cs, cs ++ new) (upd_raw_packet_to_write (λ _, l) t)
             | _ => upd_calls (λ cs, cs ++ new)
                      (upd_write_context (λ _, Some h) (upd_raw_packet_to_write (λ _, l) t))
             end).
  assert (writeRawPacket h t = Ok (tt, t')) as Hrun'.
  { rewrite Hrun. unfold t', new. destruct (lower_bound h l); [done|]. unfold upd_calls. cbn.
    by rewrite <- app_assoc. }
  assert (accepted (calls t) new = if decide (ret = ERROR_CODE_SUCCESS)
    then [(h, VALUE_HANDLE, encoding (PMessage m))] else []) as Hacc.
  { unfold new. cbn [accepted]. fold (hand_over h). unfold hand_over at 1. fold ret.
    destruct (lower_bound h l); cbn; by case_decide. }
  exists t', new, (if decide (ret = ERROR_CODE_SUCCESS) then fst <$> l else todo).
  rewrite Hacc. split; [done|].
  destruct (node_queue t (Flooding hf todo) (Flooding hf (if decide (ret = ERROR_CODE_SUCCESS)
    then fst <$> l else todo)) h l new Hn Hφ) as [? ?].
  { intros [_ Hrest]. split; [|exact Hrest]. unfold l. cbn [raw_packet_to_write upd_raw_packet_to_write].
    destruct (decide (ret = ERROR_CODE_SUCCESS)) as [Hs|Hs].
    - rewrite decide_True by auto. by eapply same_queue.
    - rewrite decide_False by tauto. done. }
  split_and!; [done|done|by unfold t'; case_match|]. case_decide as Hs; [|done]. split; [|done].
  unfold l. rewrite decide_True by auto. by eapply same_queue.
Qed.
End node.
