(* ===== verification/Network.v ===== *)
(** A network of repeaters: the program on several nodes, joined by Bluetooth, and the
    flooding of one message through it.

    The state is the application of each node and the values in the air.  A value is
    in the air when BTstack took it from [writeRawPacket], as the list of calls shows, and
    arrives as a call of [att_write_callback] at the other end of the connection.  Steps
    of the nodes interleave in any order.  Each step of the network is a step of the
    abstract protocol of the file Flood, or none.

    The theorems hold for any schedule: how often the nodes come to [sendPackets],
    when BTstack calls back, and in which order values arrive. *)

From S2P Require Import Prelude BinaryIO Packets StdContainers BleConnection Tracker TrackerWf TrackerSafety Sending Protocol Application Callbacks Discovery Flood Nodes.

(** * The network *)

(** A value on its way: to which node, over which handle, for which attribute. *)
Record Flight := mkFlight {
  to_node : Z;
  over_handle : Z;
  for_attribute : Z;
  value : list Z;
}.

Record Net := mkNet {
  repeaters : gmap Z App;
  air : list Flight;
}.

Inductive Step :=
| Send (i : Z)               (* the main loop of node [i] comes to [sendPackets] *)
| CanWrite (i h : Z)         (* BTstack of node [i] can write for handle [h] *)
| Deliver (k : nat).         (* the [k]-th value in the air arrives *)

Section network.
Context {db : AttDb} {le : LittleEndian} (envs : Z → Env) (G : Topology).

(** What leaves node [i] with the calls made between two states. *)
Definition outgoing (i : Z) (s s' : App) : list Flight :=
  let cs := calls (connection_tracker s) in
  omap (λ '(h, attribute, v), (λ d : Z * Z, mkFlight (fst d) (snd d) attribute v) <$> far_end G i h)
    (@accepted (envs i) cs (drop (length cs) (calls (connection_tracker s')))).

Definition at_node (i : Z) (m : M App unit) : M Net unit := λ w,
  match repeaters w !! i with
  | None => Ok (tt, w)
  | Some s =>
      match m s with
      | Ok (_, s') => Ok (tt, mkNet (<[i := s']> (repeaters w)) (air w ++ outgoing i s s'))
      | Err e => Err e
      end
  end.

Definition run_step (st : Step) : M Net unit :=
  match st with
  | Send i => at_node i (on_tracker (@sendPackets (envs i)))
  | CanWrite i h => at_node i (on_tracker (@writeRawPacket (envs i) h))
  | Deliver k => λ w,
      match air w !! k with
      | None => Ok (tt, w)
      | Some f =>
          at_node (to_node f) (ignore (@att_write_callback (envs (to_node f)) db le
              (over_handle f) (for_attribute f) ATT_TRANSACTION_MODE_NONE 0 (value f)
              (Z.of_nat (length (value f)))))
            (mkNet (repeaters w) (delete k (air w)))
      end
  end.

Definition step_ok (w : Net) (st : Step) : Prop :=
  match st with
  | Send _ => True
  | CanWrite i h => match repeaters w !! i with
                    | Some s => queued_for h (connection_tracker s) | None => False end
  | Deliver k => (k < length (air w))%nat
  end.

Fixpoint steps_ok (w : Net) (sts : list Step) : Prop :=
  match sts with
  | [] => True
  | st :: sts' => step_ok w st ∧
      match run_step st w with Ok (_, w') => steps_ok w' sts' | Err _ => True end
  end.

(** The values that arrive during some steps. *)
Definition deliveries (sts : list Step) : nat :=
  sum_list ((λ st, match st with Deliver _ => 1 | _ => 0 end)%nat <$> sts).
End network.

(** * Lemmas *)

Section refinement.
Context {db : AttDb} `{!AttDbOk db} {le : LittleEndian} (envs : Z → Env) (G : Topology).
Context (ends : Z → gset Z) (m : Message).
Context (Hfresh : ∀ i, AllocFresh (envs i)) (Hflood : floodable m).
(* values arrive where there is a connection *)
Context (Hends : ∀ i x j h, far_end G i x = Some (j, h) → h ∈ ends j).
(* BTstack knows the connections it calls back for *)
Context (Hknown : ∀ i cs h, u8 (@answer (envs i) cs (hand_over m h)) ≠ ERROR_CODE_UNKNOWN_CONNECTION_IDENTIFIER).

Definition node_ok (i : Z) (s : App) (φ : Phase) : Prop :=
  @node_wf (envs i) db (links G i) (ends i) (connection_tracker s) ∧
  @in_phase (envs i) (links G i) m (connection_tracker s) φ.

(** The message on its way. *)
Definition flight_ok (f : Flight) (d : Z * Z) : Prop :=
  (to_node f, over_handle f) = d ∧ snd d ∈ ends (fst d) ∧ for_attribute f = VALUE_HANDLE ∧
  parse 0 (value f) (Z.of_nat (length (value f))) = Ok (RMessage m).

Record floods (w : Net) (f : Flood) : Prop := {
  nf_nodes : ∀ i, option_Forall2 (λ s φ, node_ok i s φ) (repeaters w !! i) (phases f !! i);
  nf_air : Forall2 flight_ok (air w) (flying f);
}.

Lemma floods_node w f i φ :
  floods w f → phases f !! i = Some φ → ∃ s, repeaters w !! i = Some s ∧ node_ok i s φ.
Proof.
  intros [Hn _] Hi. specialize (Hn i). rewrite Hi in Hn. inversion Hn as [s ? Hok Heq|]. eauto.
Qed.

Lemma floods_phase w f i s :
  floods w f → repeaters w !! i = Some s → ∃ φ, phases f !! i = Some φ ∧ node_ok i s φ.
Proof.
  intros [Hn _] Hi. specialize (Hn i). rewrite Hi in Hn. inversion Hn as [? φ Hok Heq|]. eauto.
Qed.

Lemma floods_update w f i s φ a fl :
  floods w f → node_ok i s φ → Forall2 flight_ok a fl →
  floods (mkNet (<[i := s]> (repeaters w)) a) (mkFlood (<[i := φ]> (phases f)) fl).
Proof.
  intros [Hn _] Hok Ha. constructor; [|done]. intros j. cbn. rewrite !lookup_insert.
  case_decide; [subst; by constructor|apply Hn].
Qed.

(** A node that stays in its phase. *)
Lemma floods_stay w f i s φ a fl :
  floods w f → phases f !! i = Some φ → node_ok i s φ → Forall2 flight_ok a fl →
  floods (mkNet (<[i := s]> (repeaters w)) a) (mkFlood (phases f) fl).
Proof.
  intros Hf Hi Hok Ha. rewrite <- (insert_id (phases f) i φ Hi). by apply (floods_update w f).
Qed.

Lemma at_node_run i o w s s' :
  repeaters w !! i = Some s → o s = Ok (tt, s') →
  at_node envs G i o w = Ok (tt, mkNet (<[i := s']> (repeaters w)) (air w ++ outgoing envs G i s s')).
Proof. intros Hi Hm. unfold at_node. by rewrite Hi, Hm. Qed.

Lemma outgoing_new i s s' new :
  calls (connection_tracker s') = calls (connection_tracker s) ++ new →
  outgoing envs G i s s' = omap (λ '(h, attribute, v),
      (λ d : Z * Z, mkFlight (fst d) (snd d) attribute v) <$> far_end G i h)
    (@accepted (envs i) (calls (connection_tracker s)) new).
Proof. intros Hc. unfold outgoing. cbn zeta. by rewrite Hc, drop_app_length. Qed.

Lemma outgoing_silent i s s' :
  silent (connection_tracker s) (connection_tracker s') → outgoing envs G i s s' = [].
Proof. intros (new & Hc & Hn). by rewrite (outgoing_new i s s' new), accepted_none. Qed.

(** ** The steps *)

(** What becomes of a step: the network follows the abstract protocol. *)
Definition follows (f : Flood) (r : result (unit * Net)) : Prop :=
  ∃ w, r = Ok (tt, w) ∧ (floods w f ∨ ∃ f', flood_step G f f' ∧ floods w f').

Lemma flight_value f d : flight_ok f d →
  ∃ v, f = mkFlight (fst d) (snd d) VALUE_HANDLE v ∧ snd d ∈ ends (fst d) ∧
    parse 0 v (Z.of_nat (length v)) = Ok (RMessage m).
Proof.
  destruct f as [j h at' v]. intros (<- & ? & ? & ?). cbn in *. subst. by exists v.
Qed.

Lemma step_deliver w f k j h φ :
  floods w f → flying f !! k = Some (j, h) → phases f !! j = Some φ →
  ∃ w' f', run_step envs G (Deliver k) w = Ok (tt, w') ∧ flood_step G f f' ∧ floods w' f' ∧
    S (length (air w')) = length (air w).
Proof.
  intros Hf Hk Hj. destruct (Forall2_lookup_r _ _ _ _ _ (nf_air _ _ Hf) Hk) as (fl & Hfl & Hok).
  apply flight_value in Hok as (v & -> & He & Hp). cbn in He.
  destruct (floods_node w f j φ Hf Hj) as (s & Hs & Hn & Hφ).
  destruct (nw_ends _ _ _ Hn h He) as (a & c & Hc & Hcon).
  pose proof (Forall2_delete _ _ _ k (nf_air _ _ Hf)) as Hair.
  pose proof (length_delete_lt _ _ _ Hfl) as Hlen.
  assert (∃ t' φ', @processWrite (envs j) (a, c) 0 v (Z.of_nat (length v)) (connection_tracker s) = Ok (tt, t') ∧
    @node_wf (envs j) db (links G j) (ends j) t' ∧ @in_phase (envs j) (links G j) m t' φ' ∧
    calls t' = calls (connection_tracker s) ∧
    flood_step G f (mkFlood (<[j := φ']> (phases f)) (delete k (flying f)))) as
    (t' & φ' & Hrun & Hn' & Hφ' & Hcalls & Hstep).
  { destruct (decide (aware φ)) as [Ha|Ha].
    - exists (connection_tracker s), φ. split_and!; [by eapply node_known|done|done|done|].
      rewrite insert_id by done. by eapply fl_known.
    - assert (φ = Unaware) as -> by (by destruct φ; [|destruct Ha|destruct Ha]).
      destruct (node_takes (links G j) (ends j) m _ h a c 0 v _ Hflood Hn Hφ Hc Hcon Hp) as (t' & ? & ? & ? & ?).
      exists t', (Waiting (Some h)). split_and!; [done..|]. by eapply fl_take. }
  eexists _, _. split; [|split; [exact Hstep|]].
  - cbn [run_step]. rewrite Hfl. cbn [to_node over_handle for_attribute value fst snd].
    apply (at_node_run _ _ (mkNet _ _) s); [exact Hs|]. by eapply att_write_run.
  - rewrite (outgoing_silent j s) by (exists []; by rewrite app_nil_r). cbn [air repeaters].
    rewrite app_nil_r. split; [|done]. by apply (floods_update w f).
Qed.

Lemma send_run i w s t' :
  repeaters w !! i = Some s → @sendPackets (envs i) (connection_tracker s) = Ok (tt, t') →
  silent (connection_tracker s) t' →
  run_step envs G (Send i) w = Ok (tt, mkNet (<[i := set_tracker t' s]> (repeaters w)) (air w)).
Proof.
  intros Hi Hrun Hsil. cbn [run_step]. rewrite (at_node_run i _ w s (set_tracker t' s)); [|done|].
  - by rewrite (outgoing_silent i s (set_tracker t' s)), app_nil_r.
  - unfold on_tracker. by rewrite Hrun.
Qed.

(** A node that has the message and has not passed it on yet. *)
Lemma step_send_waiting w f i h :
  floods w f → phases f !! i = Some (Waiting h) →
  ∃ w' f', run_step envs G (Send i) w = Ok (tt, w') ∧ flood_step G f f' ∧ floods w' f'.
Proof.
  intros Hf Hi. destruct (floods_node w f i _ Hf Hi) as (s & Hs & Hn & Hφ).
  destruct (node_floods _ _ m _ h Hn Hφ) as (t' & todo & Hrun & Hn' & Hsil & Hφ' & Hnd & Htodo).
  eexists _, _. split; [by apply (send_run i w s t')|]. split; [by eapply fl_flood|].
  apply (floods_update w f); [done|by split|apply (nf_air _ _ Hf)].
Qed.

Lemma step_send_other w f i φ :
  floods w f → phases f !! i = Some φ → (∀ h, φ ≠ Waiting h) →
  ∃ w' s t', run_step envs G (Send i) w = Ok (tt, w') ∧ floods w' f ∧
    repeaters w !! i = Some s ∧ @sendPackets (envs i) (connection_tracker s) = Ok (tt, t') ∧
    match φ with Flooding _ todo => raw_packet_to_write t' = [] → todo = [] | _ => True end.
Proof.
  intros Hf Hi Hne. destruct (floods_node w f i _ Hf Hi) as (s & Hs & Hn & Hφ).
  assert (∃ t', @sendPackets (envs i) (connection_tracker s) = Ok (tt, t') ∧
    @node_wf (envs i) db (links G i) (ends i) t' ∧ silent (connection_tracker s) t' ∧
    @in_phase (envs i) (links G i) m t' φ) as (t' & Hrun & Hn' & Hsil & Hφ').
  { destruct φ as [|h|h todo]; [|by destruct (Hne h)|by eapply node_flooded].
    exists (connection_tracker s). split_and!; [by eapply node_unaware|done|apply silent_refl|done]. }
  eexists _, s, t'. split; [by apply (send_run i w s t')|]. split_and!; [|done|done|].
  - destruct f as [ph fl]. apply (floods_stay w (mkFlood ph fl) i _ φ); [done|done|by split|apply (nf_air _ _ Hf)].
  - destruct φ as [| |h todo]; [done|done|]. intros He. destruct Hφ' as [Hraw _]. rewrite He in Hraw.
    symmetry in Hraw. apply Permutation_nil_r in Hraw. by destruct todo.
Qed.

Lemma step_write w f i h s hf todo :
  floods w f → flood_inv G f → repeaters w !! i = Some s → queued_for h (connection_tracker s) →
  phases f !! i = Some (Flooding hf todo) →
  ∃ w', run_step envs G (CanWrite i h) w = Ok (tt, w') ∧
    if decide (u8 (@answer (envs i) (calls (connection_tracker s)) (hand_over m h)) = ERROR_CODE_SUCCESS)
    then ∃ f', flood_step G f f' ∧ floods w' f' else floods w' f.
Proof.
  intros Hf Hinv Hs Hq Hi. destruct (floods_node w f i _ Hf Hi) as (s' & Hs' & Hn & Hφ).
  rewrite Hs in Hs'. injection Hs' as <-.
  assert (∀ x, x ∈ todo → x ∈ links G i) as Hsub by (intros x; by eapply (fi_todo _ _ Hinv)).
  destruct (node_writes _ _ m _ hf todo h Hn Hφ Hsub Hq (Hknown i _ h))
    as (t' & new & todo' & Hrun & Hn' & Hφ' & Hcalls & Hacc).
  eexists. split.
  { cbn [run_step]. apply (at_node_run i _ w s (set_tracker t' s)); [done|]. unfold on_tracker. by rewrite Hrun. }
  rewrite (outgoing_new i s (set_tracker t' s) new) by done. case_decide; destruct Hacc as [Htodo Hacc]; rewrite Hacc.
  - cbn [omap list_omap]. assert (h ∈ todo) as Hh by (rewrite Htodo; apply elem_of_cons; by left).
    destruct (proj2 (fi_wired _ _ Hinv) i _ h Hi (Hsub h Hh)) as (j & x & Hfar & _). rewrite Hfar. cbn [fmap option_fmap option_map].
    eexists. split; [by eapply fl_transmit|]. apply (floods_update w f); [done|by split|].
    apply Forall2_app; [apply (nf_air _ _ Hf)|]. repeat constructor; cbn; [by eapply Hends|].
    by apply floodable_value.
  - subst todo'. cbn [omap list_omap]. rewrite app_nil_r. destruct f as [ph fl].
    apply (floods_stay w (mkFlood ph fl) i _ (Flooding hf todo)); [done|done|by split|apply (nf_air _ _ Hf)].
Qed.

(** Every step follows the protocol, and a delivery takes a value out of the air. *)
Lemma step_follows w f st :
  floods w f → flood_inv G f → step_ok w st →
  ∃ w', run_step envs G st w = Ok (tt, w') ∧
    (floods w' f ∨ ∃ f', flood_step G f f' ∧ floods w' f') ∧
    match st with Deliver _ => (length (air w') < length (air w))%nat | _ => True end.
Proof.
  intros Hf Hinv Hok. destruct st as [i|i h|k]; cbn [step_ok] in Hok.
  - destruct (repeaters w !! i) as [s|] eqn:Hs.
    2: { exists w. cbn [run_step]. unfold at_node. rewrite Hs. split_and!; [done|by left|done]. }
    destruct (floods_phase w f i s Hf Hs) as (φ & Hi & _).
    destruct (waiting_or φ) as [[h ->]|Hne].
    + destruct (step_send_waiting w f i h Hf Hi) as (w' & f' & ? & ? & ?). eauto 10.
    + destruct (step_send_other w f i φ Hf Hi Hne) as (w' & s' & t' & ? & ? & _). eauto 10.
  - destruct (repeaters w !! i) as [s|] eqn:Hs; [|done].
    destruct (floods_phase w f i s Hf Hs) as (φ & Hi & Hn & Hφ).
    destruct φ as [|h'|hf todo]; [by destruct Hφ as (_ & _ & Hw & _); unfold queued_for in Hok; rewrite Hw in Hok
      |by destruct Hφ as [Hw _]; unfold queued_for in Hok; rewrite Hw in Hok|].
    destruct (step_write w f i h s hf todo Hf Hinv Hs Hok Hi) as (w' & ? & Hor). exists w'.
    split_and!; [done| |done]. case_decide; auto.
  - assert (is_Some (flying f !! k)) as [[j h] Hk].
    { apply lookup_lt_is_Some. by rewrite <- (Forall2_length _ _ _ (nf_air _ _ Hf)). }
    destruct (fi_air _ _ Hinv j h) as [φ Hj]; [by eapply list_elem_of_lookup_2|].
    destruct (step_deliver w f k j h φ Hf Hk Hj) as (w' & f' & ? & ? & ? & ?). exists w'.
    split_and!; [done|eauto|lia].
Qed.

(** ** Schedules *)

Lemma deliveries_cons st sts :
  deliveries (st :: sts) = ((match st with Deliver _ => 1 | _ => 0 end) + deliveries sts)%nat.
Proof. done. Qed.

Lemma run_follows sts : ∀ w f,
  floods w f → flood_inv G f → steps_ok envs G w sts →
  ∃ w' f', for_each sts (run_step envs G) w = Ok (tt, w') ∧ rtc (flood_step G) f f' ∧
    floods w' f' ∧ flood_inv G f' ∧ (deliveries sts + flood_bound G f' ≤ flood_bound G f)%nat.
Proof.
  induction sts as [|st sts IH]; intros w f Hf Hinv Hok; [by exists w, f|]. destruct Hok as [Hst Hok].
  destruct (step_follows w f st Hf Hinv Hst) as (w1 & Hrun & Hor & Hlen). rewrite Hrun in Hok.
  cbn [for_each]. rewrite (M_bind_ok _ _ _ _ _ Hrun). setoid_rewrite deliveries_cons.
  destruct Hor as [Hf1|(f1 & Hstep & Hf1)].
  - destruct (IH w1 f Hf1 Hinv Hok) as (w' & f' & ? & ? & ? & ? & ?). exists w', f'. split_and!; try done.
    rewrite (Forall2_length _ _ _ (nf_air _ _ Hf)), (Forall2_length _ _ _ (nf_air _ _ Hf1)) in Hlen.
    destruct st; lia.
  - destruct (IH w1 f1 Hf1 (flood_step_inv G f f1 Hstep Hinv) Hok) as (w' & f' & ? & ? & ? & ? & ?).
    exists w', f'. split_and!; try done; [by eapply rtc_l|].
    rewrite (Forall2_length _ _ _ (nf_air _ _ Hf)), (Forall2_length _ _ _ (nf_air _ _ Hf1)) in Hlen.
    destruct (flood_step_bound G f f1 Hstep) as [Hle Hlt]. destruct st as [| |k]; [lia|lia|specialize (Hlt Hlen); lia].
Qed.

(** Nothing is in the air, and [sendPackets] leaves nobody with anything to write. *)
Definition settled (w : Net) : Prop :=
  air w = [] ∧ ∀ i s, repeaters w !! i = Some s →
    ∃ t', @sendPackets (envs i) (connection_tracker s) = Ok (tt, t') ∧ raw_packet_to_write t' = [].

Lemma settled_quiescent w f : floods w f → settled w ↔ quiescent G f.
Proof.
  intros Hf. assert (∀ i φ, phases f !! i = Some φ → ∃ s t', repeaters w !! i = Some s ∧
    @sendPackets (envs i) (connection_tracker s) = Ok (tt, t') ∧ (raw_packet_to_write t' = [] ↔ idle G i φ)) as Hnode.
  { intros i φ Hi. destruct (floods_node w f i φ Hf Hi) as (s & Hs & Hn & Hφ). exists s. destruct φ as [|h|h todo].
    - exists (connection_tracker s). split_and!; [done|by eapply node_unaware|]. cbn. split; [done|]. intros _. apply Hφ.
    - destruct (node_floods _ _ m _ h Hn Hφ) as (t' & todo & Hrun & _ & _ & [Hraw _] & _ & Htodo).
      exists t'. split_and!; [done|done|]. cbn. split.
      + intros He x Hx. rewrite He in Hraw. symmetry in Hraw. apply Permutation_nil_r in Hraw.
        destruct (decide (Some x = h)) as [|Hne]; [done|].
        destruct todo as [|y todo]; [|done]. exfalso. by eapply elem_of_nil, Htodo.
      + intros Hsub. destruct todo as [|y todo]; [by apply Permutation_nil_r in Hraw|].
        destruct (proj1 (Htodo y)) as [Hy Hne]; [apply elem_of_cons; by left|]. by destruct (Hne (Hsub y Hy)).
    - destruct (node_flooded _ _ m _ h todo Hn Hφ) as (t' & Hrun & _ & _ & [Hraw _]).
      exists t'. split_and!; [done|done|]. cbn. split.
      + intros He. rewrite He in Hraw. symmetry in Hraw. apply Permutation_nil_r in Hraw. by destruct todo.
      + intros ->. by apply Permutation_nil_r in Hraw. }
  pose proof (Forall2_length _ _ _ (nf_air _ _ Hf)) as Hlen.
  split; intros [Hair Hall]; split.
  - rewrite Hair in Hlen. by destruct (flying f).
  - intros i φ Hi. destruct (Hnode i φ Hi) as (s & t' & Hs & Hrun & Hiff).
    destruct (Hall i s Hs) as (t'' & Hrun' & He). apply Hiff. congruence.
  - rewrite Hair in Hlen. by destruct (air w).
  - intros i s Hs. destruct (floods_phase w f i s Hf Hs) as (φ & Hi & _).
    destruct (Hnode i φ Hi) as (s' & t' & Hs' & Hrun & Hiff). rewrite Hs in Hs'. injection Hs' as <-.
    exists t'. split; [done|]. apply Hiff. by apply Hall.
Qed.

(** BTstack takes what it is given. *)
Definition accepting : Prop :=
  ∀ i cs h, u8 (@answer (envs i) cs (hand_over m h)) = ERROR_CODE_SUCCESS.

Lemma progress w f :
  accepting → floods w f → flood_inv G f → ¬ quiescent G f →
  ∃ st w' f', step_ok w st ∧ run_step envs G st w = Ok (tt, w') ∧ flood_step G f f' ∧ floods w' f'.
Proof.
  intros Hacc Hf Hinv Hq. destruct (flying f) as [|[j h] fl] eqn:Hfl.
  - assert (∃ i φ, phases f !! i = Some φ ∧ ¬ idle G i φ) as (i & φ & Hi & Hidle).
    { apply map_not_Forall; [apply _|]. intros Hall. by apply Hq. }
    destruct φ as [|h|hf todo]; [done| |].
    + destruct (step_send_waiting w f i h Hf Hi) as (w' & f' & ? & ? & ?). by exists (Send i), w', f'.
    + destruct (floods_node w f i _ Hf Hi) as (s & Hs & _ & [Hraw _]).
      destruct (raw_packet_to_write (connection_tracker s)) as [|[h d] rest] eqn:Hr.
      { symmetry in Hraw. apply Permutation_nil_r in Hraw. by destruct todo. }
      assert (queued_for h (connection_tracker s)) as Hqf.
      { unfold queued_for. rewrite Hr. cbn. by rewrite decide_False by lia. }
      destruct (step_write w f i h s hf todo Hf Hinv Hs Hqf Hi) as (w' & Hrun & Hstep).
      rewrite decide_True in Hstep by apply Hacc. destruct Hstep as (f' & ? & ?).
      exists (CanWrite i h), w', f'. split_and!; [|done..]. cbn. by rewrite Hs.
  - destruct (fi_air _ _ Hinv j h) as [φ Hj]; [rewrite Hfl; apply elem_of_cons; by left|].
    destruct (step_deliver w f 0 j h φ Hf) as (w' & f' & ? & ? & ? & ?); [by rewrite Hfl|done|].
    exists (Deliver 0), w', f'. split_and!; try done. cbn. lia.
Qed.

Lemma settles w f :
  accepting → floods w f → flood_inv G f →
  ∃ sts w' f', steps_ok envs G w sts ∧ for_each sts (run_step envs G) w = Ok (tt, w') ∧
    (length sts ≤ flood_measure G f)%nat ∧ rtc (flood_step G) f f' ∧ floods w' f' ∧ quiescent G f'.
Proof.
  intros Hacc. remember (flood_measure G f) as n eqn:Hn. revert w f Hn.
  induction n as [n IH] using lt_wf_ind. intros w f -> Hf Hinv.
  destruct (decide (flying f = [] ∧ map_Forall (idle G) (phases f))) as [Hq|Hq].
  { exists [], w, f. split_and!; try done; cbn; lia. }
  destruct (progress w f Hacc Hf Hinv Hq) as (st & w1 & f1 & Hok & Hrun & Hstep & Hf1).
  pose proof (flood_step_measure G f f1 Hstep) as Hlt.
  destruct (IH _ Hlt w1 f1 eq_refl Hf1 (flood_step_inv G f f1 Hstep Hinv))
    as (sts & w' & f' & Hoks & Hruns & Hlen & Hstar & Hf' & Hq').
  exists (st :: sts), w', f'. split_and!; try done.
  - split; [done|]. by rewrite Hrun.
  - cbn [for_each]. by rewrite (M_bind_ok _ _ _ _ _ Hrun).
  - cbn. lia.
  - by eapply rtc_l.
Qed.

(** ** The beginning *)

(** A value with the message is on its way to node [o], from outside the network,
    whose nodes do not know the message and have nothing to send. *)
Record arriving (o h : Z) (w : Net) : Prop := {
  ar_air : ∃ v, air w = [mkFlight o h VALUE_HANDLE v] ∧ parse 0 v (Z.of_nat (length v)) = Ok (RMessage m);
  ar_origin : is_Some (repeaters w !! o) ∧ h ∈ ends o ∧ far_end G o h = None;
  ar_nodes : ∀ i s, repeaters w !! i = Some s → node_ok i s Unaware;
  ar_links : ∀ i x, is_Some (repeaters w !! i) → x ∈ links G i →
    ∃ j h', far_end G i x = Some (j, h') ∧ is_Some (repeaters w !! j);
}.

Definition unaware_nodes (w : Net) : gmap Z Phase := (λ _, Unaware) <$> repeaters w.

Context (Hsym : ∀ i x j h, far_end G i x = Some (j, h) → far_end G j h = Some (i, x)).

Lemma arriving_floods o h w :
  arriving o h w → floods w (flood_start (unaware_nodes w) o h) ∧
    flood_inv G (flood_start (unaware_nodes w) o h).
Proof.
  intros [(v & Hair & Hp) (Ho & He & Hout) Hn Hl]. split.
  - constructor; cbn [phases flying flood_start].
    + intros i. unfold unaware_nodes. rewrite lookup_fmap. destruct (repeaters w !! i) eqn:Hs; constructor. by apply Hn.
    + rewrite Hair. by repeat constructor.
  - unfold unaware_nodes. apply flood_start_inv; [|by rewrite lookup_fmap, fmap_is_Some|done|].
    + intros i φ. rewrite lookup_fmap, fmap_Some. by intros (? & _ & ->).
    + split; [done|]. cbn [phases flood_start]. setoid_rewrite lookup_fmap. setoid_rewrite fmap_is_Some.
      intros i φ x (s & Hs & _)%fmap_Some Hx. by apply Hl.
Qed.

Lemma arriving_count o h w :
  let f := flood_start (unaware_nodes w) o h in
  flood_bound G f = (link_count G (unaware_nodes w) + 1)%nat ∧
  flood_measure G f = (2 * link_count G (unaware_nodes w) + size (repeaters w) + 1)%nat.
Proof.
  cbn zeta. destruct (flood_start_bound G (unaware_nodes w) o h) as [-> ->].
  - intros i φ. unfold unaware_nodes. rewrite lookup_fmap, fmap_Some. by intros (? & _ & ->).
  - unfold unaware_nodes. by rewrite map_size_fmap.
Qed.

(** A node has the message as it arrived. *)
Definition has_message (w : Net) (i : Z) : Prop :=
  ∃ s a, repeaters w !! i = Some s ∧ messages (connection_tracker s) !! message_id m = Some (a, m).

(** It is on its way to node [o], or there already: whoever [o] reaches gets it. *)
Lemma reached_from f0 o f i :
  comes_to f0 o → rtc (flood_step G) f0 f → ∀ w', floods w' f → flood_inv G f →
  quiescent G f → rtc (edge G) o i → has_message w' i.
Proof.
  intros Hcome Hrun w' Hf Hinv Hq Hpath. assert (aware_at f o) as Ho.
  { destruct (flood_steps_comes G _ f o Hrun Hcome) as [?|[h' Hin]]; [done|].
    destruct Hq as [Hnil _]. rewrite Hnil in Hin. by apply elem_of_nil in Hin. }
  destruct (quiescent_covers G f o i Hinv Hq Hpath Ho) as (φ & Hi & Ha).
  destruct (floods_node w' f i φ Hf Hi) as (s & Hs & _ & Hφ).
  destruct (in_phase_stored _ m _ φ Hφ Ha) as [a Hst]. by exists s, a.
Qed.

Lemma reached o h w f i :
  rtc (flood_step G) (flood_start (unaware_nodes w) o h) f → ∀ w', floods w' f → flood_inv G f →
  quiescent G f → rtc (edge G) o i → has_message w' i.
Proof. apply reached_from. right. exists h. by apply list_elem_of_singleton. Qed.

(** From any state of the protocol the schedule can be completed, and then it is over. *)
Lemma flood_steps_measure f f' :
  rtc (flood_step G) f f' → (flood_measure G f' ≤ flood_measure G f)%nat.
Proof. induction 1 as [|x y z Hxy _ IH]; [done|]. apply flood_step_measure in Hxy. lia. Qed.

Lemma flood_steps_inv f f' : rtc (flood_step G) f f' → flood_inv G f → flood_inv G f'.
Proof. induction 1; eauto using flood_step_inv. Qed.
End refinement.

(** * Properties *)

(** What the theorems below assume of the stack and of the connections. *)
Record network_ok {db : AttDb} (envs : Z → Env) (G : Topology) (ends : Z → gset Z) (m : Message) : Prop := {
  no_fresh : ∀ i, AllocFresh (envs i);
  no_symmetric : ∀ i x j h, far_end G i x = Some (j, h) → far_end G j h = Some (i, x);
  no_ends : ∀ i x j h, far_end G i x = Some (j, h) → h ∈ ends j;
  no_known : ∀ i cs h, u8 (@answer (envs i) cs (hand_over m h)) ≠ ERROR_CODE_UNKNOWN_CONNECTION_IDENTIFIER;
}.

(** C4: the repeaters together implement the flooding protocol.  When a message comes
    to one node of a network that does not know it, every schedule of sends, write
    callbacks and arrivals runs without undefined behaviour on any node, its states are
    those of a run of the abstract protocol, and no more values arrive than there are
    links to send over, and the first one: loops in the network end. *)
Theorem network_floods {db : AttDb} `{!AttDbOk db} {le : LittleEndian} envs G ends m o h w sts :
  network_ok envs G ends m → floodable m → arriving envs G ends m o h w → steps_ok envs G w sts →
  ∃ w' f, for_each sts (run_step envs G) w = Ok (tt, w') ∧
    rtc (flood_step G) (flood_start (unaware_nodes w) o h) f ∧ floods envs G ends m w' f ∧
    (deliveries sts ≤ link_count G (unaware_nodes w) + 1)%nat.
Proof.
  intros [Hfresh Hsym Hends Hknown] Hm Har Hok. destruct (arriving_floods envs G ends m Hsym o h w Har) as [Hf Hinv].
  destruct (run_follows envs G ends m Hfresh Hm Hends Hknown sts w _ Hf Hinv Hok) as (w' & f & ? & ? & ? & ? & Hle).
  destruct (arriving_count G o h w) as [Hb _]. exists w', f. split_and!; try done. lia.
Qed.

(** C5: when it is over, everybody has the message.  Once nothing is in the air and
    [sendPackets] leaves no node with anything to write, every node that can be
    reached from the first one over links has stored the message with all the fields it
    arrived with, in whatever order things happened. *)
Theorem network_covered {db : AttDb} `{!AttDbOk db} {le : LittleEndian} envs G ends m o h w sts w' i :
  network_ok envs G ends m → floodable m → arriving envs G ends m o h w → steps_ok envs G w sts →
  for_each sts (run_step envs G) w = Ok (tt, w') → settled envs w' → rtc (edge G) o i →
  has_message m w' i.
Proof.
  intros [Hfresh Hsym Hends Hknown] Hm Har Hok Hrun Hset Hpath.
  destruct (arriving_floods envs G ends m Hsym o h w Har) as [Hf Hinv].
  destruct (run_follows envs G ends m Hfresh Hm Hends Hknown sts w _ Hf Hinv Hok) as (w2 & f & Hrun2 & Hstar & Hf2 & Hinv2 & _).
  assert (w2 = w') as -> by congruence.
  eapply reached; [exact Hstar|exact Hf2|done| |exact Hpath].
  by apply (settled_quiescent envs G ends m Hfresh w').
Qed.

(** C6: and it can always be brought to an end.  While BTstack takes the values it is
    given, whatever happened so far can be continued by steps, no more than two for each
    link, one for each node and one, after which the network has settled and every
    node that can be reached has the message. *)
Theorem network_settles {db : AttDb} `{!AttDbOk db} {le : LittleEndian} envs G ends m o h w sts :
  network_ok envs G ends m → accepting envs m → floodable m → arriving envs G ends m o h w →
  steps_ok envs G w sts →
  ∃ w' more w'', for_each sts (run_step envs G) w = Ok (tt, w') ∧ steps_ok envs G w' more ∧
    for_each more (run_step envs G) w' = Ok (tt, w'') ∧
    (length more ≤ 2 * link_count G (unaware_nodes w) + size (repeaters w) + 1)%nat ∧
    settled envs w'' ∧ ∀ i, rtc (edge G) o i → has_message m w'' i.
Proof.
  intros [Hfresh Hsym Hends Hknown] Hacc Hm Har Hok.
  destruct (arriving_floods envs G ends m Hsym o h w Har) as [Hf Hinv].
  destruct (run_follows envs G ends m Hfresh Hm Hends Hknown sts w _ Hf Hinv Hok) as (w' & f & Hrun & Hstar & Hf' & Hinv' & _).
  destruct (settles envs G ends m Hfresh Hm Hends Hknown w' f Hacc Hf' Hinv')
    as (more & w'' & f' & Hoks & Hruns & Hlen & Hstar' & Hf'' & Hq).
  exists w', more, w''. destruct (arriving_count G o h w) as [_ Hc].
  pose proof (flood_steps_measure G _ _ Hstar) as Hle.
  split_and!; [done|done|done|lia|by apply (settled_quiescent envs G ends m Hfresh w'' f')|].
  intros i Hpath. eapply reached; [|exact Hf''| |exact Hq|exact Hpath]; [by etrans|].
  by eapply flood_steps_inv.
Qed.

(** ** Witnesses *)

(** A ring of three repeaters: each has opened one connection to the next, and the
    first one also hears a phone. *)
Definition ring_connection (r h : Z) : BleConnection :=
  setRole r (setPacketCharacteristicValueHandle (if decide (r = HCI_ROLE_MASTER) then 12 else 0)
    (setConnected true (setConnectionHandle h BleConnection_new))).

Definition ring_tracker (opened accepted : list Z) : Tracker :=
  mkTracker ∅ ∅ ∅ 1 Announce_new
    (list_to_map (((λ h, (h, (10 + h, ring_connection HCI_ROLE_MASTER h))) <$> opened) ++
                  ((λ h, (h, (10 + h, ring_connection HCI_ROLE_SLAVE h))) <$> accepted)))
    ∅ [] [] 0 ∅ [] [] [] [] None None None [].

Definition ring_opened : gmap Z (list Z * list Z) :=
  {[ 1 := ([1], [3; 5]); 2 := ([2], [1]); 3 := ([3], [2]) ]}.

Definition ring_wires : gmap (Z * Z) (Z * Z) :=
  {[ (1, 1) := (2, 1); (2, 1) := (1, 1); (2, 2) := (3, 2); (3, 2) := (2, 2); (3, 3) := (1, 3); (1, 3) := (3, 3) ]}.

Definition ring : Topology := {|
  links := λ i, list_to_set (default [] (fst <$> ring_opened !! i));
  far_end := λ i x, ring_wires !! (i, x);
|}.

Definition ring_ends (i : Z) : gset Z :=
  match ring_opened !! i with Some (opened, accepted) => list_to_set (opened ++ accepted) | None => ∅ end.

Definition ring_net : Net :=
  mkNet ((λ oa : list Z * list Z, App_new (ring_tracker (fst oa) (snd oa))) <$> ring_opened)
    [mkFlight 1 5 12 message_buffer].

Definition ring_message : Message := message_to_send "c".

Definition example_envs : Z → Env := λ _, example_env.

Lemma ring_ok : network_ok (db := example_db) example_envs ring ring_ends ring_message.
Proof.
  constructor.
  - apply _.
  - intros i x j h. cbn. revert i x j h.
    assert (map_Forall (λ k d, ring_wires !! d = Some k) ring_wires) as Hall by decide_concrete.
    intros i x j h Hw. exact (Hall _ _ Hw).
  - assert (map_Forall (λ _ d, snd d ∈ ring_ends (fst d)) ring_wires) as Hall by decide_concrete.
    intros i x j h Hw. exact (Hall _ _ Hw).
  - intros i cs h. vm_compute. done.
Qed.

(** Deciding that a node is in order. *)
Definition node_check {env : Env} {db : AttDb} (out ends : gset Z) (t : Tracker) : Prop :=
  (wf_check t = true ∧ ndebug = true ∧ Forall forwardable (all_packets t)) ∧
  (targeted_packets_to_send_list t = [] ∧ raw_packet_to_notify t = []) ∧
  map_Forall (λ h n, available (snd n) = true →
    h ∈ out ∧ role (snd n) ≠ HCI_ROLE_SLAVE ∧ packet_characteristic_value_handle (snd n) = VALUE_HANDLE)
    (connections t) ∧
  Forall (λ h, (available ∘ snd <$> connections t !! h) = Some true) (elements out) ∧
  Forall (λ h, (connected ∘ snd <$> connections t !! h) = Some true) (elements ends).

#[global] Instance node_check_dec {env : Env} {db : AttDb} out ends t : Decision (node_check out ends t).
Proof. unfold node_check. apply _. Defined.

Lemma node_check_sound {env : Env} {db : AttDb} out ends t : node_check out ends t → node_wf out ends t.
Proof.
  intros ((Hwf & Hnd & Hfw) & (Ht & Hno) & Hav & Hout & Hends). rewrite Forall_forall in Hout, Hends.
  constructor.
  - by apply wf_check_sound.
  - split; [done|by apply packets_forwardable_check].
  - constructor; [done|done| |exists []; by rewrite app_nil_r]. intros h a c Hc Ha. by eapply (Hav h (a, c)).
  - intros h. split; [|intros (a & c & Hc & Ha); by eapply (Hav h (a, c))].
    intros Hh%elem_of_elements%Hout. destruct (connections t !! h) as [[a c]|]; [|done].
    injection Hh. eauto.
  - intros h a c Hc Ha. by eapply (Hav h (a, c)).
  - intros h Hh%elem_of_elements%Hends. destruct (connections t !! h) as [[a c]|]; [|done].
    injection Hh. eauto.
Qed.

Lemma ring_arriving : arriving (db := example_db) example_envs ring ring_ends ring_message 1 5 ring_net.
Proof.
  constructor.
  - exists message_buffer. split; [done|]. vm_compute. reflexivity.
  - split_and!; [|decide_concrete|reflexivity]. by eexists.
  - assert (map_Forall (λ i s, @node_check example_env example_db (links ring i) (ring_ends i) (connection_tracker s) ∧
      (messages (connection_tracker s) !! message_id ring_message = None ∧
       broadcast_packets_to_send_list (connection_tracker s) = [] ∧ raw_packet_to_write (connection_tracker s) = []) ∧
      packets_connections_sent_list (connection_tracker s) = []) (repeaters ring_net)) as Hall by decide_concrete.
    intros i s Hs. destruct (Hall i s Hs) as (Hc & (? & ? & ?) & Hr). split; [by apply node_check_sound|].
    split_and!; try done. rewrite Hr. intros e He. by apply elem_of_nil in He.
  - assert (map_Forall (λ i _, Forall (λ x, is_Some (far_end ring i x ≫= λ d, repeaters ring_net !! fst d))
      (elements (links ring i))) (repeaters ring_net)) as Hall by decide_concrete.
    intros i x [s Hs] Hx. specialize (Hall i s Hs). rewrite Forall_forall in Hall.
    apply elem_of_elements, Hall in Hx. destruct (far_end ring i x) as [[j h]|]; [|by destruct Hx].
    exists j, h. by split.
Qed.

(** The message goes round the ring, and once more from the third node to the first. *)
Definition ring_steps : list Step :=
  [Deliver 0; Send 2; Send 1; CanWrite 1 1; Deliver 0; Send 2; Send 1; CanWrite 2 2; Deliver 0;
   Send 3; CanWrite 3 3; Deliver 0].

Definition ring_step : Step → M Net unit := run_step (db := example_db) (le := example_le) example_envs ring.

Definition ring_end : Net :=
  match for_each ring_steps ring_step ring_net with Ok (_, w) => w | Err _ => ring_net end.

Lemma ring_steps_ok : steps_ok (db := example_db) (le := example_le) example_envs ring ring_net ring_steps.
Proof. vm_compute. repeat split; apply le_n. Qed.

Lemma ring_floodable : floodable ring_message.
Proof. decide_concrete. Qed.

(** Deciding that a network has settled. *)
Definition settled_check (envs : Z → Env) (w : Net) : bool :=
  bool_decide (air w = []) &&
  forallb (λ '(i, s), match @sendPackets (envs i) (connection_tracker s) with
                      | Ok (_, t) => bool_decide (raw_packet_to_write t = []) | Err _ => false end)
    (map_to_list (repeaters w)).

Lemma settled_check_sound envs w : settled_check envs w = true → settled envs w.
Proof.
  intros [Hair%bool_decide_eq_true Hall]%andb_prop. split; [done|]. intros i s Hs.
  rewrite forallb_forall in Hall. specialize (Hall (i, s) ltac:(by apply list_elem_of_In, elem_of_map_to_list)).
  cbn in Hall. destruct (@sendPackets (envs i) (connection_tracker s)) as [[[] t]|]; [|done].
  exists t. split; [done|]. by apply bool_decide_eq_true in Hall.
Qed.

Lemma ring_settled : settled example_envs ring_end.
Proof. apply settled_check_sound. vm_compute. reflexivity. Qed.

Lemma ring_path i : i ∈ [1; 2; 3] → rtc (edge ring) 1 i.
Proof.
  assert (edge ring 1 2) as H12 by (exists 1, 1; split; [decide_concrete|reflexivity]).
  assert (edge ring 2 3) as H23 by (exists 2, 2; split; [decide_concrete|reflexivity]).
  intros Hi. repeat (apply elem_of_cons in Hi as [->|Hi]); [done|by apply rtc_once|by eapply rtc_l, rtc_once|].
  by apply elem_of_nil in Hi.
Qed.

Lemma network_floods_witness :
  ∃ w' f, for_each ring_steps ring_step ring_net = Ok (tt, w') ∧
    rtc (flood_step ring) (flood_start (unaware_nodes ring_net) 1 5) f ∧
    floods (db := example_db) example_envs ring ring_ends ring_message w' f ∧
    (deliveries ring_steps ≤ link_count ring (unaware_nodes ring_net) + 1)%nat.
Proof.
  apply (network_floods (db := example_db) (le := example_le) example_envs ring ring_ends ring_message 1 5 ring_net ring_steps);
    [apply ring_ok|apply ring_floodable|apply ring_arriving|apply ring_steps_ok].
Defined.

Lemma network_covered_witness : has_message ring_message ring_end 3.
Proof.
  apply (network_covered (db := example_db) (le := example_le) example_envs ring ring_ends ring_message 1 5 ring_net ring_steps);
    [apply ring_ok|apply ring_floodable|apply ring_arriving|apply ring_steps_ok|vm_compute; reflexivity
    |apply ring_settled|apply ring_path; decide_concrete].
Defined.

Lemma network_settles_witness :
  ∃ w' more w'', for_each [Deliver 0] ring_step ring_net = Ok (tt, w') ∧
    steps_ok (db := example_db) (le := example_le) example_envs ring w' more ∧
    for_each more ring_step w' = Ok (tt, w'') ∧
    (length more ≤ 2 * link_count ring (unaware_nodes ring_net) + size (repeaters ring_net) + 1)%nat ∧
    settled example_envs w'' ∧ ∀ i, rtc (edge ring) 1 i → has_message ring_message w'' i.
Proof.
  apply (network_settles (db := example_db) (le := example_le) example_envs ring ring_ends ring_message 1 5 ring_net [Deliver 0]);
    [apply ring_ok|intros i cs h; vm_compute; reflexivity|apply ring_floodable|apply ring_arriving|].
  vm_compute. repeat split; apply le_n.
Defined.
