(* ===== verification/Kept.v ===== *)
(** What the callbacks keep: the properties of the tracker that they do not look at,
    and the invariant.  [calm] callbacks bring no packets, so that they may run
    while the queues are gone through. *)

From S2P Require Import Prelude BinaryIO Packets StdContainers BleConnection Advertising Tracker TrackerWf TrackerSafety Sending Connections Protocol Clock Reports Stored Application Callbacks Discovery.

(** * What the application leaves alone *)

(** [m] keeps a property of the tracker. *)
Abbreviation keepa I m := (keeps (λ s : App, I (connection_tracker s)) m).

Section keepa.
Context {env : Env} (I : Tracker → Prop).

Lemma keepa_tracker {A} (m : M Tracker A) : keeps I m → keepa I (on_tracker m).
Proof.
  intros Hm s Hs. specialize (Hm _ Hs). unfold after, on_tracker in *. by destruct (m _) as [[]|].
Qed.
Lemma keepa_advertisement {A} (m : M Adv A) : keepa I (on_advertisement m).
Proof. intros s Hs. unfold after, on_advertisement. by destruct (m _) as [[]|]. Qed.
Lemma keepa_modify f : (∀ s, connection_tracker (f s) = connection_tracker s) → keepa I (modify f).
Proof. intros Hf. apply keeps_modify. intros s. by rewrite Hf. Qed.
Lemma keepa_count : keepa I count_activity.
Proof. by apply keepa_modify. Qed.
End keepa.

(** Goes through a body of the application. *)
Ltac keepa_step :=
  match goal with
  | |- keeps _ (on_tracker _) => apply keepa_tracker
  | |- keeps _ (app_ext _) => apply keepa_tracker
  | |- keeps _ (on_advertisement _) => apply keepa_advertisement
  | |- keeps _ count_activity => apply keepa_count
  | |- keeps (λ s : App, _) (modify _) => apply keepa_modify; done
  | |- _ => keep_step
  end.
Ltac keepa := repeat keepa_step.

Section linked.
Context {env : Env} {iterator : AdIterator} {db : AttDb} {le : LittleEndian}.
Context (I : Tracker → Prop) `{!Linked I}.

Lemma keepa_start_scanning : keepa I start_scanning_for_local_nodes.
Proof. unfold start_scanning_for_local_nodes. keepa. Qed.

Lemma keepa_hci type e : keepa I (hci_packet_handler type e).
Proof.
  pose proof keepa_start_scanning.
  unfold hci_packet_handler, gap_connection_complete, can_write_without_response, setup_advertisements, setup_scanning. keepa.
Qed.

Lemma keepa_client_event service e : keepa I (handle_gatt_client_event service e).
Proof. unfold handle_gatt_client_event, at_connection. keepa. Qed.

(** The callback takes no packet from a peer. *)
Definition bare (cb : Callback) : Prop :=
  match cb with
  | CbAttWrite _ a _ _ _ _ => a ≠ VALUE_HANDLE
  | CbValueUpdate _ (GATT_EVENT_NOTIFICATION _ _ _) => False
  | _ => True
  end.

Lemma keepa_bare cb : bare cb → keepa I (run_callback cb).
Proof.
  intros Hcb. destruct cb as [|h a t o b n|service e|frame e| | | | | | |]; cbn [run_callback bare] in *.
  - unfold ignore, att_read_callback. keepa.
  - unfold ignore, att_write_callback. keepa. by destruct Hcb.
  - apply keepa_client_event.
  - unfold handle_gatt_client_value_update_event. destruct e; [done|keepa..].
  - apply keepa_hci.
  - unfold att_packet_handler. keepa.
  - apply keepa_count.
  - unfold stop_scan_handler. keepa.
  - unfold gpio_callback. keepa.
  - keepa.
  - keepa.
Qed.
End linked.

Section stores.
Context {env : Env} {iterator : AdIterator} {db : AttDb} {le : LittleEndian}.
Context (I : Tracker → Prop) `{!Stores I}.

(** A written value that is a message does not claim to have a sender peer. *)
Definition unflagged_value (offset : Z) (buffer : list Z) (size : Z) : Prop :=
  match parse offset buffer size with Ok r => unflagged r | Err _ => True end.

Lemma keepa_att_write h a t o b n :
  value_ok o b n → unflagged_value o b n → keepa I (att_write_callback h a t o b n).
Proof.
  intros Hv Hu. assert (∀ c, keeps I (processWrite c o b n)) as Hw.
  { intros c. apply keeps_processWrite; [apply _|done|]. intros r Hr. unfold unflagged_value in Hu. by rewrite Hr in Hu. }
  unfold att_write_callback. keepa.
Qed.
End stores.

(** * Safe and kept *)

Section fine.
Context {env : Env} {iterator : AdIterator} {db : AttDb} {le : LittleEndian}.

(** A callback is called as it must be, and no message that claims to have a sender
    peer is written to the repeater. *)
Definition callback_fine (s : App) (cb : Callback) : Prop :=
  callback_ok s cb ∧
  match cb with CbAttWrite _ _ _ o b n => value_ok o b n ∧ unflagged_value o b n | _ => True end.

Fixpoint callbacks_fine (s : App) (cbs : list Callback) : Prop :=
  match cbs with
  | [] => True
  | cb :: cbs' => callback_fine s cb ∧ after (run_callback cb) (λ _ s', callbacks_fine s' cbs') s
  end.

End fine.

Section fine_lemmas.
Context {env : Env} `{!AllocFresh env} {iterator : AdIterator} `{!AdIteratorSpec iterator}.
Context {db : AttDb} {le : LittleEndian} `{!LittleEndianSpec le}.

(** The computation is safe, and keeps what the tracker's stores have. *)
Definition fine {A} (m : M App A) (Q : A → App → Prop) (s : App) : Prop :=
  wfa m Q s ∧ ∀ I : Tracker → Prop, Stores I → I (connection_tracker s) →
    after m (λ _ s', I (connection_tracker s')) s.

Lemma fine_bind {A B} (m : M App A) (k : A → M App B) R Q s :
  fine m R s → (∀ a s', wf (connection_tracker s') → R a s' → fine (k a) Q s') → fine (m ≫= k) Q s.
Proof.
  intros [Hm HI] Hk. split.
  - eapply wfa_bind; [exact Hm|]. intros a s' Hwf HR. by apply Hk.
  - intros I HIs Hs. apply after_bind. pose proof (HI I HIs Hs) as Ha.
    unfold wfa, wp, after in *. destruct (m s) as [[a s']|]; [|done]. destruct Hm as (Hwf & _ & HR).
    by apply (Hk a s' Hwf HR).
Qed.

Lemma fine_ret {A} (a : A) (Q : A → App → Prop) s :
  wf (connection_tracker s) → Q a s → fine (mret a) Q s.
Proof. intros Hwf HQ. split; [by apply wfa_ret|by intros]. Qed.

Lemma fine_keepa {A} (m : M App A) Q s :
  wfa m Q s → (∀ I, Stores I → keepa I m) → fine m Q s.
Proof. intros Hm HI. split; [done|]. intros I HIs Hs. by apply HI. Qed.

(** A notified value is not stored. *)
Lemma after_value_update I frame e s :
  Framed I → callback_ok s (CbValueUpdate frame e) → I (connection_tracker s) →
  after (run_callback (CbValueUpdate frame e)) (λ _ s', I (connection_tracker s')) s.
Proof.
  intros HI Hok Hs. cbn [run_callback]. unfold handle_gatt_client_value_update_event, after.
  rewrite (M_bind_ok count_activity _ _ _ _ eq_refl).
  destruct e as [h v n| |]; [|done..]. destruct Hok as [Hv Hp]. set (s1 := set_global_activity _ s).
  pose proof (keeps_connectionForConnHandle I h (connection_tracker s) Hs) as Hk.
  unfold after in Hk. rewrite connectionForConnHandle_run in Hk.
  rewrite (on_tracker_ok _ _ _ _ _ (connectionForConnHandle_run h (connection_tracker s1))).
  destruct (handle_node h _) as [a c]. unfold on_tracker. cbn [connection_tracker set_tracker].
  rewrite processWrite_parse. destruct (parse 0 v n) as [[m|an|]|]; try done. cbn [process].
  rewrite process_message_known; [done|]. apply not_eq_None_Some.
  unfold with_handle, set_connection. exact Hp.
Qed.

Lemma fine_callback s cb :
  callback_fine s cb → wf (connection_tracker s) → fine (run_callback cb) anya s.
Proof.
  intros [Hok Hfl] Hwf. split; [by apply wfa_callback|]. intros I HI Hs.
  pose proof (keepa_bare I) as Hbare.
  destruct cb as [|h a t o b n| |frame e| | | | | | |]; try by apply Hbare.
  - cbn [run_callback] in *. destruct Hfl as [Hv Hu]. pose proof (keepa_att_write I h a t o b n Hv Hu) as Hk.
    assert (keepa I (ignore (att_write_callback h a t o b n))) as Hk' by (unfold ignore; keepa). by apply Hk'.
  - by apply after_value_update; [apply _|..].
Qed.

Lemma fine_then {A B} (m : M App A) (k : A → M App B) Q s :
  wf (connection_tracker s) → fine m anya s →
  (∀ a s', wf (connection_tracker s') → fine (k a) Q s') → fine (m ≫= k) Q s.
Proof. intros Hwf Hm Hk. eapply fine_bind; [exact Hm|]. intros a s' Hwf' _. by apply Hk. Qed.

Lemma fine_after {A} (m : M App A) (Q P : A → App → Prop) s :
  fine m Q s → after m P s → fine m (λ a s', Q a s' ∧ P a s') s.
Proof.
  intros [Hm HI] Hp. split; [|done]. unfold wfa, wp, after in *.
  destruct (m s) as [[a s']|]; [|done]. destruct Hm as (? & ? & ?). by split_and!.
Qed.

Lemma fine_callbacks cbs : ∀ s,
  callbacks_fine s cbs → wf (connection_tracker s) → fine (for_each cbs run_callback) anya s.
Proof.
  induction cbs as [|cb cbs IH]; intros s Hok Hwf; [by apply fine_ret|]. destruct Hok as [Hcb Hrest].
  cbn [for_each]. eapply fine_bind; [eapply fine_after; [by apply fine_callback|exact Hrest]|].
  intros [] s' Hwf' [_ Hok']. by apply IH.
Qed.

Lemma fine_ext c s : wf (connection_tracker s) → fine (app_ext c) anya s.
Proof.
  intros Hwf. apply fine_keepa; [by eapply wfa_any, wfa_app_ext|]. intros I HI. keepa.
Qed.

Lemma fine_tracker {A} (m : M Tracker A) R s :
  wfp m R (connection_tracker s) → (∀ I, Stores I → keeps I m) → fine (on_tracker m) anya s.
Proof.
  intros Hm HI. apply fine_keepa; [by eapply wfa_tracker_any|]. intros I HIs. by apply keepa_tracker, HI.
Qed.

Lemma fine_modify f s :
  wf (connection_tracker s) → (∀ s, connection_tracker (f s) = connection_tracker s) →
  fine (modify f) anya s.
Proof.
  intros Hwf Hf. apply fine_keepa; [by eapply wfa_any, wfa_modify|]. intros I _. by apply keepa_modify.
Qed.

Lemma fine_scanning s : wf (connection_tracker s) → fine start_scanning_for_local_nodes anya s.
Proof.
  intros Hwf. apply fine_keepa; [by apply wfa_start_scanning|]. intros I HI. apply keepa_start_scanning, _.
Qed.

End fine_lemmas.
