(* ===== verification/Interrupted.v ===== *)
(** [sendPackets] with the callbacks that run while it sleeps: BTstack calls back from
    an interrupt, and [SendPacketToConnection] sleeps for 20 ms after each packet.

    The definitions follow those of Tracker, on the whole application, with a list of
    callbacks for each sleep.  A range-based [for] keeps its iterators: one over a map
    goes on with the next key that is there by then, one over a vector must not find
    that the vector has grown. *)

From S2P Require Import Prelude BinaryIO Packets StdContainers BleConnection Advertising Tracker TrackerWf TrackerSafety Sending Protocol Stored Application Callbacks Kept.

(** * sendPackets *)

(** The callbacks of the sleeps to come; when there are no more, nothing happens. *)
Abbreviation sleeps := (list (list Callback)) (only parsing).

(** The keys behind [k], in their order. *)
Definition keys_after (k : Z) (t : Tracker) : list Z :=
  filter (λ k', k < k') (fst <$> items (connections t)).

(** How many entries of [l] with the packet come before [todo], its entries still to come. *)
Definition passed (packet : Addr) (todo l : multimap Addr) : nat :=
  length (equal_range packet l) - length (equal_range packet todo).

(** The entries behind the [n]-th one with the packet; new ones come behind those with
    the same key. *)
Definition entries_after (packet : Addr) (n : nat) (l : multimap Addr) : multimap Addr :=
  drop n (equal_range packet l) ++ filter (λ e, packet < fst e) l.

(** [begin()] of the filtered view, which the view keeps: the first available connection. *)
Definition first_available (t : Tracker) : option Z :=
  fst <$> head (filter (λ kn, available (snd (snd kn)) = true) (items (connections t))).

(** The nodes a loop over the view comes to, unless callbacks change the map.  The
    first one is not tested again. *)
Definition candidates (first : option Z) (t : Tracker) : list (bool * Z) :=
  match first with
  | None => []
  | Some k => (true, k) :: (pair false <$> keys_after k t)
  end.

Section interrupted.
Context {env : Env} {iterator : AdIterator} {db : AttDb} {le : LittleEndian}.

(** One packet to one connection, with the callbacks of the sleep in it. *)
Definition serve (packet connection : Addr) (callbacks : list Callback) : M App unit :=
  on_tracker (SendPacketToConnection packet connection);;
  for_each callbacks run_callback;;
  on_tracker (modify (upd_packets_connections_sent_list (emplace packet connection))).

(** The loop over the targeted packets; [visit] goes on while nothing can change them. *)
Fixpoint send_targeted_during (during : sleeps) {struct during} : multimap Addr → M App (list Addr * sleeps) :=
  fix visit (todo : multimap Addr) : M App (list Addr * sleeps) :=
    match todo with
    | [] => mret ([], during)
    | (packet, connection) :: todo' =>
        needed ← on_tracker (packet_needed packet connection);
        if needed : bool then
          before ← get;
          serve packet connection (default [] (head during));;
          s ← get;
          '(rest, during) ← match during with
                            | [] => visit todo'
                            | _ :: during' => send_targeted_during during'
                                (entries_after packet
                                   (passed packet todo' (targeted_packets_to_send_list (connection_tracker before)))
                                   (targeted_packets_to_send_list (connection_tracker s)))
                            end;
          mret (packet :: rest, during)
        else visit todo'
    end.

(** The connection behind the iterator, if the packet is to be sent to it.  Callbacks
    erase no connection, so that the one the view begins with stays. *)
Definition sendable_to (packet : Addr) (tested : bool) (key : Z) : M Tracker (option Addr) :=
  s ← get;
  match connections s !! key with
  | Some (a, c) =>
      if tested || available c then
        sendable ← search_sendable (find_to_end packet (packets_connections_sent_list s))
                     (connection_handle c) true;
        mret (if sendable : bool then Some a else None)
      else mret None
  | None => mret None
  end.

(** The loop over the connections; after callbacks it goes on with the keys that are
    there by then. *)
Fixpoint broadcast_during (packet : Addr) (during : sleeps) {struct during} :
    list (bool * Z) → M App (bool * sleeps) :=
  fix visit (keys : list (bool * Z)) : M App (bool * sleeps) :=
    match keys with
    | [] => mret (false, during)
    | (tested, k) :: keys' =>
        target ← on_tracker (sendable_to packet tested k);
        match target with
        | None => visit keys'
        | Some a =>
            serve packet a (default [] (head during));;
            s ← get;
            '(_, during) ← match during with
                           | [] => visit keys'
                           | _ :: during' => broadcast_during packet during'
                               (pair false <$> keys_after k (connection_tracker s))
                           end;
            mret (true, during)
        end
    end.

(** The loop over [queue], the vector as it was at the start. *)
Fixpoint send_broadcast_during (queue : list Addr) (first : option Z) (todo : list Addr) (during : sleeps) :
    M App (list Addr * sleeps) :=
  match todo with
  | [] => mret ([], during)
  | packet :: todo' =>
      s ← get;
      '(packet_sent, during) ← broadcast_during packet during (candidates first (connection_tracker s));
      s ← get;
      if decide (broadcast_packets_to_send_list (connection_tracker s) = queue) then
        '(rest, during) ← send_broadcast_during queue first todo' during;
        mret (if packet_sent : bool then packet :: rest else rest, during)
      else fail InvalidIterator
  end.

Definition sendPackets_during (during : sleeps) : M App unit :=
  s ← get;
  let t := connection_tracker s in
  if decide (broadcast_packets_to_send_list t = [] ∧ targeted_packets_to_send_list t = [])
  then mret tt else
  '(targeted, during) ← send_targeted_during during (targeted_packets_to_send_list t);
  on_tracker (modify (upd_targeted_packets_to_send_list (λ l, foldr erase_range l targeted)));;
  s ← get;
  let queue := broadcast_packets_to_send_list (connection_tracker s) in
  '(broadcast, _) ← send_broadcast_during queue (first_available (connection_tracker s)) queue during;
  on_tracker (modify (upd_broadcast_packets_to_send_list (filter (λ p, p ∉ broadcast)))).
End interrupted.

(** * Calm callbacks *)

(** The callback is called as it must be, brings no packet, and is not the start of
    the stack. *)
Definition calm {env : Env} {db : AttDb} (cb : Callback) : Prop :=
  bare cb ∧
  match cb with
  | CbAttRead a o b n => in_width 16 o ∧ in_width 16 n ∧ o ≤ n ∧ n ≤ Z.of_nat (length b) ∧ 16 ≤ size_t_bits
  | CbAttWrite _ a _ o b n => value_ok o b n ∧ (a = CLIENT_CONFIGURATION_HANDLE → 2 ≤ n)
  | CbHci _ (BTSTACK_EVENT_STATE _) => False
  | CbHci _ (GAP_EVENT_ADVERTISING_REPORT _ _ _ data n) => advertisement_ok data n
  | CbCanNotify _ | CbCanWrite _ => ndebug = true
  | _ => True
  end.

(** * Lemmas *)

Section lemmas.
Context {env : Env} `{!AllocFresh env} {iterator : AdIterator} `{!AdIteratorSpec iterator}.
Context {db : AttDb} {le : LittleEndian} `{!LittleEndianSpec le}.

Lemma calm_ok s cb : calm cb → callback_ok s cb.
Proof.
  intros [Hb Hc]. destruct cb as [|h a t o b n|service e|frame []|type []|type e| | | | |]; cbn in *; try done.
  by destruct Hc as [? ?].
Qed.

(** What holds before and after every statement of the loops ... *)
Definition ready (s : App) : Prop := wf (connection_tracker s) ∧ stored_ok (connection_tracker s).

(** ... and what they leave alone: the objects live on, and what does not look at the
    queues, or at what is stored, is kept. *)
Record undisturbed (s s' : App) : Prop := {
  un_extends : extends (connection_tracker s) (connection_tracker s');
  un_keeps : ∀ I : Tracker → Prop, Linked I → I (connection_tracker s) → I (connection_tracker s');
}.

#[global] Instance undisturbed_preorder : PreOrder undisturbed.
Proof.
  split; [by intros s; constructor|]. intros s1 s2 s3 [H1 I1] [H2 I2].
  constructor; [by etrans|]. intros I HI Hs. by apply I2, I1.
Qed.

Lemma un_broadcast s s' : undisturbed s s' →
  broadcast_packets_to_send_list (connection_tracker s') = broadcast_packets_to_send_list (connection_tracker s).
Proof.
  intros Hu. apply (un_keeps _ _ Hu (λ t, broadcast_packets_to_send_list t
    = broadcast_packets_to_send_list (connection_tracker s))); [by constructor|done].
Qed.

Definition serene {A} (m : M App A) (Q : A → App → Prop) (s : App) : Prop :=
  wp m (λ a s', ready s' ∧ undisturbed s s' ∧ Q a s') s.

Lemma serene_bind {A B} (m : M App A) (k : A → M App B) R Q s :
  serene m R s → (∀ a s', ready s' → undisturbed s s' → R a s' → serene (k a) Q s') → serene (m ≫= k) Q s.
Proof.
  intros Hm Hk. apply wp_bind. eapply wp_mono; [exact Hm|]. intros a s' (Hr & Hu & HR).
  eapply wp_mono; [by apply Hk|]. intros b s'' (Hr' & Hu' & HQ). split_and!; [done|by etrans|done].
Qed.

Lemma serene_ret {A} (a : A) (Q : A → App → Prop) s : ready s → Q a s → serene (mret a) Q s.
Proof. by intros. Qed.

Lemma serene_get (Q : App → App → Prop) s : ready s → Q s s → serene get Q s.
Proof. by intros. Qed.

Lemma serene_mono {A} (m : M App A) (R Q : A → App → Prop) s :
  serene m R s → (∀ a s', ready s' → R a s' → Q a s') → serene m Q s.
Proof. intros Hm HQ. eapply wp_mono; [exact Hm|]. intros a s' (? & ? & ?). auto. Qed.

(** From the lemmas of the operations: what is safe and looks at no packet. *)
Lemma serene_linked {A} (m : M App A) Q s :
  ready s → wfa m Q s → (∀ I, Linked I → keepa I m) → serene m Q s.
Proof.
  intros [Hwf Hst] Hm HI. pose proof (λ I HL, HI I HL s) as Hk. pose proof (Hk stored_ok _ Hst) as H1.
  unfold serene, wfa, wp, after in *. destruct (m s) as [[a s']|]; [|done]. destruct Hm as (? & ? & ?).
  split_and!; [by split|by constructor|done].
Qed.

Lemma serene_callbacks cbs : ∀ s,
  ready s → Forall calm cbs → serene (for_each cbs run_callback) anya s.
Proof.
  induction cbs as [|cb cbs IH]; intros s Hs Hc; [by apply serene_ret|].
  apply Forall_cons in Hc as [Hcb Hc]. cbn [for_each]. eapply serene_bind with (R := anya).
  - apply serene_linked; [done|apply wfa_callback; [by apply calm_ok|apply Hs]|].
    intros I HI. apply keepa_bare; [done|apply Hcb].
  - intros [] s' Hs' _ _. by apply IH.
Qed.

Lemma serene_tracker {A} (m : M Tracker A) R s :
  ready s → wfp m R (connection_tracker s) → (∀ I, Linked I → keeps I m) →
  serene (on_tracker m) (λ a s', R a (connection_tracker s')) s.
Proof.
  intros Hs Hm HI. apply serene_linked; [done| |intros; by apply keepa_tracker, HI].
  by eapply wfa_tracker.
Qed.

(** ** The statements *)

Definition alive (s : App) (p a : Addr) : Prop :=
  live_packet (connection_tracker s) p ∧ live_connection (connection_tracker s) a.

Lemma alive_undisturbed s s' p a : undisturbed s s' → alive s p a → alive s' p a.
Proof.
  intros [He _] [Hp Ha]. split; [by eapply live_packet_extends|by eapply live_connection_extends].
Qed.

Lemma serene_send p a s :
  ndebug = true → ready s → alive s p a → serene (on_tracker (SendPacketToConnection p a)) anya s.
Proof.
  intros Hnd [Hwf Hst] [Hp Ha]. eapply serene_mono; [eapply serene_tracker with (R := any)|done]; [done| |].
  - destruct (connection_at_live _ (wf_separate _ Hwf) a Ha) as (h & c & Hc & _).
    destruct (packet_at_live _ (wf_separate _ Hwf) p Hp) as (o & pk & _ & _ & _ & Hpk).
    destruct (SendPacket_run _ p pk h a c Hwf Hnd Hpk (stored_forwardable _ Hwf Hst _ _ Hpk) Hc) as [b Hrun].
    destruct (after_send_wf _ h a c (encoding pk) Hwf Hc) as [Hwf' He]. unfold wfp, wp. by rewrite Hrun.
  - intros I HI. by apply keeps_SendPacket.
Qed.

Lemma serene_record p a s :
  ready s → alive s p a →
  serene (on_tracker (modify (upd_packets_connections_sent_list (emplace p a)))) anya s.
Proof.
  intros Hs [Hp Ha]. pose proof (proj1 Hs) as Hwf.
  eapply serene_mono; [eapply serene_tracker with (R := any)|done]; [done| |].
  - apply wfp_modify; [by apply wf_emplace_sent|done].
  - intros I HI. apply keeps_modify. intros. by apply fr_sent.
Qed.

Lemma serene_serve p a cbs s :
  ndebug = true → ready s → alive s p a → Forall calm cbs → serene (serve p a cbs) anya s.
Proof.
  intros Hnd Hs Ha Hc. unfold serve. eapply serene_bind; [by apply serene_send|]. intros _ s1 Hs1 Hu1 _.
  eapply serene_bind; [by apply serene_callbacks|]. intros [] s2 Hs2 Hu2 _.
  apply serene_record; [done|]. eapply alive_undisturbed; [|exact Ha]. by etrans.
Qed.

(** A computation that only looks. *)
Lemma serene_look {A B} (m : M Tracker A) (k : A → M App B) Q a s :
  m (connection_tracker s) = Ok (a, connection_tracker s) → serene (k a) Q s → serene (on_tracker m ≫= k) Q s.
Proof.
  intros Hm Hk. unfold serene, wp, mbind, M_bind, on_tracker in *. rewrite Hm.
  by replace (set_tracker (connection_tracker s) s) with s by (by destruct s).
Qed.

Lemma sendable_to_run p tested k t :
  wf t → ∃ r, sendable_to p tested k t = Ok (r, t) ∧
    ∀ a, r = Some a → ∃ c, connections t !! k = Some (a, c).
Proof.
  intros Hwf. unfold sendable_to. rewrite (M_bind_ok get _ _ _ _ eq_refl).
  destruct (connections t !! k) as [[a c]|] eqn:Hc; [|by exists None].
  destruct (tested || available c); [|by exists None].
  destruct (search_sendable_run (find_to_end p (packets_connections_sent_list t)) (connection_handle c) true t Hwf)
    as (b & Hrun & _).
  { intros e He%elem_of_find_to_end_sub. by apply (wf_pointers t Hwf). }
  rewrite (M_bind_ok _ _ _ _ _ Hrun). destruct b; [exists (Some a)|by exists None].
  split; [done|]. intros a' [= <-]. eauto.
Qed.

(** ** The loops *)

Definition all_calm (during : sleeps) : Prop := Forall (Forall calm) during.

Lemma all_calm_head during :
  all_calm during → Forall calm (default [] (head during)) ∧ all_calm (tail during).
Proof. intros [|cbs d Hcbs Hd]; [by repeat constructor|by split]. Qed.

(** What the list of targeted packets points to is there. *)
Definition all_alive (s : App) (l : multimap Addr) : Prop := ∀ e, e ∈ l → alive s (fst e) (snd e).

Lemma all_alive_undisturbed s s' l : undisturbed s s' → all_alive s l → all_alive s' l.
Proof. intros Hu Hl e He. by eapply alive_undisturbed, Hl. Qed.

Lemma all_alive_after s packet n :
  ready s → all_alive s (entries_after packet n (targeted_packets_to_send_list (connection_tracker s))).
Proof.
  intros [Hwf _] e He. apply (po_targeted _ (wf_pointers _ Hwf)). unfold entries_after in He.
  apply elem_of_app in He as [He|[_ He]%list_elem_of_filter]; [|done].
  apply (subseteq_drop n) in He. by apply elem_of_equal_range in He as [He _].
Qed.

(** A visit, before what comes after it. *)
Lemma serene_visit_targeted p c (visit : M App (list Addr * sleeps)) (k : App → App → M App (list Addr * sleeps)) during s :
  ndebug = true → ready s → all_calm during → alive s p c →
  serene visit (λ r _, all_calm (snd r)) s →
  (∀ x y s1, ready s1 → undisturbed s s1 → y = s1 → serene (k x y) (λ r _, all_calm (snd r)) s1) →
  serene (needed ← on_tracker (packet_needed p c);
          if needed : bool then
            x ← get; serve p c (default [] (head during));; y ← get; '(rest, d) ← k x y; mret (p :: rest, d)
          else visit) (λ r _, all_calm (snd r)) s.
Proof.
  intros Hnd Hs Hc Hpc Hv Hk.
  destruct (packet_needed_run p c (connection_tracker s)) as (needed & Hrun & _); [apply Hs|apply Hpc|].
  eapply serene_look; [exact Hrun|]. destruct needed; [|done].
  eapply serene_bind; [by apply serene_get with (Q := anya)|]. intros x s0 Hs0 Hu0 _.
  eapply serene_bind; [apply serene_serve; [done|done| |by apply all_calm_head]|].
  { by eapply alive_undisturbed. }
  intros [] s1 Hs1 Hu1 _. eapply serene_bind; [by apply serene_get with (Q := λ y s', y = s')|].
  intros y s2 Hs2 Hu2 Hy. eapply serene_bind; [apply Hk; [done|by do 2 etrans|done]|].
  intros [rest d] s3 Hs3 _ Hd. by apply serene_ret.
Qed.

Lemma serene_targeted during : ∀ todo s,
  ndebug = true → ready s → all_calm during → all_alive s todo →
  serene (send_targeted_during during todo) (λ r _, all_calm (snd r)) s.
Proof.
  induction during as [|cbs during IHd]; intros todo; induction todo as [|[p c] todo IHt];
    intros s Hnd Hs Hc Hlive; try (by apply serene_ret); cbn [send_targeted_during];
    assert (alive s p c) as Hpc by (apply (Hlive (p, c)), elem_of_cons; by left);
    assert (all_alive s todo) as Hrest by (intros ? ?; apply Hlive, elem_of_cons; by right).
  - apply (serene_visit_targeted p c _ (λ _ _, _) []); [done|done|done|done|by apply IHt|].
    intros x y s1 Hs1 Hu1 _. apply IHt; [done|done|done|by eapply all_alive_undisturbed].
  - apply (serene_visit_targeted p c _ (λ x y, _) (cbs :: during)); [done|done|done|done|by apply IHt|].
    intros x y s1 Hs1 Hu1 ->. apply IHd; [done|done|exact (proj2 (all_calm_head _ Hc))|by apply all_alive_after].
Qed.

(** A visit, before what comes after it. *)
Lemma serene_visit p tested k (visit : M App (bool * sleeps)) (k' : App → M App (bool * sleeps)) during s :
  ndebug = true → ready s → all_calm during → live_packet (connection_tracker s) p →
  serene visit (λ r _, all_calm (snd r)) s →
  (∀ x s1, ready s1 → undisturbed s s1 → serene (k' x) (λ r _, all_calm (snd r)) s1) →
  serene (target ← on_tracker (sendable_to p tested k);
          match target with
          | None => visit
          | Some a => serve p a (default [] (head during));; s ← get; '(_, d) ← k' s; mret (true, d)
          end) (λ r _, all_calm (snd r)) s.
Proof.
  intros Hnd Hs Hc Hp Hv Hk'.
  destruct (sendable_to_run p tested k (connection_tracker s)) as (target & Hrun & Ht); [apply Hs|].
  eapply serene_look; [exact Hrun|]. destruct target as [a|]; [|done]. destruct (Ht a eq_refl) as [c Hcn].
  eapply serene_bind; [apply serene_serve; [done|done| |by apply all_calm_head]|].
  { split; [done|]. exists k. cbn. by rewrite Hcn. }
  intros [] s1 Hs1 Hu1 _. eapply serene_bind; [by apply serene_get with (Q := anya)|]. intros x s2 Hs2 Hu2 _.
  eapply serene_bind; [apply Hk'; [done|by etrans]|]. intros [sent d] s3 Hs3 _ Hd. by apply serene_ret.
Qed.

Lemma serene_broadcast p during : ∀ keys s,
  ndebug = true → ready s → all_calm during → live_packet (connection_tracker s) p →
  serene (broadcast_during p during keys) (λ r _, all_calm (snd r)) s.
Proof.
  assert (∀ s s', undisturbed s s' → live_packet (connection_tracker s) p → live_packet (connection_tracker s') p)
    as Hlive by (intros s s' Hu; apply live_packet_extends, Hu).
  induction during as [|cbs during IHd]; intros keys; induction keys as [|[tested k] keys IHk];
    intros s Hnd Hs Hc Hp; try (by apply serene_ret); cbn [broadcast_during].
  - apply (serene_visit p tested k _ (λ _, _) []); [done|done|done|done|by apply IHk|].
    intros x s1 Hs1 Hu1. apply IHk; [done|done|done|by eapply Hlive].
  - apply (serene_visit p tested k _ (λ x, _) (cbs :: during)); [done|done|done|done|by apply IHk|].
    intros x s1 Hs1 Hu1. apply IHd; [done|done|exact (proj2 (all_calm_head _ Hc))|by eapply Hlive].
Qed.

Lemma serene_queue queue first todo : ∀ during s,
  ndebug = true → ready s → all_calm during → broadcast_packets_to_send_list (connection_tracker s) = queue →
  (∀ p, p ∈ todo → live_packet (connection_tracker s) p) →
  serene (send_broadcast_during queue first todo during) anya s.
Proof.
  induction todo as [|p todo IH]; intros during s Hnd Hs Hc Hq Hlive; [by apply serene_ret|].
  cbn [send_broadcast_during]. eapply serene_bind; [by apply serene_get with (Q := λ x s', x = s')|].
  intros x s1 Hs1 Hu1 ->. assert (∀ p', p' ∈ p :: todo → live_packet (connection_tracker s1) p') as Hlive1.
  { intros p' Hp'. eapply live_packet_extends; [apply Hu1|by apply Hlive]. }
  eapply serene_bind; [apply serene_broadcast; [done|done|done|apply Hlive1, elem_of_cons; by left]|].
  intros [sent d] s2 Hs2 Hu2 Hd. cbn [snd] in Hd.
  eapply serene_bind; [by apply serene_get with (Q := λ x s', x = s')|]. intros x s3 Hs3 Hu3 ->.
  assert (broadcast_packets_to_send_list (connection_tracker s3) = queue) as Hq3.
  { rewrite (un_broadcast _ _ Hu3), (un_broadcast _ _ Hu2), (un_broadcast _ _ Hu1). done. }
  rewrite decide_True by done. eapply serene_bind; [apply IH; [done|done|done|done|]|].
  - intros p' Hp'. assert (undisturbed s1 s3) as Hu by (by etrans).
    eapply live_packet_extends; [apply Hu|]. apply Hlive1, elem_of_cons. by right.
  - intros [rest d'] s4 Hs4 _ _. by apply serene_ret.
Qed.

Lemma sendPackets_during_serene during s :
  ndebug = true → ready s → all_calm during →
  wp (sendPackets_during during) (λ _ s', ready s' ∧ extends (connection_tracker s) (connection_tracker s') ∧
    (∀ I, Framed I → I (connection_tracker s) → I (connection_tracker s')) ∧
    ∀ p, p ∈ broadcast_packets_to_send_list (connection_tracker s') →
         p ∈ broadcast_packets_to_send_list (connection_tracker s)) s.
Proof.
  intros Hnd Hs Hc. unfold sendPackets_during. apply wp_bind, wp_get. cbn zeta. case_decide; [by apply wp_ret|].
  pose proof (proj1 Hs) as Hwf. apply wp_bind. eapply wp_mono; [apply serene_targeted; [done|done|done|]|].
  { intros e He. by apply (po_targeted _ (wf_pointers _ Hwf)). }
  intros [removed d] s1 (Hs1 & Hu1 & Hd). cbn [snd] in Hd.
  destruct (wf_erase_targeted (connection_tracker s1) removed (proj1 Hs1)) as [Hwf2 He2].
  apply wp_bind. unfold wp at 1, on_tracker. cbn [modify]. set (s2 := set_tracker _ s1).
  assert (ready s2) as Hs2 by (split; [exact Hwf2|exact (fr_targeted _ _ (proj2 Hs1))]).
  apply wp_bind, wp_get. apply wp_bind. eapply wp_mono; [apply serene_queue; [done|done|done|done|]|].
  { intros p Hp. by apply (po_broadcast _ (wf_pointers _ (proj1 Hs2))). }
  intros [sent d'] s3 (Hs3 & Hu3 & _).
  destruct (wf_filter_broadcast (connection_tracker s3) (λ p, p ∉ sent) (proj1 Hs3)) as [Hwf4 He4].
  unfold wp, on_tracker. cbn [modify]. split_and!.
  - split; [exact Hwf4|exact (fr_broadcast _ _ (proj2 Hs3))].
  - cbn [connection_tracker set_tracker]. etrans; [apply Hu1|]. etrans; [exact He2|]. etrans; [apply Hu3|exact He4].
  - intros I HI HIs. apply fr_broadcast, (un_keeps _ _ Hu3 I); [apply _|].
    apply (fr_targeted (λ l, foldr erase_range l removed)), (un_keeps _ _ Hu1 I); [apply _|done].
  - intros p. cbn. intros [_ Hp]%list_elem_of_filter. rewrite (un_broadcast _ _ Hu3) in Hp. cbn in Hp.
    by rewrite (un_broadcast _ _ Hu1) in Hp.
Qed.
End lemmas.
