(* ===== verification/Sleeps.v ===== *)
(** What becomes of the sleeps in [sendPackets]: when no callback runs in them it is the
    [sendPackets] of Tracker, and when a new message arrives in one of them the loop over the
    broadcast packets goes on with iterators that are not valid any more. *)

From S2P Require Import Prelude BinaryIO Packets StdContainers BleConnection Advertising Tracker TrackerWf TrackerSafety Sending Connections Protocol Stored Application Callbacks Discovery Kept Interrupted.

(** * Lemmas: without callbacks *)

Section quiet.
Context {env : Env} `{!AllocFresh env} {iterator : AdIterator} {db : AttDb} {le : LittleEndian}.

(** What a computation on the tracker comes to, with no sleeps left. *)
Definition unslept {A} (m : M Tracker A) : M App (A * sleeps) := λ s,
  match m (connection_tracker s) with Ok (a, t) => Ok ((a, []), set_tracker t s) | Err e => Err e end.

Lemma unslept_bind {A B} (m : M Tracker A) (f : A → M Tracker B) s :
  unslept (m ≫= f) s = (on_tracker m ≫= λ a, unslept (f a)) s.
Proof.
  unfold unslept, mbind, M_bind, on_tracker. by destruct (m (connection_tracker s)) as [[a t]|].
Qed.

Lemma unslept_then {A B} (m : M Tracker A) (f : A → B) s :
  ('(a, d) ← unslept m; mret (f a, d)) s = unslept (a ← m; mret (f a)) s.
Proof. unfold unslept, mbind, M_bind. by destruct (m (connection_tracker s)) as [[a t]|]. Qed.

Lemma on_tracker_bind {A B} (m : M Tracker A) (f : A → M Tracker B) s :
  on_tracker (m ≫= f) s = (on_tracker m ≫= λ a, on_tracker (f a)) s.
Proof.
  unfold mbind, M_bind, on_tracker. by destruct (m (connection_tracker s)) as [[a t]|].
Qed.

Lemma bind_same {S A B} (m m' : M S A) (f : A → M S B) s : m s = m' s → (m ≫= f) s = (m' ≫= f) s.
Proof. unfold mbind, M_bind. by intros ->. Qed.

Lemma unslept_ext {A} (m m' : M Tracker A) s :
  m (connection_tracker s) = m' (connection_tracker s) → unslept m s = unslept m' s.
Proof. unfold unslept. by intros ->. Qed.

Lemma serve_unslept {B} p a (k : unit → M App B) s :
  (serve p a [] ≫= k) s
  = (on_tracker (SendPacketToConnection p a) ≫= λ _,
     on_tracker (modify (upd_packets_connections_sent_list (emplace p a))) ≫= k) s.
Proof. unfold serve. by rewrite !M_bind_assoc. Qed.

Lemma send_targeted_unslept todo : ∀ s, send_targeted_during [] todo s = unslept (send_targeted todo) s.
Proof.
  induction todo as [|[p c] todo IH]; intros s; [by destruct s|]. cbn [send_targeted_during send_targeted].
  rewrite unslept_bind. apply M_bind_ext. intros needed s1. destruct needed; [|apply IH].
  rewrite (M_bind_ok get _ _ _ _ eq_refl).
  cbn [head tail default]. rewrite serve_unslept, unslept_bind. apply M_bind_ext. intros _ s2.
  rewrite unslept_bind. apply M_bind_ext. intros _ s3. rewrite (M_bind_ok get _ _ _ _ eq_refl).
  rewrite <- unslept_then. unfold mbind, M_bind. fold (send_targeted_during []). by rewrite IH.
Qed.

Lemma broadcast_to_target p k t :
  broadcast_to p k t
  = (target ← sendable_to p false k;
     match target with
     | None => mret false
     | Some a => SendPacketToConnection p a;; modify (upd_packets_connections_sent_list (emplace p a));; mret true
     end) t.
Proof.
  unfold broadcast_to, sendable_to. rewrite M_bind_assoc. apply M_bind_ext. intros s t'.
  destruct (connections s !! k) as [[a c]|]; [|done]. cbn [orb]. destruct (available c); [|done].
  rewrite M_bind_assoc. apply M_bind_ext. intros b t''. by destruct b.
Qed.

Lemma sendable_to_tested p tested k t :
  (tested = true → ∃ a c, connections t !! k = Some (a, c) ∧ available c = true) →
  sendable_to p tested k t = sendable_to p false k t.
Proof.
  intros Ht. unfold sendable_to. rewrite !(M_bind_ok get _ _ _ _ eq_refl).
  destruct tested; [|done]. destruct Ht as (a & c & -> & ->); done.
Qed.

(** One visit, of a connection that is tested or known to be available. *)
Lemma visit_unslept p tested k (visit visit' : M App (bool * sleeps)) (m : M Tracker bool) s :
  (tested = true → ∃ a c, connections (connection_tracker s) !! k = Some (a, c) ∧ available c = true) →
  (∀ s, visit s = unslept m s) → (∀ s, visit' s = unslept m s) →
  (target ← on_tracker (sendable_to p tested k);
   match target with
   | None => visit
   | Some a => serve p a [];; x ← get; '(_, d) ← visit'; mret (true, d)
   end) s = unslept (sent ← broadcast_to p k; rest ← m; mret (sent || rest)) s.
Proof.
  intros Ht Hv Hv'. set (f := λ sent, rest ← m; mret (sent || rest)).
  transitivity (unslept (target ← sendable_to p tested k;
    match target with
    | None => mret false
    | Some a => SendPacketToConnection p a;; modify (upd_packets_connections_sent_list (emplace p a));; mret true
    end ≫= f) s).
  - rewrite unslept_bind. apply M_bind_ext. intros [a|] s1.
    + rewrite serve_unslept. erewrite (unslept_ext (_ ≫= f)) by apply M_bind_assoc.
      rewrite unslept_bind. apply M_bind_ext. intros _ s2.
      erewrite (unslept_ext (_ ≫= f)) by apply M_bind_assoc.
      rewrite unslept_bind. apply M_bind_ext. intros _ s3. rewrite (M_bind_ok get _ _ _ _ eq_refl).
      unfold f. rewrite (unslept_ext _ (rest ← m; mret true)) by done. rewrite <- unslept_then.
      unfold mbind at 1, M_bind at 1. rewrite Hv'. reflexivity.
    + rewrite Hv. unfold f. symmetry. unfold unslept, mbind, M_bind, mret, M_ret. by destruct (m _) as [[]|].
  - apply unslept_ext. rewrite (bind_same (broadcast_to p k) _ _ _ (broadcast_to_target p k _)), M_bind_assoc.
    apply bind_same. by apply sendable_to_tested.
Qed.

Lemma broadcast_unslept p ks : ∀ s,
  broadcast_during p [] (pair false <$> ks) s = unslept (broadcast_packet p ks) s.
Proof.
  induction ks as [|k ks IH]; intros s; [by destruct s|].
  apply (visit_unslept p false k _ _ (broadcast_packet p ks)); [done|exact IH..].
Qed.

Definition available_at (t : Tracker) (k : Z) : Prop :=
  ∃ a c, connections t !! k = Some (a, c) ∧ available c = true.

Lemma broadcast_tested p k ks s :
  available_at (connection_tracker s) k →
  broadcast_during p [] ((true, k) :: (pair false <$> ks)) s = unslept (broadcast_packet p (k :: ks)) s.
Proof.
  intros Ha. apply (visit_unslept p true k _ _ (broadcast_packet p ks)); [done|apply broadcast_unslept..].
Qed.

(** *** The first available connection *)

Lemma first_of_sorted {A} (P : Z * A → Prop) `{∀ x, Decision (P x)} (l : list (Z * A)) k :
  StronglySorted Z.lt (fst <$> l) →
  fst <$> head (filter P l) = Some k ↔
    (∃ n, (k, n) ∈ l ∧ P (k, n)) ∧ ∀ k' n', (k', n') ∈ l → P (k', n') → k ≤ k'.
Proof.
  induction l as [|[k1 n1] l IH]; intros Hs; [set_solver|].
  rewrite fmap_cons in Hs. apply StronglySorted_inv in Hs as [Hs Hall]. rewrite Forall_fmap, Forall_forall in Hall.
  assert (∀ k' n', (k', n') ∈ l → k1 < k') as Hlt by (intros k' n' Hin; exact (Hall _ Hin)).
  specialize (IH Hs). rewrite filter_cons. setoid_rewrite elem_of_cons. case_decide as HP.
  - cbn. split.
    + intros [= <-]. split; [by exists n1; auto|]. intros k' n' [[= -> ->]|Hin] _; [lia|].
      specialize (Hlt _ _ Hin). lia.
    + intros [(n & [[= -> ->]|Hin] & Hn) Hle]; [done|]. specialize (Hlt _ _ Hin).
      specialize (Hle k1 n1 (or_introl eq_refl) HP). lia.
  - rewrite IH. split.
    + intros [(n & Hin & Hn) Hle]. split; [by exists n; auto|]. intros k' n' [[= -> ->]|Hin']; [done|]. by apply Hle.
    + intros [(n & [[= -> ->]|Hin] & Hn) Hle]; [done|]. split; [by exists n|]. intros k' n' Hin'. apply Hle. by right.
Qed.

Lemma first_available_spec t k :
  first_available t = Some k ↔ available_at t k ∧ ∀ k', available_at t k' → k ≤ k'.
Proof.
  unfold first_available. rewrite first_of_sorted by apply items_sorted.
  setoid_rewrite elem_of_items. unfold available_at. cbn. split.
  - intros [([a c] & Hk & Ha) Hle]. split; [eauto|]. intros k' (a' & c' & Hk' & Ha'). by apply (Hle k' (a', c')).
  - intros [(a & c & Hk & Ha) Hle]. split; [by exists (a, c)|]. intros k' [a' c'] Hk' Ha'. apply Hle. eauto.
Qed.

Lemma first_available_none t k : first_available t = None → ¬ available_at t k.
Proof.
  unfold first_available. intros Hn%fmap_None%head_None (a & c & Hc & Ha).
  assert ((k, (a, c)) ∈ filter (λ kn : Z * (Addr * BleConnection), available (snd (snd kn)) = true)
    (items (connections t))) as Hin by (apply list_elem_of_filter; by rewrite elem_of_items).
  rewrite Hn in Hin. by apply elem_of_nil in Hin.
Qed.

Lemma available_at_same t t' k : same_but_sent t t' → available_at t k ↔ available_at t' k.
Proof.
  intros Hs. split; intros (a & c & Hc & Ha).
  - destruct (same_node t t' k a c Hs Hc) as (c' & Hc' & _ & Heq). exists a, c'. by rewrite Heq.
  - destruct (same_node t' t k a c (same_but_sent_sym _ _ Hs) Hc) as (c' & Hc' & _ & Heq). exists a, c'. by rewrite Heq.
Qed.

Lemma first_available_same t t' : same_but_sent t t' → first_available t' = first_available t.
Proof.
  intros Hs. apply option_eq. intros k. rewrite !first_available_spec.
  setoid_rewrite (available_at_same t t' _ Hs). done.
Qed.

Lemma broadcast_to_unavailable p k t : ¬ available_at t k → broadcast_to p k t = Ok (false, t).
Proof.
  intros Hn. unfold broadcast_to. rewrite (M_bind_ok get _ _ _ _ eq_refl).
  destruct (connections t !! k) as [[a c]|] eqn:Hk; [|done]. destruct (available c) eqn:Ha; [|done].
  destruct Hn. by exists a, c.
Qed.

Lemma broadcast_packet_skip p k ks t :
  ¬ available_at t k → broadcast_packet p (k :: ks) t = broadcast_packet p ks t.
Proof.
  intros Hn. cbn [broadcast_packet]. rewrite (M_bind_ok _ _ _ _ _ (broadcast_to_unavailable p k t Hn)).
  unfold mbind, M_bind. by destruct (broadcast_packet p ks t) as [[]|].
Qed.

Lemma broadcast_packet_none p ks t :
  (∀ k, k ∈ ks → ¬ available_at t k) → broadcast_packet p ks t = broadcast_packet p [] t.
Proof.
  induction ks as [|k ks IH]; intros Hn; [done|]. rewrite broadcast_packet_skip by (apply Hn; set_solver).
  apply IH. set_solver.
Qed.

Lemma broadcast_packet_from p ks k t :
  StronglySorted Z.lt ks → k ∈ ks → (∀ k', k' ∈ ks → k' < k → ¬ available_at t k') →
  broadcast_packet p ks t = broadcast_packet p (k :: filter (λ k', k < k') ks) t.
Proof.
  induction 1 as [|k1 ks Hs IH Hall]; intros Hk Hn; [set_solver|]. rewrite Forall_forall in Hall.
  rewrite filter_cons. apply elem_of_cons in Hk as [<-|Hk].
  - rewrite decide_False by lia. by rewrite filter_true.
  - specialize (Hall k Hk). rewrite decide_False by lia.
    rewrite broadcast_packet_skip by (apply Hn; [set_solver|done]). apply IH; [done|set_solver].
Qed.

(** The loop over the view does what the loop over all connections does. *)
Lemma broadcast_candidates p s :
  broadcast_during p [] (candidates (first_available (connection_tracker s)) (connection_tracker s)) s
  = unslept (broadcast_packet p (fst <$> items (connections (connection_tracker s)))) s.
Proof.
  set (t := connection_tracker s). destruct (first_available t) as [k|] eqn:Hf.
  - apply first_available_spec in Hf as [Ha Hle]. cbn [candidates]. rewrite broadcast_tested by done.
    apply unslept_ext. symmetry. apply broadcast_packet_from; [apply items_sorted| |].
    + destruct Ha as (a & c & Hc & _). apply list_elem_of_fmap. exists (k, (a, c)). by rewrite elem_of_items.
    + intros k' _ Hlt Ha'. specialize (Hle k' Ha'). lia.
  - rewrite (unslept_ext _ (broadcast_packet p [])); [by destruct s|]. apply broadcast_packet_none.
    intros k _. by apply first_available_none.
Qed.

Lemma send_broadcast_unslept queue first todo : ∀ s,
  wf (connection_tracker s) → can_send (connection_tracker s) →
  broadcast_packets_to_send_list (connection_tracker s) = queue →
  first_available (connection_tracker s) = first → (∀ p, p ∈ todo → live_packet (connection_tracker s) p) →
  send_broadcast_during queue first todo [] s = unslept (send_broadcast todo) s.
Proof.
  induction todo as [|p todo IH]; intros s Hwf Hcan Hq Hf Hlive; [by destruct s|].
  cbn [send_broadcast_during send_broadcast]. rewrite (M_bind_ok get _ _ _ _ eq_refl).
  destruct (broadcast_packet_run p (fst <$> items (connections (connection_tracker s))) (connection_tracker s))
    as (b & t1 & l & Hrun & Hsend & _); [done|done|apply Hlive; set_solver|].
  set (s1 := set_tracker t1 s).
  assert (broadcast_during p [] (candidates first (connection_tracker s)) s = Ok ((b, []), s1)) as Hd.
  { rewrite <- Hf, broadcast_candidates. unfold unslept. by rewrite Hrun. }
  rewrite (M_bind_ok _ _ _ _ _ Hd), (M_bind_ok get _ _ _ _ eq_refl).
  pose proof (se_same _ _ _ Hsend) as Hsame. change (connection_tracker s1) with t1.
  rewrite decide_True by (rewrite (sb_broadcast _ _ Hsame); done).
  transitivity (unslept (rest ← send_broadcast todo; mret (if b then p :: rest else rest)) s1).
  - rewrite <- unslept_then. apply bind_same. apply IH.
    + apply Hsend.
    + by apply (can_send_same (connection_tracker s)).
    + change (connection_tracker s1) with t1. by rewrite (sb_broadcast _ _ Hsame).
    + change (connection_tracker s1) with t1. by rewrite (first_available_same _ _ Hsame).
    + intros p' Hp'. eapply live_packet_extends; [apply Hsend|]. apply Hlive. set_solver.
  - unfold unslept. rewrite (M_bind_ok get _ _ _ _ eq_refl), (M_bind_ok _ _ _ _ _ Hrun).
    change (connection_tracker s1) with t1. unfold s1. destruct s; reflexivity.
Qed.

Lemma sendPackets_unslept s :
  wf (connection_tracker s) → can_send (connection_tracker s) →
  sendPackets_during [] s = on_tracker sendPackets s.
Proof.
  intros Hwf Hcan. unfold sendPackets_during, sendPackets.
  rewrite on_tracker_bind, (M_bind_ok get _ _ _ _ eq_refl).
  rewrite (M_bind_ok (on_tracker get) _ s (connection_tracker s) s) by (by destruct s).
  set (t := connection_tracker s) in *. cbn zeta. case_decide; [by destruct s|]. rewrite on_tracker_bind.
  destruct (send_targeted_run (targeted_packets_to_send_list t) t Hwf Hcan)
    as (removed & t1 & sent & Hrun & Hsend & _); [apply Hwf|].
  rewrite (M_bind_ok (send_targeted_during _ _) _ s (removed, []) (set_tracker t1 s)).
  2: { rewrite send_targeted_unslept. unfold unslept. fold t. by rewrite Hrun. }
  rewrite (M_bind_ok (on_tracker _) _ s removed (set_tracker t1 s)) by (unfold on_tracker; fold t; by rewrite Hrun).
  destruct (wf_erase_targeted t1 removed (se_wf _ _ _ Hsend)) as [Hwf2 _].
  rewrite on_tracker_bind. set (s1 := set_tracker t1 s).
  set (t2 := upd_targeted_packets_to_send_list (λ l, foldr erase_range l removed) t1) in *.
  set (s2 := set_tracker t2 s1).
  assert (broadcast_packets_to_send_list t2 = broadcast_packets_to_send_list t) as Hq
    by exact (sb_broadcast _ _ (se_same _ _ _ Hsend)).
  rewrite (M_bind_ok (on_tracker (modify _)) _ s1 tt s2) by done.
  rewrite (M_bind_ok (on_tracker (modify _)) _ s1 tt s2) by done.
  rewrite (M_bind_ok get _ _ _ _ eq_refl), on_tracker_bind. change (connection_tracker s2) with t2. rewrite Hq.
  rewrite (bind_same _ (unslept (send_broadcast (broadcast_packets_to_send_list t))) _ s2).
  - unfold unslept, mbind, M_bind, on_tracker. by destruct (send_broadcast _ _) as [[l t3]|].
  - apply send_broadcast_unslept; [done| |done|done|].
    + by apply (can_send_same t t1); [apply Hsend|].
    + intros p Hp. eapply live_packet_extends; [apply Hsend|]. by apply (wf_pointers t Hwf).
Qed.
End quiet.

(** * Lemmas: a new message *)

Section arrival.
Context {env : Env} `{!AllocFresh env} {iterator : AdIterator} {db : AttDb} `{!AttDbOk db} {le : LittleEndian}.

(** A value that is written to the message attribute over a known connection. *)
Definition written (h : Z) (v : list Z) (n : Z) : Callback :=
  CbAttWrite h VALUE_HANDLE ATT_TRANSACTION_MODE_NONE 0 v n.

(** The value is a message that [t] does not have, fit to be flooded. *)
Record brings (t : Tracker) (h : Z) (v : list Z) (n : Z) (m : Message) : Prop := {
  br_connection : is_Some (connections t !! h);
  br_parse : parse 0 v n = Ok (RMessage m);
  br_new : messages t !! message_id m = None;
  br_ttl : packet_ttl (base_of m) > 0;
  br_forwardable : forwardable (PMessage m);
}.

Lemma brings_same t t' h v n m : same_but_sent t t' → brings t h v n m → brings t' h v n m.
Proof.
  intros Hs [[[a c] Hc] Hp Hn Ht Hf]. destruct (same_node t t' h a c Hs Hc) as (c' & Hc' & _).
  constructor; [by eexists|done|by rewrite (sb_messages _ _ Hs)|done..].
Qed.

(** What the callback makes of it: one more packet to be broadcast. *)
Lemma written_run h v n m s :
  ready s → brings (connection_tracker s) h v n m →
  ∃ s' p, run_callback (written h v n) s = Ok (tt, s') ∧ ready s' ∧
    extends (connection_tracker s) (connection_tracker s') ∧
    broadcast_packets_to_send_list (connection_tracker s')
      = broadcast_packets_to_send_list (connection_tracker s) ++ [p].
Proof.
  intros [Hwf Hst] [[[a c] Hc] Hp Hn Ht Hf]. set (t := connection_tracker s) in *.
  destruct (process_message_new (a, c) m t Hwf) as (Hrun & Hwf' & He); [|done|].
  { exists h. cbn. by rewrite Hc. }
  cbn [fst] in *. destruct (relayed_fields a m t) as (_ & _ & _ & Hb & _).
  exists (set_tracker (relayed a m t) (busier s)), (alloc (used t)). split_and!.
  - cbn [run_callback written]. eapply att_write_run; [exact Hc|].
    rewrite processWrite_parse, Hp. exact Hrun.
  - split; [exact Hwf'|]. cbn [connection_tracker set_tracker].
    destruct (relayed_fields a m t) as (Hms & _ & _ & _ & _ & _ & _ & Hps & Han & _). destruct Hst as [H1 H2 H3].
    constructor; rewrite ?Hms, ?Hps, ?Han; [done| |done]. intros k x m' Hk.
    apply lookup_insert_Some in Hk as [[_ [= _ <-]]|[_ Hk]]; [done|by eapply H2].
  - exact He.
  - cbn [connection_tracker set_tracker]. by rewrite Hb, decide_True.
Qed.

(** The sleep of one packet. *)
Lemma serve_written p k a c h v n m s :
  ndebug = true → ready s → live_packet (connection_tracker s) p →
  connections (connection_tracker s) !! k = Some (a, c) → brings (connection_tracker s) h v n m →
  ∃ s' p', serve p a [written h v n] s = Ok (tt, s') ∧ ready s' ∧
    live_packet (connection_tracker s') p ∧
    broadcast_packets_to_send_list (connection_tracker s')
      = broadcast_packets_to_send_list (connection_tracker s) ++ [p'].
Proof.
  intros Hnd [Hwf Hst] Hp Hc Hb. set (t := connection_tracker s) in *.
  destruct (packet_at_live _ (wf_separate _ Hwf) p Hp) as (o & pk & _ & _ & _ & Hpk).
  destruct (SendPacket_run _ p pk k a c Hwf Hnd Hpk (stored_forwardable _ Hwf Hst _ _ Hpk) Hc) as [b Hrun].
  destruct (after_send_wf _ k a c (encoding pk) Hwf Hc) as [Hwf1 He1].
  pose proof (after_send_same t k a c (encoding pk) Hc) as Hsame.
  set (t1 := after_send t k c (encoding pk)) in *. set (s1 := set_tracker t1 s).
  assert (ready s1) as Hs1.
  { split; [exact Hwf1|]. destruct Hst as [H1 H2 H3]. cbn [connection_tracker set_tracker s1].
    constructor; rewrite ?(sb_announce _ _ Hsame), ?(sb_messages _ _ Hsame), ?(sb_packets _ _ Hsame); done. }
  destruct (written_run h v n m s1 Hs1) as (s2 & p' & Hcb & [Hwf2 Hst2] & He2 & Hq); [by eapply brings_same|].
  assert (live_connection (connection_tracker s2) a) as Ha.
  { eapply live_connection_extends; [exact He2|]. eapply live_connection_extends; [exact He1|].
    exists k. cbn. by rewrite Hc. }
  assert (live_packet (connection_tracker s2) p) as Hp2.
  { eapply live_packet_extends; [exact He2|]. by eapply live_packet_extends; [exact He1|]. }
  destruct (wf_emplace_sent (connection_tracker s2) p a Hwf2 Hp2 Ha) as [Hwf3 He3].
  eexists _, p'. split_and!.
  - unfold serve. rewrite (on_tracker_ok _ _ _ _ _ Hrun). fold t1 s1. cbn [for_each]. rewrite M_bind_assoc.
    rewrite (M_bind_ok _ _ _ _ _ Hcb). reflexivity.
  - split; [exact Hwf3|]. exact (fr_sent _ _ Hst2).
  - by eapply live_packet_extends; [exact He3|].
  - cbn. rewrite Hq. by rewrite <- (sb_broadcast _ _ Hsame : _ = broadcast_packets_to_send_list t).
Qed.

Lemma sendable_to_sends p tested k t :
  wf t → (tested = true → available_at t k) →
  ∃ r, sendable_to p tested k t = Ok (r, t) ∧ (broadcast_sends t p k → is_Some r) ∧
    ∀ a, r = Some a → ∃ c, connections t !! k = Some (a, c).
Proof.
  intros Hwf Ht. rewrite sendable_to_tested by done. unfold sendable_to.
  rewrite (M_bind_ok get _ _ _ _ eq_refl). unfold broadcast_sends.
  destruct (connections t !! k) as [[a c]|]; [|by exists None; split_and!; [| intros (? & ? & ? & _)|]]. cbn [orb].
  destruct (available c) eqn:Ha; [|exists None; split_and!; [done|intros (? & ? & ? & ? & _); congruence|done]].
  destruct (search_sendable_run (find_to_end p (packets_connections_sent_list t)) (connection_handle c) true t Hwf)
    as (b & Hrun & Hb).
  { intros e He%elem_of_find_to_end_sub. by apply (wf_pointers t Hwf). }
  rewrite (M_bind_ok _ _ _ _ _ Hrun). destruct b; [exists (Some a); split_and!; [done|done|]; intros a' [= <-]; by exists c|exists None].
  split_and!; [done| |done]. intros (a' & c' & [= <- <-] & _ & Hall). pose proof (proj2 Hb (conj eq_refl Hall)). done.
Qed.

(** The message arrives in the first sleep of the loop over the connections. *)
Lemma broadcast_written p h v n m keys s :
  ndebug = true → ready s → live_packet (connection_tracker s) p → brings (connection_tracker s) h v n m →
  (∀ k, (true, k) ∈ keys → available_at (connection_tracker s) k) →
  (∃ x, x ∈ keys ∧ broadcast_sends (connection_tracker s) p (snd x)) →
  ∃ s' p', broadcast_during p [[written h v n]] keys s = Ok ((true, []), s') ∧
    broadcast_packets_to_send_list (connection_tracker s')
      = broadcast_packets_to_send_list (connection_tracker s) ++ [p'].
Proof.
  intros Hnd Hs Hp Hb. induction keys as [|[tested k] keys IH]; intros Hav (x & Hx & Hsends); [set_solver|].
  destruct (sendable_to_sends p tested k (connection_tracker s) (proj1 Hs)) as (r & Hrun & Hr & Ha).
  { intros ->. apply Hav, elem_of_cons. by left. }
  cbn [broadcast_during]. rewrite (on_tracker_ok _ _ _ _ _ Hrun), set_tracker_id.
  destruct r as [a|].
  - destruct (Ha a eq_refl) as [c Hc].
    destruct (serve_written p k a c h v n m s Hnd Hs Hp Hc Hb) as (s1 & p' & Hserve & [Hwf1 Hst1] & Hp1 & Hq).
    cbn [head default]. rewrite (M_bind_ok _ _ _ _ _ Hserve), (M_bind_ok get _ _ _ _ eq_refl).
    destruct (broadcast_packet_run p (keys_after k (connection_tracker s1)) (connection_tracker s1) Hwf1)
      as (b & t2 & l & Hrun2 & Hsend & _); [by split; [|apply stored_forwardable]|done|].
    exists (set_tracker t2 s1), p'. split.
    + rewrite (M_bind_ok _ _ s1 (b, []) (set_tracker t2 s1)); [done|].
      etrans; [exact (broadcast_unslept p (keys_after k (connection_tracker s1)) s1)|].
      unfold unslept. by rewrite Hrun2.
    + cbn. rewrite <- Hq. apply (sb_broadcast _ _ (se_same _ _ _ Hsend)).
  - apply IH.
    + intros k' Hk'. apply Hav, elem_of_cons. by right.
    + apply elem_of_cons in Hx as [->|Hx]; [|by exists x]. by destruct (Hr Hsends).
Qed.

(** Every connection that the packet goes to is one of those the loop comes to. *)
Lemma sends_candidate p k t :
  broadcast_sends t p k → ∃ x, x ∈ candidates (first_available t) t ∧ broadcast_sends t p (snd x).
Proof.
  intros Hsends. assert (available_at t k) as Ha by (destruct Hsends as (a & c & ? & ? & _); by exists a, c).
  destruct (first_available t) as [k0|] eqn:Hf.
  - apply first_available_spec in Hf as [_ Hle]. specialize (Hle k Ha). cbn [candidates].
    destruct (decide (k0 = k)) as [->|Hne]; [exists (true, k); split; [apply elem_of_cons; by left|done]|].
    exists (false, k). split; [|done]. apply elem_of_cons. right. apply list_elem_of_fmap.
    exists k. split; [done|]. apply list_elem_of_filter. split; [lia|]. destruct Ha as (a & c & Hc & _).
    apply list_elem_of_fmap. exists (k, (a, c)). by rewrite elem_of_items.
  - by destruct (first_available_none t k Hf).
Qed.

Lemma candidates_tested t k : (true, k) ∈ candidates (first_available t) t → available_at t k.
Proof.
  destruct (first_available t) as [k0|] eqn:Hf; cbn; [|set_solver]. apply first_available_spec in Hf as [Ha _].
  intros [[= ->]|Hin]%elem_of_cons; [done|]. by apply list_elem_of_fmap in Hin as (? & ? & _).
Qed.
End arrival.

(** * Properties *)

Section properties.
Context {env : Env} `{!AllocFresh env} {iterator : AdIterator} `{!AdIteratorSpec iterator}.
Context {db : AttDb} `{!AttDbOk db} {le : LittleEndian} `{!LittleEndianSpec le}.

(** C12: with callbacks in its sleeps that bring no packet, [sendPackets] runs to its end
    without undefined behaviour, whichever they are and wherever they come: connections
    may be opened and closed and values be handed to BTstack in the middle of the loops.
    The invariant holds afterwards, what is stored can be sent, no object dies, and the
    queue of broadcast packets only loses some. *)
Theorem sends_interrupted_safe (during : list (list Callback)) (s : App) :
  ndebug = true → wf (connection_tracker s) → stored_ok (connection_tracker s) → Forall (Forall calm) during →
  wp (sendPackets_during during) (λ _ s', wf (connection_tracker s') ∧ stored_ok (connection_tracker s') ∧
    extends (connection_tracker s) (connection_tracker s') ∧
    ∀ p, p ∈ broadcast_packets_to_send_list (connection_tracker s') →
         p ∈ broadcast_packets_to_send_list (connection_tracker s)) s.
Proof.
  intros Hnd Hwf Hst Hc. eapply wp_mono; [by apply sendPackets_during_serene|]. by intros ? ? ([? ?] & ? & _ & ?).
Qed.

(** C40: when nothing happens in the sleeps, the loops over iterators do what the loops of
    [sendPackets] do that know nothing of callbacks. *)
Theorem sends_uninterrupted (s : App) :
  wf (connection_tracker s) → can_send (connection_tracker s) →
  sendPackets_during [] s = on_tracker sendPackets s.
Proof. apply sendPackets_unslept. Qed.

(** C15: when a new message is written to the repeater while it sleeps after the first
    packet of a broadcast, [sendPackets] goes on with an invalid iterator: the message is
    pushed onto the vector that the loop goes through. *)
Theorem message_invalidates_sending (s : App) (p k h n : Z) (q : list Addr) (v : list Z) (m : Message) :
  ndebug = true → wf (connection_tracker s) → stored_ok (connection_tracker s) →
  targeted_packets_to_send_list (connection_tracker s) = [] →
  broadcast_packets_to_send_list (connection_tracker s) = p :: q →
  broadcast_sends (connection_tracker s) p k → brings (connection_tracker s) h v n m →
  sendPackets_during [[written h v n]] s = Err InvalidIterator.
Proof.
  intros Hnd Hwf Hst Ht Hq Hsends Hb. unfold sendPackets_during. rewrite (M_bind_ok get _ _ _ _ eq_refl). cbn zeta.
  rewrite decide_False by (rewrite Hq; by intros [? _]). rewrite Ht. cbn [send_targeted_during].
  rewrite (M_bind_ok (mret _) _ _ _ _ eq_refl). cbn [foldr].
  rewrite (M_bind_ok (on_tracker (modify _)) _ s tt s) by (by destruct s as [[]]).
  rewrite (M_bind_ok get _ _ _ _ eq_refl), Hq. cbn [send_broadcast_during].
  rewrite M_bind_assoc, (M_bind_ok get _ _ _ _ eq_refl), M_bind_assoc.
  destruct (broadcast_written p h v n m (candidates (first_available (connection_tracker s)) (connection_tracker s)) s)
    as (s1 & p' & Hrun & Hq1); [done|by split| |done|apply candidates_tested|by eapply sends_candidate|].
  { apply (po_broadcast _ (wf_pointers _ Hwf)). rewrite Hq. apply elem_of_cons. by left. }
  rewrite (M_bind_ok _ _ _ _ _ Hrun), M_bind_assoc, (M_bind_ok get _ _ _ _ eq_refl), Hq1, Hq.
  rewrite decide_False; [done|]. intros Hl. apply (f_equal length) in Hl. rewrite length_app in Hl. cbn in Hl. lia.
Qed.
End properties.

(** ** Witnesses *)

(** A connection is closed and another one opened in the first sleep, and a value is
    handed to BTstack in the second. *)
Definition interrupted_example : App := App_new (sending_example [40; 30] [(1, 20)]).

Definition interruptions : list (list Callback) :=
  [[CbHci HCI_EVENT_PACKET (HCI_EVENT_DISCONNECTION_COMPLETE 1);
    CbHci HCI_EVENT_PACKET (HCI_SUBEVENT_LE_CONNECTION_COMPLETE 3 [1; 2; 3; 4; 5; 6] 0 HCI_ROLE_MASTER)];
   [CbCanWrite 2]].

Lemma sending_example_stored broadcast targeted : stored_ok (sending_example broadcast targeted).
Proof.
  constructor; cbn; [decide_concrete| |done]. intros k a m Hk.
  apply lookup_insert_Some in Hk as [[_ [= _ <-]]|[_ Hk]]; [decide_concrete|].
  apply lookup_singleton_Some in Hk as [_ [= _ <-]]. decide_concrete.
Qed.

Lemma interruptions_calm : Forall (Forall (@calm example_env example_db)) interruptions.
Proof. repeat constructor. Qed.

Lemma sends_interrupted_safe_witness :
  wp (@sendPackets_during example_env example_iterator example_db example_le interruptions)
    (λ _ s', wf (connection_tracker s') ∧ stored_ok (connection_tracker s') ∧
      extends (connection_tracker interrupted_example) (connection_tracker s') ∧
      ∀ p, p ∈ broadcast_packets_to_send_list (connection_tracker s') →
           p ∈ broadcast_packets_to_send_list (connection_tracker interrupted_example)) interrupted_example.
Proof.
  apply (@sends_interrupted_safe example_env _ example_iterator _ example_db example_le _);
    [reflexivity|apply sending_example_ok; vm_compute; reflexivity|apply sending_example_stored|apply interruptions_calm].
Defined.

Lemma sends_uninterrupted_witness :
  @sendPackets_during example_env example_iterator example_db example_le [] interrupted_example
  = on_tracker (@sendPackets example_env) interrupted_example.
Proof.
  apply (@sends_uninterrupted example_env _ example_iterator example_db example_le);
    apply sending_example_ok; vm_compute; reflexivity.
Defined.

(** A third message comes from connection 2 while the second one is sent to connection 1. *)
Definition third_value : list Z := encoding (PMessage (message_to_send "c")).

Lemma message_invalidates_sending_witness :
  @sendPackets_during example_env example_iterator example_db example_le
    [[@written example_db 2 third_value (Z.of_nat (length third_value))]] (App_new (sending_example [40] []))
  = Err InvalidIterator.
Proof.
  apply (@message_invalidates_sending example_env _ example_iterator example_db _ example_le _ 40 1 2
    (Z.of_nat (length third_value)) [] third_value (message_to_send "c"));
    [reflexivity|apply sending_example_ok; vm_compute; reflexivity|apply sending_example_stored
    |reflexivity|reflexivity| |].
  - exists 10, (connection_to 1). split_and!; [reflexivity|reflexivity|]. apply (proj1 (Forall_forall _ _)). decide_concrete.
  - constructor; [by eexists|vm_compute; reflexivity|reflexivity|vm_compute; reflexivity|decide_concrete].
Defined.
