(* ===== verification/Pins.v ===== *)
(** The pins: [handlePinActivity] of src/main.cpp, which turns a smoke alarm or
    the life check into a message of this repeater. *)

From S2P Require Import Prelude BinaryIO Packets StdContainers BleConnection Advertising Tracker TrackerWf TrackerSafety Sending Connections Protocol Application Callbacks Discovery.

(** * handlePinActivity *)

Definition still_alive_string : list Z := str " Still alive".
Definition smoke_seen_string : list Z := str " Smoke seen".

(** What a writer leaves in a vector. *)
Definition written (w : Writer) (out : list Z) : result (list Z) := '(_, out') ← w out; mret out'.

Section pins.
Context {env : Env}.

(** The content, with the flags put back. *)
Definition write_pin_content (timestamp_ms : Z) : M App (list Z) :=
  outBuffer ← lift_result (written
    (write_uint8 (char "[");;
     write_uint16_hex16 (u16 (timestamp_ms / 1000));;
     write_uint8 (char "]")) []);
  s ← get;
  outBuffer ←
    (if life_check s then
       out ← lift_result (written (write_data_str still_alive_string
                                     (Z.of_nat (length still_alive_string))) outBuffer);
       modify (set_life_check false);;
       mret out
     else mret outBuffer);
  s ← get;
  if smoke_seen s then
    out ← lift_result (written (write_data_str smoke_seen_string
                                  (Z.of_nat (length smoke_seen_string))) outBuffer);
    modify (set_smoke_seen false);;
    mret out
  else mret outBuffer.

Definition handlePinActivity : M App unit :=
  timestamp_ms ← on_tracker getTimeMs;
  s ← get;
  if smoke_seen s || life_check s then
    let sender := address_word local_bd_addr in
    messageContentString ← write_pin_content timestamp_ms;
    let message := setContent messageContentString (Message_make 7 timestamp_ms 0 sender) in
    let message := setMessageFlags 0 message in
    messageIdString ← lift_result (written
      (write_uint32 timestamp_ms;; write_uint8 (char "-");; write_uint64 sender) []);
    let message := setMessageTimestamp timestamp_ms (setMessageId messageIdString message) in
    lo ← lift_result (load local_bd_addr (BD_ADDR_LEN - 2));
    hi ← lift_result (load local_bd_addr (BD_ADDR_LEN - 1));
    name ← lift_result (written
      (write_data_ptr packet_service_name (Z.of_nat (length packet_service_name));;
       write_data_str (str ":") 1;;
       write_uint8_hex16 lo;;
       write_uint8_hex16 hi) []);
    let message := setSenderNickname name message in
    messageIfNew ← on_tracker (storeMessageAndReturnIfNew message);
    match messageIfNew with
    | Some stored => on_tracker (enqueueBroadcastPacket stored);; count_activity
    | None => mret tt
    end
  else mret tt.
End pins.

(** * The message of an alert *)

Definition pin_content (timestamp_ms : Z) (life smoke : bool) : list Z :=
  [char "["] ++ hex8 (u8 (Z.shiftr (u16 (timestamp_ms / 1000)) 8)) ++ hex8 (u8 (u16 (timestamp_ms / 1000))) ++
  [char "]"] ++ (if life then still_alive_string else []) ++ (if smoke then smoke_seen_string else []).

Definition pin_id (timestamp_ms sender : Z) : list Z :=
  be_bytes 4 (u16 timestamp_ms) ++ [char "-"] ++ be_bytes 8 sender.

Definition pin_message (timestamp_ms sender : Z) (name : list Z) (life smoke : bool) : Message :=
  mkMessage (mkPacketBase (mkBase type_message 7 timestamp_ms 0) sender 0) 0 timestamp_ms
    (pin_id timestamp_ms sender) name (pin_content timestamp_ms life smoke) [] [] None.

(** * Lemmas *)

Lemma written_writes w enc out : writes w enc → written w out = Ok (out ++ enc).
Proof. intros Hw. unfold written. by rewrite Hw. Qed.

Lemma writes_literal data :
  bytes_ok data → writes (write_data_str data (Z.of_nat (length data))) data.
Proof.
  intros Hd. pose proof (writes_data_str data (Z.of_nat (length data)) Hd ltac:(lia)) as Hw.
  by rewrite Nat2Z.id, take_ge in Hw by lia.
Qed.

Lemma writes_uint16_hex16 v : writes (write_uint16_hex16 v) (hex8 (u8 (Z.shiftr v 8)) ++ hex8 (u8 v)).
Proof. apply writes_bind; apply writes_uint8_hex16. Qed.

Section pin_lemmas.
Context {env : Env} `{!AllocFresh env}.

Definition pins_cleared (s : App) : App := set_smoke_seen false (set_life_check false s).

Lemma write_pin_content_run t s :
  write_pin_content t s = Ok (pin_content t (life_check s) (smoke_seen s), pins_cleared s).
Proof.
  unfold write_pin_content.
  rewrite (written_writes _ ([char "["] ++ (hex8 (u8 (Z.shiftr (u16 (t / 1000)) 8)) ++
    hex8 (u8 (u16 (t / 1000)))) ++ [char "]"])).
  2: { apply writes_bind; [apply writes_uint8|]. apply writes_bind; [apply writes_uint16_hex16|apply writes_uint8]. }
  rewrite lift_result_ok, (M_bind_ok get _ _ _ _ eq_refl).
  assert (bytes_ok still_alive_string ∧ bytes_ok smoke_seen_string) as [H1 H2] by (split; decide_concrete).
  rewrite (written_writes _ _ _ (writes_literal _ H1)).
  assert (∀ out, written (write_data_str smoke_seen_string (Z.of_nat (length smoke_seen_string))) out
    = Ok (out ++ smoke_seen_string)) as Hw by (intros; by apply written_writes, writes_literal).
  unfold pins_cleared, pin_content. destruct s as [tr ad kr sm lc ga sc cp dsa dp dc]. cbn [life_check smoke_seen].
  destruct lc, sm; cbn -[app hex8]; rewrite ?Hw; cbn -[app hex8]; unfold mret, M_ret;
    rewrite ?app_nil_r, <- ?app_assoc; done.
Qed.
Lemma pin_id_run t sender :
  written (write_uint32 t;; write_uint8 (char "-");; write_uint64 sender) [] = Ok (pin_id t sender).
Proof.
  apply (written_writes _ (pin_id t sender)). unfold pin_id.
  apply writes_bind; [apply writes_uint32|]. apply writes_bind; [apply writes_uint8|apply writes_uint64].
Qed.

Lemma pin_name_run {B} (k : list Z → M App B) s :
  length local_bd_addr = 6%nat →
  (lo ← lift_result (load local_bd_addr (BD_ADDR_LEN - 2));
   hi ← lift_result (load local_bd_addr (BD_ADDR_LEN - 1));
   name ← lift_result (written
     (write_data_ptr packet_service_name (Z.of_nat (length packet_service_name));;
      write_data_str (str ":") 1;; write_uint8_hex16 lo;; write_uint8_hex16 hi) []);
   k name) s = k (repeater_name local_bd_addr) s.
Proof.
  intros Hl. unfold repeater_name.
  destruct local_bd_addr as [|b0 [|b1 [|b2 [|b3 [|b4 [|b5 [|]]]]]]]; try done.
Qed.

(** The message of an alert raised in a state. *)
Definition alert (s : App) : Message :=
  pin_message (now_of (connection_tracker s)) (address_word local_bd_addr)
    (repeater_name local_bd_addr) (life_check s) (smoke_seen s).

Definition alerted (m : Message) (t : Tracker) : Tracker :=
  upd_broadcast_packets_to_send_list (λ l, l ++ [alloc (used t)])
    (upd_messages (λ ms, <[message_id m := (alloc (used t), m)]> ms) t).

Lemma enqueueBroadcast_new m t :
  wf t → messages t !! message_id m = None → packet_ttl (base_of m) > 0 →
  enqueueBroadcastPacket (alloc (used t))
    (upd_messages (λ ms, <[message_id m := (alloc (used t), m)]> ms) t) = Ok (tt, alerted m t) ∧
  wf (alerted m t) ∧ extends t (alerted m t).
Proof.
  intros Hwf Hm Httl. destruct (wf_new_message (message_id m) m t Hm Hwf) as [Hwf1 He1].
  set (t1 := upd_messages _ t) in *.
  assert (addr_of t1 (OMessage (message_id m)) = Some (alloc (used t))) as Ha
    by (cbn; by rewrite lookup_insert_eq).
  assert (packet_at t1 (alloc (used t)) = Some (PMessage m)) as Hpk.
  { rewrite (packet_at_object _ (wf_separate _ Hwf1) (OMessage (message_id m))) by done.
    cbn. by rewrite lookup_insert_eq. }
  assert (live_packet t1 (alloc (used t))) as Hlive by (by exists (OMessage (message_id m))).
  split.
  - unfold enqueueBroadcastPacket. erewrite M_bind_ok by (apply deref_ok; exact Hpk).
    rewrite decide_True by done. done.
  - destruct (wf_push_broadcast t1 (alloc (used t)) Hwf1 Hlive) as [Hwf2 He2].
    split; [exact Hwf2|]. by etrans.
Qed.

Lemma handlePinActivity_idle s :
  smoke_seen s = false → life_check s = false →
  handlePinActivity s = Ok (tt, in_tracker ticked s).
Proof.
  intros Hs Hl. unfold handlePinActivity.
  rewrite (on_tracker_ok _ _ _ _ _ (getTimeMs_run _)), (M_bind_ok get _ _ _ _ eq_refl).
  cbn [smoke_seen life_check set_tracker]. by rewrite Hs, Hl.
Qed.

(** What is left to do when the message is made. *)
Lemma handlePinActivity_made s :
  length local_bd_addr = 6%nat → smoke_seen s || life_check s = true →
  handlePinActivity s
  = (messageIfNew ← on_tracker (storeMessageAndReturnIfNew (alert s));
     match messageIfNew with
     | Some stored => on_tracker (enqueueBroadcastPacket stored);; count_activity
     | None => mret tt
     end) (pins_cleared (set_tracker (ticked (connection_tracker s)) s)).
Proof.
  intros Hl Hon. set (t := ticked (connection_tracker s)). unfold handlePinActivity.
  rewrite (on_tracker_ok _ _ _ _ _ (getTimeMs_run _)), (M_bind_ok get _ _ _ _ eq_refl). fold t.
  change (smoke_seen (set_tracker t s)) with (smoke_seen s).
  change (life_check (set_tracker t s)) with (life_check s). rewrite Hon. cbn zeta.
  rewrite (M_bind_ok _ _ _ _ _ (write_pin_content_run _ (set_tracker t s))).
  rewrite pin_id_run, lift_result_ok, pin_name_run by done. reflexivity.
Qed.

Lemma handlePinActivity_alert s :
  let t := ticked (connection_tracker s) in
  wf (connection_tracker s) → length local_bd_addr = 6%nat → smoke_seen s || life_check s = true →
  handlePinActivity s
  = match messages t !! message_id (alert s) with
    | Some _ => Ok (tt, pins_cleared (set_tracker t s))
    | None => Ok (tt, busier (pins_cleared (set_tracker (alerted (alert s) t) s)))
    end.
Proof.
  intros t Hwf Hl Hon. assert (wf t) as Hwft by (by apply wf_calls).
  rewrite handlePinActivity_made by done. fold t. set (s1 := pins_cleared (set_tracker t s)).
  destruct (messages t !! message_id (alert s)) as [n|] eqn:Hm.
  - assert (storeMessageAndReturnIfNew (alert s) t = Ok (None, t)) as Hrun.
    { unfold storeMessageAndReturnIfNew. rewrite (M_bind_ok get _ _ _ _ eq_refl). cbn zeta. by rewrite Hm. }
    by rewrite (on_tracker_ok _ _ _ _ s1 Hrun).
  - rewrite (on_tracker_ok _ _ _ _ s1 (storeMessage_new _ _ Hm)).
    destruct (enqueueBroadcast_new (alert s) t Hwft Hm) as (Hrun & _); [done|].
    by rewrite (on_tracker_ok _ _ _ _ (set_tracker (upd_messages
      (λ ms, <[message_id (alert s) := (alloc (used t), alert s)]> ms) t) s1) Hrun).
Qed.
End pin_lemmas.

Lemma alert_forwardable {env : Env} s :
  bytes_ok local_bd_addr → forwardable (PMessage (alert s)).
Proof.
  intros Ha. split; [|done]. unfold alert, pin_message.
  assert (∀ a b, bytes_ok a → bytes_ok b → bytes_ok (a ++ b)) as Happ by (intros; by apply Forall_app).
  assert (in_width 64 (now_of (connection_tracker s))) by (by apply wrap_in_width).
  unfold Message_ok. cbn [msg_base message_flags message_timestamp message_id sender_nickname content].
  split_and!; [|done|done|..].
  - pose proof (address_word_width _ Ha). repeat split; done || (cbn; lia) || apply H || apply H0.
  - unfold pin_id. apply Happ; [apply be_bytes_ok|]. apply Happ; [decide_concrete|apply be_bytes_ok].
  - apply repeater_name_bytes.
  - unfold pin_content. repeat apply Happ; try apply hex8_bytes; try decide_concrete; case_match; decide_concrete.
Qed.

(** * Properties *)

(** C16: when a pin has raised its flag, the next [handlePinActivity] makes a message of
    ttl 7 in the repeater's name whose content is the time in seconds in four hexadecimal
    digits and what was seen, stores it in a fresh node, queues it for broadcast in a
    form that can be sent, and lowers both flags. *)
Theorem alert_raised {env : Env} `{!AllocFresh env} (s : App) :
  let t := connection_tracker s in
  wf t → length local_bd_addr = 6%nat → bytes_ok local_bd_addr →
  smoke_seen s || life_check s = true → messages t !! message_id (alert s) = None →
  ∃ s' a digits, handlePinActivity s = Ok (tt, s') ∧ wf (connection_tracker s') ∧ (a ∉ used t) ∧
    (smoke_seen s', life_check s') = (false, false) ∧
    messages (connection_tracker s') = <[message_id (alert s) := (a, alert s)]> (messages t) ∧
    broadcast_packets_to_send_list (connection_tracker s') = broadcast_packets_to_send_list t ++ [a] ∧
    packet_ttl (base_of (alert s)) = 7 ∧ forwardable (PMessage (alert s)) ∧
    content (alert s) = [char "["] ++ digits ++ [char "]"] ++
      (if life_check s then still_alive_string else []) ++
      (if smoke_seen s then smoke_seen_string else []) ∧
    unhex 0 digits = Some (u16 (now_of t / 1000)).
Proof.
  intros t Hwf Hl Hb Hon Hm. assert (wf (ticked t)) as Hwft by (by apply wf_calls).
  destruct (enqueueBroadcast_new (alert s) (ticked t) Hwft Hm) as (_ & Hwf' & _); [done|].
  eexists _, (alloc (used (ticked t))), _. split.
  { pose proof (handlePinActivity_alert s Hwf Hl Hon) as Hrun. cbv zeta in Hrun.
    change (messages (ticked (connection_tracker s))) with (messages t) in Hrun.
    rewrite Hm in Hrun. exact Hrun. }
  split_and!; [done|apply (alloc_fresh (used (ticked t)))|done|done|done|done|by apply alert_forwardable
    |unfold alert, pin_message, pin_content; cbn [content]; by rewrite (app_assoc (hex8 _))|].
  unfold t. set (v := u16 (now_of (connection_tracker s) / 1000)). assert (in_width 16 v) as Hv by (by apply wrap_in_width).
  rewrite unhex_app, unhex_hex8 by (by apply wrap_in_width). cbn [mbind option_bind].
  rewrite unhex_hex8 by (by apply wrap_in_width). f_equal.
  unfold u8. rewrite Z.shiftr_div_pow2 by lia. unfold in_width, wrap in *.
  change (2 ^ 8) with 256. change (2 ^ 16) with 65536 in Hv. clearbody v.
  rewrite (Z.mod_small (v / 256)) by div_lia. div_lia.
Qed.

(** C18: an alert is lost when a message is still stored that this repeater made a
    multiple of 65.536 seconds earlier: the id has the time in milliseconds cut to 16 bits, since
    [write_uint32] takes a 16-bit argument.  The flags are lowered all the same. *)
Theorem alert_lost {env : Env} `{!AllocFresh env} (s : App) (earlier : Z) :
  let t := connection_tracker s in
  wf t → length local_bd_addr = 6%nat → smoke_seen s || life_check s = true →
  is_Some (messages t !! pin_id earlier (address_word local_bd_addr)) →
  (65536 | now_of t - earlier) →
  ∃ s', handlePinActivity s = Ok (tt, s') ∧ connection_tracker s' = ticked t ∧
    (smoke_seen s', life_check s') = (false, false).
Proof.
  intros t Hwf Hl Hon [n Hn] [k Hk].
  pose proof (handlePinActivity_alert s Hwf Hl Hon) as Hrun. cbv zeta in Hrun.
  change (messages (ticked (connection_tracker s))) with (messages t) in Hrun.
  assert (message_id (alert s) = pin_id earlier (address_word local_bd_addr)) as Hid.
  { assert (u16 (now_of t) = u16 earlier) as Hu.
    { unfold u16, wrap. replace (now_of t) with (earlier + k * 2 ^ 16) by lia. apply Z_mod_plus_full. }
    unfold alert, pin_message, pin_id. cbn [message_id]. fold t. by rewrite Hu. }
  rewrite Hid, Hn in Hrun. eexists. split; [exact Hrun|by split].
Qed.

(** ** Witnesses *)

Definition alarmed_example : App := set_smoke_seen true app_example.

Lemma alert_raised_witness :
  let s := alarmed_example in
  let t := connection_tracker s in
  ∃ s' a digits, @handlePinActivity example_env s = Ok (tt, s') ∧ wf (connection_tracker s') ∧ (a ∉ used t) ∧
    (smoke_seen s', life_check s') = (false, false) ∧
    messages (connection_tracker s') = <[message_id (@alert example_env s) := (a, @alert example_env s)]> (messages t) ∧
    broadcast_packets_to_send_list (connection_tracker s') = broadcast_packets_to_send_list t ++ [a] ∧
    packet_ttl (base_of (@alert example_env s)) = 7 ∧ forwardable (PMessage (@alert example_env s)) ∧
    content (@alert example_env s) = [char "["] ++ digits ++ [char "]"] ++ [] ++ smoke_seen_string ∧
    unhex 0 digits = Some (u16 (@now_of example_env t / 1000)).
Proof.
  apply (@alert_raised example_env _ alarmed_example);
    [apply sending_example_ok; vm_compute; reflexivity|reflexivity|decide_concrete|reflexivity
    |vm_compute; reflexivity].
Defined.

(** The message of an alert at time 65536 is stored; the clock reads 0. *)
Definition relapsed_example : App :=
  in_tracker (upd_messages (λ _, {[ pin_id 65536 (address_word (@local_bd_addr example_env)) :=
    (30, message_to_send "a") ]})) (set_smoke_seen true (App_new (Tracker_new 1))).

Lemma alert_lost_witness :
  ∃ s', @handlePinActivity example_env relapsed_example = Ok (tt, s') ∧
    connection_tracker s' = ticked (connection_tracker relapsed_example) ∧
    (smoke_seen s', life_check s') = (false, false).
Proof.
  apply (@alert_lost example_env _ relapsed_example 65536);
    [apply wf_check_sound; vm_compute; reflexivity|reflexivity|reflexivity
    |eexists; vm_compute; reflexivity|exists (-1); vm_compute; reflexivity].
Defined.
