(* ===== verification/Alerts.v ===== *)
(** An alert on its way: from the pin, through [sendPackets], to what the next repeater
    reads. *)

From S2P Require Import Prelude BinaryIO Packets StdContainers BleConnection Advertising Tracker TrackerWf TrackerSafety Sending Connections Protocol Application Callbacks Discovery Stored Pins.

(** * Lemmas *)

Section alerts.
Context {env : Env} `{!AllocFresh env}.

(** The strings of an alert are short. *)
Lemma alert_short s :
  length (message_id (alert s)) = 13%nat ∧ (length (sender_nickname (alert s)) = 13)%nat ∧
  (length (content (alert s)) <= 29)%nat.
Proof.
  unfold alert, pin_message. cbn [message_id sender_nickname content]. split_and!.
  - unfold pin_id. by rewrite !length_app, !length_be_bytes.
  - unfold repeater_name. by rewrite !length_app.
  - unfold pin_content. rewrite !length_app.
    destruct (life_check s), (smoke_seen s); cbn; lia.
Qed.

Lemma limit_short n l : Z.of_nat (length l) ≤ n → limit n l = l.
Proof. intros Hl. unfold limit. apply take_ge. lia. Qed.

Lemma alert_normal s : normal_message (alert s) = alert s.
Proof.
  destruct (alert_short s) as (Hid & Hname & Hcontent). unfold normal_message.
  rewrite !limit_short by lia. reflexivity.
Qed.

Lemma alert_encoding_short s : Z.of_nat (length (encoding (PMessage (alert s)))) < 2 ^ 16.
Proof.
  destruct (alert_short s) as (Hid & Hname & Hcontent).
  unfold encoding, packet_enc, Message_enc, PacketBase_enc, Base_enc, str8_enc, str16_enc.
  rewrite !limit_short by lia. change (recipient_enc (msg_base (alert s))) with (@nil Z).
  repeat (rewrite length_app || rewrite length_be_bytes || cbn [length]). rewrite Hid, Hname. lia.
Qed.

(** The next repeater reads the alert that was raised. *)
Lemma parse_alert s :
  bytes_ok local_bd_addr →
  parse 0 (encoding (PMessage (alert s))) (Z.of_nat (length (encoding (PMessage (alert s))))) = Ok (RMessage (alert s)).
Proof.
  intros Hb. apply parse_encoding; [apply (alert_forwardable s Hb)|apply alert_normal|done|apply alert_encoding_short].
Qed.

(** With the alert, all that is stored can still be sent. *)
Lemma alerted_can_send s t :
  wf t → wf (alerted (alert s) t) → bytes_ok local_bd_addr → can_send t → can_send (alerted (alert s) t).
Proof.
  intros Hwf Hwf' Hb [Hnd Hf]. split; [done|].
  apply packets_forwardable_alt in Hf as (Ha & Hm & Hp); [|done]. apply packets_forwardable_alt; [done|].
  split_and!; [done| |done]. intros k a m. cbn. rewrite lookup_insert_Some.
  intros [[_ [= _ <-]]|[_ Hk]]; [by apply alert_forwardable|by eapply Hm].
Qed.

Lemma alerted_packet m t : wf (alerted m t) → packet_at (alerted m t) (alloc (used t)) = Some (PMessage m).
Proof.
  intros Hwf. rewrite (packet_at_object _ (wf_separate _ Hwf) (OMessage (message_id m)));
    cbn [packet_of addr_of is_packet];
    change (messages (alerted m t)) with (<[message_id m := (alloc (used t), m)]> (messages t));
    rewrite ?lookup_insert_eq; done.
Qed.
End alerts.

(** * Properties *)

(** C17: an alert gets through.  When a pin has raised its flag and nothing else is queued,
    [handlePinActivity] and the next [sendPackets] queue the encoding of the alert once
    for every available connection and for no other, provided every packet with a record
    is stored at a lower address; and what a repeater reads from that
    encoding is the alert, ttl included. *)
Theorem alert_flooded {env : Env} `{!AllocFresh env} (s : App) :
  let t := connection_tracker s in
  let value := encoding (PMessage (alert s)) in
  wf t → can_send t → length local_bd_addr = 6%nat → bytes_ok local_bd_addr →
  smoke_seen s || life_check s = true → messages t !! message_id (alert s) = None →
  broadcast_packets_to_send_list t = [] → targeted_packets_to_send_list t = [] →
  (∀ e, e ∈ packets_connections_sent_list t → fst e < alloc (used t)) →
  ∃ s' handles, (handlePinActivity;; on_tracker sendPackets) s = Ok (tt, s') ∧ wf (connection_tracker s') ∧
    (smoke_seen s', life_check s') = (false, false) ∧ NoDup handles ∧
    outbox (connection_tracker s') ≡ₚ ((λ h, (h, value)) <$> handles) ++ outbox t ∧
    (∀ h, h ∈ handles ↔ ∃ a c, connections t !! h = Some (a, c) ∧ available c = true) ∧
    parse 0 value (Z.of_nat (length value)) = Ok (RMessage (alert s)).
Proof.
  intros t value Hwf Hcan Hl Hb Hon Hm Hbc Htg Hrec.
  destruct (wf_calls t (λ l, l ++ [time_us_64_call]) Hwf) as [Hwft _]. fold (ticked t) in Hwft.
  assert (can_send (ticked t)) as Hcant by exact Hcan.
  destruct (enqueueBroadcast_new (alert s) (ticked t) Hwft Hm) as (_ & Hwf1 & _); [done|].
  pose proof (handlePinActivity_alert s Hwf Hl Hon) as Hrun. cbv zeta in Hrun.
  change (messages (ticked (connection_tracker s))) with (messages t) in Hrun. rewrite Hm in Hrun.
  fold t in Hrun. set (t1 := alerted (alert s) (ticked t)) in *.
  assert (broadcast_packets_to_send_list t1 = [alloc (used t)]) as Hb1.
  { change (broadcast_packets_to_send_list t ++ [alloc (used t)] = [alloc (used t)]). by rewrite Hbc. }
  destruct (flood_round t1 (alloc (used t)) (alert s)) as (t2 & handles & Hsend & Hwf2 & Hout & Hnd & Hin & _);
    [done|by apply alerted_can_send|exact Htg|exact Hb1| |by apply (alerted_packet (alert s) (ticked t))|].
  { right. intros e He. specialize (Hrec e He). lia. }
  exists (set_tracker t2 (busier (pins_cleared (set_tracker t1 s)))), handles. split_and!; try done.
  - rewrite (M_bind_ok _ _ _ _ _ Hrun). unfold on_tracker.
    change (connection_tracker (busier _)) with t1. by rewrite Hsend.
  - intros h. rewrite Hin. rewrite broadcast_sends_recorded; [|done|right; intros e He; specialize (Hrec e He); lia].
    split; [intros (a & c & Hc & Hav & _); eauto|]. intros (a & c & Hc & Hav). exists a, c. split_and!; [done|done|].
    intros e He Hle. specialize (Hrec e He). lia.
  - by apply parse_alert.
Qed.

(** ** Witness *)

(** The smoke alarm went off; both connections are available. *)
Lemma alert_flooded_witness :
  let s := alarmed_example in
  let t := connection_tracker s in
  let value := encoding (PMessage (@alert example_env s)) in
  ∃ s' handles, (@handlePinActivity example_env;; on_tracker (@sendPackets example_env)) s = Ok (tt, s') ∧
    wf (connection_tracker s') ∧
    (smoke_seen s', life_check s') = (false, false) ∧ NoDup handles ∧
    outbox (connection_tracker s') ≡ₚ ((λ h, (h, value)) <$> handles) ++ outbox t ∧
    (∀ h, h ∈ handles ↔ ∃ a c, connections t !! h = Some (a, c) ∧ available c = true) ∧
    parse 0 value (Z.of_nat (length value)) = Ok (RMessage (@alert example_env s)).
Proof.
  apply (@alert_flooded example_env _ alarmed_example);
    [apply sending_example_ok; vm_compute; reflexivity|apply sending_example_ok; vm_compute; reflexivity
    |reflexivity|decide_concrete|reflexivity|vm_compute; reflexivity|reflexivity|reflexivity|].
  refine (proj1 (Forall_forall _ _) _). decide_concrete.
Defined.
