(* ===== verification/NetworkAlerts.v ===== *)
(** An alert in a network of repeaters: from the pin of one node to all that can be
    reached. *)

From S2P Require Import Prelude BinaryIO Packets StdContainers BleConnection Advertising Tracker TrackerWf TrackerSafety Sending Connections Protocol Application Callbacks Discovery Stored Flood Nodes Network Pins Alerts.

(** * Lemmas *)

Lemma alert_floodable {env : Env} s : bytes_ok local_bd_addr → floodable (alert s).
Proof.
  intros Hb. destruct (alert_forwardable s Hb) as [Hok Hflag].
  constructor; [done|apply alert_normal|done|done|done|apply alert_encoding_short].
Qed.

Section node_alert.
Context {env : Env} `{!AllocFresh env} {db : AttDb} (out ends : gset Z).

(** A node that raises an alert has it to pass on over all its links. *)
Lemma node_raises s :
  let t := connection_tracker s in
  length local_bd_addr = 6%nat → bytes_ok local_bd_addr → smoke_seen s || life_check s = true →
  node_wf out ends t → in_phase out (alert s) t Unaware →
  ∃ s', handlePinActivity s = Ok (tt, s') ∧ node_wf out ends (connection_tracker s') ∧
    in_phase out (alert s) (connection_tracker s') (Waiting None) ∧ silent t (connection_tracker s').
Proof.
  intros t Hl Hb Hon Hn (Hm & Hbc & Hw & Hrec). pose proof (nw_wf _ _ _ Hn) as Hwf.
  destruct (wf_calls t (λ l, l ++ [time_us_64_call]) Hwf) as [Hwft _]. fold (ticked t) in Hwft.
  destruct (enqueueBroadcast_new (alert s) (ticked t) Hwft Hm) as (_ & Hwf1 & _); [done|].
  pose proof (handlePinActivity_alert s Hwf Hl Hon) as Hrun. cbv zeta in Hrun. fold t in Hrun.
  change (messages (ticked t)) with (messages t) in Hrun. rewrite Hm in Hrun.
  set (t1 := alerted (alert s) (ticked t)) in *. destruct (nw_writes _ _ _ Hn) as [Htg Hno _ _].
  eexists. split; [exact Hrun|]. change (connection_tracker (busier _)) with t1. split_and!.
  - apply (node_wf_same out ends t); [done|done| |exact Htg|exact Hno|done].
    apply alerted_can_send; [done|done|done|exact (nw_can_send _ _ _ Hn)].
  - split; [exact Hw|]. exists (alloc (used t)). split_and!; [apply lookup_insert_eq|done| |].
    + change (broadcast_packets_to_send_list t1) with (broadcast_packets_to_send_list t ++ [alloc (used t)]). by rewrite Hbc.
    + intros e He Hle. specialize (Hrec e He). lia.
  - exists [time_us_64_call]. split; [done|by repeat constructor].
Qed.
End node_alert.

(** Nothing is in the air, no node knows the message, and links lead to nodes. *)
Record at_rest {db : AttDb} (envs : Z → Env) (G : Topology) (ends : Z → gset Z) (m : Message) (w : Net) : Prop := {
  rs_air : air w = [];
  rs_nodes : ∀ i s, repeaters w !! i = Some s → node_ok envs G ends m i s Unaware;
  rs_links : ∀ i x, is_Some (repeaters w !! i) → x ∈ links G i →
    ∃ j h', far_end G i x = Some (j, h') ∧ is_Some (repeaters w !! j);
}.

Section origin.
Context {db : AttDb} `{!AttDbOk db} {le : LittleEndian} (envs : Z → Env) (G : Topology) (ends : Z → gset Z).

(** The network when a node has raised an alert. *)
Lemma raised_floods o w s :
  let m := @alert (envs o) s in
  network_ok envs G ends m → at_rest envs G ends m w → repeaters w !! o = Some s →
  smoke_seen s || life_check s = true →
  length (@local_bd_addr (envs o)) = 6%nat → bytes_ok (@local_bd_addr (envs o)) →
  ∃ w1, at_node envs G o (@handlePinActivity (envs o)) w = Ok (tt, w1) ∧
    floods envs G ends m w1 (flood_origin (unaware_nodes w) o) ∧
    flood_inv G (flood_origin (unaware_nodes w) o).
Proof.
  intros m [Hfresh Hsym Hends _] [Hair Hnodes Hlinks] Ho Hon Hl Hb.
  destruct (Hnodes o s Ho) as [Hn Hφ].
  destruct (@node_raises (envs o) (Hfresh o) db (links G o) (ends o) s Hl Hb Hon Hn Hφ)
    as (s' & Hrun & Hn' & Hφ' & Hsil).
  eexists. split; [by apply at_node_run|]. split.
  - rewrite (outgoing_silent envs G o s s' Hsil), Hair.
    apply (floods_update envs G ends m w (mkFlood (unaware_nodes w) [])); [|done|constructor].
    constructor; [|by rewrite Hair; constructor]. intros i. cbn. unfold unaware_nodes. rewrite lookup_fmap.
    destruct (repeaters w !! i) as [si|] eqn:Hi; constructor. by apply Hnodes.
  - apply flood_origin_inv; [intros i φ; unfold unaware_nodes; rewrite lookup_fmap, fmap_Some; by intros (? & _ & ->)|].
    apply (wired_insert G (mkFlood (unaware_nodes w) []) o Unaware).
    { cbn. unfold unaware_nodes. by rewrite lookup_fmap, Ho. }
    split; [exact Hsym|]. cbn. unfold unaware_nodes. setoid_rewrite lookup_fmap. setoid_rewrite fmap_is_Some.
    intros i φ x (si & Hi & _)%fmap_Some Hx. by apply Hlinks.
Qed.

Lemma origin_count o w :
  is_Some (repeaters w !! o) →
  flood_bound G (flood_origin (unaware_nodes w) o) = link_count G (unaware_nodes w) ∧
  flood_measure G (flood_origin (unaware_nodes w) o)
    = (2 * link_count G (unaware_nodes w) + size (repeaters w))%nat.
Proof.
  intros Ho. destruct (flood_origin_bound G (unaware_nodes w) o) as [-> ->].
  - intros i φ. unfold unaware_nodes. rewrite lookup_fmap, fmap_Some. by intros (? & _ & ->).
  - unfold unaware_nodes. by rewrite lookup_fmap, fmap_is_Some.
  - unfold unaware_nodes. by rewrite map_size_fmap.
Qed.

Lemma origin_reached o w f m w' i :
  rtc (flood_step G) (flood_origin (unaware_nodes w) o) f → floods envs G ends m w' f → flood_inv G f →
  quiescent G f → rtc (edge G) o i → has_message m w' i.
Proof.
  intros Hrun Hf Hinv Hq Hpath.
  refine (reached_from envs G ends m _ o f i _ Hrun w' Hf Hinv Hq Hpath). left. by apply (aware_inserted (mkFlood (unaware_nodes w) [])).
Qed.
End origin.

(** * Properties *)

(** C7: an alert reaches everybody.  When a pin of one node of a network at rest has raised its
    flag and the node comes to [handlePinActivity], every schedule after that runs
    without undefined behaviour on any node, and no more values arrive than there are links
    to send over; once the network has settled, every node that can be reached
    from the first one has stored the alert as it was raised; and while BTstack takes the
    values it is given, a bounded number of further steps settles it. *)
Theorem alert_reaches_all {db : AttDb} `{!AttDbOk db} {le : LittleEndian} envs G ends (o : Z) (s : App) w sts :
  let m := @alert (envs o) s in
  network_ok envs G ends m → at_rest envs G ends m w → repeaters w !! o = Some s →
  smoke_seen s || life_check s = true →
  length (@local_bd_addr (envs o)) = 6%nat → bytes_ok (@local_bd_addr (envs o)) →
  ∃ w1, at_node envs G o (@handlePinActivity (envs o)) w = Ok (tt, w1) ∧
    (steps_ok envs G w1 sts → ∃ w', for_each sts (run_step envs G) w1 = Ok (tt, w') ∧
       (deliveries sts ≤ link_count G (unaware_nodes w))%nat ∧
       (settled envs w' → ∀ i, rtc (edge G) o i → has_message m w' i) ∧
       (accepting envs m → ∃ more w'', steps_ok envs G w' more ∧
          for_each more (run_step envs G) w' = Ok (tt, w'') ∧
          (length more ≤ 2 * link_count G (unaware_nodes w) + size (repeaters w))%nat ∧
          settled envs w'' ∧ ∀ i, rtc (edge G) o i → has_message m w'' i)).
Proof.
  intros m Hok Hrest Ho Hon Hl Hb. pose proof (@alert_floodable (envs o) s Hb) as Hm. fold m in Hm.
  destruct (raised_floods envs G ends o w s Hok Hrest Ho Hon Hl Hb) as (w1 & Hrun & Hf1 & Hinv1). fold m in Hf1.
  destruct Hok as [Hfresh Hsym Hends Hknown]. exists w1. split; [done|]. intros Hsts.
  destruct (run_follows envs G ends m Hfresh Hm Hends Hknown sts w1 _ Hf1 Hinv1 Hsts)
    as (w' & f & Hruns & Hstar & Hf & Hinv & Hle).
  destruct (origin_count G o w) as [Hbound Hmeasure]; [by eexists|].
  exists w'. split_and!; [done|lia| |].
  - intros Hset i. eapply origin_reached; [exact Hstar|done|done|].
    by apply (settled_quiescent envs G ends m Hfresh w').
  - intros Hacc. destruct (settles envs G ends m Hfresh Hm Hends Hknown w' f Hacc Hf Hinv)
      as (more & w'' & f' & Hoks & Hmore & Hlen & Hstar' & Hf' & Hq).
    pose proof (flood_steps_measure G _ _ Hstar). exists more, w''. split_and!; [done|done|lia| |].
    + by apply (settled_quiescent envs G ends m Hfresh w'' f').
    + intros i. eapply origin_reached; [by etrans|done| |done]. by eapply flood_steps_inv.
Qed.

(** ** Witness *)

(** The ring of the file Network at rest; the smoke alarm of the first node has gone off. *)
Definition alarm_app : App := set_smoke_seen true (App_new (ring_tracker [1] [3; 5])).

Definition alarm_net : Net := mkNet (<[1 := alarm_app]> (repeaters ring_net)) [].

Definition alarm : Message := @alert example_env alarm_app.

Lemma alarm_network_ok : network_ok (db := example_db) example_envs ring ring_ends alarm.
Proof. destruct ring_ok as [H1 H2 H3 _]. constructor; [done..|]. intros i cs h. vm_compute. done. Qed.

Lemma alarm_at_rest : at_rest (db := example_db) example_envs ring ring_ends alarm alarm_net.
Proof.
  constructor; [done|..].
  - assert (map_Forall (λ i s, @node_check example_env example_db (links ring i) (ring_ends i) (connection_tracker s) ∧
      (messages (connection_tracker s) !! message_id alarm = None ∧
       broadcast_packets_to_send_list (connection_tracker s) = [] ∧ raw_packet_to_write (connection_tracker s) = []) ∧
      packets_connections_sent_list (connection_tracker s) = []) (repeaters alarm_net)) as Hall by decide_concrete.
    intros i s Hs. destruct (Hall i s Hs) as (Hc & (? & ? & ?) & Hr). split; [by apply node_check_sound|].
    split_and!; try done. rewrite Hr. intros e He. by apply elem_of_nil in He.
  - assert (map_Forall (λ i _, Forall (λ x, is_Some (far_end ring i x ≫= λ d, repeaters alarm_net !! fst d))
      (elements (links ring i))) (repeaters alarm_net)) as Hall by decide_concrete.
    intros i x [s Hs] Hx. specialize (Hall i s Hs). rewrite Forall_forall in Hall.
    apply elem_of_elements, Hall in Hx. destruct (far_end ring i x) as [[j h]|]; [|by destruct Hx].
    exists j, h. by split.
Qed.

Definition alarm_raised : Net :=
  match at_node example_envs ring 1 (@handlePinActivity example_env) alarm_net with Ok (_, w) => w | Err _ => alarm_net end.

(** The alert goes round the ring and comes back. *)
Definition alarm_steps : list Step :=
  [Send 1; CanWrite 1 1; Deliver 0; Send 2; CanWrite 2 2; Deliver 0; Send 3; CanWrite 3 3; Deliver 0].

Definition alarm_end : Net :=
  match for_each alarm_steps ring_step alarm_raised with Ok (_, w) => w | Err _ => alarm_raised end.

Lemma alert_reaches_all_witness :
  for_each alarm_steps ring_step alarm_raised = Ok (tt, alarm_end) ∧
  (deliveries alarm_steps ≤ link_count ring (unaware_nodes alarm_net))%nat ∧
  has_message alarm alarm_end 3.
Proof.
  destruct (alert_reaches_all (db := example_db) (le := example_le) example_envs ring ring_ends 1 alarm_app alarm_net
    alarm_steps) as (w1 & Hrun & Hsteps);
    [apply alarm_network_ok|apply alarm_at_rest|reflexivity|reflexivity|reflexivity|decide_concrete|].
  assert (w1 = alarm_raised) as ->.
  { unfold alarm_raised. change (@handlePinActivity example_env) with (@handlePinActivity (example_envs 1)).
    by rewrite Hrun. }
  destruct Hsteps as (w' & Hruns & Hle & Hset & _); [vm_compute; repeat split; apply le_n|].
  assert (w' = alarm_end) as -> by (unfold alarm_end, ring_step; by rewrite Hruns).
  split_and!; [exact Hruns|exact Hle|].
  apply Hset; [apply settled_check_sound; vm_compute; reflexivity|apply ring_path; decide_concrete].
Defined.
