(* ===== verification/MainLoop.v ===== *)
(** Component: the main loop of src/main.cpp, from the initialisation of its local
    variables on, and [connect_to_first_neighbour].

    An iteration is a sequence of steps, one for each statement of the body.
    Callbacks are interrupts.  They run between any two statements, and inside a statement
    where the code depends on what they leave alone: while the processor sleeps (in
    [__wfi()], after each packet that is sent, while the LED is on), between the choice of
    a neighbour and its use, and between the condition of the inner loop and [__wfi()].
    A [Round] lists what runs where; what runs in the sleep that ends an iteration
    is what runs before the next.  The log is left out, as everywhere in the application. *)

From S2P Require Import Prelude BinaryIO Packets StdContainers BleConnection Advertising Tracker TrackerWf TrackerSafety Sending Connections Protocol Clock Application Callbacks Discovery Kept Interrupted Pins.

(** * Constants of BleConnectionTracker.h *)

Definition two_seconds_in_us : Z := 1000 * 1000 * 2.
Definition two_minutes_in_us : Z := 1000 * 1000 * 60 * 5.
Definition five_minutes_in_us : Z := 1000 * 1000 * 60 * 5.
Definition ten_minutes_in_us : Z := 1000 * 1000 * 60 * 10.

(** * The loop *)

(** The local variables of [main]. *)
Record Locals := mkLocals {
  lastSleepOrActivity : Z;        (* uint32_t *)
  lastAnnounce : Z;               (* uint32_t *)
  lastFlash : Z;                  (* uint32_t *)
  lastScan : Z;                   (* uint32_t *)
  lastRssiUpdate : Z;             (* uint32_t *)
  rssi_update_in_progress : bool;
  lastCleanup : Z;                (* uint32_t *)
  last_activity : Z;              (* uint16_t *)
}.

Definition set_lastAnnounce (v : Z) (l : Locals) : Locals :=
  mkLocals (lastSleepOrActivity l) v (lastFlash l) (lastScan l) (lastRssiUpdate l)
    (rssi_update_in_progress l) (lastCleanup l) (last_activity l).
Definition set_lastFlash (v : Z) (l : Locals) : Locals :=
  mkLocals (lastSleepOrActivity l) (lastAnnounce l) v (lastScan l) (lastRssiUpdate l)
    (rssi_update_in_progress l) (lastCleanup l) (last_activity l).
Definition set_lastScan (v : Z) (l : Locals) : Locals :=
  mkLocals (lastSleepOrActivity l) (lastAnnounce l) (lastFlash l) v (lastRssiUpdate l)
    (rssi_update_in_progress l) (lastCleanup l) (last_activity l).
Definition set_rssi_update (last : Z) (in_progress : bool) (l : Locals) : Locals :=
  mkLocals (lastSleepOrActivity l) (lastAnnounce l) (lastFlash l) (lastScan l) last
    in_progress (lastCleanup l) (last_activity l).
Definition set_lastCleanup (v : Z) (l : Locals) : Locals :=
  mkLocals (lastSleepOrActivity l) (lastAnnounce l) (lastFlash l) (lastScan l) (lastRssiUpdate l)
    (rssi_update_in_progress l) v (last_activity l).
Definition set_last_activity (time activity : Z) (l : Locals) : Locals :=
  mkLocals time (lastAnnounce l) (lastFlash l) (lastScan l) (lastRssiUpdate l)
    (rssi_update_in_progress l) (lastCleanup l) activity.

(** What runs in an iteration beside it: before it, in the sleeps of [sendPackets], while
    the LED is on, when the processor sleeps, after each statement, between the choice
    of a neighbour and its use, and before each sleep. *)
Record Round := mkRound {
  before_of : list Callback;
  sends_of : list (list Callback);
  flash_of : list Callback;
  wakeups_of : list (list Callback);
  gaps_of : list (list Callback);
  neighbour_of : list Callback;
  early_of : list (list Callback);
}.

(** After the statement number [i]. *)
Definition gap_of (r : Round) (i : nat) : list Callback := default [] (gaps_of r !! i).

(** [(a - b) > interval] on [uint32_t]. *)
Definition due (loopStart last interval : Z) : bool := bool_decide (u32 (loopStart - last) > interval).

Section main_loop.
Context {env : Env} {iterator : AdIterator} {db : AttDb} {le : LittleEndian}.

Definition time_us_32 : M App Z := t ← app_ext time_us_32_call; mret (u32 t).

(** From the first element of [neighbours] on. *)
Definition connect_to_neighbour (neighbour : Addr) : M App bool :=
  c ← on_tracker (deref connection_at neighbour);
  let address := bt_address c in
  connection ← on_tracker (getConnectionForAddress address);
  match connection with
  | Some _ => mret false
  | None =>
      err ← app_ext (gap_connect address (bt_address_type c));
      if decide (u8 err = 0) then
        on_tracker (setConnectionStarted neighbour);;
        modify (set_connection_in_progress true);;
        mret true
      else
        app_ext (sleep_ms 20);;
        mret false
  end.

(** The callbacks run when the vector of pointers has been built. *)
Definition connect_to_first_neighbour (callbacks : list Callback) : M App bool :=
  neighbours ← on_tracker getConnectableNeighbours;
  for_each callbacks run_callback;;
  match neighbours with
  | neighbour :: _ => connect_to_neighbour neighbour
  | [] => mret false
  end.

(** The variables before the loop. *)
Definition main_locals : M App Locals :=
  lastSleepOrActivity ← time_us_32;
  lastAnnounce ← time_us_32;
  lastScan ← time_us_32;
  lastRssiUpdate ← time_us_32;
  t ← time_us_32;
  s ← get;
  mret (mkLocals lastSleepOrActivity lastAnnounce 0 lastScan lastRssiUpdate false
          (u32 (t + five_minutes_in_us)) (global_activity s)).

Definition loop_announce (loopStart : Z) (l : Locals) : M App Locals :=
  if due loopStart (lastAnnounce l) two_seconds_in_us then
    on_tracker announceToConnections;;
    t ← time_us_32;
    mret (set_lastAnnounce t l)
  else mret l.

(** Nothing is under way, and the last disconnection is two seconds ago. *)
Definition may_connect (loopStart : Z) (s : App) : bool :=
  negb (scanning s) && negb (connection_in_progress s) && negb (discover_primary_services s) &&
  negb (discover_characteristics_for_service s) &&
  bool_decide (disconnection_started_at s < u32 (loopStart - two_seconds_in_us)).

Definition loop_connect (callbacks : list Callback) (loopStart : Z) : M App unit :=
  s ← get;
  if may_connect loopStart s then ignore (connect_to_first_neighbour callbacks) else mret tt.

Definition loop_send (during : list (list Callback)) (l : Locals) : M App unit :=
  s ← get;
  (if decide (last_activity l ≠ global_activity s) then ignore (on_tracker printStats) else mret tt);;
  sendPackets_during during.

Definition loop_flash (callbacks : list Callback) (loopStart : Z) (l : Locals) : M App Locals :=
  if due loopStart (lastFlash l) two_seconds_in_us then
    app_ext (cyw43_arch_gpio_put true);;
    app_ext (sleep_ms 20);;
    for_each callbacks run_callback;;
    app_ext (cyw43_arch_gpio_put false);;
    t ← time_us_32;
    mret (set_lastFlash t l)
  else mret l.

Definition loop_rssi (loopStart : Z) (l : Locals) : M App Locals :=
  if due loopStart (lastRssiUpdate l) two_minutes_in_us then
    in_progress ← on_tracker (requestNextRssi true);
    t ← time_us_32;
    mret (set_rssi_update t in_progress l)
  else if rssi_update_in_progress l then
    in_progress ← on_tracker (requestNextRssi false);
    mret (set_rssi_update (lastRssiUpdate l) in_progress l)
  else mret l.

Definition loop_scan (loopStart : Z) (l : Locals) : M App Locals :=
  if due loopStart (lastScan l) five_minutes_in_us then
    start_scanning_for_local_nodes;;
    t ← time_us_32;
    mret (set_lastScan t l)
  else mret l.

Definition loop_cleanup (loopStart : Z) (l : Locals) : M App Locals :=
  if due loopStart (lastCleanup l) ten_minutes_in_us then
    on_tracker cleanupStaleItems;;
    t ← time_us_32;
    mret (set_lastCleanup t l)
  else mret l.

(** The inner loop; whether it slept, and the wake-ups that are left.  Without a
    wake-up the processor sleeps on, whatever has run [early]: between the condition and
    [__wfi()]. *)
Fixpoint sleep_loop (early wakeups : list (list Callback)) (loopStart : Z) (l : Locals) (slept : bool) :
    M App (bool * list (list Callback)) :=
  s ← get;
  if due loopStart (lastSleepOrActivity l) two_seconds_in_us &&
     bool_decide (last_activity l = global_activity s) then
    match wakeups with
    | [] => fail NoFuel
    | callbacks :: wakeups' =>
        on_tracker printStats;;
        app_ext time_us_64_call;;
        for_each (hd [] early) run_callback;;
        app_ext wfi;;
        for_each callbacks run_callback;;
        app_ext time_us_64_call;;
        sleep_loop (tl early) wakeups' loopStart l true
    end
  else mret (slept, wakeups).

Definition loop_rest (slept : bool) (l : Locals) : M App Locals :=
  s ← get;
  l ← (if slept || bool_decide (last_activity l ≠ global_activity s) then
         t ← time_us_32;
         s ← get;
         mret (set_last_activity t (global_activity s) l)
       else mret l);
  (if slept then mret tt else ignore (app_ext (sleep_ms 40)));;
  mret l.

(** The body of [while (keep_running)]. *)
Definition loop_body (r : Round) (l : Locals) :
    M App (Locals * list (list Callback)) :=
  let gap i := for_each (gap_of r i) run_callback in
  loopStart ← time_us_32;
  gap 0%nat;; handlePinActivity;;
  gap 1%nat;; l ← loop_announce loopStart l;
  gap 2%nat;; loop_connect (neighbour_of r) loopStart;;
  gap 3%nat;; loop_send (sends_of r) l;;
  gap 4%nat;; l ← loop_flash (flash_of r) loopStart l;
  gap 5%nat;; l ← loop_rssi loopStart l;
  gap 6%nat;; l ← loop_scan loopStart l;
  gap 7%nat;; l ← loop_cleanup loopStart l;
  gap 8%nat;; '(slept, wakeups) ← sleep_loop (early_of r) (wakeups_of r) loopStart l false;
  gap 9%nat;; l ← loop_rest slept l;
  mret (l, wakeups).

Fixpoint main_loop (rounds : list Round) (l : Locals) : M App Locals :=
  match rounds with
  | [] => mret l
  | r :: rounds' =>
      for_each (before_of r) run_callback;;
      s ← get;
      if keep_running s then
        '(l', _) ← loop_body r l;
        main_loop rounds' l'
      else mret l
  end.
End main_loop.

(** * Lemmas: activity *)

(** How much an operation adds to [global_activity]. *)
Definition adds {A} (n : Z) (m : M App A) : Prop := ∀ s a s', in_width 16 (global_activity s) →
  m s = Ok (a, s') → global_activity s' = u16 (global_activity s + n).

(** ... of a callback: those of main.cpp count themselves, those of the tracker do not. *)
Definition activity_of (cb : Callback) : Z :=
  match cb with CbCanNotify _ | CbCanWrite _ => 0 | _ => 1 end.

Lemma u16_add_0 z : in_width 16 z → u16 (z + 0) = z.
Proof. intros. rewrite Z.add_0_r. by apply wrap_small. Qed.

Lemma adds_bind {A B} n n' (m : M App A) (k : A → M App B) :
  adds n m → (∀ a, adds n' (k a)) → adds (n + n') (m ≫= k).
Proof.
  intros Hm Hk s b s2 Hs. unfold mbind, M_bind. destruct (m s) as [[a s1]|] eqn:Hms; [|done]. intros Hrun.
  pose proof (Hm s a s1 Hs Hms) as H1. assert (in_width 16 (global_activity s1)) as Hw.
  { rewrite H1. by apply wrap_in_width. }
  rewrite (Hk a s1 b s2 Hw Hrun), H1. unfold u16, wrap. rewrite Zplus_mod_idemp_l. f_equal. lia.
Qed.

Lemma adds_bind_0 {A B} n (m : M App A) (k : A → M App B) :
  adds 0 m → (∀ a, adds n (k a)) → adds n (m ≫= k).
Proof. intros Hm Hk. exact (adds_bind 0 n m k Hm Hk). Qed.

(** An operation that leaves the counter alone. *)
Lemma adds_0 {A} (m : M App A) :
  (∀ s a s', m s = Ok (a, s') → global_activity s' = global_activity s) → adds 0 m.
Proof. intros Hm s a s' Hs Hrun. rewrite u16_add_0 by done. by eapply Hm. Qed.

Lemma adds_ret {A} (a : A) : adds 0 (mret a).
Proof. apply adds_0. by intros s a' s' [= _ ->]. Qed.
Lemma adds_tracker {A} (m : M Tracker A) : adds 0 (on_tracker m).
Proof. apply adds_0. intros s a s'. unfold on_tracker. destruct (m _) as [[]|]; [|done]. by intros [= _ <-]. Qed.
Lemma adds_advertisement {A} (m : M Adv A) : adds 0 (on_advertisement m).
Proof. apply adds_0. intros s a s'. unfold on_advertisement. destruct (m _) as [[]|]; [|done]. by intros [= _ <-]. Qed.
Lemma adds_lift {A} (r : result A) : adds 0 (lift_result r).
Proof. apply adds_0. intros s a s'. destruct r; [|done]. by intros [= _ <-]. Qed.
Lemma adds_modify f : (∀ s, global_activity (f s) = global_activity s) → adds 0 (modify f).
Proof. intros Hf. apply adds_0. intros s a s' [= _ <-]. apply Hf. Qed.
Lemma adds_get : adds 0 (get (S := App)).
Proof. apply adds_0. by intros s a s' [= _ ->]. Qed.
Lemma adds_count : adds 1 count_activity.
Proof. by intros s a s' Hs [= _ <-]. Qed.

Create HintDb activity.
#[export] Hint Resolve adds_ret adds_tracker adds_advertisement adds_lift adds_get : activity.
#[export] Hint Extern 1 (adds 0 (modify _)) => (apply adds_modify; done) : activity.

(** Goes through a body that leaves the counter alone. *)
Ltac keeps_activity :=
  repeat match goal with
  | |- adds 0 (mbind _ _) => apply adds_bind_0; [|intros]
  | |- adds 0 (let _ := _ in _) => cbv zeta
  | |- adds 0 (if decide ?P then _ else _) => destruct (decide P)
  | |- adds 0 (if ?b then _ else _) => destruct b
  | |- adds 0 (match ?x with _ => _ end) => destruct x
  | |- adds 0 _ => progress unfold app_ext, ignore, setup_advertisements, setup_scanning, start_scanning_for_local_nodes,
      gap_connection_complete, can_write_without_response
  | |- adds 0 _ => solve [eauto with activity]
  end.

Section activity.
Context {env : Env} {iterator : AdIterator} {db : AttDb} {le : LittleEndian}.

Lemma adds_handler {A} (m : M App A) : adds 0 m → adds 1 (count_activity;; m).
Proof. intros Hm. apply (adds_bind 1 0); [apply adds_count|done]. Qed.

Lemma adds_callback cb : adds (activity_of cb) (run_callback cb).
Proof.
  destruct cb; cbn [run_callback activity_of].
  - apply (adds_bind 1 0); [apply adds_handler|intros; apply adds_ret]. keeps_activity.
  - apply (adds_bind 1 0); [apply adds_handler|intros; apply adds_ret]. keeps_activity.
  - apply adds_handler. keeps_activity.
  - apply adds_handler. keeps_activity.
  - apply adds_handler. keeps_activity.
  - apply adds_handler. keeps_activity.
  - apply adds_count.
  - apply adds_handler. keeps_activity.
  - apply adds_handler. keeps_activity.
  - apply adds_tracker.
  - apply adds_tracker.
Qed.

Lemma adds_callbacks cbs : adds (foldr Z.add 0 (activity_of <$> cbs)) (for_each cbs run_callback).
Proof.
  induction cbs as [|cb cbs IH]; cbn [for_each fmap list_fmap foldr]; [apply adds_ret|].
  apply adds_bind; [apply adds_callback|done].
Qed.
End activity.

(** * Lemmas: connecting *)

Section connecting.
Context {env : Env} {iterator : AdIterator} {db : AttDb} {le : LittleEndian}.

Lemma time_us_32_run {B} (k : Z → M App B) s :
  (time_us_32 ≫= k) s
  = k (u32 (answer (calls (connection_tracker s)) time_us_32_call)) (in_tracker (called [time_us_32_call]) s).
Proof. done. Qed.

(** The neighbours that are offered. *)
Definition offered (t : Tracker) : list Addr :=
  omap (λ kn : list Z * (Addr * BleConnection),
    let '(_, (a, c)) := kn in
    if (bool_decide (build_time_ms ≤ timestamp_offset_ms t) || isRepeater c)
       && negb (connected c) && negb (isRandom c)
    then Some a else None) (items (available_neighbours t)).

Lemma offered_run t : getConnectableNeighbours t = Ok (offered t, ticked t).
Proof. done. Qed.

Lemma offered_neighbour t a l :
  offered t = a :: l → ∃ k c, available_neighbours t !! k = Some (a, c).
Proof.
  intros Ho. assert (a ∈ offered t) as Ha by (rewrite Ho; set_solver).
  apply elem_of_connectable in Ha as (k & c & Hk & _). eauto.
Qed.

Lemma neighbour_at_object t k a c :
  wf t → available_neighbours t !! k = Some (a, c) → connection_at t a = Some c.
Proof.
  intros Hwf Hk. pose proof (wf_separate t Hwf) as Hs. unfold connection_at.
  assert (addr_of t (ONeighbour k) = Some a) as Ha by (cbn; by rewrite Hk).
  rewrite (node_at_other t _ OConnection (ONeighbour k)) by done.
  by rewrite (node_at_object t _ ONeighbour k a c); [|done|done|intros ??; congruence|].
Qed.

(** Some connection is connected to the address. *)
Definition connected_to (address : list Z) (t : Tracker) : Prop :=
  ∃ h a c, connections t !! h = Some (a, c) ∧ connected c = true ∧ take 6 (bt_address c) = take 6 address.

Lemma getConnectionForAddress_run address t :
  ∃ r, getConnectionForAddress address t = Ok (r, t) ∧ (is_Some r ↔ connected_to address t).
Proof.
  eexists. split; [done|]. rewrite fmap_is_Some. unfold connected_to. split.
  - intros [[h [a c]] Hf]. apply find_some in Hf as [Hin Hp]. apply list_elem_of_In, elem_of_items in Hin.
    apply andb_prop in Hp as [Hc Hb%bool_decide_eq_true]. by exists h, a, c.
  - intros (h & a & c & Hc & Hcon & Hb). destruct (find _ _) eqn:Hf; [by eexists|].
    assert ((h, (a, c)) ∈ items (connections t)) as Hin%list_elem_of_In by (by apply elem_of_items).
    pose proof (find_none _ _ Hf _ Hin) as Hn. cbn in Hn. by rewrite Hcon, bool_decide_eq_true_2 in Hn.
Qed.

(** Up to the decision to connect, with a neighbour [a]. *)
Lemma connect_to_run s a k c :
  let t := connection_tracker s in
  wf t → available_neighbours t !! k = Some (a, c) →
  ∃ r : option Addr, (is_Some r ↔ connected_to (bt_address c) t) ∧
    connect_to_neighbour a s
    = (match r with
       | Some _ => mret false
       | None =>
           err ← app_ext (gap_connect (bt_address c) (bt_address_type c));
           if decide (u8 err = 0) then
             on_tracker (setConnectionStarted a);;
             modify (set_connection_in_progress true);;
             mret true
           else app_ext (sleep_ms 20);; mret false
       end) s.
Proof.
  intros t Hwf Hk. destruct (getConnectionForAddress_run (bt_address c) t) as (r & Hr & Hiff).
  exists r. split; [exact Hiff|]. unfold connect_to_neighbour.
  assert (deref connection_at a t = Ok (c, t)) as Hd.
  { apply deref_ok. exact (neighbour_at_object t k a c Hwf Hk). }
  rewrite (on_tracker_ok _ _ _ _ s Hd). cbv zeta.
  rewrite (on_tracker_ok _ _ _ _ (set_tracker t s) Hr). unfold t. by destruct s.
Qed.

(** The choice, and what runs before it is used. *)
Lemma connect_first_run callbacks s :
  connect_to_first_neighbour callbacks s
  = (for_each callbacks run_callback;;
     match offered (connection_tracker s) with
     | neighbour :: _ => connect_to_neighbour neighbour
     | [] => mret false
     end) (in_tracker ticked s).
Proof. unfold connect_to_first_neighbour. by rewrite (on_tracker_ok _ _ _ _ _ (offered_run _)). Qed.
End connecting.

(** * Lemmas: sleeping *)

Section sleeping.
Context {env : Env} {iterator : AdIterator} {db : AttDb} {le : LittleEndian}.

(** The calls of one sleep before and after the callbacks. *)
Definition falling_asleep : list Call := [time_us_64_call; time_us_64_call; wfi].

(** The state after [n] sleeps in which nothing happened. *)
Fixpoint dozed (n : nat) (s : App) : App :=
  match n with
  | O => s
  | S n' => dozed n' (in_tracker (called (falling_asleep ++ [time_us_64_call])) s)
  end.

Lemma dozed_activity n s : global_activity (dozed n s) = global_activity s.
Proof. revert s. induction n as [|n IH]; intros s; [done|]. cbn. by rewrite IH. Qed.

Lemma printStats_run t : ∃ r, printStats t = Ok (r, called [time_us_64_call] t).
Proof. eexists. unfold printStats. by rewrite (M_bind_ok time_us_64 _ _ _ _ eq_refl). Qed.

(** One sleep. *)
Lemma sleep_step early cbs rest loopStart l slept s :
  due loopStart (lastSleepOrActivity l) two_seconds_in_us = true → last_activity l = global_activity s →
  sleep_loop early (cbs :: rest) loopStart l slept s
  = (for_each (hd [] early) run_callback;; app_ext wfi;; for_each cbs run_callback;; app_ext time_us_64_call;;
     sleep_loop (tl early) rest loopStart l true) (in_tracker (called [time_us_64_call; time_us_64_call]) s).
Proof.
  intros Hd Ha. cbn [sleep_loop]. rewrite (M_bind_ok get _ _ _ _ eq_refl), Hd, bool_decide_eq_true_2 by done.
  cbn [andb]. destruct (printStats_run (connection_tracker s)) as [r Hr].
  rewrite (on_tracker_ok _ _ _ _ _ Hr). rewrite app_ext_run. f_equal.
  unfold in_tracker. cbn [connection_tracker set_tracker]. by rewrite !called_called.
Qed.

(** ... to which nothing comes in between. *)
Lemma sleep_step_quiet cbs rest loopStart l slept s :
  due loopStart (lastSleepOrActivity l) two_seconds_in_us = true → last_activity l = global_activity s →
  sleep_loop [] (cbs :: rest) loopStart l slept s
  = (for_each cbs run_callback;; app_ext time_us_64_call;; sleep_loop [] rest loopStart l true)
      (in_tracker (called falling_asleep) s).
Proof.
  intros Hd Ha. rewrite sleep_step by done. cbn [hd tl for_each].
  rewrite (M_bind_ok (mret tt) _ _ _ _ eq_refl), app_ext_run. f_equal.
  unfold in_tracker. cbn [connection_tracker set_tracker]. by rewrite called_called.
Qed.

Lemma sleep_dozes n rest loopStart l slept s :
  due loopStart (lastSleepOrActivity l) two_seconds_in_us = true → last_activity l = global_activity s →
  sleep_loop [] (replicate n [] ++ rest) loopStart l slept s
  = sleep_loop [] rest loopStart l (if decide (n = 0%nat) then slept else true) (dozed n s).
Proof.
  intros Hd. revert slept s. induction n as [|n IH]; intros slept s Ha; [done|].
  cbn [replicate app dozed]. rewrite sleep_step_quiet by done. cbn [for_each].
  rewrite (M_bind_ok (mret tt) _ _ _ _ eq_refl), app_ext_run.
  assert (in_tracker (called [time_us_64_call]) (in_tracker (called falling_asleep) s)
    = in_tracker (called (falling_asleep ++ [time_us_64_call])) s) as ->.
  { unfold in_tracker. cbn [connection_tracker set_tracker]. by rewrite called_called. }
  rewrite IH by done. by destruct (decide (n = 0%nat)).
Qed.
End sleeping.

(** * Properties *)

(** C19: the inner loop sleeps through every wake-up in which no callback runs, and
    ends after the first in which callbacks do that count themselves, unless
    [global_activity] goes round to its old value; without one it sleeps on.
    When the loop was busy in the last two seconds it does not sleep at all. *)
Theorem sleeps_until_activity {env : Env} {iterator : AdIterator} {db : AttDb} {le : LittleEndian}
    (s : App) (l : Locals) loopStart (n : nat) (cbs : list Callback) (rest : list (list Callback)) s' :
  in_width 16 (global_activity s) → last_activity l = global_activity s →
  for_each cbs run_callback (in_tracker (called falling_asleep) (dozed n s)) = Ok (tt, s') →
  foldr Z.add 0 (activity_of <$> cbs) mod 65536 ≠ 0 →
  let asleep := due loopStart (lastSleepOrActivity l) two_seconds_in_us in
  sleep_loop [] (replicate n [] ++ cbs :: rest) loopStart l false s
    = (if asleep then Ok ((true, rest), in_tracker (called [time_us_64_call]) s')
       else Ok ((false, replicate n [] ++ cbs :: rest), s)) ∧
  sleep_loop [] (replicate n []) loopStart l false s
    = (if asleep then Err NoFuel else Ok ((false, replicate n []), s)).
Proof.
  intros Hw Ha Hrun Hsum asleep. unfold asleep. destruct (due loopStart _ _) eqn:Hd.
  - split.
    + rewrite sleep_dozes by done. rewrite sleep_step_quiet by (rewrite ?dozed_activity; done).
      rewrite (M_bind_ok _ _ _ _ _ Hrun), app_ext_run.
      pose proof (adds_callbacks cbs (in_tracker (called falling_asleep) (dozed n s))) as Hg.
      specialize (Hg tt s'). change (global_activity (in_tracker ?f ?x)) with (global_activity x) in Hg.
      rewrite dozed_activity in Hg. specialize (Hg Hw Hrun).
      set (s2 := in_tracker _ s'). assert (global_activity s2 ≠ global_activity s) as Hne.
      { change (global_activity s2) with (global_activity s'). rewrite Hg. intros Heq. apply Hsum.
        unfold u16, wrap, in_width in *. change (2 ^ 16) with 65536 in *. div_lia. }
      destruct rest; cbn [sleep_loop]; rewrite (M_bind_ok get _ _ _ _ eq_refl), bool_decide_eq_false_2 by congruence;
        by rewrite andb_false_r.
    + rewrite <- (app_nil_r (replicate n [])), sleep_dozes by done. cbn [sleep_loop].
      rewrite (M_bind_ok get _ _ _ _ eq_refl), Hd, dozed_activity, bool_decide_eq_true_2 by done. done.
  - split; [destruct n|destruct n]; cbn [replicate app sleep_loop];
      rewrite (M_bind_ok get _ _ _ _ eq_refl), Hd; done.
Qed.

(** the first clean-up is not fifteen minutes away, as the comment at
    [lastCleanup] says: an iteration in the first five minutes after the start finds
    it due, because the difference of the times wraps around; one in the ten minutes
    after them does not, and a later one does. *)
Theorem first_cleanup_at_once {env : Env} {iterator : AdIterator} {db : AttDb} {le : LittleEndian} (s : App) :
  ∃ l s' t, main_locals s = Ok (l, s') ∧ in_width 32 t ∧ connection_tracker s'
      = called (replicate 5 time_us_32_call) (connection_tracker s) ∧
    ∀ loopStart, let elapsed := u32 (loopStart - t) in
      due loopStart (lastCleanup l) ten_minutes_in_us = true ↔
      elapsed < five_minutes_in_us ∨ elapsed > five_minutes_in_us + ten_minutes_in_us.
Proof.
  set (t := u32 (answer (calls (connection_tracker s) ++ replicate 4 time_us_32_call) time_us_32_call)).
  eexists _, _, t. split; [|split; [by apply wrap_in_width|split]].
  - unfold main_locals. do 5 rewrite time_us_32_run. rewrite (M_bind_ok get _ _ _ _ eq_refl).
    unfold in_tracker. cbn [connection_tracker set_tracker]. rewrite !called_called. cbn [app].
    change (calls (called ?x ?y)) with (calls y ++ x). reflexivity.
  - done.
  - intros loopStart elapsed. cbn [lastCleanup]. unfold due, ten_minutes_in_us, five_minutes_in_us.
    rewrite bool_decide_eq_true.
    match goal with |- context [u32 (answer ?x time_us_32_call)] => change (u32 (answer x time_us_32_call)) with t end.
    assert (u32 (loopStart - u32 (t + 1000 * 1000 * 60 * 5))
      = u32 (elapsed - 1000 * 1000 * 60 * 5)) as ->.
    { unfold elapsed, u32, wrap. rewrite Zminus_mod_idemp_r, Zminus_mod_idemp_l. f_equal. lia. }
    assert (0 ≤ elapsed < 2 ^ 32) as He by (by apply (wrap_in_width 32)).
    unfold u32, wrap. change (2 ^ 32) with 4294967296 in *. clearbody elapsed. div_lia.
Qed.

(** C38: a first neighbour whose address is that of a connection blocks all others: it
    is looked at in every iteration, no connection is attempted, and nothing changes but
    the clock that is read, however often the loop comes round. *)
Theorem first_neighbour_blocks {env : Env} `{!AllocFresh env} {iterator : AdIterator} {db : AttDb}
    {le : LittleEndian} (s : App) (n : nat) a l k c :
  let t := connection_tracker s in
  wf t → offered t = a :: l → available_neighbours t !! k = Some (a, c) →
  connected_to (bt_address c) t →
  for_each (replicate n tt) (λ _, ignore (connect_to_first_neighbour [])) s
  = Ok (tt, in_tracker (called (replicate n time_us_64_call)) s).
Proof.
  revert s. induction n as [|n IH]; intros s t Hwf Hoff Hk Hcon.
  { cbn. unfold in_tracker, called. replace (upd_calls _ _) with (connection_tracker s); [by rewrite set_tracker_id|].
    unfold upd_calls. destruct (connection_tracker s). cbn. by rewrite app_nil_r. }
  assert (wf (ticked t)) as Hwft by (by apply wf_calls).
  assert (ignore (connect_to_first_neighbour []) s = Ok (tt, in_tracker ticked s)) as Hstep.
  { destruct (connect_to_run (in_tracker ticked s) a k c Hwft Hk) as (r & Hiff & Hrun).
    destruct (proj2 Hiff Hcon) as [x ->]. unfold ignore, mbind at 1, M_bind at 1.
    rewrite connect_first_run. cbn [for_each]. fold t.
    by rewrite (M_bind_ok (mret tt) _ _ _ _ eq_refl), Hoff, Hrun. }
  cbn [replicate for_each]. rewrite (M_bind_ok _ _ _ _ _ Hstep).
  rewrite (IH (in_tracker ticked s)); [|done|done|done|done]. do 2 f_equal.
  exact (f_equal (λ x, set_tracker x s) (called_called [time_us_64_call] (replicate n time_us_64_call) t)).
Qed.

(** ** Witnesses *)

Definition neighbour_at (address : list Z) : BleConnection :=
  setServices ServiceUUIDAndNameFound (setBleAddress address 0 BleConnection_new).

(** Two connections and two neighbours; the first connection has the address given. *)
Definition loop_example (address : list Z) : App :=
  App_new (upd_connections (node_update (setBleAddress address 0) 1)
    (upd_available_neighbours (λ _, {[ [1; 1; 1; 1; 1; 1] := (50, neighbour_at [1; 1; 1; 1; 1; 1]);
      [2; 2; 2; 2; 2; 2] := (60, neighbour_at [2; 2; 2; 2; 2; 2]) ]}) (sending_example [] []))).

Definition locals_example : Locals := mkLocals 0 0 0 0 0 false 0 0.

Lemma sleeps_until_activity_witness :
  let s := loop_example [9; 9; 9; 9; 9; 9] in
  let wake := [CbGpio SMOKE_SEEN_PIN GPIO_IRQ_EDGE_FALL; CbStopScan] in
  let run := @run_callback example_env example_iterator example_db example_le in
  let sleep := @sleep_loop example_env example_iterator example_db example_le in
  ∃ s', for_each wake run (in_tracker (called falling_asleep) (dozed 2 s)) = Ok (tt, s') ∧
  sleep [] [[]; []; wake; []] 3000000 locals_example false s
    = Ok ((true, [[]]), in_tracker (called [time_us_64_call]) s') ∧
  sleep [] [[]; []] 3000000 locals_example false s = Err NoFuel.
Proof.
  eexists. split; [vm_compute; reflexivity|].
  apply (@sleeps_until_activity example_env example_iterator example_db example_le
    (loop_example [9; 9; 9; 9; 9; 9]) locals_example 3000000 2
    [CbGpio SMOKE_SEEN_PIN GPIO_IRQ_EDGE_FALL; CbStopScan] [[]]);
    [decide_concrete|reflexivity|vm_compute; reflexivity|vm_compute; discriminate].
Defined.

Lemma first_neighbour_blocks_witness :
  let s := loop_example [1; 1; 1; 1; 1; 1] in
  for_each (replicate 5 tt) (λ _, ignore (@connect_to_first_neighbour example_env example_iterator example_db example_le [])) s
  = Ok (tt, in_tracker (called (replicate 5 time_us_64_call)) s).
Proof.
  apply (@first_neighbour_blocks example_env _ example_iterator example_db example_le (loop_example [1; 1; 1; 1; 1; 1]) 5 50 [60]
    [1; 1; 1; 1; 1; 1] (neighbour_at [1; 1; 1; 1; 1; 1]));
    [apply wf_check_sound; vm_compute; reflexivity|vm_compute; reflexivity|reflexivity|].
  exists 1, 10, (setBleAddress [1; 1; 1; 1; 1; 1] 0 (connection_to 1)).
  split_and!; [vm_compute; reflexivity|reflexivity|reflexivity].
Defined.
