(* ===== verification/Steady.v ===== *)
(** What every statement of the main loop leaves alone, whatever runs beside it: a property
    of the variables of main.cpp that no assignment of the statements changes,
    and that the callbacks which run keep. *)

From S2P Require Import Prelude BinaryIO Packets StdContainers BleConnection Advertising Tracker TrackerWf Sending Connections Protocol Application Callbacks Discovery Interrupted Pins MainLoop.

(** Kept by every assignment to a variable, but for [connection_in_progress = false]. *)
Class Steady (I : App → Prop) := {
  steady_tracker s t : I s → I (set_tracker t s);
  steady_advertisement s v : I s → I (set_advertisement v s);
  steady_stop s : I s → I (set_keep_running false s);
  steady_smoke s b : I s → I (set_smoke_seen b s);
  steady_life s b : I s → I (set_life_check b s);
  steady_activity s v : I s → I (set_global_activity v s);
  steady_scanning s b : I s → I (set_scanning b s);
  steady_connecting s : I s → I (set_connection_in_progress true s);
  steady_services s b : I s → I (set_discover_primary_services b s);
  steady_characteristics s b : I s → I (set_discover_characteristics b s);
}.

(** The callback that assigns it. *)
Definition completes (cb : Callback) : bool :=
  match cb with
  | CbHci t (GAP_SUBEVENT_LE_CONNECTION_COMPLETE _ _ _ _) => bool_decide (t = HCI_EVENT_PACKET)
  | _ => false
  end.

Lemma keeps_for_each_Forall {S A} (I : S → Prop) (P : A → Prop) (xs : list A) (f : A → M S unit) :
  (∀ x, P x → keeps I (f x)) → Forall P xs → keeps I (for_each xs f).
Proof.
  intros Hf. induction 1 as [|x xs Hx _ IH]; [apply keeps_ret|]. apply keeps_bind; [by apply Hf|by intros].
Qed.

Create HintDb steady.

Section steady.
Context {env : Env} {iterator : AdIterator} {db : AttDb} {le : LittleEndian}.
Context (I : App → Prop) `{!Steady I}.

Lemma keeps_on_tracker {A} (m : M Tracker A) : keeps I (on_tracker m).
Proof. intros s Hs. unfold after, on_tracker. destruct (m _) as [[]|]; [by apply steady_tracker|done]. Qed.
Lemma keeps_on_advertisement {A} (m : M Adv A) : keeps I (on_advertisement m).
Proof. intros s Hs. unfold after, on_advertisement. destruct (m _) as [[]|]; [by apply steady_advertisement|done]. Qed.

(** One or more assignments. *)
Ltac assigned := repeat first
  [ assumption | apply steady_stop | apply steady_smoke | apply steady_life | apply steady_activity
  | apply steady_scanning | apply steady_connecting | apply steady_services | apply steady_characteristics ].

#[local] Hint Resolve keeps_on_tracker keeps_on_advertisement keeps_ret keeps_get keeps_fail keeps_lift : steady.

(** Goes through a body, statement by statement. *)
Ltac stay :=
  repeat match goal with
  | |- keeps _ (mbind _ _) => apply keeps_bind; [|intros]
  | |- keeps _ (let _ := _ in _) => cbv zeta
  | |- keeps _ (if decide ?P then _ else _) => destruct (decide P)
  | |- keeps _ (if ?b then _ else _) => destruct b
  | |- keeps _ (match ?x with _ => _ end) => destruct x
  | |- keeps _ (modify _) => apply keeps_modify; intros; solve [assigned]
  | |- keeps _ _ => solve [eauto with steady]
  | |- keeps _ _ => progress unfold count_activity, app_ext, ignore, setup_advertisements, setup_scanning,
      start_scanning_for_local_nodes, can_write_without_response
  end.

(** ** The callbacks *)

Lemma keeps_callback cb : completes cb = false → keeps I (run_callback cb).
Proof.
  intros Hcb. destruct cb; cbn [run_callback]; unfold att_read_callback, att_write_callback, handle_gatt_client_event,
    handle_gatt_client_value_update_event, hci_packet_handler, att_packet_handler, sm_packet_handler,
    stop_scan_handler, gpio_callback; stay.
  cbn in Hcb. apply bool_decide_eq_false in Hcb. tauto.
Qed.

(** ** The statements of the loop *)

Context (P : Callback → Prop).
Hypothesis run_keeps : ∀ cb, P cb → keeps I (run_callback cb).

Lemma keeps_callbacks cbs : Forall P cbs → keeps I (for_each cbs run_callback).
Proof. by apply keeps_for_each_Forall. Qed.
#[local] Hint Resolve keeps_callbacks : steady.

Lemma keeps_pins : keeps I handlePinActivity.
Proof using Steady0. unfold handlePinActivity, write_pin_content. stay. Qed.

Lemma keeps_serve p a cbs : Forall P cbs → keeps I (serve p a cbs).
Proof. intros Hcbs. unfold serve. stay. Qed.
#[local] Hint Resolve keeps_serve : steady.

(** It keeps [I], and its result satisfies [Q]. *)
Definition gives {A} (m : M App A) (Q : A → Prop) : Prop := ∀ s, I s → after m (λ a s', I s' ∧ Q a) s.

Lemma gives_bind {A B} (m : M App A) (k : A → M App B) R Q :
  gives m R → (∀ a, R a → gives (k a) Q) → gives (m ≫= k) Q.
Proof.
  intros Hm Hk s Hs. apply after_bind. eapply after_mono; [by apply Hm|]. intros a s' [Hs' Ha]. by apply Hk.
Qed.
Lemma keeps_gives {A B} (m : M App A) (k : A → M App B) Q :
  keeps I m → (∀ a, gives (k a) Q) → gives (m ≫= k) Q.
Proof.
  intros Hm Hk s Hs. apply after_bind. eapply after_mono; [by apply Hm|]. intros a s' Hs'. by apply Hk.
Qed.
Lemma gives_keeps {A B} (m : M App A) (k : A → M App B) R :
  gives m R → (∀ a, R a → keeps I (k a)) → keeps I (m ≫= k).
Proof.
  intros Hm Hk s Hs. apply after_bind. eapply after_mono; [by apply Hm|]. intros a s' [Hs' Ha]. by apply Hk.
Qed.
Lemma gives_ret {A} (a : A) (Q : A → Prop) : Q a → gives (mret a) Q.
Proof. by intros Ha s Hs. Qed.
Lemma gives_fail {A} e (Q : A → Prop) : gives (fail e) Q.
Proof. by intros s Hs. Qed.

(** The sleeps that are left after a pass of [sendPackets]. *)
Definition left_over {A} (r : A * sleeps) : Prop := Forall (Forall P) (snd r).

(** Goes through a pass; the rest of it is given by the induction. *)
Ltac by_induction := match goal with H : context [gives] |- gives _ _ => apply H end.
Ltac pass :=
  repeat match goal with
  | |- gives (mret _) _ => apply gives_ret; solve [done|by constructor]
  | |- gives (fail _) _ => apply gives_fail
  | |- gives (if ?b then _ else _) _ => destruct b
  | |- gives (match ?x with _ => _ end) _ => destruct x
  | |- gives (mbind _ _) _ =>
      first [ apply keeps_gives; [solve [eauto with steady]|intros]
            | apply (gives_bind _ _ left_over); [by_induction|intros [] ?] ]
  | |- gives _ _ => by_induction
  end.

Lemma gives_targeted during : Forall (Forall P) during → ∀ todo, gives (send_targeted_during during todo) left_over.
Proof.
  induction 1 as [|cbs during Hcbs Hd IH]; intros todo; induction todo as [|[p c] todo IHt];
    cbn [send_targeted_during head default from_option]; pass.
Qed.

Lemma gives_broadcast p during : Forall (Forall P) during → ∀ keys, gives (broadcast_during p during keys) left_over.
Proof.
  induction 1 as [|cbs during Hcbs Hd IH]; intros keys; induction keys as [|[t k] keys IHk];
    cbn [broadcast_during head default from_option]; pass.
Qed.

Lemma gives_broadcasts queue first todo : ∀ during, Forall (Forall P) during →
  gives (send_broadcast_during queue first todo during) left_over.
Proof.
  pose proof gives_broadcast as Hb.
  induction todo as [|p todo IH]; intros during Hd; cbn [send_broadcast_during]; pass; auto.
Qed.

Lemma keeps_sends during : Forall (Forall P) during → keeps I (sendPackets_during during).
Proof.
  intros Hd. unfold sendPackets_during. apply keeps_bind; [apply keeps_get|intros s]. cbv zeta.
  case_decide; [apply keeps_ret|]. eapply gives_keeps; [by apply gives_targeted|]. intros [targeted rest] Hrest.
  apply keeps_bind; [by auto with steady|intros _]. apply keeps_bind; [apply keeps_get|intros t].
  eapply gives_keeps; [by apply gives_broadcasts|]. intros []. auto with steady.
Qed.

Lemma keeps_time : keeps I time_us_32.
Proof using Steady0. unfold time_us_32. stay. Qed.
#[local] Hint Resolve keeps_pins keeps_sends keeps_time : steady.

Lemma keeps_announce loopStart l : keeps I (loop_announce loopStart l).
Proof using Steady0. unfold loop_announce. stay. Qed.
Lemma keeps_connect cbs loopStart : Forall P cbs → keeps I (loop_connect cbs loopStart).
Proof. intros. unfold loop_connect, connect_to_first_neighbour, connect_to_neighbour. stay. Qed.
Lemma keeps_send during l : Forall (Forall P) during → keeps I (loop_send during l).
Proof. intros. unfold loop_send. stay. Qed.
Lemma keeps_flash cbs loopStart l : Forall P cbs → keeps I (loop_flash cbs loopStart l).
Proof. intros. unfold loop_flash. stay. Qed.
Lemma keeps_rssi loopStart l : keeps I (loop_rssi loopStart l).
Proof using Steady0. unfold loop_rssi. stay. Qed.
Lemma keeps_scan loopStart l : keeps I (loop_scan loopStart l).
Proof using Steady0. unfold loop_scan. stay. Qed.
Lemma keeps_cleanup loopStart l : keeps I (loop_cleanup loopStart l).
Proof using Steady0. unfold loop_cleanup. stay. Qed.
Lemma keeps_rest slept l : keeps I (loop_rest slept l).
Proof using Steady0. unfold loop_rest. stay. Qed.
Lemma keeps_sleep wakeups loopStart l : Forall (Forall P) wakeups → ∀ early slept, Forall (Forall P) early →
  keeps I (sleep_loop early wakeups loopStart l slept).
Proof.
  induction 1 as [|cbs wakeups Hcbs _ IH]; intros early slept He; cbn [sleep_loop]; stay; destruct He;
    cbn [hd tl]; auto with steady.
Qed.
#[local] Hint Resolve keeps_announce keeps_connect keeps_send keeps_flash keeps_rssi keeps_scan keeps_cleanup
  keeps_rest keeps_sleep : steady.

(** ** An iteration *)

(** All that runs beside it satisfies [P]. *)
Record in_round (r : Round) : Prop := {
  in_before : Forall P (before_of r);
  in_sends : Forall (Forall P) (sends_of r);
  in_flash : Forall P (flash_of r);
  in_wakeups : Forall (Forall P) (wakeups_of r);
  in_gaps : Forall (Forall P) (gaps_of r);
  in_neighbour : Forall P (neighbour_of r);
  in_early : Forall (Forall P) (early_of r);
}.

Lemma in_gap r i : in_round r → Forall P (gap_of r i).
Proof.
  intros Hr. unfold gap_of. destruct (gaps_of r !! i) as [cbs|] eqn:Hi; cbn; [|constructor].
  exact (Forall_lookup_1 _ _ _ _ (in_gaps _ Hr) Hi).
Qed.
#[local] Hint Resolve in_gap in_before in_sends in_flash in_wakeups in_neighbour in_early : steady.

Lemma keeps_body r l : in_round r → keeps I (loop_body r l).
Proof. intros. unfold loop_body. cbv zeta. stay. Qed.
End steady.

(** Goes through statements of the loop: [H] is that the callbacks keep the property, [all]
    solves that those which run are among them. *)
Ltac statement H all := first
  [ apply keeps_ret
  | apply (keeps_callbacks _ _ H); solve [all]
  | apply keeps_pins; exact _
  | apply keeps_time; exact _
  | apply keeps_announce; exact _
  | apply (keeps_connect _ _ H); solve [all]
  | apply (keeps_send _ _ H); solve [all]
  | apply (keeps_flash _ _ H); solve [all]
  | apply keeps_rssi; exact _
  | apply keeps_scan; exact _
  | apply keeps_cleanup; exact _
  | apply (keeps_sleep _ _ H); solve [all]
  | apply keeps_rest; exact _ ].

Ltac statements H all :=
  repeat first
    [ statement H all
    | apply keeps_bind; [|intros]
    | match goal with |- keeps _ (match ?x with _ => _ end) => destruct x end ].
