(* ===== verification/Connecting.v ===== *)
(** A connection that is being set up: from [connect_to_first_neighbour] until BTstack
    reports it complete the main loop runs as if the statement that connects were not in
    it. *)

From S2P Require Import Prelude BinaryIO Packets StdContainers BleConnection Advertising Tracker TrackerWf TrackerSafety Sending Connections Protocol Application Callbacks Discovery Interrupted Pins MainLoop Steady.

Definition connecting (s : App) : Prop := connection_in_progress s = true.

#[global] Instance connecting_steady : Steady connecting.
Proof. by split. Qed.

(** Any callback but the one that reports a connection complete. *)
Definition incomplete (cb : Callback) : Prop := completes cb = false.

(** * The loop that waits *)

Section waiting.
Context {env : Env} {iterator : AdIterator} {db : AttDb} {le : LittleEndian}.

(** The body after the statement that connects. *)
Definition rest_of_body (r : Round) (loopStart : Z) (l : Locals) : M App (Locals * list (list Callback)) :=
  let gap i := for_each (gap_of r i) run_callback in
  gap 3%nat;; loop_send (sends_of r) l;;
  gap 4%nat;; l ← loop_flash (flash_of r) loopStart l;
  gap 5%nat;; l ← loop_rssi loopStart l;
  gap 6%nat;; l ← loop_scan loopStart l;
  gap 7%nat;; l ← loop_cleanup loopStart l;
  gap 8%nat;; '(slept, wakeups) ← sleep_loop (early_of r) (wakeups_of r) loopStart l false;
  gap 9%nat;; l ← loop_rest slept l;
  mret (l, wakeups).

(** The body with the statement [connect]. *)
Definition body_with (connect : Z → M App unit) (r : Round) (l : Locals) : M App (Locals * list (list Callback)) :=
  let gap i := for_each (gap_of r i) run_callback in
  loopStart ← time_us_32;
  gap 0%nat;; handlePinActivity;;
  gap 1%nat;; l ← loop_announce loopStart l;
  gap 2%nat;; connect loopStart;;
  rest_of_body r loopStart l.

Lemma loop_body_eq r l : loop_body r l = body_with (loop_connect (neighbour_of r)) r l.
Proof. reflexivity. Qed.

(** The loop that makes no connection. *)
Fixpoint waiting_loop (rounds : list Round) (l : Locals) : M App Locals :=
  match rounds with
  | [] => mret l
  | r :: rounds' =>
      for_each (before_of r) run_callback;;
      s ← get;
      if keep_running s then
        '(l', _) ← body_with (λ _, mret tt) r l;
        waiting_loop rounds' l'
      else mret l
  end.

(** ** The loops agree *)

(** Two computations that do the same while a connection is set up. *)
Definition agree {A} (m m' : M App A) : Prop := ∀ s, connecting s → m s = m' s.

Lemma agree_bind {A B} (m : M App A) (k k' : A → M App B) :
  keeps connecting m → (∀ a, agree (k a) (k' a)) → agree (m ≫= k) (m ≫= k').
Proof.
  intros Hm Hk s Hs. specialize (Hm s Hs). unfold after in Hm. unfold mbind, M_bind.
  destruct (m s) as [[a s']|]; [by apply Hk|done].
Qed.

Lemma agree_connect {B} cbs loopStart (k : unit → M App B) :
  agree (loop_connect cbs loopStart ≫= k) (mret tt ≫= k).
Proof.
  intros s Hs. unfold mbind, M_bind, loop_connect at 1. rewrite (M_bind_ok get _ _ _ _ eq_refl).
  unfold may_connect. by rewrite Hs, andb_false_r.
Qed.

Lemma keeps_incomplete cb : incomplete cb → keeps connecting (run_callback cb).
Proof. apply keeps_callback, _. Qed.
Ltac go := statements keeps_incomplete ltac:(eauto using in_gap, in_before, in_sends, in_flash, in_wakeups, in_neighbour, in_early).

Lemma keeps_rest_of_body r loopStart l : in_round incomplete r → keeps connecting (rest_of_body r loopStart l).
Proof. intros Hr. unfold rest_of_body. cbv zeta. go. Qed.

Lemma agree_body r l : in_round incomplete r → agree (loop_body r l) (body_with (λ _, mret tt) r l).
Proof.
  intros Hr. rewrite loop_body_eq. unfold body_with. cbv zeta.
  repeat first [apply agree_connect|apply agree_bind; [go|intros]].
Qed.

Lemma keeps_loop rounds : Forall (in_round incomplete) rounds → ∀ l, keeps connecting (main_loop rounds l).
Proof.
  induction 1 as [|r rounds Hr _ IH]; intros l; cbn [main_loop]; [apply keeps_ret|].
  apply keeps_bind; [go|intros _]. apply keeps_bind; [apply keeps_get|intros s].
  destruct (keep_running s); [|apply keeps_ret].
  apply keeps_bind; [exact (keeps_body _ _ keeps_incomplete r l Hr)|]. by intros [].
Qed.

Lemma agree_loop rounds : Forall (in_round incomplete) rounds → ∀ l, agree (main_loop rounds l) (waiting_loop rounds l).
Proof.
  induction 1 as [|r rounds Hr _ IH]; intros l; cbn [main_loop waiting_loop]; [done|].
  apply agree_bind; [go|intros _]. apply agree_bind; [apply keeps_get|intros t].
  destruct (keep_running t); [|done]. intros s Hs.
  pose proof (keeps_body _ _ keeps_incomplete r l Hr s Hs) as Hk. unfold after in Hk.
  unfold mbind, M_bind. rewrite <- (agree_body r l Hr s Hs).
  destruct (loop_body r l s) as [[[l' w] s']|]; [by apply IH|done].
Qed.

Lemma rest_waits r rounds now lv s :
  in_round incomplete r → Forall (in_round incomplete) rounds → connecting s →
  let rest (loop : list Round → Locals → M App Locals) :=
    ('(lv', _) ← rest_of_body r now lv; loop rounds lv') s in
  rest main_loop = rest waiting_loop ∧
  ∀ lv' s', rest main_loop = Ok (lv', s') → connection_in_progress s' = true.
Proof.
  intros Hr Hrs Hs rest. split.
  - unfold rest. apply agree_bind; [by apply keeps_rest_of_body| |done]. intros []. by apply agree_loop.
  - intros lv' s' Hrun.
    assert (keeps connecting ('(lv', _) ← rest_of_body r now lv; main_loop rounds lv')) as Hk.
    { apply keeps_bind; [by apply keeps_rest_of_body|]. intros []. by apply keeps_loop. }
    specialize (Hk s Hs). unfold after in Hk. unfold rest in Hrun. by rewrite Hrun in Hk.
Qed.

(** The statement that connects. *)
Lemma connect_started `{!AllocFresh env} (s : App) loopStart a l k c :
  let t := connection_tracker s in
  wf t → may_connect loopStart s = true → offered t = a :: l →
  available_neighbours t !! k = Some (a, c) → ¬ connected_to (bt_address c) t →
  u8 (answer (calls t ++ [time_us_64_call]) (gap_connect (bt_address c) (bt_address_type c))) = 0 →
  ∃ s', loop_connect [] loopStart s = Ok (tt, s') ∧ wf (connection_tracker s') ∧
    calls (connection_tracker s') = calls t ++ [time_us_64_call; gap_connect (bt_address c) (bt_address_type c)] ∧
    available_neighbours (connection_tracker s') = delete (bt_address c) (available_neighbours t) ∧
    connections (connection_tracker s') = connections t ∧
    connecting s'.
Proof.
  intros t Hwf Hmay Hoff Hk Hnew Hans. unfold loop_connect.
  rewrite (M_bind_ok get _ _ _ _ eq_refl), Hmay. unfold ignore.
  assert (wf (ticked t)) as Hwft by (by apply wf_calls).
  destruct (connect_to_run (in_tracker ticked s) a k c Hwft Hk) as (r & Hiff & Hrun).
  unfold mbind at 1, M_bind at 1. rewrite connect_first_run. cbn [for_each]. fold t.
  rewrite (M_bind_ok (mret tt) _ _ _ _ eq_refl), Hoff, Hrun.
  destruct r as [x|]; [exfalso; apply Hnew, Hiff; by eexists|]. rewrite app_ext_run.
  change (calls (connection_tracker (in_tracker ticked s))) with (calls t ++ [time_us_64_call]).
  rewrite Hans, decide_True by done.
  set (t2 := called [gap_connect (bt_address c) (bt_address_type c)] (ticked t)).
  assert (wf t2) as Hwf2 by (by apply wf_calls, wf_calls).
  assert (setConnectionStarted a t2 = Ok (tt, upd_available_neighbours (delete (bt_address c)) t2)) as Hst.
  { unfold setConnectionStarted. erewrite M_bind_ok; [reflexivity|].
    apply deref_ok. exact (neighbour_at_object t2 k a c Hwf2 Hk). }
  rewrite (on_tracker_ok _ _ _ _ (set_tracker t2 s) Hst).
  eexists. split; [reflexivity|]. split_and!; [by apply wf_delete_neighbour| |done|done|done].
  cbn. by rewrite <- app_assoc.
Qed.
End waiting.

(** * Property *)

(** C21: when nothing is under way, the main loop connects to the first neighbour that
    is offered, if no connection has its address: BTstack is asked exactly once, and
    when it accepts, the neighbour is taken from the list.  Then, as long as no callback
    reports a connection complete, the rest of the iteration and all later ones run, to
    the last call and error, as if the statement that connects were not in the loop: no other
    attempt is made, whatever else the callbacks report. *)
Theorem connects_to_first {env : Env} `{!AllocFresh env} {iterator : AdIterator} {db : AttDb}
    {le : LittleEndian} (s : App) loopStart a l k c :
  let t := connection_tracker s in
  wf t → may_connect loopStart s = true → offered t = a :: l →
  available_neighbours t !! k = Some (a, c) → ¬ connected_to (bt_address c) t →
  u8 (answer (calls t ++ [time_us_64_call]) (gap_connect (bt_address c) (bt_address_type c))) = 0 →
  ∃ s', loop_connect [] loopStart s = Ok (tt, s') ∧ wf (connection_tracker s') ∧
    calls (connection_tracker s') = calls t ++ [time_us_64_call; gap_connect (bt_address c) (bt_address_type c)] ∧
    available_neighbours (connection_tracker s') = delete (bt_address c) (available_neighbours t) ∧
    connections (connection_tracker s') = connections t ∧
    (∀ later, may_connect later s' = false) ∧
    ∀ r rounds now lv, in_round incomplete r → Forall (in_round incomplete) rounds →
      let rest (loop : list Round → Locals → M App Locals) :=
        ('(lv', _) ← rest_of_body r now lv; loop rounds lv') s' in
      rest main_loop = rest waiting_loop ∧
      ∀ lv' s'', rest main_loop = Ok (lv', s'') → connection_in_progress s'' = true.
Proof.
  intros t Hwf Hmay Hoff Hk Hnew Hans.
  destruct (connect_started s loopStart a l k c Hwf Hmay Hoff Hk Hnew Hans) as (s' & Hrun & Hwf' & Hc & Hn & Hcs & Hs').
  exists s'. split_and!; [done..| |].
  - intros later. unfold may_connect. by rewrite Hs', andb_false_r.
  - intros r rounds now lv Hr Hrs. by apply rest_waits.
Qed.

(** ** Witness *)

(** An advertisement is reported, a connection is lost, the scan ends and a pin falls. *)
Definition busy_round : Round :=
  mkRound [CbHci HCI_EVENT_PACKET (HCI_EVENT_DISCONNECTION_COMPLETE 1)] [[CbCanWrite 0]] [] [[CbStopScan]]
    [[]; []; []; [CbGpio SMOKE_SEEN_PIN GPIO_IRQ_EDGE_FALL]] [] [[CbSm]].

Lemma connects_to_first_witness :
  let s := loop_example [9; 9; 9; 9; 9; 9] in
  ∃ s', @loop_connect example_env example_iterator example_db example_le [] 3000000 s = Ok (tt, s') ∧ wf (connection_tracker s') ∧
    calls (connection_tracker s') = [time_us_64_call; gap_connect [1; 1; 1; 1; 1; 1] 0] ∧
    available_neighbours (connection_tracker s')
      = delete [1; 1; 1; 1; 1; 1] (available_neighbours (connection_tracker s)) ∧
    connections (connection_tracker s') = connections (connection_tracker s) ∧
    (∀ later, may_connect later s' = false) ∧
    ∀ lv, let rest (loop : list Round → Locals → M App Locals) :=
        ('(lv', _) ← @rest_of_body example_env example_iterator example_db example_le busy_round 3000000 lv;
         loop [busy_round; busy_round] lv') s' in
      rest (@main_loop example_env example_iterator example_db example_le)
        = rest (@waiting_loop example_env example_iterator example_db example_le) ∧
      ∀ lv' s'', rest (@main_loop example_env example_iterator example_db example_le) = Ok (lv', s'') →
        connection_in_progress s'' = true.
Proof.
  assert (in_round incomplete busy_round) as Hr by (split; repeat constructor).
  destruct (@connects_to_first example_env _ example_iterator example_db example_le (loop_example [9; 9; 9; 9; 9; 9]) 3000000 50 [60]
    [1; 1; 1; 1; 1; 1] (neighbour_at [1; 1; 1; 1; 1; 1])) as (s' & H & Hwf & Hcalls & Hn & Hc & Hmay & Hw);
    [apply wf_check_sound; vm_compute; reflexivity|reflexivity|vm_compute; reflexivity|reflexivity| |reflexivity|].
  - intros (h & a & c & Hc & _ & Ht). cbn in Hc. unfold node_update in Hc. rewrite lookup_alter in Hc.
    case_decide; [subst h; injection Hc as <- <-; discriminate Ht|].
    apply lookup_insert_Some in Hc as [[<- [= <- <-]]|[_ [<- [= <- <-]]%lookup_singleton_Some]]; discriminate Ht.
  - exists s'. split_and!; [exact H|exact Hwf|exact Hcalls|exact Hn|exact Hc|exact Hmay|].
    intros lv. apply Hw; [exact Hr|]. repeat constructor; apply Hr.
Defined.
