(* ===== verification/Exit.v ===== *)
(** The end of the program: once the exit pin has fallen nothing sets [keep_running] again,
    and the main loop ends. *)

From S2P Require Import Prelude BinaryIO Packets StdContainers BleConnection Advertising Tracker TrackerWf Sending Connections Protocol Application Callbacks Discovery Interrupted Pins MainLoop Steady.

(** * Lemmas: stopped *)

Definition stopped (s : App) : Prop := keep_running s = false.

#[global] Instance stopped_steady : Steady stopped.
Proof. by split. Qed.

Section stopped.
Context {env : Env} {iterator : AdIterator} {db : AttDb} {le : LittleEndian}.

Lemma stopped_callback cb : keeps stopped (run_callback cb).
Proof.
  destruct (completes cb) eqn:Hcb; [|by apply keeps_callback, Hcb; apply _].
  destruct cb as [| | | |packet_type []| | | | | |]; try done. cbn [run_callback]. unfold hci_packet_handler.
  apply keeps_bind; [by apply keeps_modify|intros _]. case_decide; [apply keeps_ret|]. unfold gap_connection_complete.
  repeat (apply keeps_bind; [first [apply keeps_on_tracker, _|by apply keeps_modify]|intros]). apply keeps_ret.
Qed.

Lemma any_callback cb : True → keeps stopped (run_callback cb).
Proof. intros _. apply stopped_callback. Qed.

(** ** The exit pin *)

Definition exit_pin : Callback := CbGpio EXIT_GPIO_PIN GPIO_IRQ_EDGE_FALL.

(** Whatever it starts from, the program is to stop afterwards. *)
Definition stops {A} (m : M App A) : Prop := ∀ s, after m (λ _, stopped) s.

Lemma stops_then {A B} (m : M App A) (k : A → M App B) : stops m → (∀ a, keeps stopped (k a)) → stops (m ≫= k).
Proof.
  intros Hm Hk s. apply after_bind. eapply after_mono; [apply Hm|]. intros a s' Hs'. by apply Hk.
Qed.
Lemma stops_later {A B} (m : M App A) (k : A → M App B) : (∀ a, stops (k a)) → stops (m ≫= k).
Proof.
  intros Hk s. apply after_bind. unfold after at 1. destruct (m s) as [[a s']|]; [apply Hk|done].
Qed.

Lemma exit_stops cbs : exit_pin ∈ cbs → stops (for_each cbs run_callback).
Proof.
  induction cbs as [|cb cbs IH]; [by intros ?%elem_of_nil|]. cbn [for_each].
  intros [<-|Hin]%elem_of_cons; [|apply stops_later; intros []; by apply IH].
  apply stops_then; [by intros s|intros; apply keeps_for_each, stopped_callback].
Qed.

(** Every callback is among those that keep it. *)
Ltac all_true := repeat first [apply Forall_true; intros | exact I].

(** The statement before a gap, and the gap. *)
Ltac at_gap := first
  [ apply stops_then; [by apply exit_stops|intros; statements any_callback all_true]
  | apply stops_later; intros ?
  | match goal with |- stops (match ?x with _ => _ end) => destruct x end ].

Lemma body_stops r l i : exit_pin ∈ gap_of r i → (i < 10)%nat → stops (loop_body r l).
Proof.
  intros Hin Hi. unfold loop_body. cbv zeta.
  do 10 (destruct i as [|i]; [repeat at_gap|]). lia.
Qed.
End stopped.

(** * Properties *)

(** C25: when the exit pin falls between any two statements of an iteration, that iteration
    is the last: once it has come to its end nothing of a later one runs but the
    callbacks of the time in between. *)
Theorem exit_ends_loop {env : Env} {iterator : AdIterator} {db : AttDb} {le : LittleEndian}
    (r next : Round) (rounds : list Round) (l : Locals) (s s1 : App) (i : nat) :
  for_each (before_of r) run_callback s = Ok (tt, s1) → keep_running s1 = true →
  exit_pin ∈ gap_of r i → (i < 10)%nat →
  main_loop (r :: next :: rounds) l s
  = ('(l', _) ← loop_body r l; for_each (before_of next) run_callback;; mret l') s1.
Proof.
  intros Hb Hk Hin Hi. cbn [main_loop]. rewrite (M_bind_ok _ _ _ _ _ Hb), (M_bind_ok get _ _ _ _ eq_refl), Hk.
  pose proof (body_stops r l i Hin Hi s1) as Hs. unfold after in Hs.
  unfold mbind, M_bind. destruct (loop_body r l s1) as [[[l' w] s2]|]; [|done].
  assert (keeps stopped (for_each (before_of next) run_callback)) as Hc by (apply keeps_for_each, stopped_callback).
  specialize (Hc s2 Hs). unfold after in Hc.
  destruct (for_each (before_of next) run_callback s2) as [[[] s3]|]; [|done].
  unfold get. by rewrite Hc.
Qed.

(** ** Witness *)

(** The pin falls after the statement that announces. *)
Definition last_round : Round := mkRound [] [] [] [] [[]; []; [exit_pin]] [] [].

Lemma exit_ends_loop_witness :
  let s := loop_example [9; 9; 9; 9; 9; 9] in
  let loop := @main_loop example_env example_iterator example_db example_le in
  let body := @loop_body example_env example_iterator example_db example_le in
  let run := @run_callback example_env example_iterator example_db example_le in
  loop [last_round; mkRound [CbSm] [] [] [] [] [] []; last_round] locals_example s
  = ('(l', _) ← body last_round locals_example; for_each [CbSm] run;; mret l') s.
Proof.
  apply (@exit_ends_loop example_env example_iterator example_db example_le last_round
    (mkRound [CbSm] [] [] [] [] [] []) [last_round] locals_example (loop_example [9; 9; 9; 9; 9; 9])
    (loop_example [9; 9; 9; 9; 9; 9]) 2); [reflexivity|reflexivity|apply elem_of_cons; by left|lia].
Defined.
