(* ===== verification/Startup.v ===== *)
(** Component: [main] of src/main.cpp as a whole: the initialisation of the
    hardware and of the Bluetooth stack, and the loop of MainLoop behind it.

    The handler that a registration passes is fixed by its constructor of [Call];
    the texts that are printed are left out.  While the program waits for the
    exit pin, callbacks run as in the sleeps of the main loop. *)

From S2P Require Import Prelude BinaryIO Packets StdContainers BleConnection Advertising Tracker TrackerWf TrackerSafety Sending Connections Protocol Application Callbacks Discovery MainLoop.

(** Constants of BTstack and of the Pico SDK. *)
Definition GPIO_IN : bool := false.
Definition KHZ : Z := 1000.
Definition IO_CAPABILITY_NO_INPUT_NO_OUTPUT : Z := 3.
Definition HCI_POWER_ON : Z := 1.

(** * Operations *)

Section startup.
Context {env : Env} {iterator : AdIterator} {db : AttDb} {le : LittleEndian}.

(** A call whose result is not used. *)
Definition call (c : Call) : M App unit := ignore (app_ext c).

Definition reduce_clock (speed : Z) : M App unit := call (set_sys_clock_khz (u32 (speed * KHZ)) false).

Definition setup_gpio_callback : M App unit :=
  call (gpio_init EXIT_GPIO_PIN);;
  call (gpio_set_dir EXIT_GPIO_PIN GPIO_IN);;
  call (gpio_pull_up EXIT_GPIO_PIN);;
  call (gpio_init SMOKE_SEEN_PIN);;
  call (gpio_set_dir SMOKE_SEEN_PIN GPIO_IN);;
  call (gpio_pull_up SMOKE_SEEN_PIN);;
  call (gpio_init LIFE_CHECK_PIN);;
  call (gpio_set_dir LIFE_CHECK_PIN GPIO_IN);;
  call (gpio_pull_up LIFE_CHECK_PIN);;
  call (gpio_set_irq_enabled_with_callback EXIT_GPIO_PIN GPIO_IRQ_EDGE_FALL true);;
  call (gpio_set_irq_enabled_with_callback SMOKE_SEEN_PIN GPIO_IRQ_EDGE_FALL true);;
  call (gpio_set_irq_enabled_with_callback LIFE_CHECK_PIN GPIO_IRQ_EDGE_FALL true).

(** [while (keep_running) { __wfi(); }], with what runs at each wake-up. *)
Fixpoint spin (wakeups : list (list Callback)) : M App unit :=
  s ← get;
  if keep_running s then
    match wakeups with
    | [] => fail NoFuel
    | callbacks :: wakeups' => call wfi;; for_each callbacks run_callback;; spin wakeups'
    end
  else mret tt.

(** Up to [cyw43_arch_init], whose result is returned. *)
Definition init_hardware (pico_rp2040 : bool) : M App Z :=
  (if pico_rp2040 then reduce_clock 63 else mret tt);;
  call stdio_init_all;;
  setup_gpio_callback;;
  call (sleep_ms 1000);;
  app_ext cyw43_arch_init.

(** Up to [hci_power_control], whose result is returned. *)
Definition init_stack : M App Z :=
  call l2cap_init;;
  call gatt_client_init;;
  call sm_init;;
  call (sm_set_io_capabilities IO_CAPABILITY_NO_INPUT_NO_OUTPUT);;
  call att_server_init;;
  call hci_add_event_handler;;
  call sm_add_event_handler;;
  call att_server_register_packet_handler;;
  app_ext (hci_power_control HCI_POWER_ON).

(** Nothing is done about a failure but to wait for the exit pin. *)
Definition initialise (pico_rp2040 : bool) (wakeups1 wakeups2 : list (list Callback)) : M App unit :=
  failed ← init_hardware pico_rp2040;
  (if decide (failed ≠ 0) then spin wakeups1 else mret tt);;
  err ← init_stack;
  (if decide (err ≠ 0) then spin wakeups2 else mret tt).

Definition main (pico_rp2040 : bool) (wakeups1 wakeups2 : list (list Callback))
    (rounds : list Round) : M App Locals :=
  initialise pico_rp2040 wakeups1 wakeups2;;
  l ← main_locals;
  main_loop rounds l.
End startup.

(** * Specification *)

Definition pin_calls (pin : Z) : list Call := [gpio_init pin; gpio_set_dir pin GPIO_IN; gpio_pull_up pin].

Definition hardware_calls (pico_rp2040 : bool) : list Call :=
  (if pico_rp2040 then [set_sys_clock_khz 63000 false] else []) ++ [stdio_init_all] ++
  pin_calls EXIT_GPIO_PIN ++ pin_calls SMOKE_SEEN_PIN ++ pin_calls LIFE_CHECK_PIN ++
  ((λ pin, gpio_set_irq_enabled_with_callback pin GPIO_IRQ_EDGE_FALL true) <$>
    [EXIT_GPIO_PIN; SMOKE_SEEN_PIN; LIFE_CHECK_PIN]) ++ [sleep_ms 1000].

Definition stack_calls : list Call :=
  [l2cap_init; gatt_client_init; sm_init; sm_set_io_capabilities IO_CAPABILITY_NO_INPUT_NO_OUTPUT;
   att_server_init; hci_add_event_handler; sm_add_event_handler; att_server_register_packet_handler].

(** Wake-ups of which the last one is the press of the exit button. *)
Definition pressed_after (n : nat) : list (list Callback) :=
  replicate n [] ++ [[CbGpio EXIT_GPIO_PIN GPIO_IRQ_EDGE_FALL]].

(** * Lemmas *)

Section startup_lemmas.
Context {env : Env} {iterator : AdIterator} {db : AttDb} {le : LittleEndian}.

Lemma call_run {B} c (k : M App B) s : (call c;; k) s = k (in_tracker (called [c]) s).
Proof. done. Qed.

Lemma calls_run (cs1 cs2 : list Call) s :
  in_tracker (called cs2) (in_tracker (called cs1) s) = in_tracker (called (cs1 ++ cs2)) s.
Proof. unfold in_tracker. cbn [connection_tracker set_tracker]. by rewrite called_called. Qed.

Lemma in_tracker_called_nil s : in_tracker (called []) s = s.
Proof.
  unfold in_tracker, called, upd_calls. rewrite app_nil_r. by destruct s as [[] ? ? ? ? ? ? ? ? ? ?].
Qed.

Definition result_of (c : Call) (s : App) : Z := answer (calls (connection_tracker s)) c.

Lemma init_hardware_run rp s :
  let s' := in_tracker (called (hardware_calls rp)) s in
  init_hardware rp s = Ok (result_of cyw43_arch_init s', in_tracker (called [cyw43_arch_init]) s').
Proof.
  cbn zeta. set (r := Ok _). unfold init_hardware, setup_gpio_callback, reduce_clock.
  rewrite (M_bind_ok _ _ _ tt (in_tracker (called (if rp then [set_sys_clock_khz 63000 false] else [])) s)).
  - repeat (rewrite call_run || rewrite M_bind_assoc). rewrite !calls_run. by destruct rp.
  - destruct rp; [done|]. unfold mret, M_ret. by rewrite in_tracker_called_nil.
Qed.

Lemma init_stack_run s :
  let s' := in_tracker (called stack_calls) s in
  let power := hci_power_control HCI_POWER_ON in
  init_stack s = Ok (result_of power s', in_tracker (called [power]) s').
Proof.
  cbn zeta. set (r := Ok _). unfold init_stack. repeat rewrite call_run. rewrite !calls_run. reflexivity.
Qed.
End startup_lemmas.

Section spinning.
Context {env : Env} {iterator : AdIterator} {db : AttDb} {le : LittleEndian}.

(** The state after the exit pin has fallen. *)
Definition pressed (s : App) : App := set_keep_running false (busier s).

Lemma exit_pressed s : run_callback (CbGpio EXIT_GPIO_PIN GPIO_IRQ_EDGE_FALL) s = Ok (tt, pressed s).
Proof. reflexivity. Qed.

Lemma spin_stops wakeups s : keep_running s = false → spin wakeups s = Ok (tt, s).
Proof. intros Hk. destruct wakeups; cbn [spin]; by rewrite (M_bind_ok get _ _ _ _ eq_refl), Hk. Qed.

Lemma spin_pressed n s :
  keep_running s = true →
  spin (pressed_after n) s = Ok (tt, pressed (in_tracker (called (replicate (S n) wfi)) s)).
Proof.
  revert s. induction n as [|n IH]; intros s Hk; cbn [pressed_after replicate app spin];
    rewrite (M_bind_ok get _ _ _ _ eq_refl), Hk, call_run.
  - cbn [for_each]. rewrite M_bind_assoc, (M_bind_ok _ _ _ _ _ (exit_pressed _)).
    rewrite (M_bind_ok (mret tt) _ _ _ _ eq_refl). by apply (spin_stops []).
  - cbn [for_each]. rewrite (M_bind_ok (mret tt) _ _ _ _ eq_refl).
    change (replicate n [] ++ [[_]]) with (pressed_after n). rewrite IH by done.
    by rewrite calls_run.
Qed.

(** The wait after a failure [P], for the exit pin or not at all. *)
Definition waits (P : Prop) `{!Decision P} (n : nat) : list Call := if decide P then replicate (S n) wfi else [].

Lemma waits_ext P Q `{!Decision P, !Decision Q} n : (P ↔ Q) → waits P n = waits Q n.
Proof. intros HPQ. unfold waits. destruct (decide P), (decide Q); tauto. Qed.

Definition waited (P : Prop) `{!Decision P} (n : nat) (s : App) : App :=
  if decide P then pressed (in_tracker (called (waits P n)) s) else s.

Lemma wait_run P `{!Decision P} n s :
  (if decide P then spin (pressed_after n) else mret tt) s
  = Ok (tt, waited (P ∧ keep_running s = true) n s).
Proof.
  unfold waited, waits. destruct (decide P) as [HP|HP]; destruct (keep_running s) eqn:Hk.
  - rewrite !decide_True by done. by apply spin_pressed.
  - rewrite decide_False by naive_solver. by apply spin_stops.
  - by rewrite decide_False by naive_solver.
  - by rewrite decide_False by naive_solver.
Qed.

Lemma waited_tracker P `{!Decision P} n s :
  connection_tracker (waited P n s) = called (waits P n) (connection_tracker s).
Proof.
  unfold waited, waits. case_decide; [done|]. by rewrite <- (in_tracker_called_nil s) at 1.
Qed.

Lemma waited_running P `{!Decision P} n s :
  keep_running (waited P n s) = keep_running s && bool_decide (¬ P).
Proof.
  unfold waited. case_decide as HP.
  - rewrite bool_decide_eq_false_2 by tauto. by rewrite andb_false_r.
  - rewrite bool_decide_eq_true_2 by done. by rewrite andb_true_r.
Qed.
End spinning.

(** * Properties *)

(** C24: the start-up on every branch.  The pins and the chip come first, then the
    stack, all handlers are registered before the radio is turned on, and nothing
    else of the tracker changes.  When the chip or the radio fails the program
    waits for the exit pin; but then it does not stop: after a failure of the
    chip it goes on to initialise the stack and turns the radio on, and only
    the main loop is left out. *)
Theorem startup_order {env : Env} {iterator : AdIterator} {db : AttDb} {le : LittleEndian}
    (pico_rp2040 : bool) (n m : nat) (s : App) :
  keep_running s = true →
  let t := connection_tracker s in
  let hardware := hardware_calls pico_rp2040 in
  let failed := answer (calls t ++ hardware) cyw43_arch_init ≠ 0 in
  let before := hardware ++ [cyw43_arch_init] ++ waits failed n ++ stack_calls in
  let power := hci_power_control HCI_POWER_ON in
  let off := answer (calls t ++ before) power ≠ 0 in
  ∃ s', initialise pico_rp2040 (pressed_after n) (pressed_after m) s = Ok (tt, s') ∧
    connection_tracker s' = called (before ++ [power] ++ waits (off ∧ ¬ failed) m) t ∧
    keep_running s' = bool_decide (¬ failed ∧ ¬ off) ∧
    (failed ∨ off → ∀ l r rounds, before_of r = [] → main_loop (r :: rounds) l s' = Ok (l, s')).
Proof.
  intros Hk t hardware failed before power off. unfold initialise.
  rewrite (M_bind_ok _ _ _ _ _ (init_hardware_run pico_rp2040 s)).
  change (result_of cyw43_arch_init _ ≠ 0) with failed. fold hardware. rewrite calls_run.
  set (s1 := in_tracker (called (hardware ++ [cyw43_arch_init])) s).
  rewrite (M_bind_ok _ _ _ _ _ (wait_run failed n s1)), (M_bind_ok _ _ _ _ _ (init_stack_run _)).
  set (s2 := waited _ n s1). set (s3 := in_tracker (called stack_calls) s2).
  assert (connection_tracker s3 = called before t) as Ht3.
  { unfold s3, s2, in_tracker. cbn [connection_tracker set_tracker]. rewrite waited_tracker.
    unfold s1, in_tracker. cbn [connection_tracker set_tracker]. rewrite !called_called. unfold before.
    rewrite <- !app_assoc. do 4 f_equal. apply waits_ext. tauto. }
  assert (keep_running s3 = bool_decide (¬ failed)) as Hk3.
  { change (keep_running s3) with (keep_running s2). unfold s2. rewrite waited_running.
    change (keep_running s1) with (keep_running s). rewrite Hk. apply bool_decide_ext. tauto. }
  unfold result_of. rewrite Ht3. change (answer _ _ ≠ 0) with off.
  set (s4 := in_tracker (called [power]) s3). rewrite (wait_run off m s4). exists (waited (off ∧ keep_running s4 = true) m s4). split; [done|].
  assert (keep_running s4 = true ↔ ¬ failed) as Hk4.
  { change (keep_running s4) with (keep_running s3). rewrite Hk3. apply bool_decide_eq_true. }
  assert (keep_running (waited (off ∧ keep_running s4 = true) m s4) = bool_decide (¬ failed ∧ ¬ off)) as Hkw.
  { rewrite waited_running. apply eq_bool_prop_intro.
    rewrite andb_True, !bool_decide_spec, Is_true_true. tauto. }
  split_and!; [|done|].
  - rewrite waited_tracker. change (connection_tracker s4) with (called [power] (connection_tracker s3)).
    rewrite Ht3, !called_called. do 3 f_equal. apply waits_ext. tauto.
  - intros Hfail l r rounds Hr. cbn [main_loop]. rewrite Hr. cbn [for_each]. rewrite (M_bind_ok (mret tt) _ _ _ _ eq_refl), (M_bind_ok get _ _ _ _ eq_refl), Hkw.
    rewrite bool_decide_eq_false_2; [done|tauto].
Qed.

(** ** Witness *)

(** The chip fails: two wake-ups later the button is pressed. *)
#[local] Instance failing_env : Env := {
  answer _ c := match c with cyw43_arch_init => 1 | _ => 0 end;
  local_bd_addr := @local_bd_addr example_env;
  alloc := @alloc example_env;
  hash_string := @hash_string example_env;
  size_t_bits := 64;
  ndebug := true;
}.

Lemma startup_order_witness :
  let s := App_new (Tracker_new 1) in
  let before := hardware_calls true ++ [cyw43_arch_init] ++ [wfi; wfi; wfi] ++ stack_calls in
  ∃ s', @initialise failing_env example_iterator example_db example_le true (pressed_after 2) (pressed_after 0) s
      = Ok (tt, s') ∧
    connection_tracker s' = called (before ++ [hci_power_control HCI_POWER_ON] ++ []) (connection_tracker s) ∧
    keep_running s' = false ∧
    (True → ∀ l r rounds, before_of r = [] →
      @main_loop failing_env example_iterator example_db example_le (r :: rounds) l s' = Ok (l, s')).
Proof.
  destruct (@startup_order failing_env example_iterator example_db example_le true 2 0
    (App_new (Tracker_new 1)) eq_refl) as (s' & Hrun & Ht & Hk & Hstop).
  exists s'. split_and!; [exact Hrun|exact Ht|exact Hk|]. intros _. apply Hstop. left. done.
Defined.
