(* ===== verification/MainSafety.v ===== *)
(** The safety of the main loop with all that runs in it.

    [main_inv] is the invariant of the program between two statements of the loop.
    What the loop needs beyond it is asked for where it is needed: [callback_fine]
    of the callbacks ([calm] in the sleeps of [sendPackets]), [rssi_ok] where signal
    strengths are requested, [clean_ok] where stale items are forgotten, [connect_ok]
    where a neighbour is chosen. *)

From S2P Require Import Prelude BinaryIO Packets StdContainers BleConnection Advertising Tracker TrackerWf TrackerSafety Sending Connections Protocol Clock Reports Stored Cleanup Application Callbacks Discovery Kept Interrupted Pins MainLoop Startup.

(** * Statements of the loop *)

Section steps.
Context {env : Env} {iterator : AdIterator} {db : AttDb} {le : LittleEndian}.
Context (I : Tracker → Prop) `{!Stores I}.

Lemma keepa_time_us_32 : keepa I time_us_32.
Proof. unfold time_us_32. keepa. Qed.
Hint Resolve keepa_time_us_32 : keeps.

Lemma keepa_announce loopStart l :
  length local_bd_addr = 6%nat → bytes_ok local_bd_addr → keepa I (loop_announce loopStart l).
Proof.
  intros Hl Hb. pose proof (keeps_announceToConnections I Hl Hb). unfold loop_announce. keepa.
Qed.
Lemma keepa_connect_to a : keepa I (connect_to_neighbour a).
Proof. unfold connect_to_neighbour. keepa. Qed.
Lemma keepa_scan loopStart l : keepa I (loop_scan loopStart l).
Proof. pose proof keepa_start_scanning. unfold loop_scan. keepa. Qed.
Lemma keepa_rest slept l : keepa I (loop_rest slept l).
Proof. unfold loop_rest, ignore. keepa. Qed.
End steps.

(** * The invariant *)

(** A round of signal strength requests that is under way has a live node to go on with. *)
Definition rssi_ready (l : Locals) (t : Tracker) : Prop :=
  rssi_update_in_progress l = true → ∃ a, rssi_iterator t = Some (Some a) ∧ live_connection t a.

Record main_inv (l : Locals) (s : App) : Prop := {
  mi_wf : wf (connection_tracker s);
  mi_stored : stored_ok (connection_tracker s);
  mi_rssi : rssi_ready l (connection_tracker s);
}.

(** ... holds at the start. *)
Lemma main_inv_new l a : rssi_update_in_progress l = false → main_inv l (App_new (Tracker_new a)).
Proof.
  intros Hl. constructor; [apply wf_check_sound; vm_compute; by destruct a| |by intros ?; congruence].
  constructor; [cbn; decide_concrete|..]; intros k x y; cbn; by rewrite lookup_empty.
Qed.

(** * What the loop needs *)

Section needs.
Context {env : Env} {iterator : AdIterator} {db : AttDb} {le : LittleEndian}.

(** There is a connection whenever a round of signal strength requests starts. *)
Definition rssi_ok (loopStart : Z) (l : Locals) (s : App) : Prop :=
  due loopStart (lastRssiUpdate l) two_minutes_in_us = true → connections (connection_tracker s) ≠ ∅.

(** The clean-up forgets nothing that is still referred to. *)
Definition clean_ok (loopStart : Z) (l : Locals) (s : App) : Prop :=
  let t := connection_tracker s in
  due loopStart (lastCleanup l) ten_minutes_in_us = true →
  cleanup_clean (now_of t) t ∧
  match rssi_iterator t with Some (Some a) => stale_connection_at (now_of t) t a = false | _ => True end.

(** The callbacks in a gap of the loop are called as they must be, and [P] holds after them. *)
Definition gap_ok (callbacks : list Callback) (P : App → Prop) (s : App) : Prop :=
  callbacks_fine s callbacks ∧ after (for_each callbacks run_callback) (λ _, P) s.

(** A node of [available_neighbours] is at the address. *)
Definition live_neighbour (t : Tracker) (a : Addr) : Prop :=
  Exists (λ kn : list Z * (Addr * BleConnection), kn.2.1 = a) (items (available_neighbours t)).

(** The callbacks that run before the chosen neighbour is used leave it in its list. *)
Definition connect_ok (callbacks : list Callback) (loopStart : Z) (s : App) : Prop :=
  may_connect loopStart s = true →
  gap_ok callbacks (λ s', match offered (connection_tracker s) with
                          | a :: _ => live_neighbour (connection_tracker s') a
                          | [] => True
                          end) (in_tracker ticked s).

(** The callbacks before a sleep and those that end it are called as they must be. *)
Fixpoint sleep_ok (early wakeups : list (list Callback)) (loopStart : Z) (l : Locals) (s : App) : Prop :=
  if due loopStart (lastSleepOrActivity l) two_seconds_in_us &&
     bool_decide (last_activity l = global_activity s)
  then match wakeups with
       | [] => True
       | cbs :: wakeups' =>
           gap_ok (hd [] early) (λ s1,
             gap_ok cbs (λ s2,
               sleep_ok (tl early) wakeups' loopStart l (in_tracker (called [time_us_64_call]) s2))
               (in_tracker (called [wfi]) s1))
             (in_tracker (called [time_us_64_call; time_us_64_call]) s)
       end
  else True.

(** The callbacks while the LED is on are called as they must be. *)
Definition flash_ok (callbacks : list Callback) (loopStart : Z) (l : Locals) (s : App) : Prop :=
  due loopStart (lastFlash l) two_seconds_in_us = true →
  callbacks_fine (in_tracker (called [cyw43_arch_gpio_put true; sleep_ms 20]) s) callbacks.

(** An iteration, from its start; callbacks that bring packets may come anywhere but in the
    sleeps of [sendPackets]. *)
Definition body_ok (r : Round) (l : Locals) (s : App) : Prop :=
  let gap i := gap_ok (gap_of r i) in
  Forall (Forall calm) (sends_of r) ∧
  after time_us_32 (λ loopStart, gap 0%nat (
  after handlePinActivity (λ _, gap 1%nat (
  after (loop_announce loopStart l) (λ l, gap 2%nat (λ s, connect_ok (neighbour_of r) loopStart s ∧
  after (loop_connect (neighbour_of r) loopStart) (λ _, gap 3%nat (
  after (loop_send (sends_of r) l) (λ _, gap 4%nat (λ s, flash_ok (flash_of r) loopStart l s ∧
  after (loop_flash (flash_of r) loopStart l) (λ l, gap 5%nat (λ s, rssi_ok loopStart l s ∧
  after (loop_rssi loopStart l) (λ l, gap 6%nat (
  after (loop_scan loopStart l) (λ l, gap 7%nat (λ s, clean_ok loopStart l s ∧
  after (loop_cleanup loopStart l) (λ l, gap 8%nat (λ s, sleep_ok (early_of r) (wakeups_of r) loopStart l s ∧
  after (sleep_loop (early_of r) (wakeups_of r) loopStart l false) (λ _, gap 9%nat (λ _, True)) s)) s)))) s)) s)))) s)))))) s.

(** The loop, in the state in which each round finds the program. *)
Fixpoint rounds_ok (rounds : list Round) (l : Locals) (s : App) : Prop :=
  match rounds with
  | [] => True
  | r :: rounds' =>
      callbacks_fine s (before_of r) ∧
      after (for_each (before_of r) run_callback) (λ _ s1,
        if keep_running s1
        then body_ok r l s1 ∧ after (loop_body r l) (λ '(l', _), rounds_ok rounds' l') s1
        else True) s
  end.

(** The wait for the exit pin. *)
Fixpoint spin_ok (wakeups : list (list Callback)) (s : App) : Prop :=
  if keep_running s then
    match wakeups with
    | [] => True
    | cbs :: wakeups' =>
        let s1 := in_tracker (called [wfi]) s in
        callbacks_fine s1 cbs ∧ after (for_each cbs run_callback) (λ _, spin_ok wakeups') s1
    end
  else True.

Definition wait_ok (P : Prop) `{!Decision P} (wakeups : list (list Callback)) (s : App) : Prop :=
  if decide P then spin_ok wakeups s else True.

(** The whole program. *)
Definition main_ok (pico_rp2040 : bool) (wakeups1 wakeups2 : list (list Callback))
    (rounds : list Round) : App → Prop :=
  after (init_hardware pico_rp2040) (λ failed s, wait_ok (failed ≠ 0) wakeups1 s ∧
  after (if decide (failed ≠ 0) then spin wakeups1 else mret tt) (λ _,
  after init_stack (λ err s, wait_ok (err ≠ 0) wakeups2 s ∧
  after (if decide (err ≠ 0) then spin wakeups2 else mret tt) (λ _,
  after main_locals (rounds_ok rounds)) s)) s).
End needs.

(** * Lemmas: one statement *)

Section statements.
Context {env : Env} `{!AllocFresh env} {iterator : AdIterator} `{!AdIteratorSpec iterator}.
Context {db : AttDb} {le : LittleEndian} `{!LittleEndianSpec le}.

#[local] Instance rssi_stores v : Stores (λ t, rssi_iterator t = v).
Proof. by constructor; [constructor; [constructor|..]|..]. Qed.

(** The loop's variable is set by the statements for signal strengths alone. *)
Definition same_round (l : Locals) : Locals → App → Prop :=
  λ l' _, rssi_update_in_progress l' = rssi_update_in_progress l.

(** A fine statement keeps the invariant. *)
Lemma fine_inv {A} (m : M App A) Q l s :
  main_inv l s → fine m Q s → wp m (λ a s', main_inv l s' ∧ Q a s') s.
Proof.
  intros [Hwf Hst Hr] [Hm HI]. pose proof (HI stored_ok _ Hst) as Hstored.
  pose proof (HI (λ t, rssi_iterator t = rssi_iterator (connection_tracker s)) _ eq_refl) as Hit.
  unfold wfa, wp, after in *. destruct (m s) as [[a s']|]; [|done]. destruct Hm as (Hwf' & He & HQ).
  split; [|done]. constructor; [done|done|]. intros Hp. destruct (Hr Hp) as (x & Hx & Hlive).
  exists x. split; [congruence|]. by eapply live_connection_extends.
Qed.

(** ** The statements of an iteration *)

Lemma fine_time_us_32 s : wf (connection_tracker s) → fine time_us_32 anya s.
Proof.
  intros Hwf. unfold time_us_32. apply fine_then; [done|by apply fine_ext|].
  intros t s' Hwf'. by apply fine_ret.
Qed.

Lemma fine_printStats s : wf (connection_tracker s) → fine (on_tracker printStats) anya s.
Proof.
  intros Hwf. eapply fine_tracker with (R := any); [|intros; apply keeps_printStats, _].
  destruct (printStats_run (connection_tracker s)) as [r Hr]. unfold wfp, wp. rewrite Hr.
  by destruct (wf_calls (connection_tracker s) (λ l, l ++ [time_us_64_call]) Hwf).
Qed.

Lemma fine_pins s :
  wf (connection_tracker s) → length local_bd_addr = 6%nat → bytes_ok local_bd_addr →
  fine handlePinActivity anya s.
Proof.
  intros Hwf Hl Hb. destruct (wf_calls _ (λ l, l ++ [time_us_64_call]) Hwf) as [Hwft Het].
  destruct (smoke_seen s || life_check s) eqn:Hon.
  - pose proof (handlePinActivity_alert s Hwf Hl Hon) as Hrun. cbv zeta in Hrun.
    unfold fine, wfa, wp, after. rewrite Hrun.
    destruct (messages (ticked (connection_tracker s)) !! message_id (alert s)) eqn:Hm.
    { split; [done|]. intros I HI Hs. exact (fr_calls _ _ Hs). }
    destruct (enqueueBroadcast_new (alert s) _ Hwft Hm) as (_ & Hwf' & He'); [done|].
    split; [split_and!; [exact Hwf'| |done]; by etrans|]. intros I HI Hs.
    apply (fr_broadcast (λ l, l ++ [alloc (used (ticked (connection_tracker s)))])).
    apply st_message; [by apply alert_forwardable|]. exact (fr_calls _ _ Hs).
  - apply orb_false_elim in Hon as [Hs Hlc]. unfold fine, wfa, wp, after.
    rewrite handlePinActivity_idle by done. split; [done|]. intros I HI HIs. exact (fr_calls _ _ HIs).
Qed.

Lemma fine_announce loopStart l s :
  wf (connection_tracker s) → length local_bd_addr = 6%nat → bytes_ok local_bd_addr →
  fine (loop_announce loopStart l) (same_round l) s.
Proof.
  intros Hwf Hl Hb. unfold loop_announce. destruct (due _ _ _); [|by apply fine_ret].
  apply fine_then; [done| |].
  - eapply fine_tracker; [by apply wfp_announceToConnections|]. intros. by apply keeps_announceToConnections.
  - intros [] s1 Hwf1. apply fine_then; [done|by apply fine_time_us_32|]. intros t s2 Hwf2. by apply fine_ret.
Qed.

(** A computation that goes on as another one. *)
Lemma wfa_from {A} (m m' : M App A) Q s s1 :
  m s = m' s1 → extends (connection_tracker s) (connection_tracker s1) → wfa m' Q s1 → wfa m Q s.
Proof.
  intros Hrun He Hm. unfold wfa, wp in *. rewrite Hrun. destruct (m' s1) as [[a s2]|]; [|done].
  destruct Hm as (? & ? & ?). split_and!; [done|by etrans|done].
Qed.

Lemma wfa_connect_to a s :
  wf (connection_tracker s) → live_neighbour (connection_tracker s) a → wfa (connect_to_neighbour a) anya s.
Proof.
  intros Hwf Hlive. apply Exists_exists in Hlive as ([k [a' c]] & Hk%elem_of_items & Ha).
  cbn in Ha. subst a'. destruct (connect_to_run s a k c Hwf Hk) as (r & _ & Hrun).
  eapply wfa_from; [exact Hrun|done|]. destruct r as [x'|]; [by apply wfa_ret|].
  eapply wfa_bind; [by apply wfa_app_ext|]. intros err s1 Hwf1 ->.
  case_decide; [|eapply wfa_bind; [by eapply wfa_any, wfa_app_ext|]; intros; by apply wfa_ret].
  eapply wfa_bind.
  { eapply wfa_tracker_any, wfp_setConnectionStarted with (k := k); [done|]. cbn. by rewrite Hk. }
  intros [] s2 Hwf2 _. eapply wfa_bind; [by eapply wfa_any, wfa_modify|]. intros [] ? ? _. by apply wfa_ret.
Qed.

Lemma fine_connect cbs loopStart s :
  wf (connection_tracker s) → connect_ok cbs loopStart s → fine (loop_connect cbs loopStart) anya s.
Proof.
  intros Hwf Hok. unfold loop_connect.
  eapply fine_bind with (R := λ x s', x = s ∧ s' = s).
  { apply fine_keepa; [by split_and!|]. intros. apply keeps_get. }
  intros x s' _ [-> ->]. unfold connect_ok in Hok. destruct (may_connect loopStart s); [|by apply fine_ret].
  destruct (Hok eq_refl) as [Hcbs Hafter]. unfold ignore. apply fine_then; [done| |intros b s1 Hwf1; by apply fine_ret].
  unfold connect_to_first_neighbour.
  eapply fine_bind with (R := λ ns s', ns = offered (connection_tracker s) ∧ s' = in_tracker ticked s).
  { apply fine_keepa; [|intros; keepa]. unfold wfa, wp, on_tracker. rewrite offered_run.
    destruct (wf_calls _ (λ l, l ++ [time_us_64_call]) Hwf) as [Hwft Het]. by split_and!. }
  intros ns s' Hwf' [-> ->].
  eapply fine_bind; [eapply fine_after; [by apply fine_callbacks|exact Hafter]|].
  intros [] s1 Hwf1 [_ Hlive]. destruct (offered _) as [|a l]; [by apply fine_ret|].
  apply fine_keepa; [by apply wfa_connect_to|]. intros. apply keepa_connect_to, _.
Qed.

Lemma fine_send during l s :
  wf (connection_tracker s) → stored_ok (connection_tracker s) → ndebug = true → Forall (Forall calm) during →
  fine (loop_send during l) anya s.
Proof.
  intros Hwf Hst Hnd Hc. unfold loop_send.
  eapply fine_bind with (R := λ x s', stored_ok (connection_tracker s')).
  { apply fine_keepa; [by split_and!|]. intros. apply keeps_get. }
  clear s Hwf Hst. intros x s Hwf Hst. eapply fine_bind with (R := λ _ s', stored_ok (connection_tracker s')).
  - case_decide; [|by apply fine_ret]. apply fine_keepa; [|intros; unfold ignore; keepa].
    unfold ignore. destruct (printStats_run (connection_tracker s)) as [r Hr].
    unfold wfa, wp. rewrite (on_tracker_ok _ _ _ _ _ Hr).
    destruct (wf_calls _ (λ l, l ++ [time_us_64_call]) Hwf) as [Hwft Het]. split_and!; [done|done|].
    exact (fr_calls _ _ Hst).
  - intros [] s1 Hwf1 Hst1. pose proof (sendPackets_during_serene during s1 Hnd (conj Hwf1 Hst1) Hc) as Hs.
    unfold fine, wfa, wp, after in *. destruct (sendPackets_during during s1) as [[[] s2]|]; [|done].
    destruct Hs as ([? ?] & ? & HI & _). split; [done|]. intros I HIs. apply HI, _.
Qed.

Lemma fine_flash cbs loopStart l s :
  wf (connection_tracker s) → flash_ok cbs loopStart l s → fine (loop_flash cbs loopStart l) (same_round l) s.
Proof.
  intros Hwf Hok. unfold loop_flash, flash_ok in *. destruct (due _ _ _); [|by apply fine_ret]. specialize (Hok eq_refl).
  eapply fine_bind with (R := λ _ s', s' = in_tracker (called [cyw43_arch_gpio_put true]) s).
  { apply fine_keepa; [|intros; keepa]. by split_and!; [apply wf_calls|apply wf_calls|]. }
  intros r s1 Hwf1 ->. eapply fine_bind with (R := λ _ s', callbacks_fine s' cbs).
  { apply fine_keepa; [|intros; keepa]. split_and!; [by apply wf_calls|by apply wf_calls|].
    pose proof (calls_run [cyw43_arch_gpio_put true] [sleep_ms 20] s) as Hr. cbn [app] in Hr.
    rewrite <- Hr in Hok. exact Hok. }
  clear s Hwf Hwf1 Hok. intros _ s Hwf Hok. apply fine_then; [done|by apply fine_callbacks|].
  intros _ s1 Hwf1. apply fine_then; [done|by apply fine_ext|]. intros _ s2 Hwf2.
  apply fine_then; [done|by apply fine_time_us_32|]. intros t s' Hwf'. by apply fine_ret.
Qed.

Lemma fine_scan loopStart l s : wf (connection_tracker s) → fine (loop_scan loopStart l) (same_round l) s.
Proof.
  intros Hwf. unfold loop_scan. destruct (due _ _ _); [|by apply fine_ret].
  apply fine_then; [done|by apply fine_scanning|]. intros [] s1 Hwf1.
  apply fine_then; [done|by apply fine_time_us_32|]. intros t s' Hwf'. by apply fine_ret.
Qed.

Lemma fine_get s : wf (connection_tracker s) → fine get anya s.
Proof. intros Hwf. apply fine_keepa; [done|]. intros. apply keeps_get. Qed.

Lemma fine_rest slept l s : wf (connection_tracker s) → fine (loop_rest slept l) (same_round l) s.
Proof.
  intros Hwf. unfold loop_rest. apply fine_then; [done|by apply fine_get|]. intros x s1 Hwf1.
  eapply fine_bind with (R := same_round l).
  - destruct (_ || _); [|by apply fine_ret]. apply fine_then; [done|by apply fine_time_us_32|].
    intros t s2 Hwf2. apply fine_then; [done|by apply fine_get|]. intros y s3 Hwf3. by apply fine_ret.
  - intros l' s2 Hwf2 Hl. apply fine_then; [done| |intros [] s3 Hwf3; by apply fine_ret].
    destruct slept; [by apply fine_ret|]. unfold ignore. apply fine_then; [done|by apply fine_ext|].
    intros r s3 Hwf3. by apply fine_ret.
Qed.

(** Signal strengths: the variable and the iterator after a request. *)
Lemma rssi_step restart last l s :
  let t := connection_tracker s in
  main_inv l s →
  (if restart : bool then connections t ≠ ∅
   else ∃ a, rssi_iterator t = Some (Some a) ∧ live_connection t a) →
  wp (on_tracker (requestNextRssi restart)) (λ b s', main_inv (set_rssi_update last b l) s') s.
Proof.
  intros t [Hwf Hst _] Hit. fold t in Hwf, Hst.
  assert (∃ pre k a c post, items (connections t) = pre ++ (k, (a, c)) :: post ∧
    (if restart then pre = [] else rssi_iterator t = Some (Some a))) as (pre & k & a & c & post & Hi & Hat).
  { destruct restart.
    - destruct (items (connections t)) as [|[k [a c]] post] eqn:Hi; [by apply items_nonempty in Hit|].
      by exists [], k, a, c, post.
    - destruct Hit as (a & Hit & k & Ha). cbn in Ha. apply fmap_Some in Ha as ([a' c] & Hc & ->).
      apply elem_of_items, list_elem_of_split in Hc as (pre & post & Hi). by exists pre, k, a', c, post. }
  pose proof (requestNextRssi_run restart pre k a c post t Hwf Hi Hat) as Hrun.
  unfold wp, on_tracker. fold t. rewrite Hrun. constructor; cbn [connection_tracker set_tracker].
  - by apply rssi_requested_wf.
  - destruct Hst. by constructor.
  - intros Hb%bool_decide_eq_true. destruct post as [|[k2 [a2 c2]] post]; [done|].
    exists a2. split; [done|]. exists k2. cbn.
    assert (connections t !! k2 = Some (a2, c2)) as ->; [|done].
    apply elem_of_items. rewrite Hi. set_solver.
Qed.

Lemma main_inv_same l l' s :
  rssi_update_in_progress l' = rssi_update_in_progress l → main_inv l s → main_inv l' s.
Proof. intros Hl [Hwf Hst Hr]. constructor; [done|done|]. unfold rssi_ready. by rewrite Hl. Qed.

Lemma wp_rssi loopStart l s :
  main_inv l s → rssi_ok loopStart l s → wp (loop_rssi loopStart l) (λ l' s', main_inv l' s') s.
Proof.
  intros Hinv Hok. unfold loop_rssi, rssi_ok in *. destruct (due _ _ _).
  - apply wp_bind. eapply wp_mono; [apply (rssi_step true 0 l); auto|]. intros b s1 Hinv1.
    apply wp_bind. eapply wp_mono; [eapply fine_inv; [exact Hinv1|by apply fine_time_us_32, Hinv1]|].
    intros t s2 [Hinv2 _]. apply wp_ret. by eapply main_inv_same, Hinv2.
  - destruct (rssi_update_in_progress l) eqn:Hp; [|by apply wp_ret].
    apply wp_bind. eapply wp_mono; [apply (rssi_step false (lastRssiUpdate l) l); [done|]|].
    + by apply (mi_rssi l s Hinv).
    + intros b s1 Hinv1. by apply wp_ret.
Qed.

Lemma wp_cleanup loopStart l s :
  main_inv l s → clean_ok loopStart l s → wp (loop_cleanup loopStart l) (λ l' s', main_inv l' s') s.
Proof.
  intros Hinv Hok. unfold loop_cleanup, clean_ok in *. destruct (due _ _ _); [|by apply wp_ret].
  destruct (Hok eq_refl) as [Hcl Hit]. clear Hok. pose proof Hinv as [Hwf Hst Hr].
  set (t := connection_tracker s) in *. destruct (wf_calls t (λ l, l ++ [time_us_64_call]) Hwf) as [Hwft _].
  apply wp_bind. unfold wp at 1, on_tracker. fold t. rewrite cleanup_run by done.
  set (s1 := set_tracker _ s). assert (main_inv l s1) as Hinv1.
  { constructor; cbn [s1 connection_tracker set_tracker].
    - by apply wf_cleaned.
    - destruct Hst as [H1 H2 H3]. constructor; [done|..].
      + intros k a m [Hm _]%(lookup_erase_if (λ m, stale (now_of t) (getPacketTimestampMs (base_of m)))). by eapply H2.
      + intros k a p [Hp _]%(lookup_erase_if (λ p, stale (now_of t) (getPacketTimestampMs (base_of p)))). by eapply H3.
    - intros Hp. destruct (Hr Hp) as (a & Ha & Hlive). exists a. split; [done|].
      rewrite Ha in Hit. by apply cleaned_connection. }
  apply wp_bind. eapply wp_mono; [eapply fine_inv; [exact Hinv1|by apply fine_time_us_32, Hinv1]|].
  intros x s2 [Hinv2 _]. apply wp_ret. by eapply main_inv_same, Hinv2.
Qed.
(** ** The iteration *)

(** Safe: it ends with [Q], or the processor sleeps on. *)
Definition safe {A} (m : M App A) (Q : A → App → Prop) (s : App) : Prop :=
  match m s with Ok (a, s') => Q a s' | Err e => e = NoFuel end.

Lemma safe_wp {A} (m : M App A) Q s : wp m Q s → safe m Q s.
Proof. unfold safe, wp. by destruct (m s) as [[]|]. Qed.

Lemma safe_bind {A B} (m : M App A) (k : A → M App B) R Q s :
  safe m R s → (∀ a s', R a s' → safe (k a) Q s') → safe (m ≫= k) Q s.
Proof. unfold safe, mbind, M_bind. intros Hm Hk. destruct (m s) as [[a s']|]; [by apply Hk|done]. Qed.

Lemma safe_after {A} (m : M App A) P Q s : safe m Q s → after m P s → safe m (λ a s', Q a s' ∧ P a s') s.
Proof. unfold safe, after. by destruct (m s) as [[]|]. Qed.

Lemma main_inv_calls l s cs : main_inv l s → main_inv l (in_tracker (called cs) s).
Proof.
  intros [Hwf Hst Hr]. constructor.
  - by destruct (wf_calls _ (λ l, l ++ cs) Hwf).
  - by destruct Hst.
  - intros Hp. destruct (Hr Hp) as (a & Ha & h & Hh). exists a. split; [done|]. by exists h.
Qed.

Lemma callbacks_inv cbs l : ∀ s,
  main_inv l s → callbacks_fine s cbs → wp (for_each cbs run_callback) (λ _, main_inv l) s.
Proof.
  induction cbs as [|cb cbs IH]; intros s Hinv Hok; [done|]. destruct Hok as [Hcb Hrest].
  apply wp_bind. eapply wp_mono; [eapply wp_after; [|exact Hrest]|].
  - eapply fine_inv; [exact Hinv|]. by apply fine_callback, Hinv.
  - intros [] s' [[Hinv' _] Hok']. by apply IH.
Qed.

(** The callbacks of a gap, before the statement after it. *)
Lemma gap_safe {B} cbs (k : unit → M App B) (P : App → Prop) Q l s :
  main_inv l s → gap_ok cbs P s → (∀ s', main_inv l s' → P s' → safe (k tt) Q s') →
  safe (for_each cbs run_callback ≫= k) Q s.
Proof.
  intros Hinv [Hcbs Ha] Hk. eapply safe_bind; [eapply safe_wp, wp_after; [by apply callbacks_inv|exact Ha]|].
  intros [] s' [? ?]. by apply Hk.
Qed.

Lemma safe_ext {B} c (k : Z → M App B) Q s :
  (∀ r, safe (k r) Q (in_tracker (called [c]) s)) → safe (app_ext c ≫= k) Q s.
Proof. intros Hk. unfold safe. rewrite app_ext_run. apply Hk. Qed.

Lemma sleep_safe wakeups loopStart l : ∀ early slept s,
  main_inv l s → sleep_ok early wakeups loopStart l s →
  safe (sleep_loop early wakeups loopStart l slept) (λ _, main_inv l) s.
Proof.
  induction wakeups as [|cbs wakeups IH]; intros early slept s Hinv Hok; cbn [sleep_ok] in Hok.
  - unfold safe. cbn [sleep_loop]. rewrite (M_bind_ok get _ _ _ _ eq_refl). by destruct (_ && _).
  - destruct (due loopStart (lastSleepOrActivity l) two_seconds_in_us &&
      bool_decide (last_activity l = global_activity s)) eqn:Hd.
    + apply andb_prop in Hd as [Hd Ha%bool_decide_eq_true].
      unfold safe. rewrite sleep_step by done. fold (safe (A := bool * list (list Callback))).
      eapply gap_safe; [by apply main_inv_calls|exact Hok|]. intros s1 Hinv1 Hok1.
      apply safe_ext. intros _. eapply gap_safe; [by apply main_inv_calls|exact Hok1|]. intros s2 Hinv2 Hok2.
      apply safe_ext. intros _. by apply IH; [apply main_inv_calls|].
    + unfold safe. cbn [sleep_loop]. by rewrite (M_bind_ok get _ _ _ _ eq_refl), Hd.
Qed.

(** A statement that is fine or keeps the invariant, before what is asked for after it. *)
Lemma safe_fine {A B} (m : M App A) (k : A → M App B) R P Q l s :
  main_inv l s → after m P s → fine m R s →
  (∀ a s', main_inv l s' → R a s' → P a s' → safe (k a) Q s') → safe (m ≫= k) Q s.
Proof.
  intros Hinv Ha Hm Hk. eapply safe_bind; [eapply safe_wp, wp_after; [by eapply fine_inv|exact Ha]|].
  intros a s' [[? ?] ?]. by apply Hk.
Qed.

Lemma safe_inv {B} (m : M App Locals) (k : Locals → M App B) (P : Locals → App → Prop) Q s :
  wp m main_inv s → after m P s → (∀ l s', main_inv l s' → P l s' → safe (k l) Q s') →
  safe (m ≫= k) Q s.
Proof.
  intros Hm Ha Hk. eapply safe_bind; [eapply safe_wp, wp_after; [exact Hm|exact Ha]|].
  intros l s' [? ?]. by apply Hk.
Qed.

(** The callbacks of the next gap, and the next statement of the body: [Hinv] and [Hok]
    are replaced. *)
Ltac next_gap s :=
  cbv beta in *; eapply gap_safe; [eassumption|eassumption|];
  match goal with Hinv : main_inv _ ?s0, Hok : gap_ok _ _ ?s0 |- _ => clear Hinv Hok end;
  intros s Hinv Hok; cbv beta in *.

Ltac next_fine lem :=
  cbv beta in *; eapply safe_fine; [eassumption|eassumption|apply lem; first [assumption | by eapply mi_wf | by eapply mi_stored]|];
  match goal with Hinv : main_inv _ ?s, Hok : after _ _ ?s |- _ => clear Hinv Hok end.

Lemma body_safe r l s :
  length local_bd_addr = 6%nat → bytes_ok local_bd_addr → ndebug = true →
  main_inv l s → body_ok r l s →
  safe (loop_body r l) (λ '(l', _) s', main_inv l' s') s.
Proof.
  intros Hl Hb Hnd Hinv [Hcalm Hok]. unfold loop_body in *.
  next_fine fine_time_us_32. intros loopStart s1 Hinv _ Hok. next_gap g1.
  next_fine fine_pins. intros [] s2 Hinv _ Hok. next_gap g2.
  next_fine fine_announce. intros l1 s3 Hinv Hl1 Hok. apply (main_inv_same _ l1) in Hinv; [|done].
  next_gap g3. destruct Hok as [Hconnect Hok].
  next_fine fine_connect. intros [] s4 Hinv _ Hok. next_gap g4.
  next_fine fine_send. intros [] s5 Hinv _ Hok. next_gap g5. destruct Hok as [Hflash Hok].
  next_fine fine_flash. intros l2 s6 Hinv Hl2 Hok. apply (main_inv_same _ l2) in Hinv; [|done].
  next_gap g6. destruct Hok as [Hrssi Hok].
  eapply safe_inv; [by apply wp_rssi|exact Hok|]. clear Hinv Hok.
  intros l3 s7 Hinv Hok. next_gap g7.
  next_fine fine_scan. intros l4 s8 Hinv Hl4 Hok. apply (main_inv_same _ l4) in Hinv; [|done].
  next_gap g8. destruct Hok as [Hclean Hok].
  eapply safe_inv; [by apply wp_cleanup|exact Hok|]. clear Hinv Hok. intros l5 s9 Hinv Hok.
  next_gap g9. destruct Hok as [Hsleep Hok].
  eapply safe_bind; [eapply safe_after; [by apply sleep_safe|exact Hok]|]. clear Hinv Hok.
  intros [slept rest] s10 [Hinv Hok]. next_gap g10.
  apply safe_wp, wp_bind. eapply wp_mono; [eapply fine_inv; [exact Hinv|by apply fine_rest, Hinv]|].
  intros l6 s11 [Hinv7 Hl6]. apply wp_ret. by apply (main_inv_same l5).
Qed.

Lemma rounds_safe rounds : ∀ l s,
  length local_bd_addr = 6%nat → bytes_ok local_bd_addr → ndebug = true →
  main_inv l s → rounds_ok rounds l s → safe (main_loop rounds l) main_inv s.
Proof.
  induction rounds as [|r rounds IH]; intros l s Hl Hb Hnd Hinv Hok; [done|].
  destruct Hok as [Hcbs Hok]. cbn [main_loop].
  eapply safe_bind; [eapply safe_wp, wp_after; [by apply callbacks_inv|exact Hok]|].
  intros [] s1 [Hinv1 Hok1]. eapply safe_bind with (R := λ x s', x = s1 ∧ s' = s1); [done|].
  intros x s2 [-> ->]. destruct (keep_running s1); [|done]. destruct Hok1 as [Hbody Hrest].
  pose proof (body_safe r l s1 Hl Hb Hnd Hinv1 Hbody) as Hs.
  unfold safe, after, mbind, M_bind in *. destruct (loop_body r l s1) as [[[l' w] s2]|]; [|done].
  by apply IH.
Qed.

(** ** The start-up *)

Lemma spin_safe wakeups l : ∀ s,
  main_inv l s → spin_ok wakeups s → safe (spin wakeups) (λ _, main_inv l) s.
Proof.
  induction wakeups as [|cbs wakeups IH]; intros s Hinv Hok; cbn [spin_ok] in Hok;
    unfold safe; cbn [spin]; rewrite (M_bind_ok get _ _ _ _ eq_refl); destruct (keep_running s); try done.
  destruct Hok as [Hcbs Hrest]. rewrite call_run. set (s1 := in_tracker _ s) in *.
  assert (main_inv l s1) as Hinv1 by (by apply main_inv_calls).
  eapply (safe_bind _ _ (λ _ s', main_inv l s' ∧ spin_ok wakeups s')).
  - by eapply safe_wp, wp_after; [apply callbacks_inv|exact Hrest].
  - intros [] s2 [Hinv2 Hok2]. by apply IH.
Qed.

Lemma wait_safe P `{!Decision P} wakeups l s :
  main_inv l s → wait_ok P wakeups s →
  safe (if decide P then spin wakeups else mret tt) (λ _, main_inv l) s.
Proof. intros Hinv Hok. unfold wait_ok in Hok. case_decide; [by apply spin_safe|done]. Qed.

Lemma locals_inv l s :
  main_inv l s → rssi_update_in_progress l = false → wp main_locals main_inv s.
Proof.
  intros Hinv Hl. unfold main_locals.
  do 5 (apply wp_bind; eapply wp_mono; [eapply fine_inv; [exact Hinv|by apply fine_time_us_32, Hinv]|];
    clear s Hinv; intros ? s [Hinv _]).
  apply wp_bind, wp_get, wp_ret. by eapply main_inv_same, Hinv.
Qed.

Lemma initialise_safe rp wakeups1 wakeups2 rounds l s :
  main_inv l s → main_ok rp wakeups1 wakeups2 rounds s →
  safe (initialise rp wakeups1 wakeups2)
    (λ _ s', main_inv l s' ∧ after main_locals (rounds_ok rounds) s') s.
Proof.
  intros Hinv Hok. unfold main_ok, initialise in *.
  assert (safe (init_hardware rp) (λ _, main_inv l) s) as H1.
  { unfold safe. rewrite init_hardware_run. by do 2 apply main_inv_calls. }
  eapply safe_bind; [by eapply safe_after|]. intros failed s1 [Hinv1 [Hw1 Hok1]].
  eapply safe_bind; [eapply safe_after; [by eapply wait_safe|exact Hok1]|]. intros [] s2 [Hinv2 Hok2].
  assert (safe init_stack (λ _, main_inv l) s2) as H2.
  { unfold safe. rewrite init_stack_run. by do 2 apply main_inv_calls. }
  eapply safe_bind; [by eapply safe_after|]. intros err s3 [Hinv3 [Hw3 Hok3]].
  eapply safe_after; [by eapply wait_safe|exact Hok3].
Qed.

Lemma main_runs rp wakeups1 wakeups2 rounds l s :
  length local_bd_addr = 6%nat → bytes_ok local_bd_addr → ndebug = true → rssi_update_in_progress l = false →
  main_inv l s → main_ok rp wakeups1 wakeups2 rounds s →
  safe (main rp wakeups1 wakeups2 rounds) main_inv s.
Proof.
  intros Hl Hb Hnd Hr Hinv Hok. unfold main.
  eapply safe_bind; [by eapply initialise_safe|]. intros [] s1 [Hinv1 Hrounds].
  eapply safe_bind; [eapply safe_after; [by eapply safe_wp, locals_inv|exact Hrounds]|].
  intros l2 s2 [Hinv2 Hok2]. by apply rounds_safe.
Qed.
End statements.

(** * Properties *)


(** ** Witness *)

#[global] Instance unflagged_dec r : Decision (unflagged r).
Proof. destruct r; apply _. Defined.

#[global] Instance unflagged_value_dec o b n : Decision (unflagged_value o b n).
Proof. unfold unflagged_value. destruct (parse _ _ _); apply _. Defined.

Section decide.
Context {env : Env} {iterator : AdIterator} {db : AttDb} {le : LittleEndian}.

#[global] Instance callback_fine_dec s cb : Decision (callback_fine s cb).
Proof. apply and_dec; [apply _|]. destruct cb; apply _. Defined.

#[global] Instance callbacks_fine_dec s cbs : Decision (callbacks_fine s cbs).
Proof. revert s. induction cbs as [|cb cbs IH]; intros s; cbn; [|apply and_dec]; apply _. Defined.

#[global] Instance rssi_ok_dec loopStart l s : Decision (rssi_ok loopStart l s).
Proof. unfold rssi_ok. apply _. Defined.

#[global] Instance cleanup_clean_dec now t : Decision (cleanup_clean now t).
Proof. unfold cleanup_clean. apply _. Defined.

#[global] Instance clean_ok_dec loopStart l s : Decision (clean_ok loopStart l s).
Proof.
  unfold clean_ok. cbn zeta. destruct (rssi_iterator _) as [[a|]|]; apply _.
Defined.

#[global] Instance gap_ok_dec cbs P `{!∀ s, Decision (P s)} s : Decision (gap_ok cbs P s).
Proof. unfold gap_ok. apply _. Defined.

#[global] Instance connect_ok_dec cbs loopStart s : Decision (connect_ok cbs loopStart s).
Proof. unfold connect_ok. destruct (offered _); unfold live_neighbour; apply _. Defined.

#[global] Instance sleep_ok_dec early wakeups loopStart l s : Decision (sleep_ok early wakeups loopStart l s).
Proof.
  revert early s. induction wakeups as [|cbs wakeups IH]; intros early s; cbn; destruct (_ && _); apply _.
Defined.

#[global] Instance calm_dec cb : Decision (calm cb).
Proof.
  unfold calm, bare. destruct cb as [|h a t o b n|service e|frame []|type []|type e| | | | |]; apply _.
Defined.

#[global] Instance flash_ok_dec cbs loopStart l s : Decision (flash_ok cbs loopStart l s).
Proof. unfold flash_ok. apply _. Defined.

#[global] Instance body_ok_dec r l s : Decision (body_ok r l s).
Proof. unfold body_ok. apply _. Defined.

#[global] Instance rounds_ok_dec rounds l s : Decision (rounds_ok rounds l s).
Proof.
  revert l s. induction rounds as [|r rounds IH]; intros l s; cbn; [apply _|].
  apply and_dec; [apply _|]. apply after_dec. intros a s'. destruct (keep_running s'); [|apply _].
  apply and_dec; [apply _|]. apply after_dec. intros [l' w] s''. apply _.
Defined.

#[global] Instance spin_ok_dec wakeups s : Decision (spin_ok wakeups s).
Proof.
  revert s. induction wakeups as [|cbs wakeups IH]; intros s; cbn; destruct (keep_running s); apply _.
Defined.

#[global] Instance wait_ok_dec P `{!Decision P} wakeups s : Decision (wait_ok P wakeups s).
Proof. unfold wait_ok. case_decide; apply _. Defined.

#[global] Instance main_ok_dec rp w1 w2 rounds s : Decision (main_ok rp w1 w2 rounds s).
Proof. unfold main_ok. apply _. Defined.
End decide.

(** The clock runs a second at each reading; the local address is a real one. *)
#[local] Instance running_env : Env := {
  answer cs c := match c with
                 | time_us_32_call | time_us_64_call => 1000000 * Z.of_nat (length cs)
                 | _ => 0
                 end;
  local_bd_addr := [1; 2; 3; 4; 5; 6];
  alloc := @alloc example_env;
  hash_string := @hash_string example_env;
  size_t_bits := 64;
  ndebug := true;
}.

#[local] Instance running_fresh : AllocFresh running_env := example_env_fresh.

(** The callbacks of [example_callbacks] at the start, an alarm that ends a sleep, the
    round in which it is handled, with a disconnection in a sleep of [sendPackets], an
    alarm while the LED is on and another after the last statement, events between two
    statements, and the exit button. *)
Definition example_rounds : list Round :=
  [mkRound example_callbacks [] [] [] [] [] []; mkRound [] [] [] [] [] [CbSm] [];
   mkRound [] [] [] [[]; [CbGpio SMOKE_SEEN_PIN GPIO_IRQ_EDGE_FALL]] [] [] [[]; []];
   mkRound [] [[CbHci HCI_EVENT_PACKET (HCI_EVENT_DISCONNECTION_COMPLETE 64)]]
     [CbGpio LIFE_CHECK_PIN GPIO_IRQ_EDGE_FALL] []
     [[]; [CbSm; CbHci HCI_EVENT_PACKET HCI_EVENT_other]; []; []; []; []; []; []; []; [CbGpio SMOKE_SEEN_PIN GPIO_IRQ_EDGE_FALL]] [] [];
   mkRound [CbGpio EXIT_GPIO_PIN GPIO_IRQ_EDGE_FALL] [] [] [] [] [] []].


