(* ===== verification/Races.v ===== *)
(** Callbacks that come at the wrong moment: between the choice of a neighbour and its
    use, and between the condition of the inner loop and the sleep. *)

From S2P Require Import Prelude BinaryIO Packets StdContainers BleConnection Advertising Tracker TrackerWf TrackerSafety Sending Connections Protocol Application Callbacks Discovery MainLoop.

(** * Lemmas *)

Section races.
Context {env : Env} `{!AllocFresh env} {iterator : AdIterator} {db : AttDb} {le : LittleEndian}.

(** No pointer leads to a neighbour that is erased. *)
Lemma erased_neighbour t k a c :
  wf t → available_neighbours t !! k = Some (a, c) →
  connection_at (upd_available_neighbours (delete k) t) a = None.
Proof.
  intros Hwf Hk. pose proof (wf_separate t Hwf) as Hs. unfold connection_at.
  assert (addr_of t (ONeighbour k) = Some a) as Ha by (cbn; by rewrite Hk).
  rewrite (node_at_other t _ OConnection (ONeighbour k)) by done.
  rewrite node_at_None; [done|]. intros k' Hk'. cbn in Hk'.
  destruct (decide (k' = k)) as [->|Hne]; [by rewrite lookup_delete_eq in Hk'|].
  rewrite lookup_delete_ne in Hk' by done.
  assert (ONeighbour k' = ONeighbour k) as [= ?]; [|done]. by apply (Hs _ _ a).
Qed.

(** A new connection takes the neighbour with its address away. *)
Lemma reported_dangling h k type t a c :
  wf t → available_neighbours t !! k = Some (a, c) →
  ∃ t', reportConnection h k type t = Ok (tt, t') ∧ connection_at t' a = None.
Proof.
  intros Hwf Hk. eexists. split; [apply reportConnection_run|].
  set (f := λ l : list Call, _). set (n := (fst (connection_node h t), reported h k type t)).
  destruct (wf_set_connection h (reported h k type t) t Hwf) as [Hwf1 _]; [done|].
  destruct (wf_calls _ f Hwf1) as [Hwf2 _]. by apply (erased_neighbour _ k a c).
Qed.

(** A neighbour that is gone is not asked for its address. *)
Lemma connect_dangling a s :
  connection_at (connection_tracker s) a = None → connect_to_neighbour a s = Err DanglingPtr.
Proof.
  intros Hdead. unfold connect_to_neighbour, mbind at 1, M_bind at 1, on_tracker at 1, deref.
  by rewrite (M_bind_ok get _ _ _ _ eq_refl), Hdead.
Qed.

(** The event of a device that connects. *)
Lemma att_connected_run h k type s t' :
  reportConnection h k type (called [hci_connection_for_handle h] (connection_tracker s)) = Ok (tt, t') →
  run_callback (CbAtt HCI_EVENT_PACKET (ATT_EVENT_CONNECTED h k type)) s = Ok (tt, set_tracker t' (busier s)).
Proof.
  intros Hrun. cbn [run_callback]. unfold att_packet_handler.
  rewrite (M_bind_ok count_activity _ _ _ _ eq_refl), decide_False by (by intros []). rewrite app_ext_run.
  unfold on_tracker. change (connection_tracker (in_tracker ?f (set_global_activity ?n s))) with (f (connection_tracker s)).
  by rewrite Hrun.
Qed.
End races.

(** * Properties *)

(** C22: a neighbour that connects by itself between the moment in which the main loop
    picks it and that in which it is used leaves the loop with a pointer to a neighbour
    that has been erased, whose address the loop then reads.  Nothing holds the
    callbacks off meanwhile. *)
Theorem neighbour_connects_first {env : Env} `{!AllocFresh env} {iterator : AdIterator} {db : AttDb}
    {le : LittleEndian} (s : App) h type loopStart k a c l :
  let t := connection_tracker s in
  wf t → may_connect loopStart s = true → offered t = a :: l → available_neighbours t !! k = Some (a, c) →
  loop_connect [CbAtt HCI_EVENT_PACKET (ATT_EVENT_CONNECTED h k type)] loopStart s = Err DanglingPtr.
Proof.
  intros t Hwf Hmay Hoff Hk. unfold loop_connect. rewrite (M_bind_ok get _ _ _ _ eq_refl), Hmay.
  unfold ignore, mbind at 1, M_bind at 1. rewrite connect_first_run. fold t. rewrite Hoff.
  destruct (wf_calls t (λ l, l ++ [time_us_64_call]) Hwf) as [Hwf1 _].
  destruct (wf_calls _ (λ l, l ++ [hci_connection_for_handle h]) Hwf1) as [Hwf2 _].
  destruct (reported_dangling h k type _ a c Hwf2 Hk) as (t' & Hrun & Hdead).
  cbn [for_each]. rewrite M_bind_assoc, (M_bind_ok _ _ _ _ _ (att_connected_run h k type (in_tracker ticked s) t' Hrun)).
  rewrite (M_bind_ok (mret tt) _ _ _ _ eq_refl).
  by rewrite connect_dangling.
Qed.

(** C20: a callback that runs after the inner loop has looked at [global_activity] and
    before [__wfi()] is not noticed: the processor goes to sleep all the same and sleeps on
    until there is another interrupt; only after that does the loop end.  A moment
    earlier, the same callback would have kept it from sleeping.  So an alarm pin may fall
    and nothing be sent. *)
Theorem wakeup_lost {env : Env} {iterator : AdIterator} {db : AttDb} {le : LittleEndian}
    (s s' : App) (l : Locals) loopStart (cbs : list Callback) :
  in_width 16 (global_activity s) → last_activity l = global_activity s →
  due loopStart (lastSleepOrActivity l) two_seconds_in_us = true →
  for_each cbs run_callback (in_tracker (called [time_us_64_call; time_us_64_call]) s) = Ok (tt, s') →
  foldr Z.add 0 (activity_of <$> cbs) mod 65536 ≠ 0 →
  (∀ early wakeups, sleep_loop early wakeups loopStart l false s' = Ok ((false, wakeups), s')) ∧
  sleep_loop [cbs] [] loopStart l false s = Err NoFuel ∧
  ∀ rest, sleep_loop [cbs] ([] :: rest) loopStart l false s
    = Ok ((true, rest), in_tracker (called [wfi; time_us_64_call]) s').
Proof.
  intros Hw Ha Hd Hrun Hsum.
  assert (global_activity s' ≠ last_activity l) as Hne.
  { pose proof (adds_callbacks cbs (in_tracker (called [time_us_64_call; time_us_64_call]) s) tt s' Hw Hrun) as Hg.
    change (global_activity (in_tracker ?f ?x)) with (global_activity x) in Hg. rewrite Hg, Ha. intros Heq. apply Hsum.
    unfold u16, wrap, in_width in *. change (2 ^ 16) with 65536 in *. div_lia. }
  assert (∀ early wakeups slept s2, global_activity s2 = global_activity s' →
    sleep_loop early wakeups loopStart l slept s2 = Ok ((slept, wakeups), s2)) as Hawake.
  { intros early wakeups slept s2 Hs2. destruct wakeups; cbn [sleep_loop];
      rewrite (M_bind_ok get _ _ _ _ eq_refl), bool_decide_eq_false_2 by congruence; by rewrite andb_false_r. }
  split_and!.
  - intros early wakeups. by apply Hawake.
  - cbn [sleep_loop]. by rewrite (M_bind_ok get _ _ _ _ eq_refl), Hd, bool_decide_eq_true_2.
  - intros rest. rewrite sleep_step by done. cbn [hd tl]. rewrite (M_bind_ok _ _ _ _ _ Hrun), app_ext_run.
    cbn [for_each]. rewrite (M_bind_ok (mret tt) _ _ _ _ eq_refl), app_ext_run, Hawake by done.
    do 2 f_equal. unfold in_tracker. cbn [connection_tracker set_tracker]. by rewrite called_called.
Qed.

(** ** Witnesses *)

Lemma neighbour_connects_first_witness :
  @loop_connect example_env example_iterator example_db example_le
    [CbAtt HCI_EVENT_PACKET (ATT_EVENT_CONNECTED 70 [1; 1; 1; 1; 1; 1] 0)] 3000000
    (loop_example [9; 9; 9; 9; 9; 9]) = Err DanglingPtr.
Proof.
  apply (@neighbour_connects_first example_env _ example_iterator example_db example_le
    (loop_example [9; 9; 9; 9; 9; 9]) 70 0 3000000 [1; 1; 1; 1; 1; 1] 50
    (neighbour_at [1; 1; 1; 1; 1; 1]) [60]);
    [apply wf_check_sound; vm_compute; reflexivity|reflexivity|vm_compute; reflexivity|reflexivity].
Defined.

Lemma wakeup_lost_witness :
  let s := loop_example [9; 9; 9; 9; 9; 9] in
  let smoke := [CbGpio SMOKE_SEEN_PIN GPIO_IRQ_EDGE_FALL] in
  let sleep := @sleep_loop example_env example_iterator example_db example_le in
  ∃ s', smoke_seen s' = true ∧
  (∀ early wakeups, sleep early wakeups 3000000 locals_example false s' = Ok ((false, wakeups), s')) ∧
  sleep [smoke] [] 3000000 locals_example false s = Err NoFuel ∧
  ∀ rest, sleep [smoke] ([] :: rest) 3000000 locals_example false s
    = Ok ((true, rest), in_tracker (called [wfi; time_us_64_call]) s').
Proof.
  eexists. split; [|apply (@wakeup_lost example_env example_iterator example_db example_le
    (loop_example [9; 9; 9; 9; 9; 9]) _ locals_example 3000000 [CbGpio SMOKE_SEEN_PIN GPIO_IRQ_EDGE_FALL]);
    [decide_concrete|reflexivity|reflexivity|vm_compute; reflexivity|vm_compute; discriminate]].
  reflexivity.
Defined.
