(* ===== verification/TypedMain.v ===== *)
(** The types of the data of the whole program: the globals and the tracker under the
    callbacks, and the local variables of [main].

    As in Typed, [returns] says what a statement keeps.  What callbacks and statements
    need beyond their types is in the conditions of MainSafety. *)

From S2P Require Import Prelude BinaryIO Packets StdContainers BleConnection Advertising Tracker TrackerWf TrackerSafety Sending Connections Protocol Reports Stored Typed Application Callbacks Discovery Kept Interrupted Pins MainLoop Startup MainSafety.

(** * Lemmas: more operations of the tracker *)

Section operations.
Context {env : Env} `{!AllocFresh env}.

Lemma ty_peer_ptr_do f a :
  (∀ id p, peer_typed id p → peer_typed id (f p)) → returns typed (peer_ptr_do f a) nothing.
Proof.
  intros Hf. unfold peer_ptr_do. ty_get. intros s _. destruct (node_at (peers s) a) as [[id p]|]; [|apply returns_fail].
  apply returns_modify; [|done]. intros t Ht. apply typed_peers; [done|]. intros id' b p'.
  rewrite lookup_node_update. case_decide; [|by apply ty_peers].
  intros Hk. apply fmap_Some in Hk as ([b0 p0] & Hk & [= -> ->]). by eapply Hf, ty_peers.
Qed.

Lemma ty_updateOrStorePeerName an c :
  Announce_ok an → conn_typed c → returns typed (updateOrStorePeerNameFromAnnouncement an c) nothing.
Proof.
  intros (((Hb & Hid & _) & _) & Hname) Hc. unfold updateOrStorePeerNameFromAnnouncement.
  ty_bind ty_checkSender; [done|]. intros peer _.
  ty_bind ty_peer_ptr_do; [by intros id p []; constructor|]. intros [] _.
  ty_bind ty_deref_peer. intros p _. case_decide; [|by apply returns_ret].
  ty_bind ty_peer_ptr_do; [intros id p' []; constructor; [done..|apply Hb]|]. intros [] _.
  by apply ty_setConnectionHandleForPeer, ct_handle.
Qed.

Lemma ty_process con r :
  received_ok r → unflagged r → conn_typed (snd con) → returns typed (process con r) nothing.
Proof.
  intros Hr Hu Hc. destruct r as [m|an|]; cbn [process received_ok unflagged] in *; [| |by apply returns_ret].
  - destruct Hr as (Hm & _). unfold process_message. ty_bind ty_storeMessage; [by split|]. intros stored _.
    destruct stored; [|by apply returns_ret]. ty_bind ty_checkSender; [apply Hm|]. intros peer _.
    apply ty_enqueueBroadcastFrom.
  - destruct Hr as (Ha & _ & Hp & _). unfold process_announce.
    ty_bind ty_updateOrStorePeerName; [done|done|]. intros [] _. ty_bind ty_possiblyUpdate. intros [] _.
    ty_bind ty_storePacket; [split; [apply Ha|by rewrite Hp]|]. intros stored _.
    destruct stored; [|by apply returns_ret]. ty_bind ty_checkSender; [apply Ha|]. intros peer _.
    apply ty_enqueueBroadcastFrom.
Qed.

Lemma ty_processWrite con o b n :
  value_ok o b n → unflagged_value o b n → conn_typed (snd con) → returns typed (processWrite con o b n) nothing.
Proof.
  intros Hv Hu Hc s Hs. destruct (parse_ok o b n Hv) as (r & Hr & Hok). unfold after.
  rewrite processWrite_parse, Hr. apply ty_process; [done| |done|done]. unfold unflagged_value in Hu. by rewrite Hr in Hu.
Qed.

(** ** The clean-up *)

Lemma ty_filterM {A} (p : A → M Tracker bool) l :
  (∀ x, returns typed (p x) nothing) → returns typed (filterM p l) nothing.
Proof.
  intros Hp. induction l as [|x l IH]; cbn [filterM]; [by apply returns_ret|].
  eapply returns_bind; [apply Hp|]. intros b _. eapply returns_bind; [exact IH|]. intros l' _. by apply returns_ret.
Qed.

Lemma ty_not_stale {A} (p : A → M Tracker bool) x :
  returns typed (p x) nothing → returns typed (not_stale p x) nothing.
Proof. intros Hp. unfold not_stale. eapply returns_bind; [exact Hp|]. intros b _. by apply returns_ret. Qed.

Lemma ty_packet_stale now p : returns typed (packet_stale now p) nothing.
Proof. unfold packet_stale. ty_bind ty_deref_packet. intros pk _. by apply returns_ret. Qed.

Lemma ty_packet_connection_stale now e : returns typed (packet_connection_stale now e) nothing.
Proof.
  unfold packet_connection_stale. ty_bind ty_deref_packet. intros pk _.
  destruct (stale _ _); [by apply returns_ret|]. ty_bind ty_deref_connection. intros c _. by apply returns_ret.
Qed.

Lemma ty_cleanup : returns typed cleanupStaleItems nothing.
Proof.
  unfold cleanupStaleItems. ty_bind ty_getTimeMs. intros now _. ty_get. intros s _.
  do 4 (eapply returns_bind; [apply ty_filterM; intros;
      apply ty_not_stale; first [apply ty_packet_connection_stale | apply ty_packet_stale]|];
    intros ? _; eapply returns_bind with (P := nothing); [eauto with typed|]; intros [] _).
  eapply returns_bind with (P := nothing); [apply returns_modify; [intros t Ht|done]|intros [] _].
  2: eapply returns_bind with (P := nothing); [apply returns_modify; [intros t Ht|done]|intros [] _].
  3: eapply returns_bind with (P := nothing); [apply returns_modify; [intros t Ht|done]|intros [] _].
  4: apply returns_modify; [intros t Ht|done].
  - apply typed_connections; [done|]. intros h ? c [Hk _]%lookup_erase_if. by eapply ty_connections.
  - apply typed_neighbours; [done|]. intros k ? c [Hk _]%lookup_erase_if. by eapply ty_neighbours.
  - destruct Ht as [[H1 H2 H3] ? Hm ? ? ? ? ? ? ?]. constructor; try done; [constructor; [done| |done]|].
    + intros k ? m [Hk _]%lookup_erase_if. by eapply H2.
    + intros k ? m [Hk _]%lookup_erase_if. by eapply Hm.
  - destruct Ht as [[H1 H2 H3] ? ? Hp ? ? ? ? ? ?]. constructor; try done; [constructor; [done|done|]|].
    + intros k ? p [Hk _]%lookup_erase_if. by eapply H3.
    + intros k ? p [Hk _]%lookup_erase_if. by eapply Hp.
Qed.
End operations.

(** * Types of the application *)

(** The statics of the advertisement. *)
Record adv_typed (a : Adv) : Prop := {
  at_length : length (adv_data a) = 31%nat;
  at_bytes : bytes_ok (adv_data a);
  at_used : in_width 8 (adv_data_len a);
}.

Record app_typed {env : Env} (s : App) : Prop := {
  ap_tracker : typed (connection_tracker s);
  ap_advertisement : adv_typed (advertisement s);
  ap_activity : in_width 16 (global_activity s);
  ap_disconnection : in_width 32 (disconnection_started_at s);
}.

Record locals_typed (l : Locals) : Prop := {
  lt_sleep : in_width 32 (lastSleepOrActivity l);
  lt_announce : in_width 32 (lastAnnounce l);
  lt_flash : in_width 32 (lastFlash l);
  lt_scan : in_width 32 (lastScan l);
  lt_rssi : in_width 32 (lastRssiUpdate l);
  lt_cleanup : in_width 32 (lastCleanup l);
  lt_activity : in_width 16 (last_activity l);
}.

(** The arguments of a callback have their types. *)
Definition callback_typed (cb : Callback) : Prop :=
  match cb with
  | CbAttWrite h _ _ _ _ _ => in_width 16 h
  | CbGattClient _ e =>
      match e with
      | GATT_EVENT_MTU h mtu => in_width 16 h ∧ in_width 16 mtu
      | GATT_EVENT_SERVICE_QUERY_RESULT h sv =>
          in_width 16 h ∧ in_width 16 (start_group_handle sv) ∧ in_width 16 (end_group_handle sv)
      | GATT_EVENT_CHARACTERISTIC_QUERY_RESULT h ch => in_width 16 h ∧ in_width 16 (value_handle ch)
      | GATT_EVENT_QUERY_COMPLETE h => in_width 16 h
      | GATT_EVENT_other => True
      end
  | CbValueUpdate _ (GATT_EVENT_NOTIFICATION h _ _) => in_width 16 h
  | CbHci _ e =>
      match e with
      | HCI_EVENT_DISCONNECTION_COMPLETE h | GATT_EVENT_CAN_WRITE_WITHOUT_RESPONSE h => in_width 16 h
      | GAP_EVENT_RSSI_MEASUREMENT h rssi => in_width 16 h ∧ in_int8 rssi
      | HCI_SUBEVENT_LE_CONNECTION_COMPLETE h address _ role
      | GAP_SUBEVENT_LE_CONNECTION_COMPLETE h address _ role =>
          in_width 16 h ∧ address_typed address ∧ in_width 8 role
      | GAP_EVENT_ADVERTISING_REPORT address _ rssi _ _ => address_typed address ∧ in_int8 rssi
      | _ => True
      end
  | CbAtt _ (ATT_EVENT_CONNECTED h address _) => in_width 16 h ∧ address_typed address
  | CbAtt _ (ATT_EVENT_DISCONNECTED h) => in_width 16 h
  | _ => True
  end.

Definition round_typed (r : Round) : Prop :=
  Forall callback_typed (before_of r) ∧ Forall (Forall callback_typed) (sends_of r) ∧
  Forall callback_typed (flash_of r) ∧ Forall (Forall callback_typed) (wakeups_of r) ∧
  Forall (Forall callback_typed) (gaps_of r) ∧ Forall callback_typed (neighbour_of r) ∧
  Forall (Forall callback_typed) (early_of r).

Lemma gap_typed r i : Forall (Forall callback_typed) (gaps_of r) → Forall callback_typed (gap_of r i).
Proof.
  intros Hg. unfold gap_of. destruct (gaps_of r !! i) as [cbs|] eqn:Hi; [|constructor].
  by eapply Forall_lookup_1 in Hg.
Qed.

(** * Lemmas: callbacks *)

Section basics.
Context {env : Env} `{!AllocFresh env} {iterator : AdIterator} {db : AttDb} {le : LittleEndian}.

Lemma ap_on_tracker {A} (m : M Tracker A) P : returns typed m P → returns app_typed (on_tracker m) P.
Proof.
  intros Hm s [Ht Ha Hg Hd]. specialize (Hm _ Ht). unfold after, on_tracker in *.
  destruct (m _) as [[a t]|]; [|done]. destruct Hm. by split; [constructor|].
Qed.

Lemma ap_ext c : returns app_typed (app_ext c) nothing.
Proof. apply ap_on_tracker, ty_ext. Qed.

Lemma ap_count : returns app_typed count_activity nothing.
Proof.
  apply returns_modify; [|done]. intros s []. constructor; try done. by apply wrap_in_width.
Qed.

End basics.

(** Goes through a body of the application. *)
Ltac ap_modify := apply returns_modify; [by intros ? []; constructor|exact Logic.I].
Ltac ap_step :=
  match goal with
  | |- returns _ (count_activity ≫= _) _ => eapply returns_bind; [apply ap_count|intros [] _]
  | |- returns _ (app_ext _ ≫= _) _ => eapply returns_bind; [apply ap_ext|intros ? _]
  | |- returns _ (modify _ ≫= _) _ => eapply returns_bind with (P := nothing); [ap_modify|intros [] _]
  | |- returns _ (get ≫= _) _ => eapply returns_bind; [apply returns_get|intros ? ?]
  | |- returns _ (app_ext _) _ => apply ap_ext
  | |- returns _ count_activity _ => apply ap_count
  | |- returns _ (modify _) _ => ap_modify
  | |- returns _ (mret _) _ => by apply returns_ret
  | |- returns _ (let _ := _ in _) _ => cbv zeta
  | |- returns _ (if decide ?P then _ else _) _ => destruct (decide P)
  | |- returns _ (if ?b then _ else _) _ => destruct b
  end.
Ltac ap := repeat ap_step.

(** Binds an operation of the tracker. *)
Ltac ap_bind lem := eapply returns_bind; [eapply ap_on_tracker, lem|].

Section callbacks.
Context {env : Env} `{!AllocFresh env} {iterator : AdIterator} {db : AttDb} {le : LittleEndian}.

(** ** Advertising *)

Lemma store_typed l i b l' :
  length l = 31%nat → bytes_ok l → in_width 8 b → store l i b = Ok l' → length l' = 31%nat ∧ bytes_ok l'.
Proof.
  intros Hl Hb Hi. unfold store. case_decide; [|done]. intros [= <-]. split; [by rewrite length_insert|].
  by apply Forall_insert.
Qed.

Lemma store_bytes_typed l i src l' :
  length l = 31%nat → bytes_ok l → bytes_ok src → store_bytes l i src = Ok l' →
  length l' = 31%nat ∧ bytes_ok l'.
Proof.
  intros Hl Hb Hs. unfold store_bytes. case_decide; [|done]. intros [= <-]. split.
  - rewrite !length_app, length_take, length_drop. lia.
  - apply bytes_app; [by apply Forall_take|]. apply bytes_app; [done|]. by apply Forall_drop.
Qed.

Lemma ad_push b : returns adv_typed (adv_push b) nothing.
Proof.
  unfold adv_push. ty_get. intros a [Hl Hb Hu].
  eapply returns_bind with (P := λ l, length l = 31%nat ∧ bytes_ok l).
  { apply returns_lift. intros l. apply store_typed; [done|done|by apply wrap_in_width]. }
  intros l [? ?] s Hs. split; [|done]. constructor; [done|done|by apply wrap_in_width].
Qed.

Lemma ad_append src : bytes_ok src → returns adv_typed (adv_append src) nothing.
Proof.
  intros Hsrc. unfold adv_append. ty_get. intros a [Hl Hb Hu].
  eapply returns_bind with (P := λ l, length l = 31%nat ∧ bytes_ok l).
  { apply returns_lift. intros l. by apply store_bytes_typed. }
  intros l [? ?] s Hs. split; [|done]. constructor; [done|done|by apply wrap_in_width].
Qed.

Lemma slice_typed l i n l' : bytes_ok l → slice l i n = Ok l' → bytes_ok l'.
Proof.
  intros Hl. unfold slice. case_decide; [|done]. intros [= <-]. by apply Forall_take, Forall_drop.
Qed.

Lemma ad_populate : returns adv_typed populate_advertising_data nothing.
Proof.
  assert (bytes_ok packet_service_uuid_reversed ∧ bytes_ok packet_service_name) as [Hu Hn] by (split; decide_concrete).
  unfold populate_advertising_data.
  do 5 (eapply returns_bind; [apply ad_push|]; intros [] _). eapply returns_bind; [by apply ad_append|]. intros [] _.
  cbn zeta. ty_get. intros a _. cbn zeta. eapply returns_bind; [apply ad_push|]. intros [] _.
  eapply returns_bind with (P := nothing); [case_decide; apply ad_push|]. intros [] _.
  eapply returns_bind with (P := bytes_ok); [apply returns_lift; intros l; by apply slice_typed|].
  intros l Hl. by apply ad_append.
Qed.

Lemma ap_advertise {A} (m : M Adv A) P : returns adv_typed m P → returns app_typed (on_advertisement m) P.
Proof.
  intros Hm s [Ht Ha Hg Hd]. specialize (Hm _ Ha). unfold after, on_advertisement in *.
  destruct (m _) as [[a v]|]; [|done]. destruct Hm. by split; [constructor|].
Qed.

Lemma conn_typed_setMtu v c : in_width 16 v → conn_typed c → conn_typed (setMtu v c).
Proof. intros ? []. by constructor. Qed.
Lemma conn_typed_setValueHandle v c : conn_typed c → conn_typed (setPacketCharacteristicValueHandle v c).
Proof. intros []. constructor; try done. by apply wrap_in_width. Qed.

Lemma ty_at_connection f h :
  in_width 16 h → (∀ c, conn_typed c → conn_typed (f c) ∧ bt_address (f c) = bt_address c) →
  returns typed (at_connection f h) nothing.
Proof.
  intros Hh Hf. unfold at_connection. ty_bind ty_connectionForConnHandle; [done|]. intros [a c] _.
  by apply ty_connection_ptr_do.
Qed.

Lemma ap_scanning : returns app_typed start_scanning_for_local_nodes nothing.
Proof. unfold start_scanning_for_local_nodes. ap. Qed.

(** A written value is fit to be stored, and a notified one is known. *)
Definition taken_ok (s : App) (cb : Callback) : Prop :=
  match cb with
  | CbAttWrite _ a _ o b n => a = VALUE_HANDLE → value_ok o b n ∧ unflagged_value o b n
  | CbValueUpdate _ (GATT_EVENT_NOTIFICATION _ v n) => harmless (connection_tracker s) v n
  | _ => True
  end.

Lemma ap_att_write h a t o b n :
  in_width 16 h → (a = VALUE_HANDLE → value_ok o b n ∧ unflagged_value o b n) →
  returns app_typed (att_write_callback h a t o b n) nothing.
Proof.
  intros Hh Hv. unfold att_write_callback. ap. ap_bind ty_connectionForConnHandle; [done|]. intros [x c] Hc.
  eapply returns_bind with (P := nothing); [|intros [] _; ap].
  case_decide; [|case_decide; [|ap]].
  - eapply returns_bind with (P := nothing); [by apply returns_lift|]. intros v _. cbn zeta.
    ap_bind ty_connection_ptr_do; [intros c' Hc'; split; [by apply conn_typed_setNotificationEnabled|done]|]. intros [] _.
    ap_bind ty_deref_connection. intros c' _. destruct (notification_enabled c'); [|ap].
    apply ap_on_tracker, ty_connection_ptr_do. intros c2 Hc2. split; [by apply conn_typed_setValueHandle|done].
  - destruct Hv; [done|]. by apply ap_on_tracker, ty_processWrite.
Qed.

Lemma ap_client_event service e :
  callback_typed (CbGattClient service e) → returns app_typed (handle_gatt_client_event service e) nothing.
Proof.
  intros He. unfold handle_gatt_client_event. ap. destruct e as [h mtu|h sv|h ch|h|]; cbn in He; [..|ap].
  - apply ap_on_tracker, ty_at_connection; [apply He|]. intros c Hc. split; [apply conn_typed_setMtu; [apply He|done]|done].
  - destruct He as (Hh & Hs & He). ap_bind ty_connectionForConnHandle; [done|]. intros [a c] _. ap.
    apply ap_on_tracker, ty_connection_ptr_do. intros c' []. unfold storeHandlesIfServiceMatches.
    case_decide; by split; [constructor|].
  - destruct He as (Hh & He). ap_bind ty_connectionForConnHandle; [done|]. intros [a c] _. ap.
    apply ap_on_tracker, ty_connection_ptr_do. intros c' Hc'. unfold storeHandlesIfCharacteristicMatches.
    case_decide; [|done]. split; [by apply conn_typed_setValueHandle|done].
  - ap_bind ty_connectionForConnHandle; [done|]. intros [a c] _. ap. ap_bind ty_deref_connection. intros c' _.
    destruct (canAndNeedToDiscoverPacketCharacteristicsQuery service c') as [needed sv]. ap.
Qed.

Lemma ap_hci type e : callback_typed (CbHci type e) → returns app_typed (hci_packet_handler type e) nothing.
Proof.
  intros He. unfold hci_packet_handler. ap; [|..].
  destruct e as [w|h|h r|h ad at' role|ad at' r d len|h ad at' role|h|]; cbn in He.
  - ap. eapply returns_bind with (P := nothing).
    + unfold setup_advertisements. eapply returns_bind; [apply ap_advertise, ad_populate|]. intros [] _. ap.
    + intros [] _. unfold setup_scanning. ap. apply ap_scanning.
  - ap. by apply ap_on_tracker, ty_reportDisconnection.
  - ap. ap_bind ty_connectionForConnHandle; [apply He|]. intros _ _. ap.
  - ap. apply ap_on_tracker, ty_reportConnectionWithRole; apply He.
  - eapply returns_bind with (P := nothing); [by apply returns_lift|]. intros sv _. ap.
    apply ap_on_tracker, ty_addAvailablePeer; apply He.
  - unfold gap_connection_complete. ap. ap_bind ty_reportConnectionWithRole; [apply He..|]. intros [] _. ap.
  - unfold can_write_without_response. ap.
  - ap.
Qed.

Lemma ap_att type e : callback_typed (CbAtt type e) → returns app_typed (att_packet_handler type e) nothing.
Proof.
  intros He. unfold att_packet_handler. ap. destruct e as [h ad at'|h|]; cbn in He; ap.
  - apply ap_on_tracker, ty_reportConnection; apply He.
  - by apply ap_on_tracker, ty_reportDisconnection.
Qed.

(** A notified value that is known changes nothing. *)
Lemma ty_known frame c v n t :
  harmless t v n → typed t → after (processWrite (frame, c) 0 v n) (λ _ t', typed t' ∧ True) t.
Proof.
  intros [_ Hp] Ht. unfold after. rewrite processWrite_parse. destruct (parse 0 v n) as [[m|an|]|]; try done.
  cbn [process]. rewrite process_message_known; [done|]. apply not_eq_None_Some. exact Hp.
Qed.

Lemma ap_callback cb s :
  callback_typed cb → taken_ok s cb → app_typed s → after (run_callback cb) (λ _ s', app_typed s' ∧ True) s.
Proof.
  intros Ht Hok Hs. assert (∀ A (m : M App A) P, returns app_typed m P → returns app_typed (ignore m) nothing) as Hi.
  { intros A m P Hm. eapply returns_bind; [exact Hm|]. intros a _. by apply returns_ret. }
  destruct cb as [a o b n|h a t o b n|service e|frame e|type e|type e| | |pin ev|h|h]; cbn [run_callback].
  - apply (Hi _ _ nothing); [|done]. unfold att_read_callback.
    assert (∀ k : Z, returns app_typed (b' ← lift_result (memset_zero b o (wrap size_t_bits (n - o))); mret (k, b' : list Z)) nothing) as Hk.
    { intros k. eapply returns_bind with (P := nothing); [by apply returns_lift|]. intros ? _. ap. }
    ap; apply Hk.
  - eapply Hi, Hs. by apply ap_att_write.
  - by apply ap_client_event.
  - unfold handle_gatt_client_value_update_event.
    assert (returns app_typed (count_activity;; mret tt) nothing) as Hn by ap.
    destruct e as [h v n| |]; [|by apply Hn|by apply Hn].
    unfold after. rewrite (M_bind_ok count_activity _ _ _ _ eq_refl).
    set (s1 := set_global_activity _ s). assert (app_typed s1) as Hs1.
    { pose proof (ap_count s Hs) as Hc. exact (proj1 Hc). }
    pose proof (ty_connectionForConnHandle h Ht _ (ap_tracker _ Hs1)) as Hc. unfold after in Hc.
    rewrite connectionForConnHandle_run in Hc. destruct Hc as [Hc _].
    rewrite (on_tracker_ok _ _ _ _ _ (connectionForConnHandle_run h (connection_tracker s1))).
    set (s2 := set_tracker _ s1). assert (app_typed s2) as Hs2 by (destruct Hs1; by constructor).
    destruct (handle_node h _) as [x c].
    pose proof (ty_known frame c v n (connection_tracker s2) Hok Hc) as Hk.
    unfold after, on_tracker in *. destruct (processWrite _ _ _ _ _) as [[u t]|]; [|done].
    destruct Hs2. destruct Hk. split; [by constructor|done].
  - by apply ap_hci.
  - by apply ap_att.
  - by apply ap_count.
  - assert (returns app_typed stop_scan_handler nothing) as Hn by (unfold stop_scan_handler; ap). by apply Hn.
  - assert (∀ b f, (∀ s, app_typed s → app_typed (f s)) →
      returns app_typed (if b : bool then modify f else mret tt) nothing) as Hf.
    { intros b f Hf. destruct b; [by apply returns_modify|by apply returns_ret]. }
    clear Hok. revert s Hs. change (returns app_typed (gpio_callback pin ev) nothing). unfold gpio_callback.
    ap_step. cbn zeta. do 2 (eapply returns_bind; [apply Hf; by intros ? []; constructor|]; intros [] _).
    apply Hf. by intros ? []; constructor.
  - by apply (ap_on_tracker _ _ (ty_notifyRawPacket (u16 h) ltac:(by apply (wrap_in_width 16)))).
  - by apply (ap_on_tracker _ _ (ty_writeRawPacket (u16 h) ltac:(by apply (wrap_in_width 16)))).
Qed.

Lemma fine_taken s cb : callback_fine s cb → taken_ok s cb.
Proof.
  intros [Hok Hf]. destruct cb as [| | |frame []| | | | | | |]; try done. by intros _.
Qed.

Lemma calm_taken s cb : calm cb → taken_ok s cb.
Proof. intros [Hb _]. destruct cb as [| | |frame []| | | | | | |]; try done. Qed.

Lemma ap_callbacks cbs : ∀ s,
  Forall callback_typed cbs → callbacks_fine s cbs → app_typed s →
  after (for_each cbs run_callback) (λ _ s', app_typed s' ∧ True) s.
Proof.
  induction cbs as [|cb cbs IH]; intros s Ht Hok Hs; [done|]. apply Forall_cons in Ht as [Hcb Ht].
  destruct Hok as [Hf Hrest]. cbn [for_each]. apply after_bind.
  pose proof (ap_callback cb s Hcb (fine_taken s cb Hf) Hs) as Ha.
  unfold after in Ha, Hrest |- * at 1. destruct (run_callback cb s) as [[u s']|]; [|done]. by apply IH; [| |apply Ha].
Qed.

(** ** The interrupted [sendPackets] *)

(** Callbacks for the sleeps that are left. *)
Definition quiet_typed (during : list (list Callback)) : Prop :=
  Forall (Forall calm) during ∧ Forall (Forall callback_typed) during.

Lemma quiet_typed_head during :
  quiet_typed during → returns app_typed (for_each (default [] (head during)) run_callback) nothing ∧
    quiet_typed (tail during).
Proof.
  intros [Hc Ht]. destruct Hc as [|cbs during Hcbs Hc]; [by split; [apply returns_ret|]|].
  apply Forall_cons in Ht as [Htc Ht]. split; [|done]. apply returns_for_each. intros cb Hin s Hs.
  rewrite Forall_forall in Hcbs, Htc. by apply ap_callback; [apply Htc|apply calm_taken, Hcbs|].
Qed.

Lemma ap_serve p a cbs :
  returns app_typed (for_each cbs run_callback) nothing → returns app_typed (serve p a cbs) nothing.
Proof.
  intros Hc. unfold serve. ap_bind ty_SendPacket. intros _ _. eapply returns_bind; [exact Hc|]. intros [] _.
  apply ap_on_tracker. eauto with typed.
Qed.

Lemma ap_packet_needed p c : returns app_typed (on_tracker (packet_needed p c)) nothing.
Proof.
  apply ap_on_tracker. unfold packet_needed. ty_get. intros s _. ty_bind ty_sent_to_handle; [apply ty_handle_of|].
  intros found _. by apply returns_ret.
Qed.

Lemma ap_targeted during : ∀ todo,
  quiet_typed during → returns app_typed (send_targeted_during during todo) (λ r, quiet_typed (snd r)).
Proof.
  induction during as [|cbs during IHd]; intros todo; induction todo as [|[p c] todo IHt]; intros Hq;
    cbn [send_targeted_during]; try (by apply returns_ret);
    destruct (quiet_typed_head _ Hq) as [Hhd Htl]; (eapply returns_bind; [apply ap_packet_needed|]); intros needed _;
    (destruct needed; [|by apply IHt]); ap_step; (eapply returns_bind; [by apply ap_serve|]); intros [] _; ap_step.
  - eapply returns_bind; [by apply IHt|]. intros [rest d] Hd. by apply returns_ret.
  - eapply returns_bind; [by apply IHd|]. intros [rest d] Hd. by apply returns_ret.
Qed.

Lemma ap_sendable_to p tested k : returns app_typed (on_tracker (sendable_to p tested k)) nothing.
Proof.
  apply ap_on_tracker. unfold sendable_to. ty_get. intros s _.
  destruct (connections s !! k) as [[a c]|]; [|by apply returns_ret].
  destruct (tested || available c); [|by apply returns_ret]. ty_bind ty_search_sendable. intros b _. by apply returns_ret.
Qed.

Lemma ap_broadcast p during : ∀ keys,
  quiet_typed during → returns app_typed (broadcast_during p during keys) (λ r, quiet_typed (snd r)).
Proof.
  induction during as [|cbs during IHd]; intros keys; induction keys as [|[tested k] keys IHk]; intros Hq;
    cbn [broadcast_during]; try (by apply returns_ret);
    destruct (quiet_typed_head _ Hq) as [Hhd Htl]; (eapply returns_bind; [apply ap_sendable_to|]); intros target _;
    (destruct target as [a|]; [|by apply IHk]); (eapply returns_bind; [by apply ap_serve|]); intros [] _; ap_step.
  - eapply returns_bind; [by apply IHk|]. intros [sent d] Hd. by apply returns_ret.
  - eapply returns_bind; [by apply IHd|]. intros [sent d] Hd. by apply returns_ret.
Qed.

Lemma ap_send_broadcast queue first todo : ∀ during,
  quiet_typed during → returns app_typed (send_broadcast_during queue first todo during) nothing.
Proof.
  induction todo as [|p todo IH]; intros during Hq; cbn [send_broadcast_during]; [by apply returns_ret|].
  ap_step. eapply returns_bind; [by apply ap_broadcast|]. intros [sent d] Hd. ap_step.
  case_decide; [|apply returns_fail]. eapply returns_bind; [by apply IH|]. intros [rest d'] _. by apply returns_ret.
Qed.

Lemma ap_sendPackets during : quiet_typed during → returns app_typed (sendPackets_during during) nothing.
Proof.
  intros Hq. unfold sendPackets_during. ap_step. cbn zeta. case_decide; [by apply returns_ret|].
  eapply returns_bind; [by apply ap_targeted|]. intros [targeted d] Hd.
  eapply returns_bind with (P := nothing); [apply ap_on_tracker; eauto with typed|]. intros [] _. ap_step. cbn zeta.
  eapply returns_bind; [by apply ap_send_broadcast|]. intros [broadcast d'] _. apply ap_on_tracker. eauto with typed.
Qed.
End callbacks.

(** * Lemmas: the program *)

Section statements.
Context {env : Env} `{!AllocFresh env} {iterator : AdIterator} {db : AttDb} {le : LittleEndian}.

Lemma ap_time_us_32 : returns app_typed time_us_32 (in_width 32).
Proof. unfold time_us_32. ap_step. by apply returns_ret, wrap_in_width. Qed.

(** A statement that reads the clock at its end. *)
Lemma ap_then_time {A B} (m : M App A) (f : Z → B) (P : B → Prop) :
  returns app_typed m nothing → (∀ t, in_width 32 t → P (f t)) →
  returns app_typed (m;; t ← time_us_32; mret (f t)) P.
Proof.
  intros Hm Hf. eapply returns_bind; [exact Hm|]. intros a _. eapply returns_bind; [apply ap_time_us_32|].
  intros t Ht. by apply returns_ret, Hf.
Qed.

Lemma ap_pins :
  length local_bd_addr = 6%nat → bytes_ok local_bd_addr → returns app_typed handlePinActivity nothing.
Proof.
  intros Hl Hb s Hs. assert (typed (ticked (connection_tracker s))) as Ht
    by (by apply (typed_pointers (connection_tracker s)), ap_tracker).
  destruct (smoke_seen s || life_check s) eqn:Hon.
  - unfold after. rewrite handlePinActivity_made by done.
    assert (returns app_typed (messageIfNew ← on_tracker (storeMessageAndReturnIfNew (alert s));
      match messageIfNew with
      | Some stored => on_tracker (enqueueBroadcastPacket stored);; count_activity
      | None => mret tt
      end) nothing) as Hm.
    { ap_bind ty_storeMessage; [by apply alert_forwardable|]. intros [p|] _; [|by apply returns_ret].
      ap_bind ty_enqueueBroadcast. intros [] _. apply ap_count. }
    apply Hm. destruct Hs. by constructor.
  - apply orb_false_elim in Hon as [Hsm Hlc]. unfold after. rewrite handlePinActivity_idle by done.
    destruct Hs. split; [by constructor|done].
Qed.

Lemma ap_announce loopStart l :
  length local_bd_addr = 6%nat → bytes_ok local_bd_addr → locals_typed l →
  returns app_typed (loop_announce loopStart l) locals_typed.
Proof.
  intros Hl Hb []. unfold loop_announce. destruct (due _ _ _); [|by apply returns_ret].
  apply ap_then_time; [by apply ap_on_tracker, ty_announceToConnections|]. intros t Ht. by constructor.
Qed.

Lemma ap_connect_to neighbour : returns app_typed (connect_to_neighbour neighbour) nothing.
Proof.
  unfold connect_to_neighbour. ap_bind ty_deref_connection. intros c _. cbn zeta.
  eapply returns_bind with (P := nothing); [by apply ap_on_tracker, returns_gets|]. intros [x|] _; [ap|]. ap.
  ap_bind ty_setConnectionStarted. intros [] _. ap.
Qed.

Lemma ap_send during l : quiet_typed during → returns app_typed (loop_send during l) nothing.
Proof.
  intros Hq. unfold loop_send. ap_step. eapply returns_bind with (P := nothing); [|intros [] _; by apply ap_sendPackets].
  case_decide; [|by apply returns_ret]. unfold ignore. eapply returns_bind with (P := nothing); [|intros r _; ap].
  apply ap_on_tracker. unfold printStats. ty_bind ty_time_us_64. intros now _. ty_get. intros s _. by apply returns_ret.
Qed.

Lemma ap_rssi loopStart l : locals_typed l → returns app_typed (loop_rssi loopStart l) locals_typed.
Proof.
  intros []. unfold loop_rssi. destruct (due _ _ _).
  - ap_bind ty_requestNextRssi. intros b _. eapply returns_bind; [apply ap_time_us_32|]. intros t Ht.
    apply returns_ret. by constructor.
  - destruct (rssi_update_in_progress l); [|by apply returns_ret]. ap_bind ty_requestNextRssi. intros b _.
    apply returns_ret. by constructor.
Qed.

Lemma ap_scan loopStart l : locals_typed l → returns app_typed (loop_scan loopStart l) locals_typed.
Proof.
  intros []. unfold loop_scan. destruct (due _ _ _); [|by apply returns_ret].
  apply ap_then_time; [apply ap_scanning|]. intros t Ht. by constructor.
Qed.

Lemma ap_cleanup loopStart l : locals_typed l → returns app_typed (loop_cleanup loopStart l) locals_typed.
Proof.
  intros []. unfold loop_cleanup. destruct (due _ _ _); [|by apply returns_ret].
  apply ap_then_time; [apply ap_on_tracker, ty_cleanup|]. intros t Ht. by constructor.
Qed.

Lemma ap_rest slept l : locals_typed l → returns app_typed (loop_rest slept l) locals_typed.
Proof.
  intros Hl. unfold loop_rest. ap_step. eapply returns_bind with (P := locals_typed).
  - destruct (_ || _); [|by apply returns_ret]. eapply returns_bind; [apply ap_time_us_32|]. intros t Ht.
    eapply returns_bind; [apply returns_get|]. intros x Hx. apply returns_ret. destruct Hl, Hx. by constructor.
  - intros l' Hl'. eapply returns_bind with (P := nothing); [|intros [] _; by apply returns_ret].
    unfold ignore. destruct slept; ap.
Qed.

Lemma ap_main_locals : returns app_typed main_locals locals_typed.
Proof.
  unfold main_locals. do 5 (eapply returns_bind; [apply ap_time_us_32|]; intros ? ?).
  eapply returns_bind; [apply returns_get|]. intros s Hs. apply returns_ret. destruct Hs.
  constructor; cbn; try done; try by apply wrap_in_width.
Qed.

(** ** Statements with callbacks *)

(** One statement, with what is known of its result, what is asked for after it, and
    the rest. *)
Lemma after_step {A B} (m : M App A) (k : A → M App B) (T : A → Prop) (P : A → App → Prop) (Q : B → App → Prop) s :
  after m (λ a s', app_typed s' ∧ T a) s → after m P s →
  (∀ a s', app_typed s' → T a → P a s' → after (k a) Q s') → after (m ≫= k) Q s.
Proof.
  intros Hm Hp Hk. apply after_bind. unfold after in Hm, Hp |- * at 1. destruct (m s) as [[a s']|]; [|done].
  destruct Hm. by apply Hk.
Qed.

Lemma after_and {A} (m : M App A) (P Q : A → App → Prop) s :
  after m P s → after m Q s → after m (λ a s', P a s' ∧ Q a s') s.
Proof. unfold after. by destruct (m s) as [[]|]. Qed.

Lemma after_ext {B} c (k : Z → M App B) Q s :
  after (k (answer (calls (connection_tracker s)) c)) Q (in_tracker (called [c]) s) → after (app_ext c ≫= k) Q s.
Proof. done. Qed.

Lemma ap_calls cs s : app_typed s → app_typed (in_tracker (called cs) s).
Proof. intros [Ht ? ? ?]. constructor; try done. by apply (typed_pointers (connection_tracker s)). Qed.

Lemma ap_flash cbs loopStart l s :
  Forall callback_typed cbs → flash_ok cbs loopStart l s → app_typed s → locals_typed l →
  after (loop_flash cbs loopStart l) (λ l' s', app_typed s' ∧ locals_typed l') s.
Proof.
  intros Ht Hok Hs Hl. unfold loop_flash, flash_ok in *. destruct (due _ _ _); [|done]. specialize (Hok eq_refl).
  do 2 apply after_ext. rewrite calls_run. set (s1 := in_tracker _ s). assert (app_typed s1) as Hs1 by (by apply ap_calls).
  apply after_bind. eapply after_mono; [by apply ap_callbacks|]. intros [] s2 [Hs2 _].
  assert (returns app_typed (app_ext (cyw43_arch_gpio_put false);; t ← time_us_32; mret (set_lastFlash t l)) locals_typed)
    as Hm by (apply ap_then_time; [apply ap_ext|]; intros t Ht'; destruct Hl; by constructor).
  by apply Hm.
Qed.

Lemma ap_gap {B} cbs (P : App → Prop) (k : unit → M App B) Q s :
  Forall callback_typed cbs → gap_ok cbs P s → app_typed s →
  (∀ s', app_typed s' → P s' → after (k tt) Q s') → after (for_each cbs run_callback ≫= k) Q s.
Proof.
  intros Ht [Hcbs Ha] Hs Hk. eapply after_step; [by apply ap_callbacks|exact Ha|]. intros [] s' Hs' _. by apply Hk.
Qed.

Lemma ap_connect cbs loopStart s :
  Forall callback_typed cbs → connect_ok cbs loopStart s → app_typed s →
  after (loop_connect cbs loopStart) (λ _ s', app_typed s' ∧ True) s.
Proof.
  intros Ht Hok Hs. unfold loop_connect, connect_ok in *. unfold after. rewrite (M_bind_ok get _ _ _ _ eq_refl).
  destruct (may_connect loopStart s); [|done]. specialize (Hok eq_refl). unfold ignore.
  apply (after_bind (connect_to_first_neighbour cbs)). unfold after at 1. rewrite connect_first_run.
  eapply ap_gap; [done|exact Hok|by apply (ap_calls [time_us_64_call])|]. clear Hok. intros s1 Hs1 _.
  destruct (offered _) as [|a l]; [done|]. eapply after_mono; [by apply ap_connect_to|]. by intros b s2 [? _].
Qed.

Lemma ap_sleep wakeups loopStart l : ∀ early slept s,
  Forall (Forall callback_typed) early → Forall (Forall callback_typed) wakeups →
  sleep_ok early wakeups loopStart l s → app_typed s →
  after (sleep_loop early wakeups loopStart l slept) (λ _ s', app_typed s' ∧ True) s.
Proof.
  induction wakeups as [|cbs wakeups IH]; intros early slept s He Ht Hok Hs; cbn [sleep_ok] in Hok.
  - unfold after. cbn [sleep_loop]. rewrite (M_bind_ok get _ _ _ _ eq_refl). by destruct (_ && _).
  - apply Forall_cons in Ht as [Hcbs Ht].
    destruct (due loopStart (lastSleepOrActivity l) two_seconds_in_us &&
      bool_decide (last_activity l = global_activity s)) eqn:Hd.
    + apply andb_prop in Hd as [Hd Ha%bool_decide_eq_true].
      assert (Forall callback_typed (hd [] early) ∧ Forall (Forall callback_typed) (tl early)) as [He1 He2].
      { destruct He; split; by try constructor. }
      unfold after. rewrite sleep_step by done.
      eapply ap_gap; [exact He1|exact Hok|by apply ap_calls|]. intros s1 Hs1 Hok1.
      apply after_ext. eapply ap_gap; [done|exact Hok1|by apply ap_calls|]. intros s2 Hs2 Hok2.
      apply after_ext. by apply IH; [| | |apply ap_calls].
    + unfold after. cbn [sleep_loop]. by rewrite (M_bind_ok get _ _ _ _ eq_refl), Hd.
Qed.

(** ** The loop *)

Ltac typed_gap s :=
  cbv beta in *; eapply ap_gap; [by apply gap_typed|eassumption|eassumption|];
  match goal with Hok : gap_ok _ _ _ |- _ => clear Hok end; intros s ? Hok; cbv beta in *.

Ltac next_typed lem :=
  cbv beta in *; eapply after_step; [apply lem; eassumption|eassumption|].

Lemma body_typed r l s :
  length local_bd_addr = 6%nat → bytes_ok local_bd_addr → round_typed r →
  app_typed s → locals_typed l → body_ok r l s →
  after (loop_body r l) (λ '(l', _) s', app_typed s' ∧ locals_typed l') s.
Proof.
  intros Hl Hb (_ & Hsends & Hflash & Hwake & Hgaps & Hnext & Hearly) Hs Hlt [Hcalm Hok]. unfold loop_body.
  assert (quiet_typed (sends_of r)) as Hq by done.
  next_typed ap_time_us_32. clear Hok. intros loopStart s1 Hs1 _ Hok. typed_gap g1.
  next_typed ap_pins. clear Hok. intros [] s2 Hs2 _ Hok. typed_gap g2.
  next_typed ap_announce. clear Hok. intros l1 s3 Hs3 Hl1 Hok. typed_gap g3. destruct Hok as [Hconnect Hok].
  next_typed ap_connect. clear Hok. intros [] s4 Hs4 _ Hok. typed_gap g4.
  next_typed ap_send. clear Hok. intros [] s5 Hs5 _ Hok. typed_gap g5. destruct Hok as [Hfl Hok].
  next_typed ap_flash. clear Hok. intros l2 s6 Hs6 Hl2 Hok. typed_gap g6. destruct Hok as [_ Hok].
  next_typed ap_rssi. clear Hok. intros l3 s7 Hs7 Hl3 Hok. typed_gap g7.
  next_typed ap_scan. clear Hok. intros l4 s8 Hs8 Hl4 Hok. typed_gap g8. destruct Hok as [_ Hok].
  next_typed ap_cleanup. clear Hok. intros l5 s9 Hs9 Hl5 Hok. typed_gap g9. destruct Hok as [Hsleep Hok].
  next_typed ap_sleep. clear Hok. intros [slept rest] s10 Hs10 _ Hok. typed_gap g10.
  apply after_bind. eapply after_mono; [by apply (ap_rest slept l5)|]. intros l6 s11 [Hs11 Hl6]. done.
Qed.

Lemma rounds_typed rounds : ∀ l s,
  length local_bd_addr = 6%nat → bytes_ok local_bd_addr → Forall round_typed rounds →
  app_typed s → locals_typed l → rounds_ok rounds l s →
  after (main_loop rounds l) (λ l' s', app_typed s' ∧ locals_typed l') s.
Proof.
  induction rounds as [|r rounds IH]; intros l s Hl Hb Hr Hs Hlt Hok; [done|].
  apply Forall_cons in Hr as [Hr Hrs]. destruct Hok as [Hcbs Hok]. cbn [main_loop].
  eapply after_step; [apply ap_callbacks; [apply Hr|exact Hcbs|done]|exact Hok|]. intros [] s1 Hs1 _ Hok1.
  apply after_bind. change (after (if keep_running s1 then '(l', _) ← loop_body r l; main_loop rounds l' else mret l)
    (λ l' s', app_typed s' ∧ locals_typed l') s1).
  destruct (keep_running s1); [|done]. destruct Hok1 as [Hbody Hrest].
  pose proof (body_typed r l s1 Hl Hb Hr Hs1 Hlt Hbody) as Ht. apply after_bind. unfold after in Ht, Hrest |- * at 1.
  destruct (loop_body r l s1) as [[[l' w] s2]|]; [|done]. destruct Ht. by apply IH.
Qed.

(** ** The start-up *)

Lemma ap_spin wakeups : ∀ s,
  Forall (Forall callback_typed) wakeups → spin_ok wakeups s → app_typed s →
  after (spin wakeups) (λ _ s', app_typed s' ∧ True) s.
Proof.
  induction wakeups as [|cbs wakeups IH]; intros s Ht Hok Hs; cbn [spin_ok] in Hok;
    unfold after; cbn [spin]; rewrite (M_bind_ok get _ _ _ _ eq_refl); destruct (keep_running s); try done.
  apply Forall_cons in Ht as [Hcbs Ht]. destruct Hok as [Hfine Hrest]. rewrite call_run.
  set (s1 := in_tracker _ s) in *. assert (app_typed s1) as Hs1 by (by apply ap_calls).
  apply (after_step (for_each cbs run_callback) (λ _, spin wakeups) (λ _, True) (λ _, spin_ok wakeups)
    (λ _ s', app_typed s' ∧ True)); [by apply ap_callbacks|exact Hrest|]. intros [] s2 Hs2 _ Hok2. by apply IH.
Qed.

Lemma ap_wait P `{!Decision P} wakeups s :
  Forall (Forall callback_typed) wakeups → wait_ok P wakeups s → app_typed s →
  after (if decide P then spin wakeups else mret tt) (λ _ s', app_typed s' ∧ True) s.
Proof. intros Ht Hok Hs. unfold wait_ok in Hok. case_decide; [by apply ap_spin|done]. Qed.

Lemma initialise_typed rp wakeups1 wakeups2 rounds s :
  Forall (Forall callback_typed) wakeups1 → Forall (Forall callback_typed) wakeups2 →
  app_typed s → main_ok rp wakeups1 wakeups2 rounds s →
  after (initialise rp wakeups1 wakeups2) (λ _ s', app_typed s' ∧ after main_locals (rounds_ok rounds) s') s.
Proof.
  intros Hw1 Hw2 Hs Hok. unfold main_ok, initialise in *.
  eapply after_step with (T := nothing); [|exact Hok|].
  { unfold after. rewrite init_hardware_run. split; [by do 2 apply ap_calls|done]. }
  clear Hok s Hs. intros failed s Hs _ [Hwait Hok]. eapply after_step; [by apply ap_wait|exact Hok|].
  clear Hok Hwait s Hs. intros [] s Hs _ Hok. eapply after_step with (T := nothing); [|exact Hok|].
  { unfold after. rewrite init_stack_run. split; [by do 2 apply ap_calls|done]. }
  clear Hok s Hs. intros err s Hs _ [Hwait Hok].
  pose proof (ap_wait (err ≠ 0) wakeups2 s Hw2 Hwait Hs) as Ha.
  eapply after_mono; [exact (after_and _ _ _ _ Ha Hok)|]. by intros [] s' [[? _] ?].
Qed.

Lemma main_after rp wakeups1 wakeups2 rounds s :
  length local_bd_addr = 6%nat → bytes_ok local_bd_addr →
  Forall (Forall callback_typed) wakeups1 → Forall (Forall callback_typed) wakeups2 → Forall round_typed rounds →
  app_typed s → main_ok rp wakeups1 wakeups2 rounds s →
  after (main rp wakeups1 wakeups2 rounds) (λ l s', app_typed s' ∧ locals_typed l) s.
Proof.
  intros Hl Hb Hw1 Hw2 Hr Hs Hok. unfold main. apply after_bind.
  eapply after_mono; [by eapply initialise_typed|]. intros [] s1 [Hs1 Hok1].
  eapply after_step; [apply ap_main_locals, Hs1|exact Hok1|]. intros l s2 Hs2 Hl2 Hok2. by apply rounds_typed.
Qed.
End statements.

Lemma app_typed_new {env : Env} a : app_typed (App_new (Tracker_new a)).
Proof. constructor; [apply typed_new|constructor|..]; cbn; decide_concrete || done. Qed.

(** * Properties *)

(** C8: the whole program keeps its types: whatever runs beside it with arguments of their
    types, under the conditions of the safety of the program, every number of the globals, the
    tracker and the local variables fits its C++ type at the end, the advertisement has its
    31 bytes, all strings and buffers hold bytes, what is stored can be sent, and every
    peer, message, packet and neighbour is under its own key, as is every connection that
    is connected. *)
Theorem main_typed {env : Env} `{!AllocFresh env} {iterator : AdIterator} `{!AdIteratorSpec iterator}
    {db : AttDb} {le : LittleEndian} `{!LittleEndianSpec le}
    (announce_address : Addr) (pico_rp2040 : bool) (wakeups1 wakeups2 : list (list Callback))
    (rounds : list Round) :
  length local_bd_addr = 6%nat → bytes_ok local_bd_addr → ndebug = true →
  Forall (Forall callback_typed) wakeups1 → Forall (Forall callback_typed) wakeups2 → Forall round_typed rounds →
  let s := App_new (Tracker_new announce_address) in
  main_ok pico_rp2040 wakeups1 wakeups2 rounds s →
  safe (main pico_rp2040 wakeups1 wakeups2 rounds) (λ l s', main_inv l s' ∧ app_typed s' ∧ locals_typed l) s.
Proof.
  intros Hl Hb Hnd Hw1 Hw2 Hr s Hok. eapply safe_after.
  - apply (main_runs _ _ _ _ (mkLocals 0 0 0 0 0 false 0 0)); [done..|by apply main_inv_new|done].
  - apply main_after; [done..|apply app_typed_new|done].
Qed.

(** ** Witness *)

#[global] Instance in_int8_dec z : Decision (in_int8 z).
Proof. unfold in_int8. apply _. Defined.

#[global] Instance callback_typed_dec cb : Decision (callback_typed cb).
Proof.
  destruct cb as [| |service []|frame []|type []|type []| | | | |]; cbn; apply _.
Defined.

#[global] Instance round_typed_dec r : Decision (round_typed r).
Proof. unfold round_typed. apply _. Defined.

Lemma main_typed_witness :
  safe (@main running_env example_iterator example_db example_le true [] [] example_rounds)
    (λ l s', main_inv l s' ∧ @app_typed running_env s' ∧ locals_typed l) (App_new (Tracker_new 1)).
Proof.
  apply (@main_typed running_env running_fresh example_iterator _ example_db example_le _);
    [reflexivity|decide_concrete|reflexivity|constructor|constructor|decide_concrete|decide_concrete].
Defined.
